(* ===== verification/_CoqProject ===== *)
-Q . S2P
Prelude.v
Text.v
Log.v
Tcbor.v
TcborFacts.v
CborSpec.v
CborTree.v
TcborTheorems.v
SuitTypes.v
SuitParser.v
SuitParserFacts.v
SuitSpec.v
SuitAuth.v
SuitAuthFacts.v
SuitContext.v
SuitContextFacts.v
SuitTheorems.v
SuitRunner.v
SuitRunnerFacts.v
SuitRunnerTheorems.v
RunInstall.v
ExampleUtil.v
Dump.v
DumpFacts.v
DumpTheorems.v
TeepMessage.v
TeepMessageFacts.v
TeepMessageTheorems.v
TeepEncoder.v
Tools.v
ToolsTheorems.v
Agent.v
AgentFacts.v
AgentTheorems.v
AgentIdTheorems.v
Rng.v
AgentTaskTheorems.v
AgentSafety.v
AgentCommands.v
AgentUpdate.v
Store.v
StoreTheorems.v
TeeClient.v
TeeClientFacts.v
TeeClientTheorems.v
SgxHost.v
HelloTc.v
AgentCall.v
ClientLaws.v
Broker.v
Protocol.v
BrokerFacts.v
BrokerTheorems.v
Cose.v
CoseTheorems.v
CoseAuth.v
Http.v
HttpFacts.v
HttpTheorems.v
BrokerHttp.v
Keystone.v
KeystoneHost.v
KeystoneFacts.v
KeystoneTheorems.v
Sgx.v
SgxFacts.v
SgxTheorems.v
Clients.v
