(* ===== verification/Prelude.v ===== *)
(** * Verification of the TEEP device

    This library models the TEEP device: a TEEP agent that runs in a trusted
    execution environment, receives messages of a Trusted Application Manager
    (TAM), and installs the components that signed SUIT manifests describe; and the
    untrusted broker that connects it to the TAM.  What the agent handles comes
    from the network or from the broker, so the theorems are about arbitrary
    input: that parsers stay in their buffers, that only authenticated manifests
    are executed, that every loop ends, and what each part computes.

    ** How the program is put together

    - The broker ([teep-broker-app/teep-broker.c]) sets the options of an agent
      session, asks it for the next task, performs the task over HTTP
      ([http-lws.c]), reports the answer, and repeats this until the task is to
      finish.
    - It reaches the agent through the TEE client library.  Each build has its own:
      [teec-pc.c] calls the agent directly; in [teec-keystone.cpp] the commands go
      through a queue to the thread of an enclave, whose main loop is [eapp_entry]
      of [teep-agent-ta.c]; in [teec-sgx.cpp] they go to entry points in the
      enclave at the end of the same file.
    - The agent ([teep-agent-ta/]) answers these commands.  A message of the TAM
      is parsed by [lib/teep/libteep.c], which reads CBOR with QCBOR.  The
      envelopes of an update are authenticated and added to a SUIT context
      ([lib/suit/lib/suit-parser.c], [suit-context.c]), and the SUIT runner
      ([suit.c]) executes the install sequence of the root manifest.  The runner
      calls back into the agent to fetch and to store components ([ta-store.c]); a
      fetch suspends it until the broker has downloaded the component.
    - The SUIT parts read CBOR with the reader of [lib/cbor/teecbor.c] and
      [lib/include/teecbor.h] in place, without copying.  Signatures and digests
      go through t_cose and [lib/cose/t_cose_mbedtls_crypto.c] to Mbed TLS.

    ** Files

    The model of a component and its proofs are in separate files; the files
    that model a component read like the source and use its names.

    - Prelude: outcomes of C code, machine integers, loops with fuel, lists.
      Text: numbers and strings as they are printed.  Log models [lib/log/teelog.c]
      with the macros of [teelog.h].
    - Tcbor models [teecbor.c] and [teecbor.h].  A range is a buffer with two
      offsets, and every access is checked.  TcborFacts: memory safety.
      CborSpec: data items of RFC 8949 as trees with their encodings.  CborTree:
      what each reader does in front of an encoded item.  TcborTheorems.
    - SuitTypes models [teesuit.h] and [teesuit-constant.h]; SuitParser,
      [suit-parser.c] without authentication; SuitAuth, the authentication in
      the same file; SuitContext, [suit-context.c].  SuitParserFacts: safety for
      arbitrary bytes.  SuitSpec: reference functions on CBOR trees, which the
      parser is shown to implement.  SuitAuthFacts, SuitContextFacts,
      SuitTheorems.
    - SuitRunner models [suit.c]: [suit_runner] is the struct of that name and
      [run_iteration] one round of [suit_runner_run].  SuitRunnerFacts: the
      invariant and the measure.  SuitRunnerTheorems.
    - The examples of [lib/suit/example/]: ExampleUtil models [example-util.cpp],
      RunInstall [run-install.cpp], Dump [dump.cpp].  DumpFacts, DumpTheorems.
    - TeepMessage models the parser of [libteep.c] and [qcbor-ext.c] with an
      explicit heap.  TeepMessageFacts: the books of the live blocks.
      TeepMessageTheorems.  TeepEncoder models the encoder of [libteep.c] as the
      sequence of its calls of QCBOR.
    - Tools models [teep-agent-ta/tools.c].  ToolsTheorems.
    - Agent models [teep-agent-ta.c]: [teep_agent_session] is the struct of that
      name and [agent_globals] the heap and the stored envelopes.  AgentFacts:
      the invariant of a session and the order of its states.  AgentTheorems
      (authentication, protocol), AgentTaskTheorems (options, tasks, messages) and
      AgentIdTheorems (names of components).  AgentSafety and AgentCommands: every
      command returns and keeps the instance well formed.  AgentUpdate: the outcome of
      an update.
    - Rng models [lib/suit/lib/teerng.c] on each platform.
    - Store models [ta-store.c]; StoreTheorems.
    - TeeClient models [teec-pc.c] and states, as the class [client_api], what the
      broker uses of a client library.  TeeClientFacts, TeeClientTheorems.
      AgentCall: a command as one call, against which the builds are compared.
      ClientLaws: the contract of [client_api].  SgxHost models the part of
      [teec-sgx.cpp] that creates the enclave; HelloTc, the sample of [hello-tc/].
    - Keystone models [teec-keystone.cpp] and [eapp_entry], with a step relation
      for the two threads; Sgx, [teec-sgx.cpp] and the entry points of the
      enclave.  KeystoneFacts, KeystoneTheorems, SgxFacts, SgxTheorems.  Clients:
      both keep the contract.  KeystoneHost models the start of the enclave and of
      its thread.
    - Broker models [teep-broker.c] over [client_api] and [http_api].  Protocol:
      the abstract machine.  BrokerFacts, BrokerTheorems.
    - Http models [http-lws.c] over libwebsockets; HttpFacts, HttpTheorems.
      BrokerHttp: it keeps the contract of [http_api].
    - Cose models [t_cose_mbedtls_crypto.c]; CoseTheorems.  CoseAuth joins the
      authentication of SuitAuth with it.

    ** What the theorems show

    - CBOR reader: no reader leaves its range, a failing one rolls back, and an
      item stored lies in the range; [tcbor_primitive_skip] accepts exactly
      sequences of well-formed items; the typed readers accept exactly the
      encodings of their type, with the wrap-around of [tcbor_read_int] and the
      overflow of [tcbor_read_map] made explicit.
    - SUIT parser and authentication: safety for arbitrary bytes and for slots
      left by earlier failures; agreement with the reference functions on
      encoded input; an accepted envelope carries a block that verified with the
      key over its digest, and the digest is that of the manifest.  With the
      functions the program is linked with, the block is an ECDSA signature that
      Mbed TLS verifies.
    - SUIT runner: every reachable state runs to an error, a suspension or the
      end, without undefined behaviour and with a stack of at most two; the
      effect of the parameters and of the fetch directive; the common sequence
      calls nothing outside.
    - Examples: [run_install] ends for all files; [dump] prints what is in a file or
      fails, except for the severed members it reads as they are, and the printed
      bytes can be read back.
    - TEEP messages: parsing is free of undefined behaviour whatever the decoder
      yields and whichever allocations fail, and leaks nothing unless an option
      is repeated; options that do not apply.
    - Agent: what a session executes comes from an authenticated envelope, in
      every state that commands in any order can reach; the protocol only moves
      forward; every command returns and keeps the instance well formed; the next
      task is always found unless the runner meets a severed member or the URI of
      a component is too long; the outcome of an update; options, messages and file
      names.
    - Installation: what is in the files after an installation on each platform, and
      what can be if a call fails that the code does not look at.
    - Client libraries: copying parameters is a round trip without leaks; a
      command on Keystone or SGX has the result, the outputs and the effect it has
      on PC; the two threads of Keystone, in any interleaving, make a sequence of
      such calls, and each returns, but without an enclave a command is waited for
      forever; for any pointers of a host that keeps the sizes still, the entry point
      of SGX returns and stays outside of the enclave, or it meets a null or misaligned
      pointer that its checks let pass.
    - Broker: with any client library and any HTTP client that keep their contracts,
      the requests of a complete exchange are a run of the abstract protocol, every
      round is defined, and the exchange ends if the TAM has finitely many updates
      that are not accepted.
    - HTTP client: a request ends, stays in the buffer of the caller, and what it
      answers is what was received.
    - Adapter of t_cose: verification accepts exactly the valid signatures; hashes
      are the digest of the data in order; what was signed does not verify.
    - Messages about errors are printed as they are meant unless the name of the file
      and the function are too long; what the programs of the sample do when an
      enclave cannot be created.
    - Some theorems pin down behaviour of the source that is not intended, for
      example an install sequence kept from a rejected manifest, parameters
      shared by components, a null dereference after an empty update, a block
      freed twice after a failed allocation, a signature with its first half twice,
      or a check that a host can get around.  They say when it happens.

    ** Conventions

    - C integers are elements of [Z], with wrap-around written out where the
      code computes with them.  Undefined behaviour is the outcome [Ub].
    - Loops have fuel.  A loop over a CBOR context consumes at least one byte in
      a round, so [context_fuel], one more than the bytes that are left, is
      enough, and likewise for [tcbor_primitive_skip] and for the decoder of
      [parse_teep_message]; the search for the next task takes at most four
      rounds.  For the runner [suit_runner_total] gives the fuel of each state,
      and [runner_fuel] is enough for all.  The loops over the pieces of a
      parameter take the size of the parameter as fuel, the loop of the HTTP client
      the patience of libwebsockets, and [broker_main_terminates] states the
      rounds of the broker.  Running out is the outcome [NoFuel], which the
      safety theorems exclude.
    - What the program calls but does not contain is a class, and the behaviour
      relied on is a class of laws beside it: [crypto_api] (verification and
      digests of t_cose), [t_cose_api] (t_cose over the functions of its adapter),
      [mbedtls_api], [qcbor] and [qcbor_encoder], [lws_api] (libwebsockets),
      [allocator] (which allocations fail), [store_api] (files and the secure
      storage), [entropy_api], [sgx_sdk], [host_memory] (what the pointers of an SGX
      host lead to) and [ocalls] (the calls of a Keystone enclave to its host).  The
      witnesses instantiate each class their theorems use with functions.
    - Where two parts of the program meet, the class has instances in the program:
      [suit_callbacks] (the agent, and the example), [client_api] (the three
      builds), [http_api] (the HTTP client), [ocalls] (the queue), [host_memory]
      (the operation of the client library), [crypto_api] (t_cose with the adapter).
    - A range carries the bytes it points into.  For the ranges of a SUIT context
      this is adequate because an instance of the agent has one session (its
      flags do not make it a single instance): envelopes are only stored in the
      state that waits for an update, and [agent_update_outcome] and
      [agent_protocol_order] show that a session leaves that state for good once
      a context refers to them.

    ** What is not modelled

    - Code that is not in the repository: t_cose, QCBOR, Mbed TLS and libwebsockets
      are submodules or libraries and stay classes with laws; so do the SDKs, the
      code they generate around the calls into and out of an enclave, and the
      OP-TEE client library.
    - The headers of [platform/], which are declarations of GlobalPlatform; the
      constants in use are defined where they are used.
    - [suit_test.cpp], which tests Mbed TLS and t_cose with one key.
    - Code under [#if 0] in [suit-parser.c] and [http-lws.c], and what is written to
      the log of libwebsockets and to the standard error.

    ** What could follow

    A specification of t_cose itself would turn the laws of [t_cose_laws] into
    lemmas.  The theorem on the entry point of SGX supposes that sizes stay as they
    are; the lemma [size_changed_after_check] shows why, and the same statement
    without the supposition needs the sizes to be copied first, in the source. *)

From stdpp Require Export base numbers list option.
From Stdlib Require Export ZArith Lia.
From Stdlib Require Export Init.Byte.
From Stdlib Require Strings.Byte.
From Stdlib Require Strings.String.

#[export] Set Default Goal Selector "!".
#[export] Set Warnings "-notation-overridden".

(** ** Outcomes of C code

    [Ub] is undefined behaviour (an out-of-bounds or null access), [NoFuel] a
    loop that did not finish within the fuel of the model, and [Done a] normal
    completion.  The safety theorems show where the first two cannot occur, and
    some others when the first does. *)

Inductive outcome (A : Type) : Type :=
  | Ub
  | NoFuel
  | Done (a : A).
Arguments Ub {A}.
Arguments NoFuel {A}.
Arguments Done {A} a.

#[export] Instance outcome_ret : MRet outcome := @Done.
#[export] Instance outcome_bind : MBind outcome := fun A B f m =>
  match m with Ub => Ub | NoFuel => NoFuel | Done a => f a end.

(** Injectivity without a look at the values. *)
Lemma done_value {A} (a a' : A) : Done a = Done a' → a = a'.
Proof. by intros [= ->]. Qed.

Lemma done_pair {A B} (a a' : A) (b b' : B) : Done (a, b) = Done (a', b') → a = a' ∧ b = b'.
Proof. by intros [= -> ->]. Qed.

#[export] Instance outcome_fmap : FMap outcome := fun A B f m =>
  match m with Ub => Ub | NoFuel => NoFuel | Done a => Done (f a) end.

Declare Scope c_scope.
Delimit Scope c_scope with c.

(** [or_else m f k] is the C idiom [if (!m(&c, &x)) { f } k]: a call that
    returns [true] with its out-parameter or [false] without, and updates the
    object [c] in both cases. *)
Definition or_else {C A R : Type} (m : outcome (C * option A))
    (fail : C → outcome R) (ok : C → A → outcome R) : outcome R :=
  match m with
  | Ub => Ub
  | NoFuel => NoFuel
  | Done (c, Some a) => ok c a
  | Done (c, None) => fail c
  end.

Notation "'try' c , x ':=' m 'otherwise' f ';;' k" :=
  (or_else m (fun c => f) (fun c x => k))
  (at level 100, c name, x name, m at level 99, f at level 99, k at level 200,
   right associativity,
   format "'[v' 'try'  c ,  x  ':='  m  'otherwise'  f  ';;' '/' k ']'") : c_scope.

(** [require b otherwise f ;; k] is [if (!b) { f } k]. *)
Notation "'require' b 'otherwise' f ';;' k" :=
  (if b then k else f)
  (at level 100, b at level 99, f at level 99, k at level 200, right associativity,
   only parsing) : c_scope.

#[global] Open Scope c_scope.

(** ** Total-correctness postconditions *)

Definition wp {A} (m : outcome A) (Q : A → Prop) : Prop :=
  match m with Done a => Q a | _ => False end.

(** [may m Q]: if [m] completes then [Q] holds of its result. *)
Definition may {A} (m : outcome A) (Q : A → Prop) : Prop :=
  match m with Done a => Q a | _ => True end.

Local Open Scope Z_scope.

Section wp.
  Context {A B : Type}.
  Implicit Types (m : outcome A) (Q : A → Prop).

Lemma wp_done Q (a : A) : Q a → wp (Done a) Q.
  Proof. done. Qed.

Lemma wp_mret Q (a : A) : Q a → wp (mret a) Q.
  Proof. done. Qed.

Lemma wp_bind m (f : A → outcome B) (R : B → Prop) :
    wp m (fun a => wp (f a) R) → wp (m ≫= f) R.
  Proof. by destruct m. Qed.

Lemma wp_mono m Q (Q' : A → Prop) : wp m Q → (∀ a, Q a → Q' a) → wp m Q'.
  Proof. destruct m; cbn; auto. Qed.

Lemma wp_elim m Q : wp m Q → ∃ a, m = Done a ∧ Q a.
  Proof. destruct m as [| |a]; cbn; [done..|]. eauto. Qed.

Lemma wp_intro m Q (a : A) : m = Done a → Q a → wp m Q.
  Proof. by intros ->. Qed.

Lemma wp_and m Q (Q' : A → Prop) : wp m Q → may m Q' → wp m (fun a => Q a ∧ Q' a).
  Proof. destruct m; cbn; auto. Qed.

Lemma wp_may m Q : wp m Q → may m Q.
  Proof. by destruct m. Qed.

Lemma may_and m Q (Q' : A → Prop) : may m Q → may m Q' → may m (fun a => Q a ∧ Q' a).
  Proof. destruct m; cbn; auto. Qed.

Lemma may_bind m (f : A → outcome B) (R : B → Prop) :
    may m (fun a => may (f a) R) → may (m ≫= f) R.
  Proof. by destruct m. Qed.

Lemma may_mono m Q (Q' : A → Prop) : may m Q → (∀ a, Q a → Q' a) → may m Q'.
  Proof. destruct m; cbn; auto. Qed.
End wp.

Lemma wp_or_else {C A R} (m : outcome (C * option A)) (f : C → outcome R)
    (k : C → A → outcome R) (Q : R → Prop) :
  wp m (fun p => match p with
                 | (c, Some a) => wp (k c a) Q
                 | (c, None) => wp (f c) Q
                 end) →
  wp (or_else m f k) Q.
Proof. by destruct m as [| |[c [a|]]]. Qed.

Lemma may_or_else {C A R} (m : outcome (C * option A)) (f : C → outcome R)
    (k : C → A → outcome R) (Q : R → Prop) :
  may m (fun p => match p with
                  | (c, Some a) => may (k c a) Q
                  | (c, None) => may (f c) Q
                  end) →
  may (or_else m f k) Q.
Proof. by destruct m as [| |[c [a|]]]. Qed.

Lemma or_else_done_inv {C A R} (m : outcome (C * option A)) (f : C → outcome R)
    (k : C → A → outcome R) (r : R) :
  or_else m f k = Done r →
  (∃ c a, m = Done (c, Some a) ∧ k c a = Done r) ∨ (∃ c, m = Done (c, None) ∧ f c = Done r).
Proof. destruct m as [| |[c [a|]]]; cbn; intros H; try done; [left|right]; eauto. Qed.

(** ** Machine integers *)

Definition u64_modulus : Z := 18446744073709551616.
Definition u32_modulus : Z := 4294967296.

(** Conversion to [uint64_t], [uint32_t] and (two's complement) [int]. *)
Definition to_u64 (z : Z) : Z := z mod u64_modulus.
Definition to_u32 (z : Z) : Z := z mod u32_modulus.
Definition to_int (z : Z) : Z :=
  let m := z mod u32_modulus in if m <? 2147483648 then m else m - u32_modulus.
Definition INT_MAX : Z := 2147483647.
Definition INT_MIN : Z := -2147483648.
(** The largest object size: differences of pointers fit in [ptrdiff_t]. *)
Definition PTRDIFF_MAX : Z := 9223372036854775807.

Lemma to_u64_small z : (0 <= z < u64_modulus)%Z → to_u64 z = z.
Proof. apply Z.mod_small. Qed.

Lemma to_u64_range z : (0 <= to_u64 z < u64_modulus)%Z.
Proof. by apply Z.mod_pos_bound. Qed.

Lemma to_int_range z : (INT_MIN <= to_int z <= INT_MAX)%Z.
Proof.
  unfold to_int, INT_MIN, INT_MAX.
  assert (0 <= z mod u32_modulus < u32_modulus)%Z by by apply Z.mod_pos_bound.
  unfold u32_modulus in *. destruct (Z.ltb_spec (z mod 4294967296) 2147483648); lia.
Qed.

Lemma to_int_id z : (INT_MIN <= z <= INT_MAX)%Z → to_int z = z.
Proof.
  unfold to_int, INT_MIN, INT_MAX, u32_modulus. intros H.
  destruct (decide (0 <= z)%Z).
  - rewrite Z.mod_small by lia. destruct (Z.ltb_spec z 2147483648); lia.
  - replace (z mod 4294967296)%Z with (z + 4294967296)%Z.
    + destruct (Z.ltb_spec (z + 4294967296) 2147483648); lia.
    + rewrite <-(Z.mod_add z 1) by lia. rewrite Z.mod_small; lia.
Qed.

(** ** Bytes *)

(** The value of an [uint8_t]. *)
Definition u8 (b : byte) : Z := Z.of_N (Byte.to_N b).

(** Conversion to [uint8_t]. *)
Definition to_byte (z : Z) : byte :=
  match Byte.of_N (Z.to_N (z mod 256)) with Some b => b | None => x00 end.

Definition bytes_of (l : list Z) : list byte := to_byte <$> l.

(** The characters of a literal. *)
Definition bytes_of_string : String.string → list byte := String.list_byte_of_string.

Lemma u8_range b : (0 <= u8 b < 256)%Z.
Proof. unfold u8. pose proof (Byte.to_N_bounded b). lia. Qed.

Lemma u8_to_byte z : u8 (to_byte z) = (z mod 256)%Z.
Proof.
  unfold to_byte, u8.
  assert (0 <= z mod 256 < 256)%Z by by apply Z.mod_pos_bound.
  destruct (Byte.of_N _) as [b|] eqn:Hb.
  - apply Byte.to_of_N in Hb. rewrite Hb. lia.
  - apply Byte.of_N_None_iff in Hb. lia.
Qed.

Lemma u8_inj b1 b2 : u8 b1 = u8 b2 → b1 = b2.
Proof.
  unfold u8. intros H%N2Z.inj.
  pose proof (Byte.of_to_N b1). pose proof (Byte.of_to_N b2). congruence.
Qed.

Lemma to_byte_u8 b : to_byte (u8 b) = b.
Proof. apply u8_inj. rewrite u8_to_byte, Z.mod_small; [done|apply u8_range]. Qed.

#[export] Instance byte_eq_dec : EqDecision byte := Byte.byte_eq_dec.

(** Big-endian integers: the fold [value = (value << 8) | byte] and its inverse. *)
Definition be_fold (v : Z) (bs : list byte) : Z := fold_left (fun v b => v * 256 + u8 b)%Z bs v.

Fixpoint be_bytes (n : nat) (v : Z) : list byte :=
  match n with
  | O => []
  | S n => be_bytes n (v / 256) ++ [to_byte v]
  end.

Lemma be_bytes_length n v : length (be_bytes n v) = n.
Proof. revert v. induction n as [|n IH]; intros v; cbn; [done|]. rewrite length_app, IH. cbn. lia. Qed.

Lemma be_fold_app v bs1 bs2 : be_fold v (bs1 ++ bs2) = be_fold (be_fold v bs1) bs2.
Proof. apply fold_left_app. Qed.

Lemma be_fold_shift v bs : be_fold v bs = (v * 256 ^ Z.of_nat (length bs) + be_fold 0 bs)%Z.
Proof.
  revert v. induction bs as [|b bs IH]; intros v; cbn [be_fold fold_left length]; [lia|].
  fold (be_fold (v * 256 + u8 b) bs). fold (be_fold (0 * 256 + u8 b) bs).
  rewrite (IH (v * 256 + u8 b)%Z), (IH (0 * 256 + u8 b)%Z).
  rewrite Nat2Z.inj_succ, Z.pow_succ_r by lia. lia.
Qed.

Lemma be_fold_range bs : (0 <= be_fold 0 bs < 256 ^ Z.of_nat (length bs))%Z.
Proof.
  induction bs as [|b bs IH]; cbn [be_fold fold_left length]; [lia|].
  fold (be_fold (0 * 256 + u8 b) bs). rewrite be_fold_shift.
  rewrite Nat2Z.inj_succ, Z.pow_succ_r by lia. pose proof (u8_range b). nia.
Qed.

Lemma be_fold_bytes n v : (0 <= v < 256 ^ Z.of_nat n)%Z → be_fold 0 (be_bytes n v) = v.
Proof.
  revert v. induction n as [|n IH]; intros v Hv; [cbn in *; lia|].
  rewrite Nat2Z.inj_succ, Z.pow_succ_r in Hv by lia.
  cbn [be_bytes]. rewrite be_fold_app, IH.
  - cbn. rewrite u8_to_byte. pose proof (Z.div_mod v 256). lia.
  - split; [apply Z.div_pos; lia|]. apply Z.div_lt_upper_bound; lia.
Qed.

Lemma be_bytes_fold bs : be_bytes (length bs) (be_fold 0 bs) = bs.
Proof.
  induction bs as [|b bs IH] using rev_ind; [done|].
  rewrite length_app, Nat.add_comm. cbn [length Nat.add be_bytes].
  rewrite be_fold_app. cbn [be_fold fold_left]. fold (be_fold 0 bs).
  pose proof (u8_range b).
  f_equal.
  - replace ((be_fold 0 bs * 256 + u8 b) / 256)%Z with (be_fold 0 bs); [done|].
    rewrite Z.add_comm, Z.div_add, Z.div_small; lia.
  - f_equal. apply u8_inj. rewrite u8_to_byte.
    rewrite Z.add_comm, Z.mod_add, Z.mod_small; lia.
Qed.

(** The bit operations of the source on bytes, as arithmetic. *)
Lemma lor_shift8 v b : Z.lor (Z.shiftl v 8) (u8 b) = (v * 256 + u8 b)%Z.
Proof.
  rewrite Z.shiftl_mul_pow2 by lia. change (2 ^ 8)%Z with 256%Z.
  apply Z.bits_inj'. intros n Hn. rewrite Z.lor_spec.
  pose proof (u8_range b) as Hb.
  assert (v * 256 + u8 b = Z.lor (v * 256) (u8 b))%Z as ->; [|by rewrite Z.lor_spec].
  rewrite <-Z.add_lor_land.
  assert (Z.land (v * 256) (u8 b) = 0)%Z as ->; [|lia].
  apply Z.bits_inj'. intros k Hk. rewrite Z.land_spec, Z.bits_0.
  change 256%Z with (2 ^ 8)%Z.
  destruct (Z.lt_ge_cases k 8).
  - rewrite Z.mul_pow2_bits_low by lia. done.
  - rewrite (Z.bits_above_log2 (u8 b) k); [by rewrite andb_false_r|lia|].
    destruct (decide (u8 b = 0)%Z) as [->|]; [cbn; lia|].
    apply Z.log2_lt_pow2; [lia|]. apply Z.lt_le_trans with (2 ^ 8)%Z; [lia|].
    apply Z.pow_le_mono_r; lia.
Qed.

(** [memcpy] of bytes to an offset of a buffer that has room for them. *)
Definition write_at (buffer : list byte) (offset : nat) (bytes : list byte) : list byte :=
  take offset buffer ++ bytes ++ drop (offset + length bytes) buffer.

Lemma write_at_length buffer offset bytes :
  (offset + length bytes ≤ length buffer)%nat → length (write_at buffer offset bytes) = length buffer.
Proof. intros Hl. unfold write_at. rewrite !length_app, length_take, length_drop. lia. Qed.

Lemma write_at_take buffer offset bytes :
  (offset ≤ length buffer)%nat →
  take (offset + length bytes) (write_at buffer offset bytes) = take offset buffer ++ bytes.
Proof.
  intros Hl. unfold write_at. rewrite (assoc_L (++)), take_app_le, take_ge;
    rewrite ?length_app, ?length_take; try done; lia.
Qed.

Lemma write_at_drop buffer offset bytes :
  (offset ≤ length buffer)%nat →
  drop (offset + length bytes) (write_at buffer offset bytes) = drop (offset + length bytes) buffer.
Proof.
  intros Hl. unfold write_at. rewrite (assoc_L (++)), drop_app_ge by (rewrite length_app, length_take; lia).
  rewrite length_app, length_take. by replace (_ - _)%nat with 0%nat by lia.
Qed.

(** ** Automation shared by the components *)

Create HintDb c_ok discriminated.

(** Case analysis on every [match]/[if] of the goal, keeping equations. *)
Ltac split_match :=
  match goal with
  | |- context [match ?x with _ => _ end] =>
      lazymatch x with
      | context [match _ with _ => _ end] => fail
      | _ => destruct x eqn:?
      end
  end.

Ltac split_match_in H :=
  match type of H with
  | context [match ?x with _ => _ end] =>
      lazymatch x with
      | context [match _ with _ => _ end] => fail
      | _ => destruct x eqn:?
      end
  end.

(** Turn boolean tests in the context into propositions. *)
Ltac bool_facts :=
  repeat match goal with
  | H : (_ =? _)%Z = true |- _ => apply Z.eqb_eq in H
  | H : (_ =? _)%Z = false |- _ => apply Z.eqb_neq in H
  | H : (_ <? _)%Z = true |- _ => apply Z.ltb_lt in H
  | H : (_ <? _)%Z = false |- _ => apply Z.ltb_ge in H
  | H : (_ <=? _)%Z = true |- _ => apply Z.leb_le in H
  | H : (_ <=? _)%Z = false |- _ => apply Z.leb_gt in H
  | H : (_ && _)%bool = true |- _ => apply andb_true_iff in H as [? ?]
  | H : negb _ = true |- _ => apply negb_true_iff in H
  | H : negb _ = false |- _ => apply negb_false_iff in H
  end.

(** Close a conjunction of bounds, equations and well-formedness facts. *)
Ltac c_done := split_and!; try done; try lia; eauto with c_ok.
