(* ===== verification/Text.v ===== *)
(** * Text: formatted numbers and C strings

    What [printf] makes of numbers, for the components that print, and strings
    that end at their first zero byte. *)

From stdpp Require Import pretty.
From S2P Require Import Prelude.

Local Open Scope Z_scope.

Definition newline : list byte := [x0a].

(** [%d], [%u], [%zu] and [%PRIu64] of a number of their type. *)
Definition decimal (z : Z) : list byte := bytes_of_string (pretty z).

(** [%2.2X] of an [uint8_t]. *)
Definition hex_digit_upper (d : Z) : byte := to_byte (if d <? 10 then 48 + d else 55 + d).
Definition hex2 (b : Z) : list byte := [hex_digit_upper (b / 16); hex_digit_upper (b mod 16)].

(** The characters of the string in a buffer; reading one without an end leaves the
    buffer. *)
Fixpoint c_string (buf : list byte) : outcome (list byte) :=
  match buf with
  | [] => Ub
  | c :: buf => if bool_decide (c = x00) then Done [] else s ← c_string buf; Done (c :: s)
  end.

(** [snprintf] into a buffer of which all bytes may be written, with the text that
    the format stands for. *)
Definition snprintf (buf text : list byte) : list byte :=
  write_at buf 0 (take (length buf - 1) text ++ [x00]).

Lemma c_string_app s rest : x00 ∉ s → c_string (s ++ x00 :: rest) = Done s.
Proof.
  induction s as [|c s IH]; intros Hs; cbn; [done|].
  apply not_elem_of_cons in Hs as [Hc Hs]. rewrite bool_decide_false by done. by rewrite IH.
Qed.

Lemma c_string_unterminated s : x00 ∉ s → c_string s = Ub.
Proof.
  induction s as [|c s IH]; intros Hs; cbn; [done|].
  apply not_elem_of_cons in Hs as [Hc Hs]. rewrite bool_decide_false by done. by rewrite IH.
Qed.

Lemma not_elem_take {A} (x : A) n l : x ∉ l → x ∉ take n l.
Proof. intros Hl Hx. apply Hl. rewrite <-(take_drop n l). apply elem_of_app. by left. Qed.

(** A text that fits is all there is in front of the end. *)
Lemma snprintf_fits buf text :
  (length text < length buf)%nat → snprintf buf text = text ++ x00 :: drop (S (length text)) buf.
Proof.
  intros Hl. unfold snprintf, write_at. rewrite (take_ge text) by lia. cbn [take app Nat.add].
  rewrite length_app. cbn [length]. rewrite Nat.add_1_r. by rewrite <-app_assoc.
Qed.

(** A longer one fills the buffer. *)
Lemma snprintf_truncates buf text :
  (0 < length buf ≤ length text)%nat → snprintf buf text = take (length buf - 1) text ++ [x00].
Proof.
  intros Hl. unfold snprintf, write_at. cbn [take app Nat.add].
  rewrite length_app, length_take. cbn [length]. rewrite drop_ge by lia. by rewrite app_nil_r.
Qed.

Lemma snprintf_length buf text : (0 < length buf)%nat → length (snprintf buf text) = length buf.
Proof.
  intros Hl. unfold snprintf. apply write_at_length. rewrite length_app, length_take. cbn. lia.
Qed.
