(* ===== verification/Log.v ===== *)
(** * Log: messages of the enclave ([lib/log/teelog.c], [lib/include/teelog.h])

    The macros of [teelog.h] print a prefix and then the message, both through
    [tee_log], which formats into a buffer of 256 characters.  The text of a message
    is an argument, as its format makes it; the prefix is itself used as a format.
    All platforms print the same characters. *)

From stdpp Require Import strings.
From S2P Require Import Prelude Text.

Local Open Scope Z_scope.

Inductive tee_log_level :=
  | TEE_LOG_ERROR
  | TEE_LOG_WARN
  | TEE_LOG_INFO
  | TEE_LOG_DEBUG
  | TEE_LOG_TRACE.

(** [buf] is formatted and handed to the platform as a string; the level is not
    used. *)
Definition tee_log (garbage : list byte) (level : tee_log_level) (text out : list byte) : outcome (list byte) :=
  let buf := snprintf garbage text in
  s ← c_string buf; Done (out ++ s).

(** What a format without arguments stands for. *)
Fixpoint expand_format (fmt : list byte) : outcome (list byte) :=
  match fmt with
  | [] => Done []
  | c :: fmt =>
      if bool_decide (c = x25) then
        match fmt with
        | d :: fmt => if bool_decide (d = x25) then t ← expand_format fmt; Done (x25 :: t) else Ub
        | [] => Ub
        end
      else t ← expand_format fmt; Done (c :: t)
  end.

(** ["...: %s: %d: %s(): ", __FILE__, __LINE__, __func__]. *)
Definition log_prefix (tag : String.string) (file : list byte) (line : Z) (func : list byte) : list byte :=
  bytes_of_string tag ++ file ++ bytes_of_string ": " ++ decimal line ++ bytes_of_string ": " ++ func ++
  bytes_of_string "(): ".

(** The array [str]: the prefix, and then its last element is the digit zero. *)
Definition log_str (garbage prefix : list byte) : list byte :=
  write_at (snprintf garbage prefix) 79 [x30].

(** [tee_error] and [tee_info]: [str] and [buf] are the arrays as they are found. *)
Definition tee_log_prefixed (level : tee_log_level) (str buf prefix text out : list byte) : outcome (list byte) :=
  fmt ← c_string (log_str str prefix);
  prefix ← expand_format fmt;
  out ← tee_log buf level prefix out;
  tee_log buf level text out.

Definition tee_error (str buf file : list byte) (line : Z) (func text out : list byte) : outcome (list byte) :=
  tee_log_prefixed TEE_LOG_ERROR str buf (log_prefix "TERR: " file line func) text out.

Definition tee_info (str buf file : list byte) (line : Z) (func text out : list byte) : outcome (list byte) :=
  tee_log_prefixed TEE_LOG_INFO str buf (log_prefix "TINF: " file line func) text out.

Definition tee_warn (buf text out : list byte) : outcome (list byte) :=
  tee_log buf TEE_LOG_WARN (bytes_of_string "TWRN:" ++ text) out.

(** The other two only print with [DEBUG]. *)
Definition tee_debug (debug : bool) (buf text out : list byte) : outcome (list byte) :=
  if debug then tee_log buf TEE_LOG_DEBUG (bytes_of_string "TDGB:" ++ text) out else Done out.

Definition tee_trace (debug : bool) (buf text out : list byte) : outcome (list byte) :=
  if debug then tee_log buf TEE_LOG_TRACE (bytes_of_string "TTRC:" ++ text) out else Done out.

(** ** What is printed *)

Lemma tee_log_spec garbage level text out :
  length garbage = 256%nat → x00 ∉ text → tee_log garbage level text out = Done (out ++ take 255 text).
Proof.
  intros Hg Ht. unfold tee_log. destruct (decide (length text < 256)%nat) as [Hl|Hl].
  - rewrite snprintf_fits, c_string_app by (done || lia). by rewrite (take_ge text) by lia.
  - rewrite snprintf_truncates, Hg by lia. by rewrite c_string_app by by apply not_elem_take.
Qed.

Lemma expand_plain fmt : x25 ∉ fmt → expand_format fmt = Done fmt.
Proof.
  induction fmt as [|c fmt IH]; intros Hf; cbn; [done|].
  apply not_elem_of_cons in Hf as [Hc Hf]. rewrite bool_decide_false by done. by rewrite IH.
Qed.

(** C strings as pieces of a prefix. *)
Lemma log_str_long str prefix :
  length str = 80%nat → x00 ∉ prefix → (79 ≤ length prefix)%nat → c_string (log_str str prefix) = Ub.
Proof.
  intros Hs Hp Hl. apply c_string_unterminated. unfold log_str, write_at.
  assert (length (snprintf str prefix) = 80%nat) as Hlen by (rewrite snprintf_length; lia).
  rewrite (drop_ge (snprintf str prefix)) by (rewrite Hlen; cbn; lia). rewrite app_nil_r.
  apply not_elem_of_app. split; [|apply not_elem_of_cons; split; [done|apply not_elem_of_nil]].
  destruct (decide (length prefix < 80)%nat).
  - rewrite snprintf_fits by lia. rewrite take_app_le by lia. by apply not_elem_take.
  - rewrite snprintf_truncates by lia. rewrite Hs, take_app_le by (rewrite length_take; lia).
    by do 2 apply not_elem_take.
Qed.

Lemma log_str_short str prefix :
  length str = 80%nat → x00 ∉ prefix → (length prefix < 79)%nat → c_string (log_str str prefix) = Done prefix.
Proof.
  intros Hs Hp Hl. unfold log_str, write_at. rewrite snprintf_fits by lia.
  rewrite take_app_ge by lia. replace (79 - length prefix)%nat with (S (78 - length prefix)) by lia.
  cbn [take]. rewrite <-app_assoc, <-app_comm_cons. by apply c_string_app.
Qed.

(** C39: What an error message prints.  The digit that the macro puts at the end of
    its array, where it means the end of a string, does no harm behind a prefix of at
    most 78 characters, which is then printed in front of the first 255 characters of
    the message.  A longer prefix is read
    past its array, whatever the message is.  (The prefix is also used as a format,
    so it must not have percent signs.) *)
Theorem tee_error_outcome str buf file line func text out :
  length str = 80%nat → length buf = 256%nat → x00 ∉ text →
  let prefix := log_prefix "TERR: " file line func in
  x00 ∉ prefix → x25 ∉ prefix →
  tee_error str buf file line func text out =
    if decide (length prefix < 79)%nat then Done (out ++ prefix ++ take 255 text) else Ub.
Proof.
  intros Hs Hb Ht prefix Hp Hf. unfold tee_error, tee_log_prefixed. fold prefix.
  destruct (decide _) as [Hl|Hl].
  - rewrite log_str_short by done. cbn [mbind outcome_bind]. rewrite expand_plain by done. cbn [mbind outcome_bind].
    rewrite tee_log_spec by done. cbn [mbind outcome_bind]. rewrite tee_log_spec by done.
    rewrite (take_ge prefix) by lia. by rewrite app_assoc.
  - by rewrite log_str_long by (done || lia).
Qed.

(** The message of [ta-store.c] about a file that cannot be opened, from two
    directories. *)
Definition error_from (dir : String.string) : outcome (list byte) :=
  tee_error (replicate 80 x41) (replicate 256 x41) (bytes_of_string dir ++ bytes_of_string "/ta-store.c") 107
    (bytes_of_string "install_ta") (bytes_of_string "install_ta(): fopen(): ERROR") [].

Lemma tee_error_outcome_witness :
  error_from "src" = Done (bytes_of_string "TERR: src/ta-store.c: 107: install_ta(): install_ta(): fopen(): ERROR") ∧
  error_from "/home/builder/work/teep-device/teep-agent-ta" = Ub.
Proof.
  split; unfold error_from; rewrite tee_error_outcome by (reflexivity || by apply (bool_decide_unpack _)); by vm_compute.
Defined.
