(* ===== verification/Tcbor.v ===== *)
(** * Tcbor: the CBOR reader of [lib/include/teecbor.h] and [lib/cbor/teecbor.c]

    A range is a pair of pointers into a buffer that is never written while it
    is being parsed, so it is modelled as the buffer with two offsets; [None]
    is the range [{NULL, NULL}].  Every access goes through [load] or
    [load_bytes], which are undefined behaviour out of bounds. *)

From S2P Require Import Prelude.

Local Open Scope Z_scope.

(** ** Memory *)

Definition load (buf : list byte) (p : Z) : outcome Z :=
  if p <? 0 then Ub
  else match buf !! Z.to_nat p with Some b => Done (u8 b) | None => Ub end.

(** The [n] bytes at [p], as [memcmp] and [memcpy] read them. *)
Definition load_bytes (buf : list byte) (p n : Z) : outcome (list byte) :=
  if (0 <=? p) && (0 <=? n) && (p + n <=? Z.of_nat (length buf))
  then Done (take (Z.to_nat n) (drop (Z.to_nat p) buf))
  else Ub.

(** ** Ranges *)

Record tcbor_span := Span { sp_buf : list byte; sp_begin : Z; sp_end : Z }.

Definition tcbor_range := option tcbor_span.

Definition tcbor_range_null : tcbor_range := None.

Definition tcbor_range_is_null (r : tcbor_range) : bool :=
  match r with None => true | Some _ => false end.

(** [end - begin]. *)
Definition range_len (r : tcbor_range) : Z :=
  match r with None => 0 | Some s => sp_end s - sp_begin s end.

Definition tcbor_range_equal (x y : tcbor_range) : outcome bool :=
  match x, y with
  | Some sx, Some sy =>
      if negb (range_len x =? range_len y) then Done false
      else
        bx ← load_bytes (sp_buf sx) (sp_begin sx) (range_len x);
        bY ← load_bytes (sp_buf sy) (sp_begin sy) (range_len x);
        Done (bool_decide (bx = bY))
  | _, _ => Done (Bool.eqb (tcbor_range_is_null x) (tcbor_range_is_null y))
  end.

Inductive tcbor_error :=
  | tcbor_OK
  | tcbor_MALFORMED
  | tcbor_NEED_DATA
  | tcbor_NOT_SUPPORTED
  | tcbor_NOT_MATCH
  | tcbor_END_OF_CONTEXT
  | tcbor_OVERFLOW.

#[export] Instance tcbor_error_eq_dec : EqDecision tcbor_error.
Proof. solve_decision. Defined.

(** ** Items

    The union of [struct tcbor_any] is tagged here by the member that
    [tcbor_primitive_read_any] wrote; the accessors are only applied after the
    major type has been tested ([any_wf] below). *)

Inductive tcbor_union :=
  | AnyValue (value : Z)
  | AnyBytes (bytes : tcbor_range).

Record tcbor_any := Any { any_header : Z; any_union : tcbor_union }.

Definition any_value (a : tcbor_any) : Z :=
  match any_union a with AnyValue v => v | AnyBytes _ => 0 end.

Definition any_bytes (a : tcbor_any) : tcbor_range :=
  match any_union a with AnyValue _ => None | AnyBytes r => r end.

Definition tcbor_is_uint (a : tcbor_any) : bool := Z.shiftr (any_header a) 5 =? 0.
Definition tcbor_is_nint (a : tcbor_any) : bool := Z.shiftr (any_header a) 5 =? 1.
Definition tcbor_is_bstr (a : tcbor_any) : bool := Z.shiftr (any_header a) 5 =? 2.
Definition tcbor_is_tstr (a : tcbor_any) : bool := Z.shiftr (any_header a) 5 =? 3.
Definition tcbor_is_array (a : tcbor_any) : bool := Z.shiftr (any_header a) 5 =? 4.
Definition tcbor_is_map (a : tcbor_any) : bool := Z.shiftr (any_header a) 5 =? 5.
Definition tcbor_is_tag (a : tcbor_any) : bool := Z.shiftr (any_header a) 5 =? 6.

Definition tcbor_is_simple (a : tcbor_any) : bool :=
  (Z.shiftr (any_header a) 5 =? 7) && (Z.land (any_header a) 31 <=? 24).

Definition tcbor_is_false (a : tcbor_any) : bool := tcbor_is_simple a && (any_value a =? 20).
Definition tcbor_is_true (a : tcbor_any) : bool := tcbor_is_simple a && (any_value a =? 21).
Definition tcbor_is_bool (a : tcbor_any) : bool := tcbor_is_false a || tcbor_is_true a.
Definition tcbor_is_null (a : tcbor_any) : bool := tcbor_is_simple a && (any_value a =? 22).
Definition tcbor_is_undefined (a : tcbor_any) : bool := tcbor_is_simple a && (any_value a =? 23).

(** ** Primitives *)

(** The loop [for (int i = 0; i < n; i++)] over the bytes of the argument;
    [None] is [goto need_data]. *)
Fixpoint read_be (n : nat) (buf : list byte) (p e value : Z) : outcome (option (Z * Z)) :=
  match n with
  | O => Done (Some (p, value))
  | S n =>
      if p =? e then Done None
      else
        b ← load buf p;
        read_be n buf (p + 1) e (Z.lor (to_u64 (Z.shiftl value 8)) b)
  end.

(** The [switch (ai)]: the position after the argument and its value, or the
    error label jumped to. *)
Definition read_argument (s : tcbor_span) (p ai : Z) : outcome (tcbor_error + Z * Z) :=
  if (24 <=? ai) && (ai <=? 27) then
    o ← read_be (Z.to_nat (Z.shiftl 1 (ai - 24))) (sp_buf s) p (sp_end s) 0;
    Done (match o with Some pv => inr pv | None => inl tcbor_NEED_DATA end)
  else if (28 <=? ai) && (ai <=? 30) then Done (inl tcbor_MALFORMED)
  else if ai =? 31 then Done (inl tcbor_NOT_SUPPORTED)
  else Done (inr (p, ai)).

(** Returns the value of [*e] with the new [*r] and [*dst] when the call
    returns [true]. *)
Definition tcbor_primitive_read_any (r : tcbor_range) :
    outcome (tcbor_error * option (tcbor_range * tcbor_any)) :=
  match r with
  | None => Done (tcbor_NEED_DATA, None)
  | Some s =>
    if sp_begin s =? sp_end s then Done (tcbor_NEED_DATA, None)
    else
      header ← load (sp_buf s) (sp_begin s);
      let mt := Z.shiftr header 5 in
      let ai := Z.land header 31 in
      a ← read_argument s (sp_begin s + 1) ai;
      match a with
      | inl e => Done (e, None)
      | inr (p, value) =>
        if (mt =? 7) && ((ai =? 24) && (value <? 32)) then Done (tcbor_MALFORMED, None)
        else if (mt =? 2) || (mt =? 3) then
          if to_u64 (sp_end s - p) <? value then Done (tcbor_NEED_DATA, None)
          else
            Done (tcbor_OK,
                  Some (Some (Span (sp_buf s) (p + value) (sp_end s)),
                        Any header (AnyBytes (Some (Span (sp_buf s) p (p + value))))))
        else
          Done (tcbor_OK,
                Some (Some (Span (sp_buf s) p (sp_end s)), Any header (AnyValue value)))
      end
  end.

(** [tcbor_primitive_skip]: the loop [while (count > 0)].  Every iteration
    consumes at least one byte, so the bytes of the range (plus one) are
    enough fuel. *)
Fixpoint skip_loop (fuel : nat) (r : tcbor_range) (count : Z) (e : tcbor_error) :
    outcome (tcbor_error * option tcbor_range) :=
  if negb (0 <? count) then Done (e, Some r)
  else
    match fuel with
    | O => NoFuel
    | S fuel =>
      '(e, o) ← tcbor_primitive_read_any r;
      match o with
      | None => Done (e, None)
      | Some (r, any) =>
        if tcbor_is_tag any then skip_loop fuel r count e
        else
          let count := count - 1 in
          if tcbor_is_array any then
            let c := any_value any in
            if to_u64 (count + c) <? count then Done (tcbor_OVERFLOW, None)
            else skip_loop fuel r (to_u64 (count + c)) e
          else if tcbor_is_map any then
            let c := any_value any in
            if to_u64 (count + c) <? count then Done (tcbor_OVERFLOW, None)
            else
              let count := to_u64 (count + c) in
              if to_u64 (count + c) <? count then Done (tcbor_OVERFLOW, None)
              else skip_loop fuel r (to_u64 (count + c)) e
          else skip_loop fuel r count e
      end
    end.

Definition tcbor_primitive_skip (r : tcbor_range) (count : Z) (e : tcbor_error) :
    outcome (tcbor_error * option tcbor_range) :=
  skip_loop (S (Z.to_nat (range_len r))) r count e.

(** ** Contexts *)

Record tcbor_context := Context {
  c_r : tcbor_range;
  c_index : Z;
  c_count : Z;
  c_error : tcbor_error
}.

(** What a reader returns: the context it updated, and the value it stored
    through its out-parameter when it returned [true]. *)
Definition reader (A : Type) := tcbor_context → outcome (tcbor_context * option A).

Definition set_error (c : tcbor_context) (e : tcbor_error) : tcbor_context :=
  Context (c_r c) (c_index c) (c_count c) e.

(** [tcbor_fail]: restore everything but the error. *)
Definition tcbor_fail (ctx saved : tcbor_context) : tcbor_context :=
  Context (c_r saved) (c_index saved) (c_count saved) (c_error ctx).

Definition tcbor_is_end_of_context (c : tcbor_context) : bool := c_index c =? c_count c.

Definition tcbor_toplevel (r : tcbor_range) : tcbor_context := Context r 0 1 tcbor_OK.

Definition tcbor_open (parent : tcbor_context) (count : Z) : tcbor_context :=
  Context (c_r parent) 0 count tcbor_OK.

Definition tcbor_close (parent child : tcbor_context) :
    outcome (tcbor_context * option unit) :=
  if negb (tcbor_is_end_of_context child)
  then Done (set_error parent tcbor_END_OF_CONTEXT, None)
  else Done (Context (c_r child) (c_index parent) (c_count parent) (c_error parent), Some tt).

Definition tcbor_read_any : reader tcbor_any := fun ctx =>
  if tcbor_is_end_of_context ctx
  then Done (set_error ctx tcbor_END_OF_CONTEXT, None)
  else
    '(e, o) ← tcbor_primitive_read_any (c_r ctx);
    match o with
    | Some (r, any) =>
        let index := if negb (tcbor_is_tag any) then to_u64 (c_index ctx + 1) else c_index ctx in
        Done (Context r index (c_count ctx) e, Some any)
    | None => Done (set_error ctx e, None)
    end.

Definition tcbor_skip (count : Z) : reader unit := fun ctx =>
  if to_u64 (c_count ctx - c_index ctx) <? count
  then Done (set_error ctx tcbor_END_OF_CONTEXT, None)
  else
    '(e, o) ← tcbor_primitive_skip (c_r ctx) count (c_error ctx);
    match o with
    | Some r => Done (Context r (to_u64 (c_index ctx + count)) (c_count ctx) e, Some tt)
    | None => Done (set_error ctx e, None)
    end.

Definition tcbor_skip_all : reader unit := fun ctx =>
  tcbor_skip (to_u64 (c_count ctx - c_index ctx)) ctx.

(** [{ saved.r.begin, ctx->r.begin }]. *)
Definition range_between (r r' : tcbor_range) : tcbor_range :=
  match r, r' with
  | Some s, Some s' => Some (Span (sp_buf s) (sp_begin s) (sp_begin s'))
  | _, _ => None
  end.

Definition tcbor_read_subobject : reader tcbor_range := fun ctx =>
  let saved := ctx in
  try ctx, _u := tcbor_skip 1 ctx otherwise Done (ctx, None) ;;
  Done (ctx, Some (range_between (c_r saved) (c_r ctx))).

(** The body shared by the typed readers: read an item, [goto mismatch] unless
    it has the expected type, and hand the item to the rest of the function. *)
Definition read_matching {A} (is_type : tcbor_any → bool)
    (rest : tcbor_context → tcbor_context → tcbor_any → outcome (tcbor_context * option A)) :
    reader A := fun ctx =>
  let saved := ctx in
  try ctx, any := tcbor_read_any ctx otherwise Done (tcbor_fail ctx saved, None) ;;
  require is_type any
    otherwise Done (tcbor_fail (set_error ctx tcbor_NOT_MATCH) saved, None) ;;
  rest saved ctx any.

Definition tcbor_read_uint : reader Z :=
  read_matching tcbor_is_uint (fun _ ctx any => Done (ctx, Some (any_value any))).

Definition tcbor_read_nint : reader Z :=
  read_matching tcbor_is_nint (fun _ ctx any => Done (ctx, Some (any_value any))).

Definition tcbor_read_bstr : reader tcbor_range :=
  read_matching tcbor_is_bstr (fun _ ctx any => Done (ctx, Some (any_bytes any))).

Definition tcbor_read_tstr : reader tcbor_range :=
  read_matching tcbor_is_tstr (fun _ ctx any => Done (ctx, Some (any_bytes any))).

Definition tcbor_read_array : reader tcbor_context :=
  read_matching tcbor_is_array (fun _ ctx any => Done (ctx, Some (tcbor_open ctx (any_value any)))).

Definition tcbor_read_map : reader tcbor_context :=
  read_matching tcbor_is_map (fun saved ctx any =>
    if to_u64 (any_value any + any_value any) <? any_value any
    then Done (tcbor_fail (set_error ctx tcbor_OVERFLOW) saved, None)
    else Done (ctx, Some (tcbor_open ctx (to_u64 (any_value any + any_value any))))).

Definition tcbor_read_null : reader unit :=
  read_matching tcbor_is_null (fun _ ctx _ => Done (ctx, Some tt)).

Definition tcbor_read_bool : reader bool :=
  read_matching tcbor_is_bool (fun _ ctx any => Done (ctx, Some (tcbor_is_true any))).

Definition tcbor_read_tag : reader Z :=
  read_matching tcbor_is_tag (fun _ ctx any => Done (ctx, Some (any_value any))).

(** [~v] on [uint64_t] and on [int]. *)
Definition not_u64 (v : Z) : Z := u64_modulus - 1 - v.
Definition not_int (r : Z) : Z := - r - 1.

Definition tcbor_read_int : reader Z := fun ctx =>
  let saved := ctx in
  try ctx, v := tcbor_read_uint ctx
    otherwise
      (try ctx, v := tcbor_read_nint ctx
         otherwise Done (tcbor_fail (set_error ctx tcbor_NOT_MATCH) saved, None) ;;
       let r := to_int (not_u64 v) in
       if negb (to_u64 (not_int r) =? v) then Done (tcbor_fail ctx saved, None)
       else Done (ctx, Some r)) ;;
  let r := to_int v in
  if negb (to_u64 r =? v) then Done (tcbor_fail ctx saved, None)
  else Done (ctx, Some r).
