(* ===== verification/TcborFacts.v ===== *)
(** * TcborFacts: memory safety of the CBOR reader, and its agreement with a
    decoder on lists of bytes *)

From S2P Require Import Prelude Tcbor.

Local Open Scope Z_scope.

(** ** Well-formed ranges *)

Definition span_ok (s : tcbor_span) : Prop :=
  0 <= sp_begin s <= sp_end s ∧ sp_end s <= Z.of_nat (length (sp_buf s)) <= PTRDIFF_MAX.

Definition range_ok (r : tcbor_range) : Prop :=
  match r with None => True | Some s => span_ok s end.

(** [range_within r' r]: [r'] is null or lies inside [r]. *)
Definition range_within (r' r : tcbor_range) : Prop :=
  match r', r with
  | None, _ => True
  | Some s', Some s =>
      sp_buf s' = sp_buf s ∧ sp_begin s <= sp_begin s' ∧ sp_begin s' <= sp_end s' <= sp_end s
  | Some _, None => False
  end.

(** [range_suffix r' r]: [r'] is what is left of [r] after reading from it. *)
Definition range_suffix (r' r : tcbor_range) : Prop :=
  match r', r with
  | None, None => True
  | Some s', Some s =>
      sp_buf s' = sp_buf s ∧ sp_begin s <= sp_begin s' <= sp_end s' ∧ sp_end s' = sp_end s
  | _, _ => False
  end.

Lemma range_suffix_refl r : range_ok r → range_suffix r r.
Proof. destruct r as [s|]; cbn; [|done]. unfold span_ok. intros []. split_and!; [done|lia..]. Qed.

Lemma range_suffix_trans r1 r2 r3 :
  range_suffix r1 r2 → range_suffix r2 r3 → range_suffix r1 r3.
Proof.
  destruct r1 as [s1|], r2 as [s2|], r3 as [s3|]; cbn; try done.
  intros (?&?&?) (?&?&?). split_and!; [congruence|lia..].
Qed.

Lemma range_suffix_within r' r : range_suffix r' r → range_within r' r.
Proof. destruct r' as [s'|], r as [s|]; cbn; try done. intros (?&?&?). split_and!; [done|lia..]. Qed.

Lemma range_within_refl r : range_ok r → range_within r r.
Proof. intros H. by apply range_suffix_within, range_suffix_refl. Qed.

Lemma range_within_trans r1 r2 r3 :
  range_within r1 r2 → range_within r2 r3 → range_within r1 r3.
Proof.
  destruct r1 as [s1|], r2 as [s2|], r3 as [s3|]; cbn; try done.
  intros (?&?&?) (?&?&?). split_and!; [congruence|lia..].
Qed.

Lemma range_within_ok r' r : range_within r' r → range_ok r → range_ok r'.
Proof.
  destruct r' as [s'|], r as [s|]; cbn; try done.
  unfold span_ok. intros (Hb&?&?) (?&?). rewrite Hb. lia.
Qed.

Lemma range_suffix_ok r' r : range_suffix r' r → range_ok r → range_ok r'.
Proof. intros H. by apply range_within_ok, range_suffix_within. Qed.

Lemma range_suffix_null r' r :
  range_suffix r' r → tcbor_range_is_null r' = tcbor_range_is_null r.
Proof. by destruct r', r. Qed.

Lemma range_len_nonneg r : range_ok r → 0 <= range_len r.
Proof. destruct r as [s|]; cbn; [|lia]. unfold span_ok. lia. Qed.

Lemma range_suffix_len r' r : range_suffix r' r → range_len r' <= range_len r.
Proof. destruct r' as [s'|], r as [s|]; cbn; try done. lia. Qed.

#[export] Hint Resolve range_suffix_refl range_suffix_trans range_suffix_within
  range_within_refl range_within_trans range_within_ok range_suffix_ok : c_ok.

(** ** The bytes of a range *)

(** The range over a whole buffer. *)
Definition whole (buf : list byte) : tcbor_span := Span buf 0 (Z.of_nat (length buf)).

Lemma whole_ok buf : Z.of_nat (length buf) <= PTRDIFF_MAX → span_ok (whole buf).
Proof. intros ?. unfold span_ok; cbn. lia. Qed.

(** The bytes at offsets [p, e) of a buffer. *)
Definition slice (buf : list byte) (p e : Z) : list byte :=
  take (Z.to_nat (e - p)) (drop (Z.to_nat p) buf).

Definition span_bytes (s : tcbor_span) : list byte := slice (sp_buf s) (sp_begin s) (sp_end s).

Definition range_bytes (r : tcbor_range) : list byte :=
  match r with None => [] | Some s => span_bytes s end.

Lemma slice_length buf p e :
  0 <= p <= e → e <= Z.of_nat (length buf) → Z.of_nat (length (slice buf p e)) = e - p.
Proof. intros. unfold slice. rewrite length_take, length_drop. lia. Qed.

Lemma slice_nil buf p : slice buf p p = [].
Proof. unfold slice. by rewrite Z.sub_diag. Qed.

Lemma slice_cons buf p e :
  0 <= p < e → e <= Z.of_nat (length buf) →
  ∃ b, load buf p = Done (u8 b) ∧ slice buf p e = b :: slice buf (p + 1) e.
Proof.
  intros Hp He. destruct (lookup_lt_is_Some_2 buf (Z.to_nat p)) as [b Hb]; [lia|].
  exists b. split.
  - unfold load. rewrite Hb. destruct (Z.ltb_spec p 0); [lia|done].
  - unfold slice. rewrite (drop_S _ _ _ Hb).
    replace (Z.to_nat (e - p)) with (S (Z.to_nat (e - (p + 1)))) by lia.
    cbn. do 2 f_equal. replace (Z.to_nat (p + 1)) with (S (Z.to_nat p)) by lia. done.
Qed.

Lemma slice_split buf p q e :
  0 <= p <= q → q <= e → slice buf p e = slice buf p q ++ slice buf q e.
Proof.
  intros. unfold slice.
  replace (Z.to_nat (e - p)) with (Z.to_nat (q - p) + Z.to_nat (e - q))%nat by lia.
  rewrite <-take_take_drop, drop_drop. do 3 f_equal. lia.
Qed.

Lemma slice_take buf p e n :
  0 <= p → Z.of_nat n <= e - p → take n (slice buf p e) = slice buf p (p + Z.of_nat n).
Proof. intros. unfold slice. rewrite take_take. f_equal. lia. Qed.

Lemma slice_drop buf p e n :
  0 <= p → Z.of_nat n <= e - p → drop n (slice buf p e) = slice buf (p + Z.of_nat n) e.
Proof.
  intros. unfold slice.
  replace (Z.to_nat (e - p)) with (n + Z.to_nat (e - (p + Z.of_nat n)))%nat by lia.
  rewrite <-take_drop_commute, drop_drop. do 2 f_equal. lia.
Qed.

Lemma span_bytes_length s : span_ok s → Z.of_nat (length (span_bytes s)) = range_len (Some s).
Proof. intros [? ?]. cbn. apply slice_length; lia. Qed.

Lemma load_bytes_slice buf p n :
  0 <= p → 0 <= n → p + n <= Z.of_nat (length buf) →
  load_bytes buf p n = Done (slice buf p (p + n)).
Proof.
  intros. unfold load_bytes, slice.
  replace (p + n - p) with n by lia.
  destruct (Z.leb_spec 0 p); [|lia]. destruct (Z.leb_spec 0 n); [|lia].
  by destruct (Z.leb_spec (p + n) (Z.of_nat (length buf))); [|lia].
Qed.

(** ** A reference decoder on lists of bytes *)

Record decoded := Decoded { d_header : Z; d_value : Z; d_payload : list byte; d_rest : list byte }.

Definition decode_argument (ai : Z) (bs : list byte) : tcbor_error + Z * list byte :=
  if ai <? 24 then inr (ai, bs)
  else if ai <? 28 then
    let n := Z.to_nat (2 ^ (ai - 24)) in
    if (n <=? length bs)%nat then inr (be_fold 0 (take n bs), drop n bs) else inl tcbor_NEED_DATA
  else if ai <? 31 then inl tcbor_MALFORMED
  else inl tcbor_NOT_SUPPORTED.

(** One head and, for strings, the payload that follows it (RFC 8949, section
    3, definite lengths only). *)
Definition decode_item (bs : list byte) : tcbor_error + decoded :=
  match bs with
  | [] => inl tcbor_NEED_DATA
  | h :: bs =>
      let mt := u8 h / 32 in
      let ai := u8 h mod 32 in
      match decode_argument ai bs with
      | inl e => inl e
      | inr (v, rest) =>
          if (mt =? 7) && (ai =? 24) && (v <? 32) then inl tcbor_MALFORMED
          else if (mt =? 2) || (mt =? 3) then
            if Z.of_nat (length rest) <? v then inl tcbor_NEED_DATA
            else inr (Decoded (u8 h) v (take (Z.to_nat v) rest) (drop (Z.to_nat v) rest))
          else inr (Decoded (u8 h) v [] rest)
      end
  end.

(** How the C code presents a decoded item of the span [s]. *)
Definition any_of (s : tcbor_span) (d : decoded) : tcbor_any :=
  let mt := Z.shiftr (d_header d) 5 in
  let q := sp_end s - Z.of_nat (length (d_rest d)) in
  Any (d_header d)
    (if (mt =? 2) || (mt =? 3) then AnyBytes (Some (Span (sp_buf s) (q - d_value d) q))
     else AnyValue (d_value d)).

Definition rest_of (s : tcbor_span) (d : decoded) : tcbor_range :=
  Some (Span (sp_buf s) (sp_end s - Z.of_nat (length (d_rest d))) (sp_end s)).

Lemma shiftr5 z : Z.shiftr z 5 = z / 32.
Proof. by rewrite Z.shiftr_div_pow2. Qed.

Lemma land31 z : Z.land z 31 = z mod 32.
Proof. by apply (Z.land_ones z 5). Qed.

Lemma head_split h : 0 <= u8 h / 32 < 8 ∧ 0 <= u8 h mod 32 < 32.
Proof.
  pose proof (u8_range h). split; [|by apply Z.mod_pos_bound].
  split; [apply Z.div_pos; lia|apply Z.div_lt_upper_bound; lia].
Qed.

Lemma read_be_spec n buf p e v :
  0 <= p <= e → e <= Z.of_nat (length buf) →
  0 <= v < 256 ^ Z.of_nat (8 - n) → (n <= 8)%nat →
  read_be n buf p e v =
    Done (if (n <=? length (slice buf p e))%nat
          then Some (p + Z.of_nat n, be_fold v (take n (slice buf p e))) else None).
Proof.
  revert p v. induction n as [|n IH]; intros p v Hp He Hv Hn.
  - cbn. rewrite Z.add_0_r. done.
  - cbn [read_be]. destruct (Z.eqb_spec p e) as [->|Hne].
    + rewrite slice_nil. done.
    + destruct (slice_cons buf p e) as (b & -> & ->); [lia..|]. cbn [mbind outcome_bind].
      assert (256 ^ Z.of_nat (8 - S n) * 256 = 256 ^ Z.of_nat (8 - n)) as Hpow.
      { replace (8 - n)%nat with (S (8 - S n)) by lia.
        rewrite Nat2Z.inj_succ, Z.pow_succ_r; lia. }
      assert (256 ^ Z.of_nat (8 - n) <= u64_modulus) as Hle.
      { change u64_modulus with (256 ^ 8). apply Z.pow_le_mono_r; lia. }
      pose proof (u8_range b). rewrite to_u64_small.
      2:{ rewrite Z.shiftl_mul_pow2 by lia. change (2 ^ 8) with 256. nia. }
      rewrite lor_shift8, IH by nia.
      cbn [length take be_fold fold_left Nat.leb].
      destruct (Nat.leb_spec n (length (slice buf (p + 1) e))); [|done].
      do 3 f_equal. lia.
Qed.

Lemma read_argument_spec s p ai :
  span_ok s → sp_begin s <= p <= sp_end s → 0 <= ai < 32 →
  read_argument s p ai =
    Done (match decode_argument ai (slice (sp_buf s) p (sp_end s)) with
          | inl e => inl e
          | inr (v, rest) => inr (sp_end s - Z.of_nat (length rest), v)
          end).
Proof.
  intros [Hs1 Hs2] Hp Hai. unfold read_argument, decode_argument.
  pose proof (slice_length (sp_buf s) p (sp_end s) ltac:(lia) ltac:(lia)) as Hlen.
  destruct (Z.leb_spec 24 ai), (Z.ltb_spec ai 24), (Z.leb_spec ai 27), (Z.ltb_spec ai 28);
    cbn [andb]; try lia.
  - rewrite Z.shiftl_1_l. set (n := Z.to_nat (2 ^ (ai - 24))).
    assert (n <= 8)%nat.
    { assert (2 ^ (ai - 24) <= 2 ^ 3) by (apply Z.pow_le_mono_r; lia). lia. }
    assert (0 < 256 ^ Z.of_nat (8 - n)) by (apply Z.pow_pos_nonneg; lia).
    rewrite read_be_spec by lia. cbn [mbind outcome_bind].
    destruct (Nat.leb_spec n (length (slice (sp_buf s) p (sp_end s)))); [|done].
    do 3 f_equal. rewrite length_drop. lia.
  - destruct (Z.leb_spec 28 ai), (Z.leb_spec ai 30), (Z.ltb_spec ai 31), (Z.eqb_spec ai 31);
      cbn [andb]; try lia; done.
  - destruct (Z.leb_spec 28 ai), (Z.eqb_spec ai 31); cbn [andb]; try lia.
    do 3 f_equal. lia.
Qed.

Lemma decode_argument_inv ai bs v rest :
  0 <= ai → decode_argument ai bs = inr (v, rest) →
  0 <= v < u64_modulus ∧ ∃ pre, bs = pre ++ rest.
Proof.
  unfold decode_argument. intros Hai H.
  destruct (Z.ltb_spec ai 24); [injection H as <- <-|].
  { split; [unfold u64_modulus; lia|]. by exists []. }
  destruct (Z.ltb_spec ai 28); [|by destruct (ai <? 31)].
  destruct (Nat.leb_spec (Z.to_nat (2 ^ (ai - 24))) (length bs)); [|done].
  injection H as <- <-. split.
  - pose proof (be_fold_range (take (Z.to_nat (2 ^ (ai - 24))) bs)) as Hr.
    rewrite length_take in Hr. change u64_modulus with (256 ^ 8).
    assert (2 ^ (ai - 24) <= 2 ^ 3) by (apply Z.pow_le_mono_r; lia).
    split; [lia|]. eapply Z.lt_le_trans; [apply Hr|]. apply Z.pow_le_mono_r; lia.
  - eexists. symmetry. apply take_drop.
Qed.

(** What a decoded item is made of. *)
Lemma decode_item_inv bs d :
  decode_item bs = inr d →
  0 <= d_value d < u64_modulus ∧ 0 <= d_header d < 256 ∧
  (∃ h pre, d_header d = u8 h ∧ bs = h :: pre ++ d_payload d ++ d_rest d) ∧
  (if (Z.shiftr (d_header d) 5 =? 2) || (Z.shiftr (d_header d) 5 =? 3)
   then d_value d = Z.of_nat (length (d_payload d)) else d_payload d = []).
Proof.
  destruct bs as [|h bs]; cbn [decode_item]; [done|].
  pose proof (head_split h) as [Hmt Hai].
  destruct (decode_argument _ bs) as [e|[v rest]] eqn:Harg; [done|].
  apply decode_argument_inv in Harg as [Hv [pre ->]]; [|lia].
  destruct ((u8 h / 32 =? 7) && (u8 h mod 32 =? 24) && (v <? 32)); [done|].
  destruct ((u8 h / 32 =? 2) || (u8 h / 32 =? 3)) eqn:Hstr.
  - destruct (Z.ltb_spec (Z.of_nat (length rest)) v); [done|].
    intros [= <-]; cbn [d_value d_header d_payload d_rest].
    split_and!; [lia..|apply u8_range|apply u8_range| |].
    + exists h, pre. rewrite take_drop. done.
    + rewrite shiftr5, Hstr, length_take. lia.
  - intros [= <-]; cbn [d_value d_header d_payload d_rest].
    split_and!; [lia..|apply u8_range|apply u8_range| |].
    + by exists h, pre.
    + by rewrite shiftr5, Hstr.
Qed.

(** The pointer code computes the reference decoder. *)
Lemma read_any_decode s :
  span_ok s →
  tcbor_primitive_read_any (Some s) =
    Done (match decode_item (span_bytes s) with
          | inl e => (e, None)
          | inr d => (tcbor_OK, Some (rest_of s d, any_of s d))
          end).
Proof.
  intros Hs. pose proof Hs as [Hs1 Hs2]. cbn [tcbor_primitive_read_any]. unfold span_bytes.
  destruct (Z.eqb_spec (sp_begin s) (sp_end s)) as [Heq|Hne].
  { by rewrite Heq, slice_nil. }
  destruct (slice_cons (sp_buf s) (sp_begin s) (sp_end s)) as (h & -> & ->); [lia..|].
  cbn [mbind outcome_bind decode_item]. pose proof (head_split h) as [Hmt Hai].
  pose proof (u8_range h).
  rewrite shiftr5, land31, read_argument_spec by (done || lia). cbn [mbind outcome_bind].
  pose proof (slice_length (sp_buf s) (sp_begin s + 1) (sp_end s) ltac:(lia) ltac:(lia)) as Hlen.
  destruct (decode_argument _ _) as [e|[v rest]] eqn:Harg; [done|].
  apply decode_argument_inv in Harg as [Hv [pre Hpre]]; [|lia].
  rewrite Hpre, length_app in Hlen. rewrite andb_assoc.
  destruct ((u8 h / 32 =? 7) && (u8 h mod 32 =? 24) && (v <? 32)); [done|].
  destruct ((u8 h / 32 =? 2) || (u8 h / 32 =? 3)) eqn:Hstr.
  - rewrite to_u64_small by (unfold u64_modulus, PTRDIFF_MAX in *; lia).
    replace (sp_end s - (sp_end s - Z.of_nat (length rest))) with (Z.of_nat (length rest)) by lia.
    destruct (Z.ltb_spec (Z.of_nat (length rest)) v); [done|].
    unfold rest_of, any_of; cbn [d_header d_value d_rest]. rewrite shiftr5, Hstr, length_drop.
    replace (sp_end s - Z.of_nat (length rest - Z.to_nat v))
      with (sp_end s - Z.of_nat (length rest) + v) by lia.
    by rewrite Z.add_simpl_r.
  - unfold rest_of, any_of; cbn [d_header d_value d_rest]. by rewrite shiftr5, Hstr.
Qed.

(** ** Safety of one read *)

Definition any_wf (r : tcbor_range) (a : tcbor_any) : Prop :=
  0 <= any_header a < 256 ∧
  if (Z.shiftr (any_header a) 5 =? 2) || (Z.shiftr (any_header a) 5 =? 3)
  then ∃ b, any_union a = AnyBytes (Some b) ∧ range_within (Some b) r
  else ∃ v, any_union a = AnyValue v ∧ 0 <= v < u64_modulus.

Lemma any_wf_within r r' a : range_within r r' → any_wf r a → any_wf r' a.
Proof.
  intros Hr [Hh H]. split; [done|]. destruct (_ || _); [|done].
  destruct H as (b & ? & ?). exists b. split; [done|]. by eapply range_within_trans.
Qed.

Lemma decode_rest_suffix s d :
  span_ok s → decode_item (span_bytes s) = inr d →
  range_suffix (rest_of s d) (Some s) ∧ range_len (rest_of s d) < range_len (Some s) ∧
  any_wf (Some s) (any_of s d).
Proof.
  intros Hs Hd. pose proof (span_bytes_length s Hs) as Hlen. pose proof Hs as [Hs1 Hs2].
  apply decode_item_inv in Hd as (Hv & Hh & (h & pre & _ & Hbs) & Hpay).
  rewrite Hbs in Hlen. cbn in Hlen. rewrite !length_app in Hlen.
  split_and!; cbn.
  - split_and!; [done|lia..].
  - lia.
  - unfold any_of. split; cbn; [done|].
    destruct (_ || _); [eexists; split; [done|]|by eexists].
    cbn. split_and!; [done|lia..].
Qed.

Lemma read_any_safe r :
  range_ok r →
  wp (tcbor_primitive_read_any r) (fun '(e, o) =>
    match o with
    | Some (r', a) =>
        e = tcbor_OK ∧ range_suffix r' r ∧ range_len r' < range_len r ∧ any_wf r a
    | None => e ≠ tcbor_OK
    end).
Proof.
  destruct r as [s|]; [|done]. intros Hs. rewrite read_any_decode by done. cbn [wp].
  destruct (decode_item (span_bytes s)) as [e|d] eqn:Hd; [|by split; [|by apply decode_rest_suffix]].
  intros ->. unfold decode_item, decode_argument in Hd.
  repeat case_match; simplify_eq/=.
Qed.

Lemma any_wf_value r a : any_wf r a → 0 <= any_value a < u64_modulus.
Proof.
  intros [_ H]. unfold any_value. destruct (_ || _).
  - destruct H as (b & -> & _). unfold u64_modulus. lia.
  - by destruct H as (v & -> & ?).
Qed.

Lemma any_wf_bytes r a :
  any_wf r a → tcbor_is_bstr a || tcbor_is_tstr a = true →
  ∃ b, any_bytes a = Some b ∧ range_within (Some b) r.
Proof.
  unfold tcbor_is_bstr, tcbor_is_tstr, any_bytes. intros [_ H] Hs. rewrite Hs in H.
  destruct H as (b & -> & ?). eauto.
Qed.

(** [tcbor_primitive_skip] terminates within the fuel, stays in bounds, and
    consumes something unless there is nothing to skip. *)
Lemma skip_loop_safe fuel r count e :
  range_ok r → 0 <= count < u64_modulus → range_len r < Z.of_nat fuel →
  wp (skip_loop fuel r count e) (fun '(e', o) =>
    match o with
    | Some r' => range_suffix r' r ∧ (0 < count → range_len r' < range_len r)
    | None => True
    end).
Proof.
  revert r count e. induction fuel as [|fuel IH]; intros r count e Hr Hc Hf;
    pose proof (range_len_nonneg r Hr); [lia|].
  cbn [skip_loop]. destruct (Z.ltb_spec 0 count); cbn [negb].
  2:{ cbn. split; [by apply range_suffix_refl|lia]. }
  apply wp_bind. eapply wp_mono; [by apply read_any_safe|].
  intros [e' [[r' a]|]]; [|done]. intros (-> & Hsuf & Hlt & Hwf).
  pose proof (any_wf_value _ _ Hwf) as Hv.
  assert (∀ c, 0 <= c < u64_modulus →
    wp (skip_loop fuel r' c tcbor_OK) (fun '(e', o) =>
      match o with
      | Some r'' => range_suffix r'' r ∧ (0 < count → range_len r'' < range_len r)
      | None => True
      end)) as Hrec.
  { intros c Hcc. eapply wp_mono; [apply IH; [by eapply range_suffix_ok|done|lia]|].
    intros [e'' [r''|]]; [|done]. intros [Hs' _]. split; [by eapply range_suffix_trans|].
    apply range_suffix_len in Hs'. lia. }
  pose proof to_u64_range. repeat case_match; try done; apply Hrec; auto; lia.
Qed.

Lemma primitive_skip_safe r count e :
  range_ok r → 0 <= count < u64_modulus →
  wp (tcbor_primitive_skip r count e) (fun '(e', o) =>
    match o with
    | Some r' => range_suffix r' r ∧ (0 < count → range_len r' < range_len r)
    | None => True
    end).
Proof.
  intros Hr Hc. pose proof (range_len_nonneg r Hr). apply skip_loop_safe; [done..|lia].
Qed.

(** ** Contexts *)

Definition ctx_ok (c : tcbor_context) : Prop :=
  range_ok (c_r c) ∧ 0 <= c_index c <= c_count c ∧ c_count c < u64_modulus.

(** [c'] is [c] after [n] items have been read from it. *)
Definition ctx_step (n : Z) (c c' : tcbor_context) : Prop :=
  range_suffix (c_r c') (c_r c) ∧ c_index c' = c_index c + n ∧ c_count c' = c_count c.

(** A failed read changes nothing but the error. *)
Definition ctx_same (c c' : tcbor_context) : Prop := c' = set_error c (c_error c').

(** The contract of a reader: it never fails to return; when it returns
    [false] the context is rolled back; when it returns [true] it has consumed
    input, counted [n a] items and stored a value satisfying [P]. *)
Definition reader_spec {A} (n : A → Z) (P : tcbor_context → tcbor_context → A → Prop)
    (f : reader A) : Prop :=
  ∀ c, ctx_ok c →
    wp (f c) (fun '(c', o) =>
      match o with
      | Some a =>
          ctx_ok c' ∧ ctx_step (n a) c c' ∧ range_len (c_r c') < range_len (c_r c) ∧ P c c' a
      | None => ctx_same c c'
      end).

Lemma ctx_same_ok c c' : ctx_same c c' → ctx_ok c → ctx_ok c'.
Proof. by intros ->. Qed.

Lemma ctx_same_refl c : ctx_same c c.
Proof. by destruct c. Qed.

Lemma ctx_same_fail c c' : ctx_same c (tcbor_fail c' c).
Proof. done. Qed.

Lemma ctx_same_set_error c e : ctx_same c (set_error c e).
Proof. done. Qed.

#[export] Hint Resolve ctx_same_refl ctx_same_fail ctx_same_set_error ctx_same_ok : c_ok.

Lemma ctx_step_trans n1 n2 c1 c2 c3 :
  ctx_step n1 c1 c2 → ctx_step n2 c2 c3 → ctx_step (n1 + n2) c1 c3.
Proof.
  intros (?&?&?) (?&?&?). split_and!; [by eapply range_suffix_trans|lia|congruence].
Qed.

Lemma toplevel_ok r : range_ok r → ctx_ok (tcbor_toplevel r).
Proof. intros H. unfold ctx_ok, u64_modulus; cbn. split_and!; done || lia. Qed.

Lemma end_of_context_spec c :
  ctx_ok c → tcbor_is_end_of_context c = false → c_index c < c_count c.
Proof. unfold tcbor_is_end_of_context. intros (_ & ? & _) ?. bool_facts. lia. Qed.

(** ** The readers meet their contracts *)

Definition any_items (a : tcbor_any) : Z := if tcbor_is_tag a then 0 else 1.

Lemma read_any_spec :
  reader_spec any_items (fun c _ a => any_wf (c_r c) a) tcbor_read_any.
Proof.
  intros c Hc. pose proof Hc as (Hr & Hi & Hn). unfold tcbor_read_any.
  destruct (tcbor_is_end_of_context c) eqn:Hend; [apply ctx_same_set_error|].
  apply end_of_context_spec in Hend; [|done].
  apply wp_bind. eapply wp_mono; [by apply read_any_safe|].
  intros [e [[r' a]|]]; [|done]. intros (-> & Hsuf & Hlt & Hwf). cbn.
  unfold ctx_ok, ctx_step, any_items; cbn.
  destruct (tcbor_is_tag a); cbn [negb]; rewrite ?to_u64_small by lia;
    c_done.
Qed.

Lemma skip_spec count :
  0 < count < u64_modulus → reader_spec (fun _ => count) (fun _ _ _ => True) (tcbor_skip count).
Proof.
  intros Hc c Hok. pose proof Hok as (Hr & Hi & Hn). unfold tcbor_skip.
  rewrite to_u64_small by lia.
  destruct (Z.ltb_spec (c_count c - c_index c) count); [apply ctx_same_set_error|].
  apply wp_bind. eapply wp_mono; [apply primitive_skip_safe; [done|lia]|].
  intros [e [r'|]]; [|done]. intros [Hsuf Hlt]. cbn.
  rewrite to_u64_small by lia.
  unfold ctx_ok, ctx_step; cbn.
  c_done.
Qed.

(** [tcbor_skip_all] may have nothing to skip, so it need not consume input. *)
Lemma skip_all_spec c :
  ctx_ok c →
  wp (tcbor_skip_all c) (fun '(c', o) =>
    match o with
    | Some _ =>
        ctx_ok c' ∧ range_suffix (c_r c') (c_r c) ∧ c_count c' = c_count c ∧
        tcbor_is_end_of_context c' = true
    | None => ctx_same c c'
    end).
Proof.
  intros Hok. pose proof Hok as (Hr & Hi & Hn). unfold tcbor_skip_all, tcbor_skip.
  rewrite to_u64_small by lia. rewrite Z.ltb_irrefl.
  apply wp_bind. eapply wp_mono; [apply primitive_skip_safe; [done|lia]|].
  intros [e [r'|]]; [|done]. intros [Hsuf _]. cbn.
  rewrite to_u64_small by lia. unfold ctx_ok, tcbor_is_end_of_context; cbn.
  c_done.
Qed.

Lemma read_matching_spec {A} is_type rest (P : tcbor_context → tcbor_context → A → Prop) n :
  (∀ c c' a,
     ctx_ok c → ctx_ok c' → ctx_step (any_items a) c c' → any_wf (c_r c) a → is_type a = true →
     wp (rest c c' a) (fun '(c'', o) =>
       match o with
       | Some x => c'' = c' ∧ n x = any_items a ∧ P c c' x
       | None => ctx_same c c''
       end)) →
  reader_spec n P (read_matching is_type rest).
Proof.
  intros Hrest c Hok. unfold read_matching. apply wp_or_else.
  eapply wp_mono; [by apply read_any_spec|].
  intros [c' [a|]]; [|intros ->; apply ctx_same_fail].
  intros (Hok' & Hstep & Hlt & Hwf).
  destruct (is_type a) eqn:Hty; [|apply ctx_same_fail].
  eapply wp_mono; [by apply Hrest|].
  intros [c'' [x|]]; [|done]. intros (-> & -> & HP). done.
Qed.

Definition one {A} (_ : A) : Z := 1.

Ltac type_facts :=
  unfold any_items, tcbor_is_tag, tcbor_is_uint, tcbor_is_nint, tcbor_is_array, tcbor_is_map,
    tcbor_is_bstr, tcbor_is_tstr, tcbor_is_null, tcbor_is_bool, tcbor_is_false, tcbor_is_true,
    tcbor_is_simple in *;
  repeat match goal with
  | H : context [Z.shiftr ?h 5 =? ?k] |- _ =>
      lazymatch k with
      | 6 => fail
      | _ => destruct (Z.eqb_spec (Z.shiftr h 5) k); cbn in H; try done
      end
  end;
  repeat match goal with
  | H : Z.shiftr ?h 5 = _ |- _ => rewrite H in *
  end.

Definition value_ok (c c' : tcbor_context) (v : Z) : Prop := 0 <= v < u64_modulus.

Definition bytes_ok (c c' : tcbor_context) (r : tcbor_range) : Prop :=
  ∃ b, r = Some b ∧ range_within (Some b) (c_r c).

Definition child_ok (c c' : tcbor_context) (child : tcbor_context) : Prop :=
  ctx_ok child ∧ c_r child = c_r c' ∧ c_index child = 0.

Lemma read_uint_spec : reader_spec one value_ok tcbor_read_uint.
Proof.
  apply read_matching_spec. intros c c' a _ _ _ Hwf Hty. cbn.
  split_and!; [done|by type_facts|by eapply any_wf_value].
Qed.

Lemma read_nint_spec : reader_spec one value_ok tcbor_read_nint.
Proof.
  apply read_matching_spec. intros c c' a _ _ _ Hwf Hty. cbn.
  split_and!; [done|by type_facts|by eapply any_wf_value].
Qed.

Lemma read_bstr_spec : reader_spec one bytes_ok tcbor_read_bstr.
Proof.
  apply read_matching_spec. intros c c' a _ _ _ Hwf Hty. cbn.
  split_and!; [done|by type_facts|]. eapply any_wf_bytes; [done|]. by rewrite Hty.
Qed.

Lemma read_tstr_spec : reader_spec one bytes_ok tcbor_read_tstr.
Proof.
  apply read_matching_spec. intros c c' a _ _ _ Hwf Hty. cbn.
  split_and!; [done|by type_facts|]. eapply any_wf_bytes; [done|].
  by rewrite Hty, orb_true_r.
Qed.

Lemma read_array_spec : reader_spec one child_ok tcbor_read_array.
Proof.
  apply read_matching_spec. intros c c' a _ Hc' _ Hwf Hty. cbn.
  split_and!; [done|by type_facts|]. apply any_wf_value in Hwf. destruct Hc' as (?&_&_).
  unfold child_ok, ctx_ok; cbn. split_and!; done || lia.
Qed.

Lemma read_map_spec :
  reader_spec one (fun c c' m => child_ok c c' m ∧ Z.even (c_count m) = true) tcbor_read_map.
Proof.
  apply read_matching_spec. intros c c' a _ Hc' _ Hwf Hty.
  assert (any_items a = 1) by by type_facts. apply any_wf_value in Hwf.
  destruct (Z.ltb_spec (to_u64 (any_value a + any_value a)) (any_value a)) as [|Hge];
    [apply ctx_same_fail|].
  assert (any_value a + any_value a < u64_modulus) as Hlt.
  { destruct (Z.lt_ge_cases (any_value a + any_value a) u64_modulus); [done|].
    unfold to_u64 in Hge. rewrite <-(Z.mod_add _ (-1)), Z.mod_small in Hge; lia. }
  cbn. rewrite to_u64_small by lia. destruct Hc' as (?&_&_).
  unfold child_ok, ctx_ok; cbn. split_and!; try done; try lia.
  rewrite Z.add_diag. apply Z.even_mul.
Qed.

Lemma read_null_spec : reader_spec one (fun _ _ _ => True) tcbor_read_null.
Proof.
  apply read_matching_spec. intros c c' a _ _ _ Hwf Hty. cbn.
  split_and!; [done|by type_facts|done].
Qed.

Lemma read_bool_spec : reader_spec one (fun _ _ _ => True) tcbor_read_bool.
Proof.
  apply read_matching_spec. intros c c' a _ _ _ Hwf Hty. cbn.
  split_and!; [done|by type_facts|done].
Qed.

Lemma read_tag_spec : reader_spec (fun _ => 0) value_ok tcbor_read_tag.
Proof.
  apply read_matching_spec. intros c c' a _ _ _ Hwf Hty. cbn.
  split_and!; [done|unfold any_items; by rewrite Hty|by eapply any_wf_value].
Qed.

Lemma ctx_same_trans_fail c c1 c2 : ctx_same c c1 → ctx_same c1 c2 → ctx_same c c2.
Proof. intros -> ->. done. Qed.

Definition int_ok (c c' : tcbor_context) (v : Z) : Prop := INT_MIN <= v <= INT_MAX.

Lemma read_int_spec : reader_spec one int_ok tcbor_read_int.
Proof.
  intros c Hok. unfold tcbor_read_int. apply wp_or_else.
  eapply wp_mono; [by apply read_uint_spec|].
  intros [c1 [v|]].
  { intros (?&?&?&?). destruct (negb _); [apply ctx_same_fail|].
    cbn. split_and!; try done; apply to_int_range. }
  intros Hs1. apply wp_or_else.
  eapply wp_mono; [apply read_nint_spec; by eapply ctx_same_ok|].
  intros [c2 [v|]]; [|intros; apply ctx_same_fail].
  intros (?&?&?&?). destruct (negb _); [apply ctx_same_fail|].
  rewrite Hs1 in *. cbn. split_and!; try done; apply to_int_range.
Qed.

(** A sub-object is a non-null range that ends where the context now stands. *)
Lemma read_subobject_spec : reader_spec one bytes_ok tcbor_read_subobject.
Proof.
  intros c Hok. unfold tcbor_read_subobject. apply wp_or_else.
  eapply wp_mono; [apply (skip_spec 1); [by unfold u64_modulus|done]|].
  intros [c' [_u|]]; [|done]. intros (Hok' & (Hsuf & Hst) & Hlt & _). cbn.
  split_and!; [done..|].
  unfold bytes_ok. destruct Hok as (Hr & _), Hok' as (Hr' & _).
  destruct (c_r c) as [s|], (c_r c') as [s'|]; cbn in *; try done.
  eexists. split; [done|]. cbn. unfold span_ok in *. destruct Hsuf as (?&?&?).
  split_and!; done || lia.
Qed.

Lemma close_spec parent child :
  ctx_ok parent → ctx_ok child → range_suffix (c_r child) (c_r parent) →
  wp (tcbor_close parent child) (fun '(c', o) =>
    match o with
    | Some _ =>
        tcbor_is_end_of_context child = true ∧ ctx_ok c' ∧ ctx_step 0 parent c' ∧
        c_r c' = c_r child
    | None => ctx_same parent c'
    end).
Proof.
  intros (Hr & Hi) (Hrc & _) Hsuf. unfold tcbor_close.
  destruct (tcbor_is_end_of_context child); cbn; [|done].
  unfold ctx_ok, ctx_step; cbn. c_done.
Qed.

Lemma range_equal_spec x y :
  range_ok x → range_ok y →
  tcbor_range_equal x y =
    Done (Bool.eqb (tcbor_range_is_null x) (tcbor_range_is_null y) &&
          bool_decide (range_bytes x = range_bytes y)).
Proof.
  intros Hx Hy. destruct x as [sx|], y as [sy|]; cbn; try done.
  pose proof (span_bytes_length sx Hx) as Lx. pose proof (span_bytes_length sy Hy) as Ly.
  destruct Hx as [Hx1 Hx2], Hy as [Hy1 Hy2]. cbn in Lx, Ly.
  destruct (Z.eqb_spec (sp_end sx - sp_begin sx) (sp_end sy - sp_begin sy)) as [He|Hne]; cbn.
  - rewrite !load_bytes_slice by lia. cbn. do 2 f_equal.
    unfold span_bytes.
    replace (sp_begin sx + (sp_end sx - sp_begin sx)) with (sp_end sx) by lia.
    replace (sp_begin sy + (sp_end sx - sp_begin sx)) with (sp_end sy) by lia. done.
  - rewrite bool_decide_eq_false_2; [done|]. intros Heq. rewrite Heq in Lx. lia.
Qed.
