(* ===== verification/CborSpec.v ===== *)
(** * CborSpec: the data items of RFC 8949 that the reader accepts

    Data items as trees, their encodings (definite lengths, any width of the
    argument), and the proof that [tcbor_primitive_skip] accepts exactly the
    sequences of encoded items, and the typed readers exactly the items of
    their type. *)

From S2P Require Import Prelude Tcbor TcborFacts.

Local Open Scope Z_scope.
Local Set Warnings "-register-all".

(** ** Data items *)

Inductive cbor :=
  | CAtom (mt ai v : Z)                  (** unsigned, negative, simple or float *)
  | CString (mt ai : Z) (bs : list byte) (** byte or text string *)
  | CArray (ai : Z) (l : list cbor)
  | CMap (ai : Z) (l : list cbor)        (** keys and values alternate *)
  | CTag (ai v : Z) (c : cbor).

Definition head_arg (ai v : Z) : list byte :=
  if ai <? 24 then [] else be_bytes (Z.to_nat (2 ^ (ai - 24))) v.

Definition encode_head (mt ai v : Z) : list byte := to_byte (mt * 32 + ai) :: head_arg ai v.

(** [ai] encodes the argument [v]: directly, or followed by 1, 2, 4 or 8 bytes. *)
Definition head_ok (ai v : Z) : bool :=
  if ai <? 24 then (0 <=? ai) && (ai =? v)
  else (ai <? 28) && (0 <=? v) && (v <? 256 ^ (2 ^ (ai - 24))).

Fixpoint encode (c : cbor) : list byte :=
  match c with
  | CAtom mt ai v => encode_head mt ai v
  | CString mt ai bs => encode_head mt ai (Z.of_nat (length bs)) ++ bs
  | CArray ai l => encode_head 4 ai (Z.of_nat (length l)) ++ flat_map encode l
  | CMap ai l => encode_head 5 ai (Z.of_nat (length l) / 2) ++ flat_map encode l
  | CTag ai v c => encode_head 6 ai v ++ encode c
  end.

Fixpoint cbor_wf (c : cbor) : bool :=
  match c with
  | CAtom mt ai v =>
      ((mt =? 0) || (mt =? 1) || (mt =? 7)) && head_ok ai v &&
      negb ((mt =? 7) && (ai =? 24) && (v <? 32))
  | CString mt ai bs => ((mt =? 2) || (mt =? 3)) && head_ok ai (Z.of_nat (length bs))
  | CArray ai l => head_ok ai (Z.of_nat (length l)) && forallb cbor_wf l
  | CMap ai l =>
      head_ok ai (Z.of_nat (length l) / 2) && Z.even (Z.of_nat (length l)) && forallb cbor_wf l
  | CTag ai v c => head_ok ai v && cbor_wf c
  end.

Definition encode_all (l : list cbor) : list byte := flat_map encode l.

Lemma encode_all_app l1 l2 : encode_all (l1 ++ l2) = encode_all l1 ++ encode_all l2.
Proof. apply flat_map_app. Qed.

Lemma encode_nonempty c : (1 <= length (encode c))%nat.
Proof. destruct c; cbn; lia. Qed.

Lemma encode_all_length l : (length l <= length (encode_all l))%nat.
Proof.
  induction l as [|c l IH]; cbn; [done|]. rewrite length_app.
  pose proof (encode_nonempty c). unfold encode_all in IH. lia.
Qed.

(** ** Heads *)

Lemma head_ok_range ai v : head_ok ai v = true → 0 <= ai < 28 ∧ 0 <= v < u64_modulus.
Proof.
  unfold head_ok. intros Hh. destruct (Z.ltb_spec ai 24); bool_facts.
  - unfold u64_modulus. lia.
  - change u64_modulus with (256 ^ 8).
    assert (2 ^ (ai - 24) <= 2 ^ 3) by (apply Z.pow_le_mono_r; lia).
    assert (256 ^ (2 ^ (ai - 24)) <= 256 ^ 8) by (apply Z.pow_le_mono_r; lia). lia.
Qed.

Lemma decode_argument_encode ai v rest :
  head_ok ai v = true → decode_argument ai (head_arg ai v ++ rest) = inr (v, rest).
Proof.
  intros H. pose proof (head_ok_range _ _ H) as [Ha Hv]. unfold head_ok in H.
  unfold decode_argument, head_arg.
  destruct (Z.ltb_spec ai 24); bool_facts; [by subst|].
  destruct (Z.ltb_spec ai 28); [|lia].
  rewrite length_app, be_bytes_length.
  destruct (Nat.leb_spec (Z.to_nat (2 ^ (ai - 24)))
              (Z.to_nat (2 ^ (ai - 24)) + length rest)); [|lia].
  rewrite take_app_length', drop_app_length' by by rewrite be_bytes_length.
  rewrite be_fold_bytes; [done|]. rewrite Z2Nat.id by (apply Z.pow_nonneg; lia). lia.
Qed.

Lemma decode_argument_head ai bs v rest :
  0 <= ai → decode_argument ai bs = inr (v, rest) →
  head_ok ai v = true ∧ bs = head_arg ai v ++ rest.
Proof.
  unfold decode_argument, head_ok, head_arg. intros Hai H.
  destruct (Z.ltb_spec ai 24); [injection H as <- <-|].
  { split; [|done]. rewrite Z.eqb_refl. destruct (Z.leb_spec 0 ai); [done|lia]. }
  destruct (Z.ltb_spec ai 28); [|by destruct (ai <? 31)].
  set (n := Z.to_nat (2 ^ (ai - 24))) in *.
  destruct (Nat.leb_spec n (length bs)); [|done]. injection H as <- <-.
  pose proof (be_fold_range (take n bs)) as Hr.
  assert (length (take n bs) = n) as Hn by (rewrite length_take; lia).
  assert (Z.of_nat n = 2 ^ (ai - 24)) as Hn2 by (apply Z2Nat.id, Z.pow_nonneg; lia).
  rewrite Hn, Hn2 in Hr.
  split.
  - cbn [andb]. destruct (Z.leb_spec 0 (be_fold 0 (take n bs))); [|lia].
    by destruct (Z.ltb_spec (be_fold 0 (take n bs)) (256 ^ 2 ^ (ai - 24))); [|lia].
  - rewrite <-Hn at 1. by rewrite be_bytes_fold, take_drop.
Qed.

Lemma to_byte_head mt ai :
  0 <= mt < 8 → 0 <= ai < 32 →
  u8 (to_byte (mt * 32 + ai)) = mt * 32 + ai ∧
  (mt * 32 + ai) / 32 = mt ∧ (mt * 32 + ai) mod 32 = ai.
Proof.
  intros. rewrite u8_to_byte. split_and!.
  - apply Z.mod_small. lia.
  - rewrite Z.add_comm, Z.div_add, Z.div_small; lia.
  - rewrite Z.add_comm, Z.mod_add, Z.mod_small; lia.
Qed.

Definition is_string (mt : Z) : bool := (mt =? 2) || (mt =? 3).

(** The decoder reads back an encoded head, with the payload of a string. *)
Lemma decode_item_encode mt ai v bs rest :
  0 <= mt < 8 → head_ok ai v = true →
  (mt =? 7) && (ai =? 24) && (v <? 32) = false →
  (if is_string mt then v = Z.of_nat (length bs) else bs = []) →
  decode_item (encode_head mt ai v ++ bs ++ rest) = inr (Decoded (mt * 32 + ai) v bs rest).
Proof.
  intros Hmt Hok H7 Hbs. pose proof (head_ok_range _ _ Hok) as [Ha Hv].
  destruct (to_byte_head mt ai) as (Hb & Hd & Hm); [lia..|].
  cbn [encode_head app decode_item]. rewrite Hb, Hd, Hm, decode_argument_encode by done.
  rewrite H7. fold (is_string mt). destruct (is_string mt).
  - rewrite length_app. destruct (Z.ltb_spec (Z.of_nat (length bs + length rest)) v); [lia|].
    rewrite take_app_length', drop_app_length' by lia. done.
  - by rewrite Hbs.
Qed.

(** Every decoded item is an encoded head followed by its payload. *)
Lemma decode_item_head bs d :
  decode_item bs = inr d →
  ∃ mt ai, 0 <= mt < 8 ∧ d_header d = mt * 32 + ai ∧ Z.shiftr (d_header d) 5 = mt ∧
    Z.land (d_header d) 31 = ai ∧ head_ok ai (d_value d) = true ∧
    (mt =? 7) && (ai =? 24) && (d_value d <? 32) = false ∧
    (if is_string mt then d_value d = Z.of_nat (length (d_payload d)) else d_payload d = []) ∧
    bs = encode_head mt ai (d_value d) ++ d_payload d ++ d_rest d.
Proof.
  destruct bs as [|h bs]; cbn [decode_item]; [done|].
  pose proof (head_split h) as [Hmt Hai]. intros H.
  exists (u8 h / 32), (u8 h mod 32).
  assert (u8 h = u8 h / 32 * 32 + u8 h mod 32) as Hh by (rewrite Z.mul_comm; apply Z.div_mod; lia).
  destruct (decode_argument _ bs) as [e|[v rest]] eqn:Harg; [done|].
  apply decode_argument_head in Harg as [Hok ->]; [|lia].
  destruct ((u8 h / 32 =? 7) && (u8 h mod 32 =? 24) && (v <? 32)) eqn:H7; [done|].
  fold (is_string (u8 h / 32)) in H.
  unfold encode_head. rewrite <-Hh, to_byte_u8.
  destruct (is_string (u8 h / 32)).
  - destruct (Z.ltb_spec (Z.of_nat (length rest)) v); [done|]. injection H as <-.
    cbn [d_header d_value d_payload d_rest]. pose proof (head_ok_range _ _ Hok).
    rewrite shiftr5, land31, take_drop, length_take. split_and!; done || lia.
  - injection H as <-. cbn [d_header d_value d_payload d_rest].
    rewrite shiftr5, land31. split_and!; done || lia.
Qed.

(** ** Positions in a span *)

(** The part of [s] that holds its last [length rest] bytes. *)
Definition span_at (s : tcbor_span) (rest : list byte) : tcbor_span :=
  Span (sp_buf s) (sp_end s - Z.of_nat (length rest)) (sp_end s).

Lemma span_at_spec s pre rest :
  span_ok s → span_bytes s = pre ++ rest →
  span_ok (span_at s rest) ∧ span_bytes (span_at s rest) = rest.
Proof.
  intros Hs Hb. pose proof (span_bytes_length s Hs) as Hlen. pose proof Hs as [Hs1 Hs2].
  rewrite Hb, length_app in Hlen. cbn in Hlen. split; [unfold span_ok; cbn; lia|].
  unfold span_bytes in *; cbn.
  replace (sp_end s - Z.of_nat (length rest)) with (sp_begin s + Z.of_nat (length pre)) by lia.
  rewrite <-slice_drop by lia. rewrite Hb. by rewrite drop_app_length.
Qed.

Lemma span_at_at s r1 r2 : span_at (span_at s r1) r2 = span_at s r2.
Proof. done. Qed.

Lemma span_at_self s : span_ok s → span_at s (span_bytes s) = s.
Proof.
  intros Hs. pose proof (span_bytes_length s Hs) as Hlen. unfold span_at. cbn in Hlen.
  rewrite Hlen. destruct s; cbn. f_equal. lia.
Qed.

Lemma read_any_at s d :
  span_ok s → decode_item (span_bytes s) = inr d →
  tcbor_primitive_read_any (Some s) =
    Done (tcbor_OK, Some (Some (span_at s (d_rest d)), any_of s d)).
Proof. intros Hs Hd. by rewrite read_any_decode, Hd. Qed.

Lemma any_of_value s d :
  is_string (Z.shiftr (d_header d) 5) = false → any_value (any_of s d) = d_value d.
Proof. unfold any_of, any_value, is_string. by intros ->. Qed.

(** ** Skipping *)

(** The head, the payload and the children of an item. *)
Definition item_head (c : cbor) : Z * Z * Z :=
  match c with
  | CAtom mt ai v => (mt, ai, v)
  | CString mt ai bs => (mt, ai, Z.of_nat (length bs))
  | CArray ai l => (4, ai, Z.of_nat (length l))
  | CMap ai l => (5, ai, Z.of_nat (length l) / 2)
  | CTag ai v _ => (6, ai, v)
  end.

Definition item_payload (c : cbor) : list byte :=
  match c with CString _ _ bs => bs | _ => [] end.

Definition item_children (c : cbor) : list cbor :=
  match c with CArray _ l | CMap _ l => l | CTag _ _ c => [c] | _ => [] end.

Lemma encode_unfold c mt ai v :
  item_head c = (mt, ai, v) →
  encode c = encode_head mt ai v ++ item_payload c ++ encode_all (item_children c).
Proof.
  destruct c; cbn; intros [= <- <- <-]; unfold encode_all; cbn [flat_map];
    by rewrite ?app_nil_r.
Qed.

Lemma cbor_wf_head c mt ai v :
  cbor_wf c = true → item_head c = (mt, ai, v) →
  0 <= mt < 8 ∧ head_ok ai v = true ∧ (mt =? 7) && (ai =? 24) && (v <? 32) = false ∧
  (if is_string mt then v = Z.of_nat (length (item_payload c)) else item_payload c = []) ∧
  forallb cbor_wf (item_children c) = true ∧
  Z.of_nat (length (item_children c)) =
    (if mt =? 4 then v else if mt =? 5 then 2 * v else if mt =? 6 then 1 else 0).
Proof.
  unfold is_string. destruct c as [mt' ? ?|mt' ? ?|? l|? l|? ? c]; cbn;
    intros Hwf [= <- <- <-]; bool_facts.
  - apply orb_true_iff in H as [[]%orb_true_iff|]; bool_facts; subst; by split_and!.
  - apply orb_true_iff in H as []; bool_facts; subst; by split_and!.
  - by split_and!.
  - split_and!; try done. rename select (Z.even _ = true) into Hev.
    apply Z.even_spec in Hev as [k ->]. by rewrite (Z.mul_comm 2 k), Z.div_mul, Z.mul_comm.
  - split_and!; try done. rename select (cbor_wf c = true) into Hc. by rewrite Hc.
Qed.

Lemma shiftr_head mt ai : 0 <= mt < 8 → 0 <= ai < 32 → Z.shiftr (mt * 32 + ai) 5 = mt.
Proof. intros. rewrite shiftr5. by apply to_byte_head. Qed.

Lemma to_u64_no_overflow a b :
  0 <= a → 0 <= b → a + b < u64_modulus → to_u64 (a + b) = a + b ∧ (to_u64 (a + b) <? a) = false.
Proof. intros. rewrite to_u64_small by lia. split; [done|]. apply Z.ltb_ge. lia. Qed.

(** One iteration of the loop replaces an item by its children. *)
Lemma skip_loop_item fuel s c rest count e :
  span_ok s → cbor_wf c = true → 0 < count →
  count - 1 + Z.of_nat (length (item_children c)) < u64_modulus →
  span_bytes s = encode c ++ rest →
  skip_loop (S fuel) (Some s) count e =
    skip_loop fuel (Some (span_at s (encode_all (item_children c) ++ rest)))
      (count - 1 + Z.of_nat (length (item_children c))) tcbor_OK.
Proof.
  intros Hs Hwf Hc Hmax Hb. destruct (item_head c) as [[mt ai] v] eqn:Hhd.
  destruct (cbor_wf_head _ _ _ _ Hwf Hhd) as (Hmt & Hok & H7 & Hpay & _ & Hlen).
  pose proof (head_ok_range _ _ Hok) as [Ha Hv].
  rewrite (encode_unfold _ _ _ _ Hhd), <-!app_assoc in Hb.
  cbn [skip_loop]. destruct (Z.ltb_spec 0 count); [|lia]. cbn [negb].
  erewrite read_any_at; [|done|rewrite Hb; by apply decode_item_encode].
  cbn [mbind outcome_bind]. unfold tcbor_is_tag, tcbor_is_array, tcbor_is_map.
  match goal with |- context [any_of s ?d] =>
    assert (is_string mt = false → any_value (any_of s d) = v) as Hval
      by (intros; apply any_of_value; cbn; by rewrite shiftr_head by lia);
    assert (Z.shiftr (any_header (any_of s d)) 5 = mt) as -> by (cbn; apply shiftr_head; lia)
  end.
  unfold is_string in Hval. cbn [d_rest]. rewrite Hlen in Hmax |- *.
  destruct (Z.eqb_spec mt 6) as [->|]; [cbn; f_equal; lia|].
  destruct (Z.eqb_spec mt 4) as [->|].
  { rewrite Hval by done. destruct (to_u64_no_overflow (count - 1) v) as [-> ->]; done || lia. }
  destruct (Z.eqb_spec mt 5) as [->|]; [|cbn; f_equal; lia].
  rewrite Hval by done. destruct (to_u64_no_overflow (count - 1) v) as [-> ->]; [lia..|].
  destruct (to_u64_no_overflow (count - 1 + v) v) as [-> ->]; [lia..|]. f_equal. lia.
Qed.

Lemma encode_all_cons c l : encode_all (c :: l) = encode c ++ encode_all l.
Proof. done. Qed.

(** Skipping as many items as were encoded stops right behind them. *)
Lemma skip_loop_encode fuel s l rest e :
  span_ok s → forallb cbor_wf l = true → span_bytes s = encode_all l ++ rest →
  (length (encode_all l) < fuel)%nat →
  ∃ e', skip_loop fuel (Some s) (Z.of_nat (length l)) e = Done (e', Some (Some (span_at s rest))).
Proof.
  revert s l e. induction fuel as [|fuel IH]; intros s l e Hs Hwf Hb Hf; [lia|].
  destruct l as [|c l].
  { cbn in Hb |- *. rewrite <-Hb, span_at_self by done. eauto. }
  apply andb_true_iff in Hwf as [Hc Hl].
  rewrite encode_all_cons in Hb, Hf. rewrite <-app_assoc in Hb.
  destruct (item_head c) as [[mt ai] v] eqn:Hhd.
  pose proof (encode_unfold _ _ _ _ Hhd) as Henc.
  destruct (cbor_wf_head _ _ _ _ Hc Hhd) as (_ & _ & _ & _ & Hch & _).
  set (l' := item_children c ++ l).
  assert (length (encode_all l') < fuel)%nat as Hf'.
  { subst l'. rewrite encode_all_app. rewrite Henc, !length_app in Hf.
    rewrite length_app. cbn in Hf. lia. }
  pose proof (span_bytes_length s Hs) as Hlen. pose proof Hs as [Hs1 Hs2].
  pose proof (encode_all_length l').
  assert (length (encode_all l') <= length (span_bytes s))%nat.
  { subst l'. rewrite Hb, Henc, encode_all_app, !length_app. lia. }
  cbn [range_len] in Hlen. unfold PTRDIFF_MAX in Hs2.
  assert (Z.of_nat (length (c :: l)) - 1 + Z.of_nat (length (item_children c)) =
          Z.of_nat (length l')) as Hl'.
  { subst l'. rewrite length_app. cbn [length]. lia. }
  rewrite (skip_loop_item _ s c (encode_all l ++ rest))
    by first [done | rewrite Hl'; unfold u64_modulus; lia | cbn [length]; lia].
  rewrite Hl', app_assoc, <-encode_all_app. fold l'.
  destruct (span_at_spec s (encode_head mt ai v ++ item_payload c) (encode_all l' ++ rest))
    as [Hs' Hb']; [done| |].
  { subst l'. rewrite Hb, Henc, encode_all_app, <-!app_assoc. done. }
  destruct (IH _ l' tcbor_OK Hs') as [e' He']; [|done|done|].
  { subst l'. rewrite forallb_app. by apply andb_true_iff. }
  exists e'. by rewrite He', span_at_at.
Qed.

(** Conversely, whatever is skipped was a sequence of encoded items. *)

(** How many items the head of an item announces. *)
Definition announced (mt v : Z) : Z :=
  if mt =? 4 then v else if mt =? 5 then 2 * v else if mt =? 6 then 1 else 0.

Lemma to_u64_overflow_inv a b :
  0 <= a < u64_modulus → 0 <= b < u64_modulus → (to_u64 (a + b) <? a) = false →
  to_u64 (a + b) = a + b ∧ a + b < u64_modulus.
Proof.
  intros Ha Hb H. bool_facts. destruct (Z.lt_ge_cases (a + b) u64_modulus).
  - by rewrite to_u64_small by lia.
  - unfold to_u64 in H. rewrite <-(Z.mod_add _ (-1)), Z.mod_small in H; unfold u64_modulus in *; lia.
Qed.

Lemma skip_loop_inv fuel s count e e' r :
  span_ok s → 0 < count < u64_modulus → skip_loop (S fuel) (Some s) count e = Done (e', Some r) →
  ∃ d mt ai,
    decode_item (span_bytes s) = inr d ∧ d_header d = mt * 32 + ai ∧ 0 <= mt < 8 ∧ 0 <= ai < 32 ∧
    count - 1 + announced mt (d_value d) < u64_modulus ∧
    skip_loop fuel (Some (span_at s (d_rest d))) (count - 1 + announced mt (d_value d)) tcbor_OK =
      Done (e', Some r).
Proof.
  intros Hs Hc H. cbn [skip_loop] in H. destruct (Z.ltb_spec 0 count); [|lia]. cbn [negb] in H.
  rewrite read_any_decode in H by done.
  destruct (decode_item (span_bytes s)) as [?|d] eqn:Hd; [done|]. cbn [mbind outcome_bind] in H.
  pose proof (decode_item_head _ _ Hd) as (mt & ai & Hmt & Hhd & Hsh & Hai & Hok & _ & _ & _).
  pose proof (head_ok_range _ _ Hok) as [Ha Hv].
  exists d, mt, ai. split; [done|]. split; [done|]. split; [done|]. split; [lia|].
  assert (is_string mt = false → any_value (any_of s d) = d_value d) as Hval.
  { intros. apply any_of_value. by rewrite Hsh. }
  unfold tcbor_is_tag, tcbor_is_array, tcbor_is_map in H.
  assert (Z.shiftr (any_header (any_of s d)) 5 = mt) as Hmaj by done. rewrite Hmaj in H.
  unfold is_string in Hval.
  destruct (Z.eqb_spec mt 4) as [E|]; [|destruct (Z.eqb_spec mt 5) as [E|];
    [|destruct (Z.eqb_spec mt 6) as [E|]]].
  - assert (announced mt (d_value d) = d_value d) as -> by by rewrite E.
    rewrite E in H, Hval. cbn in H. rewrite Hval in H by done.
    destruct (to_u64 (count - 1 + d_value d) <? count - 1) eqn:Ho in H; [done|].
    apply to_u64_overflow_inv in Ho as [Ho ?]; [|lia..]. by rewrite Ho in H.
  - assert (announced mt (d_value d) = d_value d + d_value d) as ->
      by (rewrite E; unfold announced; cbn; lia).
    rewrite E in H, Hval. cbn in H. rewrite Hval in H by done.
    destruct (to_u64 (count - 1 + d_value d) <? count - 1) eqn:Ho in H; [done|].
    apply to_u64_overflow_inv in Ho as [Ho ?]; [|lia..]. rewrite Ho in H.
    destruct (to_u64 (count - 1 + d_value d + d_value d) <? count - 1 + d_value d) eqn:Ho2 in H; [done|].
    apply to_u64_overflow_inv in Ho2 as [Ho2 ?]; [|lia..]. rewrite Ho2 in H.
    by rewrite Z.add_assoc.
  - assert (announced mt (d_value d) = 1) as -> by by rewrite E.
    rewrite Z.sub_add. split; [lia|done].
  - assert (announced mt (d_value d) = 0) as ->.
    { unfold announced. by repeat case_match; bool_facts. }
    rewrite Z.add_0_r. split; [lia|done].
Qed.

(** A head, its payload and the announced children form an item. *)
Definition assemble (mt ai v : Z) (bs : list byte) (cs : list cbor) : cbor :=
  if is_string mt then CString mt ai bs
  else if mt =? 4 then CArray ai cs
  else if mt =? 5 then CMap ai cs
  else if mt =? 6 then match cs with c :: _ => CTag ai v c | [] => CAtom mt ai v end
  else CAtom mt ai v.

Lemma assemble_item mt ai v bs cs :
  0 <= mt < 8 → head_ok ai v = true → (mt =? 7) && (ai =? 24) && (v <? 32) = false →
  (if is_string mt then v = Z.of_nat (length bs) else bs = []) →
  forallb cbor_wf cs = true → Z.of_nat (length cs) = announced mt v →
  cbor_wf (assemble mt ai v bs cs) = true ∧
  encode (assemble mt ai v bs cs) = encode_head mt ai v ++ bs ++ encode_all cs.
Proof.
  intros Hmt Hok H7 Hbs Hcs Hlen. unfold announced in Hlen. unfold assemble.
  pose proof (head_ok_range _ _ Hok) as [Ha Hv].
  destruct (is_string mt) eqn:Hstr.
  { cbn. fold (is_string mt). rewrite Hstr, <-Hbs, Hok.
    unfold is_string in Hstr. apply orb_true_iff in Hstr as []; bool_facts; subst mt;
      destruct cs; cbn in *; try lia; by rewrite app_nil_r. }
  subst bs. cbn [app].
  destruct (Z.eqb_spec mt 4) as [->|].
  { cbn. by rewrite Hlen, Hok, Hcs. }
  destruct (Z.eqb_spec mt 5) as [->|].
  { cbn. rewrite Hlen, (Z.mul_comm 2), Z.div_mul by lia.
    by rewrite Hok, Hcs, Z.even_mul, orb_true_r. }
  destruct (Z.eqb_spec mt 6) as [->|].
  { destruct cs as [|c []]; cbn in Hlen; try lia.
    cbn in Hcs |- *. by rewrite Hok, app_nil_r; destruct (cbor_wf c). }
  destruct cs; [|cbn in Hlen; lia]. cbn. rewrite Hok, H7, app_nil_r.
  split; [|done]. unfold is_string in Hstr. apply orb_false_iff in Hstr as []; bool_facts.
  destruct (Z.eqb_spec mt 0), (Z.eqb_spec mt 1), (Z.eqb_spec mt 7); cbn; try done; lia.
Qed.

Lemma skip_loop_sound fuel s count e e' r :
  span_ok s → 0 <= count < u64_modulus → skip_loop fuel (Some s) count e = Done (e', Some r) →
  ∃ l rest, Z.of_nat (length l) = count ∧ forallb cbor_wf l = true ∧
    span_bytes s = encode_all l ++ rest ∧ r = Some (span_at s rest).
Proof.
  revert s count e. induction fuel as [|fuel IH]; intros s count e Hs Hc H.
  all: destruct (Z.eq_dec count 0) as [->|Hne].
  1, 3: cbn in H; injection H as <- <-; exists [], (span_bytes s);
    by rewrite span_at_self by done.
  { cbn in H. by destruct (Z.ltb_spec 0 count); [|lia]. }
  apply skip_loop_inv in H as (d & mt & ai & Hd & Hhd & Hmt & Hai & Hmax & H); [|done|lia].
  pose proof (decode_item_head _ _ Hd) as (mt' & ai' & Hmt' & Hhd' & Hsh & Hla & Hok & H7 & Hpay & Hb).
  rewrite Hhd, shiftr_head in Hsh by lia. subst mt'.
  rewrite Hhd in Hhd'. assert (ai' = ai) as -> by lia.
  pose proof (head_ok_range _ _ Hok) as [_ Hv].
  destruct (span_at_spec s (encode_head mt ai (d_value d) ++ d_payload d) (d_rest d))
    as [Hs' Hb']; [done|by rewrite Hb, <-app_assoc|].
  assert (0 <= announced mt (d_value d)) by (unfold announced; repeat case_match; lia).
  apply IH in H as (l & rest & Hl & Hwf & Hrest & ->); [|done|lia].
  set (n := Z.to_nat (announced mt (d_value d))).
  rewrite <-(take_drop n l) in Hwf, Hrest.
  rewrite forallb_app in Hwf. apply andb_true_iff in Hwf as [Hwf1 Hwf2].
  rewrite encode_all_app in Hrest.
  destruct (assemble_item mt ai (d_value d) (d_payload d) (take n l)) as (Hc' & Henc);
    [done..|rewrite length_take; lia|].
  exists (assemble mt ai (d_value d) (d_payload d) (take n l) :: drop n l), rest. split_and!.
  - cbn [length]. rewrite length_drop. lia.
  - cbn. by rewrite Hc'.
  - rewrite encode_all_cons, Henc, Hb, <-Hb', Hrest, <-!app_assoc. done.
  - done.
Qed.

(** [tcbor_primitive_skip] succeeds exactly on well-formed data items. *)
Lemma primitive_skip_iff s n e s' :
  span_ok s → 0 <= n < u64_modulus →
  (∃ e', tcbor_primitive_skip (Some s) n e = Done (e', Some (Some s'))) ↔
  (∃ l, Z.of_nat (length l) = n ∧ forallb cbor_wf l = true ∧
    span_bytes s = encode_all l ++ span_bytes s' ∧ s' = span_at s (span_bytes s')).
Proof.
  intros Hs Hn. pose proof (span_bytes_length s Hs) as Hlen. split.
  - intros [e' H]. apply skip_loop_sound in H as (l & rest & Hl & Hwf & Hb & [= ->]); [|done..].
    destruct (span_at_spec s (encode_all l) rest Hs Hb) as [_ Hr]. exists l. by rewrite Hr.
  - intros (l & <- & Hwf & Hb & Heq). rewrite Heq. apply skip_loop_encode; [done..|].
    rewrite Hb, length_app in Hlen. lia.
Qed.

(** ** Reading one item of a context *)

Definition head_conditions (mt ai v : Z) (bs : list byte) : Prop :=
  0 <= mt < 8 ∧ head_ok ai v = true ∧ (mt =? 7) && (ai =? 24) && (v <? 32) = false ∧
  (if is_string mt then v = Z.of_nat (length bs) else bs = []).

(** The context after the [n] bytes before [rest] were consumed as one item. *)
Definition ctx_after (c : tcbor_context) (s : tcbor_span) (mt : Z) (rest : list byte) :=
  Context (Some (span_at s rest)) (if mt =? 6 then c_index c else c_index c + 1) (c_count c)
    tcbor_OK.

Lemma read_any_iff c s c' a :
  ctx_ok c → c_r c = Some s →
  tcbor_read_any c = Done (c', Some a) ↔
  tcbor_is_end_of_context c = false ∧
  ∃ mt ai v bs rest,
    head_conditions mt ai v bs ∧ span_bytes s = encode_head mt ai v ++ bs ++ rest ∧
    a = any_of s (Decoded (mt * 32 + ai) v bs rest) ∧ c' = ctx_after c s mt rest.
Proof.
  intros Hok Hr. pose proof Hok as (Hs & Hi & Hn). rewrite Hr in Hs. unfold tcbor_read_any.
  destruct (tcbor_is_end_of_context c) eqn:Hend; [by split; [|intros []]|].
  apply end_of_context_spec in Hend; [|done]. rewrite Hr, read_any_decode by done.
  cbn [mbind outcome_bind]. split.
  - destruct (decode_item (span_bytes s)) as [|d] eqn:Hd; [done|]. intros [= <- <-].
    split; [done|].
    pose proof (decode_item_head _ _ Hd) as (mt & ai & Hmt & Hhd & Hsh & _ & Hok' & H7 & Hpay & Hb).
    exists mt, ai, (d_value d), (d_payload d), (d_rest d). unfold tcbor_is_tag, ctx_after.
    cbn [any_of any_header]. rewrite Hsh, <-Hhd. split_and!; [done..|by destruct d|].
    rewrite to_u64_small by lia. by destruct (mt =? 6).
  - intros [_ (mt & ai & v & bs & rest & (Hmt & Hok' & H7 & Hpay) & Hb & -> & ->)].
    rewrite Hb, decode_item_encode by done. unfold tcbor_is_tag, ctx_after.
    cbn [any_of any_header d_header]. pose proof (head_ok_range _ _ Hok').
    rewrite shiftr_head by lia. rewrite to_u64_small by lia. by destruct (mt =? 6).
Qed.

Lemma read_matching_done {A} ty rest (c c' : tcbor_context) (x : A) :
  read_matching ty rest c = Done (c', Some x) ↔
  ∃ c1 a, tcbor_read_any c = Done (c1, Some a) ∧ ty a = true ∧ rest c c1 a = Done (c', Some x).
Proof.
  unfold read_matching. split.
  - intros H. apply or_else_done_inv in H as [(c1 & a & Hr & H)|(c1 & _ & H)]; [|done].
    destruct (ty a) eqn:Hty; [|done]. eauto.
  - intros (c1 & a & -> & Hty & H). cbn. by rewrite Hty.
Qed.

Lemma any_of_major s mt ai v bs rest :
  head_conditions mt ai v bs → Z.shiftr (any_header (any_of s (Decoded (mt * 32 + ai) v bs rest))) 5 = mt.
Proof. intros (? & H & _). apply head_ok_range in H. cbn. apply shiftr_head; lia. Qed.

Lemma head_conditions_value mt ai v : 0 <= mt < 7 → is_string mt = false → head_ok ai v = true →
  head_conditions mt ai v [].
Proof.
  intros Hmt Hs Hok. unfold head_conditions. rewrite Hs.
  destruct (Z.eqb_spec mt 7); [lia|]. split_and!; done || lia.
Qed.

(** The readers of one major type that store the argument. *)
Lemma read_value_iff mt ty c s c' v :
  ctx_ok c → c_r c = Some s → 0 <= mt < 7 → is_string mt = false →
  (∀ a, ty a = (Z.shiftr (any_header a) 5 =? mt)) →
  read_matching ty (fun _ ctx any => Done (ctx, Some (any_value any))) c = Done (c', Some v) ↔
  tcbor_is_end_of_context c = false ∧
  ∃ ai rest, head_ok ai v = true ∧ span_bytes s = encode_head mt ai v ++ rest ∧
    c' = ctx_after c s mt rest.
Proof.
  intros Hok Hr Hmt Hstr Hty. rewrite read_matching_done. split.
  - intros (c1 & a & Ha & Hta & [= -> <-]). rewrite (read_any_iff c s) in Ha by done.
    destruct Ha as (Hend & mt' & ai & v & bs & rest & Hhc & Hb & -> & ->).
    rewrite Hty, any_of_major in Hta by done. apply Z.eqb_eq in Hta as ->.
    destruct Hhc as (_ & Hok' & _ & Hbs). rewrite Hstr in Hbs. subst bs.
    split; [done|]. exists ai, rest. pose proof (head_ok_range _ _ Hok').
    rewrite any_of_value by (cbn; rewrite shiftr_head by lia; done). done.
  - intros (Hend & ai & rest & Hok' & Hb & ->). pose proof (head_ok_range _ _ Hok').
    pose proof (head_conditions_value mt ai v Hmt Hstr Hok') as Hhc.
    eexists _, (any_of s (Decoded (mt * 32 + ai) v [] rest)). split_and!.
    + apply (read_any_iff c s); [done..|]. split; [done|]. by exists mt, ai, v, [], rest.
    + rewrite Hty, any_of_major by done. apply Z.eqb_refl.
    + rewrite any_of_value; [done|]. cbn. by rewrite shiftr_head by lia.
Qed.

Lemma read_uint_iff c s c' v :
  ctx_ok c → c_r c = Some s →
  tcbor_read_uint c = Done (c', Some v) ↔
  tcbor_is_end_of_context c = false ∧
  ∃ ai rest, head_ok ai v = true ∧ span_bytes s = encode_head 0 ai v ++ rest ∧
    c' = ctx_after c s 0 rest.
Proof. intros. by apply read_value_iff. Qed.

Lemma read_nint_iff c s c' v :
  ctx_ok c → c_r c = Some s →
  tcbor_read_nint c = Done (c', Some v) ↔
  tcbor_is_end_of_context c = false ∧
  ∃ ai rest, head_ok ai v = true ∧ span_bytes s = encode_head 1 ai v ++ rest ∧
    c' = ctx_after c s 1 rest.
Proof. intros. by apply read_value_iff. Qed.

Lemma read_tag_iff c s c' v :
  ctx_ok c → c_r c = Some s →
  tcbor_read_tag c = Done (c', Some v) ↔
  tcbor_is_end_of_context c = false ∧
  ∃ ai rest, head_ok ai v = true ∧ span_bytes s = encode_head 6 ai v ++ rest ∧
    c' = ctx_after c s 6 rest.
Proof. intros. by apply read_value_iff. Qed.

(** The span of the payload that ends where [rest] begins. *)
Definition payload_span (s : tcbor_span) (bs rest : list byte) : tcbor_span :=
  let q := sp_end s - Z.of_nat (length rest) in
  Span (sp_buf s) (q - Z.of_nat (length bs)) q.

Lemma payload_span_bytes s pre bs rest :
  span_ok s → span_bytes s = pre ++ bs ++ rest → span_bytes (payload_span s bs rest) = bs.
Proof.
  intros Hs Hb. pose proof (span_bytes_length s Hs) as Hlen. pose proof Hs as [Hs1 Hs2].
  rewrite Hb, !length_app in Hlen. cbn [range_len] in Hlen.
  destruct (span_at_spec s pre (bs ++ rest) Hs Hb) as [_ Hb'].
  unfold span_bytes in *. cbn in *. rewrite length_app in Hb'.
  replace (sp_end s - Z.of_nat (length bs + length rest))
    with (sp_end s - Z.of_nat (length rest) - Z.of_nat (length bs)) in Hb' by lia.
  rewrite (slice_split _ _ (sp_end s - Z.of_nat (length rest))) in Hb' by lia.
  apply app_inj_1 in Hb' as [-> _]; [done|].
  pose proof (slice_length (sp_buf s) (sp_end s - Z.of_nat (length rest) - Z.of_nat (length bs))
    (sp_end s - Z.of_nat (length rest))). lia.
Qed.

(** The readers of strings store the range of the payload. *)
Lemma read_string_iff mt ty c s c' r :
  ctx_ok c → c_r c = Some s → is_string mt = true →
  (∀ a, ty a = (Z.shiftr (any_header a) 5 =? mt)) →
  read_matching ty (fun _ ctx any => Done (ctx, Some (any_bytes any))) c = Done (c', Some r) ↔
  tcbor_is_end_of_context c = false ∧
  ∃ ai bs rest, head_ok ai (Z.of_nat (length bs)) = true ∧
    span_bytes s = encode (CString mt ai bs) ++ rest ∧
    r = Some (payload_span s bs rest) ∧ c' = ctx_after c s mt rest.
Proof.
  intros Hok Hr Hstr Hty. rewrite read_matching_done.
  assert (0 <= mt < 7) as Hmt.
  { unfold is_string in Hstr. apply orb_true_iff in Hstr as []; bool_facts; lia. }
  assert (∀ ai v bs rest, 0 <= ai < 32 → v = Z.of_nat (length bs) →
    any_bytes (any_of s (Decoded (mt * 32 + ai) v bs rest)) = Some (payload_span s bs rest)) as Hany.
  { intros ai v bs rest ? ->. unfold any_bytes, any_of; cbn.
    rewrite shiftr_head by lia. fold (is_string mt). by rewrite Hstr. }
  split.
  - intros (c1 & a & Ha & Hta & [= -> <-]). rewrite (read_any_iff c s) in Ha by done.
    destruct Ha as (Hend & mt' & ai & v & bs & rest & Hhc & Hb & -> & ->).
    rewrite Hty, any_of_major in Hta by done. apply Z.eqb_eq in Hta as ->.
    destruct Hhc as (_ & Hok' & _ & Hbs). rewrite Hstr in Hbs. subst v.
    split; [done|]. exists ai, bs, rest. pose proof (head_ok_range _ _ Hok').
    cbn [encode]. rewrite Hany, <-app_assoc by (done || lia). done.
  - intros (Hend & ai & bs & rest & Hok' & Hb & -> & ->). pose proof (head_ok_range _ _ Hok').
    assert (head_conditions mt ai (Z.of_nat (length bs)) bs) as Hhc.
    { unfold head_conditions. rewrite Hstr. destruct (Z.eqb_spec mt 7); [lia|].
      split_and!; done || lia. }
    eexists _, (any_of s (Decoded (mt * 32 + ai) _ bs rest)). split_and!.
    + apply (read_any_iff c s); [done..|]. split; [done|].
      exists mt, ai, (Z.of_nat (length bs)), bs, rest. cbn [encode] in Hb.
      by rewrite <-app_assoc in Hb.
    + rewrite Hty, any_of_major by done. apply Z.eqb_refl.
    + rewrite Hany by (done || lia). done.
Qed.

(** ** Integers *)

Lemma to_int_to_u64 z : INT_MIN <= z <= INT_MAX → to_int (to_u64 z) = z.
Proof.
  intros Hz. rewrite <-(to_int_id z) at 2 by done. unfold to_int, to_u64.
  assert ((z mod u64_modulus) mod u32_modulus = z mod u32_modulus) as ->; [|done].
  apply Z.mod_mod_divide. by exists 4294967296.
Qed.

Lemma not_u64_to_u64 z : not_u64 (to_u64 (not_int z)) = to_u64 z.
Proof.
  unfold not_u64, to_u64, not_int.
  pose proof (Z.div_mod (- z - 1) u64_modulus ltac:(done)) as Hd.
  pose proof (Z.mod_pos_bound (- z - 1) u64_modulus ltac:(done)) as Hb.
  apply (Z.mod_unique _ _ (- ((- z - 1) / u64_modulus) - 1)); [left|]; unfold u64_modulus in *; lia.
Qed.

Lemma read_int_iff c s c' z :
  ctx_ok c → c_r c = Some s →
  tcbor_read_int c = Done (c', Some z) ↔
  tcbor_is_end_of_context c = false ∧ INT_MIN <= z <= INT_MAX ∧
  ∃ mt ai v rest,
    (mt = 0 ∧ v = to_u64 z ∨ mt = 1 ∧ v = to_u64 (not_int z)) ∧
    head_ok ai v = true ∧ span_bytes s = encode_head mt ai v ++ rest ∧ c' = ctx_after c s mt rest.
Proof.
  intros Hok Hr. unfold tcbor_read_int. split.
  - intros H. apply or_else_done_inv in H as [(c1 & v & Hu & H)|(c1 & Hu & H)].
    + destruct (Z.eqb_spec (to_u64 (to_int v)) v) as [He|]; [|done].
      injection H as -> <-. apply (read_uint_iff c s) in Hu as (Hend & ai & rest & Hu); [|done..].
      split; [done|]. split; [apply to_int_range|]. exists 0, ai, v, rest. auto.
    + pose proof (read_uint_spec c Hok) as Hsame. rewrite Hu in Hsame. cbn in Hsame.
      apply or_else_done_inv in H as [(c2 & v & Hn & H)|(c2 & _ & H)]; [|done].
      destruct (Z.eqb_spec (to_u64 (not_int (to_int (not_u64 v)))) v) as [He|]; [|done].
      injection H as -> <-. rewrite Hsame in Hn.
      apply (read_nint_iff _ s) in Hn as (Hend & ai & rest & Hn); [|done..].
      split; [done|]. split; [apply to_int_range|]. exists 1, ai, v, rest. auto.
  - intros (Hend & Hz & mt & ai & v & rest & Hv & Hok' & Hb & ->).
    destruct Hv as [[-> ->]|[-> ->]].
    + rewrite (proj2 (read_uint_iff c s (ctx_after c s 0 rest) (to_u64 z) Hok Hr)) by (split; [done|by exists ai, rest]).
      cbn [or_else]. by rewrite to_int_to_u64, Z.eqb_refl.
    + destruct (wp_elim _ _ (read_uint_spec c Hok)) as ([c1 [v|]] & Hu & Hsame).
      { exfalso. apply (read_uint_iff c s) in Hu as (_ & ai' & rest' & Hok0 & Hb' & _); [|done..].
        rewrite Hb in Hb'. apply (f_equal decode_item) in Hb'.
        pose proof (head_ok_range _ _ Hok'). pose proof (head_ok_range _ _ Hok0).
        pose proof (decode_item_encode 1 ai (to_u64 (not_int z)) [] rest
          ltac:(lia) Hok' eq_refl eq_refl) as He1.
        pose proof (decode_item_encode 0 ai' v [] rest' ltac:(lia) Hok0 eq_refl eq_refl) as He0.
        cbn [app] in He0, He1. rewrite He0, He1 in Hb'. injection Hb' as Hh _ _. lia. }
      rewrite Hu, Hsame. cbn [or_else].
      rewrite (proj2 (read_nint_iff (set_error c (c_error c1)) s (ctx_after c s 1 rest)
        (to_u64 (not_int z)) Hok Hr)) by (split; [done|by exists ai, rest]).
      cbn [or_else]. by rewrite not_u64_to_u64, to_int_to_u64, Z.eqb_refl.
Qed.
