(* ===== verification/CborTree.v ===== *)
(** * CborTree: readers on encoded items

    [at_items c l rest]: the context [c] stands before the encodings of the
    well-formed items [l] that are left in it, followed by [rest].  The lemmas
    compute what every reader does there, so that a parser can be compared with
    a function on trees.  [decode_map] finds the tree in some bytes. *)

From S2P Require Import Prelude Tcbor TcborFacts CborSpec.

Local Open Scope Z_scope.

(** [n] items are left, and the input starts with [bs]. *)
Definition at_bytes (c : tcbor_context) (n : Z) (bs : list byte) : Prop :=
  ctx_ok c ∧ c_count c - c_index c = n ∧ ∃ s, c_r c = Some s ∧ span_bytes s = bs.

Definition at_items (c : tcbor_context) (l : list cbor) (rest : list byte) : Prop :=
  forallb cbor_wf l = true ∧ at_bytes c (Z.of_nat (length l)) (encode_all l ++ rest).

Lemma at_items_end c l rest :
  at_items c l rest → tcbor_is_end_of_context c = (match l with [] => true | _ => false end).
Proof.
  intros (_&_&Hn&_). unfold tcbor_is_end_of_context. destruct l; cbn in Hn.
  - apply Z.eqb_eq. lia.
  - apply Z.eqb_neq. lia.
Qed.

Lemma at_items_ok c l rest : at_items c l rest → ctx_ok c.
Proof. by intros (_&?&_). Qed.

(** The item [a] that [tcbor_read_any] stores for the tree [x]. *)
Definition any_is (x : cbor) (a : tcbor_any) : Prop :=
  let '(mt, ai, v) := item_head x in
  any_header a = mt * 32 + ai ∧ Z.shiftr (any_header a) 5 = mt ∧ Z.land (any_header a) 31 = ai ∧
  if is_string mt then ∃ s, any_bytes a = Some s ∧ span_bytes s = item_payload x ∧ span_ok s
  else any_value a = v.

Lemma payload_span_ok s pre bs rest :
  span_ok s → span_bytes s = pre ++ bs ++ rest → span_ok (payload_span s bs rest).
Proof.
  intros Hs Hb. pose proof (span_bytes_length s Hs) as Hlen. destruct Hs.
  rewrite Hb, !length_app in Hlen. unfold span_ok; cbn in *. lia.
Qed.

(** One head is read; its children come next. *)
Lemma at_read_any c x l rest :
  at_items c (x :: l) rest →
  ∃ c' a, tcbor_read_any c = Done (c', Some a) ∧ any_is x a ∧
    at_bytes c' (Z.of_nat (length l) + (if tcbor_is_tag a then 1 else 0))
      (encode_all (item_children x) ++ encode_all l ++ rest).
Proof.
  intros (Hwf&Hok&Hn&s&Hr&Hb). cbn [forallb] in Hwf. apply andb_true_iff in Hwf as [Hx Hl].
  destruct (item_head x) as [[mt ai] v] eqn:Hh.
  destruct (cbor_wf_head x mt ai v Hx Hh) as (Hmt&Hhok&H7&Hpay&_).
  pose proof (head_ok_range _ _ Hhok) as [Hai _].
  rewrite encode_all_cons, (encode_unfold x mt ai v Hh), <-!app_assoc in Hb.
  set (rest' := encode_all (item_children x) ++ encode_all l ++ rest) in *.
  assert (head_conditions mt ai v (item_payload x)) as Hhc by done.
  assert (span_ok s) as Hs. { destruct Hok as [H _]. by rewrite Hr in H. }
  assert (tcbor_is_end_of_context c = false) as Hend.
  { unfold tcbor_is_end_of_context. apply Z.eqb_neq. cbn in Hn. lia. }
  set (a := any_of s (Decoded (mt * 32 + ai) v (item_payload x) rest')).
  assert (Z.shiftr (any_header a) 5 = mt) as Ha by by apply any_of_major.
  exists (ctx_after c s mt rest'), a. split_and!.
  - apply (read_any_iff c s); [done..|]. split; [done|]. by exists mt, ai, v, (item_payload x), rest'.
  - unfold any_is. rewrite Hh. split_and!; [done..| |].
    + cbn. rewrite land31. by apply to_byte_head; lia.
    + destruct (is_string mt) eqn:Hstr.
      * unfold a, any_of, any_bytes; cbn. rewrite shiftr_head by lia. fold (is_string mt). rewrite Hstr.
        eexists. split; [done|]. rewrite Hpay.
        split; [by eapply (payload_span_bytes s (encode_head mt ai v))|].
        by eapply (payload_span_ok s (encode_head mt ai v)).
      * unfold a. rewrite any_of_value; [done|]. cbn. by rewrite shiftr_head by lia.
  - unfold tcbor_is_tag. rewrite Ha.
    rewrite app_assoc in Hb.
    destruct (span_at_spec s (encode_head mt ai v ++ item_payload x) rest' Hs Hb) as [Hs' Hb'].
    unfold at_bytes, ctx_after, ctx_ok in *; cbn in *.
    destruct (mt =? 6); split_and!; try done; try lia; by exists (span_at s rest').
Qed.

(** ** Typed readers *)

(** A typed reader accepts or rejects by the head of the next item. *)
Lemma at_read_matching {A} ty (f : tcbor_context → tcbor_context → tcbor_any →
    outcome (tcbor_context * option A)) c x l rest :
  at_items c (x :: l) rest →
  ∃ c' a, any_is x a ∧
    at_bytes c' (Z.of_nat (length l) + (if tcbor_is_tag a then 1 else 0))
      (encode_all (item_children x) ++ encode_all l ++ rest) ∧
    read_matching ty f c =
      if ty a then f c c' a else Done (tcbor_fail (set_error c' tcbor_NOT_MATCH) c, None).
Proof.
  intros H. destruct (at_read_any c x l rest H) as (c'&a&He&Ha&Hb). exists c', a.
  split_and!; try done. unfold read_matching. by rewrite He.
Qed.

Lemma at_bytes_items c x l rest :
  forallb cbor_wf (x :: l) = true →
  at_bytes c (Z.of_nat (length l)) (encode_all l ++ rest) → at_items c l rest.
Proof. cbn. intros [_ ?]%andb_true_iff ?. done. Qed.

Definition item_uint (x : cbor) : option Z :=
  match x with CAtom mt _ v => if mt =? 0 then Some v else None | _ => None end.

Definition item_nint (x : cbor) : option Z :=
  match x with CAtom mt _ v => if mt =? 1 then Some v else None | _ => None end.

Definition item_string (mt : Z) (x : cbor) : option (list byte) :=
  match x with CString mt' _ bs => if mt' =? mt then Some bs else None | _ => None end.

(** The value [tcbor_read_int] gives to an item. *)
Definition item_int (x : cbor) : option Z :=
  match item_uint x, item_nint x with
  | Some v, _ => if to_u64 (to_int v) =? v then Some (to_int v) else None
  | None, Some v =>
      if to_u64 (not_int (to_int (not_u64 v))) =? v then Some (to_int (not_u64 v)) else None
  | None, None => None
  end.

Lemma any_is_major x a : any_is x a → Z.shiftr (any_header a) 5 = (item_head x).1.1.
Proof. unfold any_is. destruct (item_head x) as [[mt ai] v]. by intros (_&?&_). Qed.

(** Outcome of a reader whose value is an observation [obs] of the item. *)
Definition reads {A B} (m : outcome (tcbor_context * option A)) (c : tcbor_context)
    (obs : option B) (P : tcbor_context → A → B → Prop) : Prop :=
  match obs with
  | Some b => ∃ c' a, m = Done (c', Some a) ∧ P c' a b
  | None => ∃ c', m = Done (c', None) ∧ ctx_same c c'
  end.

Section readers.
Context (c : tcbor_context) (x : cbor) (l : list cbor) (rest : list byte).
Hypothesis Hc : at_items c (x :: l) rest.

Let Hwf : cbor_wf x = true.
Proof. destruct Hc as [H _]. cbn in H. by apply andb_true_iff in H as []. Qed.

Let Hwfl : forallb cbor_wf l = true.
Proof. destruct Hc as [H _]. cbn in H. by apply andb_true_iff in H as []. Qed.

(** Readers of the argument of an atom of major type [mt]. *)
Lemma at_read_atom mt ty :
  0 <= mt < 2 → (∀ a, ty a = (Z.shiftr (any_header a) 5 =? mt)) →
  reads (read_matching ty (fun _ ctx any => Done (ctx, Some (any_value any))) c) c
    (match x with CAtom mt' _ v => if mt' =? mt then Some v else None | _ => None end)
    (fun c' a v => a = v ∧ at_items c' l rest).
Proof.
  intros Hmt Hty.
  destruct (at_read_matching ty (fun _ ctx any => Done (ctx, Some (any_value any))) c x l rest Hc)
    as (c'&a&Ha&Hb&->).
  rewrite Hty. unfold tcbor_is_tag in Hb. rewrite (any_is_major _ _ Ha) in *.
  unfold any_is in Ha. destruct x as [mt' ai v|mt' ai bs|ai k|ai k|ai v y];
    cbn [item_head fst snd item_string reads item_payload item_children encode_all flat_map app cbor_wf] in *.
  - destruct (Z.eqb_spec mt' mt) as [->|]; cbn; [|eexists; split; [done|by apply ctx_same_fail]].
    destruct Ha as (_&_&_&Ha). exists c', (any_value a). split; [done|].
    assert (is_string mt = false) as Hs.
    { unfold is_string. apply orb_false_iff. split; apply Z.eqb_neq; lia. }
    rewrite Hs in Ha. split; [done|]. split; [done|].
    destruct (Z.eqb_spec mt 6); [lia|]. by rewrite Z.add_0_r in Hb.
  - assert ((mt' =? mt) = false) as ->; [|eexists; split; [done|by apply ctx_same_fail]].
    apply Z.eqb_neq. apply andb_true_iff in Hwf as [Hs _]. apply orb_true_iff in Hs as [];
      bool_facts; lia.
  - destruct (Z.eqb_spec 4 mt); [lia|]. eexists; split; [done|by apply ctx_same_fail].
  - destruct (Z.eqb_spec 5 mt); [lia|]. eexists; split; [done|by apply ctx_same_fail].
  - destruct (Z.eqb_spec 6 mt); [lia|]. eexists; split; [done|by apply ctx_same_fail].
Qed.

Lemma at_read_uint :
  reads (tcbor_read_uint c) c (item_uint x) (fun c' a v => a = v ∧ at_items c' l rest).
Proof. by apply at_read_atom. Qed.

Lemma at_read_nint :
  reads (tcbor_read_nint c) c (item_nint x) (fun c' a v => a = v ∧ at_items c' l rest).
Proof. by apply at_read_atom. Qed.

(** Readers of the payload of a string of major type [mt]. *)
Lemma at_read_string mt ty :
  is_string mt = true → (∀ a, ty a = (Z.shiftr (any_header a) 5 =? mt)) →
  reads (read_matching ty (fun _ ctx any => Done (ctx, Some (any_bytes any))) c) c
    (item_string mt x)
    (fun c' r bs => at_items c' l rest ∧ ∃ s, r = Some s ∧ span_ok s ∧ span_bytes s = bs).
Proof.
  intros Hmt Hty.
  destruct (at_read_matching ty (fun _ ctx any => Done (ctx, Some (any_bytes any))) c x l rest Hc)
    as (c'&a&Ha&Hb&->).
  rewrite Hty. unfold tcbor_is_tag in Hb. rewrite (any_is_major _ _ Ha) in *.
  assert (0 <= mt < 4 ∧ mt ≠ 0 ∧ mt ≠ 1) as Hm.
  { unfold is_string in Hmt. apply orb_true_iff in Hmt as []; bool_facts; lia. }
  unfold any_is in Ha. destruct x as [mt' ai v|mt' ai bs|ai k|ai k|ai v y];
    cbn [item_head fst snd item_string reads item_payload item_children encode_all flat_map app cbor_wf] in *.
  - assert ((mt' =? mt) = false) as ->; [|eexists; split; [done|by apply ctx_same_fail]].
    apply Z.eqb_neq. apply andb_true_iff in Hwf as [Hs _]. apply andb_true_iff in Hs as [Hs _].
    repeat (apply orb_true_iff in Hs as [Hs|Hs]); bool_facts; lia.
  - destruct (Z.eqb_spec mt' mt) as [->|]; cbn; [|eexists; split; [done|by apply ctx_same_fail]].
    destruct Ha as (_&_&_&Ha). rewrite Hmt in Ha. destruct Ha as (s&Hs&?&?).
    eexists c', _. split; [done|]. split; [|by exists s]. split; [done|].
    destruct (Z.eqb_spec mt 6); [lia|]. by rewrite Z.add_0_r in Hb.
  - destruct (Z.eqb_spec 4 mt); [lia|]. eexists; split; [done|by apply ctx_same_fail].
  - destruct (Z.eqb_spec 5 mt); [lia|]. eexists; split; [done|by apply ctx_same_fail].
  - destruct (Z.eqb_spec 6 mt); [lia|]. eexists; split; [done|by apply ctx_same_fail].
Qed.

Lemma at_read_bstr :
  reads (tcbor_read_bstr c) c (item_string 2 x)
    (fun c' r bs => at_items c' l rest ∧ ∃ s, r = Some s ∧ span_ok s ∧ span_bytes s = bs).
Proof. by apply at_read_string. Qed.

Lemma at_read_tstr :
  reads (tcbor_read_tstr c) c (item_string 3 x)
    (fun c' r bs => at_items c' l rest ∧ ∃ s, r = Some s ∧ span_ok s ∧ span_bytes s = bs).
Proof. by apply at_read_string. Qed.


End readers.

Lemma at_items_same c0 c1 k rest0 : ctx_same c0 c1 → at_items c0 k rest0 → at_items c1 k rest0.
Proof. by intros ->. Qed.

Lemma at_read_int c x l rest :
  at_items c (x :: l) rest →
  reads (tcbor_read_int c) c (item_int x) (fun c' a v => a = v ∧ at_items c' l rest).
Proof.
  intros Hc. unfold tcbor_read_int, item_int. pose proof (at_read_uint c x l rest Hc) as Hu. destruct (item_uint x) as [v|].
  - destruct Hu as (c'&a&->&->&?). cbn. destruct (Z.eqb_spec (to_u64 (to_int v)) v); cbn; eauto.
    eexists. split; [done|by apply ctx_same_fail].
  - destruct Hu as (c1&->&Hs). cbn. assert (Hn : at_items c1 (x :: l) rest) by by eapply at_items_same.
    eapply at_read_nint in Hn. destruct (item_nint x) as [v|].
    + destruct Hn as (c'&a&->&->&?). cbn.
      destruct (Z.eqb_spec (to_u64 (not_int (to_int (not_u64 v)))) v); cbn; eauto.
      eexists. split; [done|by apply ctx_same_fail].
    + destruct Hn as (c2&->&_). cbn. eexists. split; [done|by apply ctx_same_fail].
Qed.


(** The single items read by the remaining typed readers. *)
Definition item_array (x : cbor) : option (list cbor) :=
  match x with CArray _ k => Some k | _ => None end.

Definition item_map (x : cbor) : option (list cbor) :=
  match x with CMap _ k => Some k | _ => None end.

(** The parent context of a container: the items after it are left, and the
    input still starts with the bytes [inside] of the container. *)
Definition at_parent (c : tcbor_context) (inside : list byte) (l : list cbor) (rest : list byte) :=
  forallb cbor_wf l = true ∧ at_bytes c (Z.of_nat (length l)) (inside ++ encode_all l ++ rest).

Lemma at_open c n inside l rest k :
  at_parent c inside l rest → forallb cbor_wf k = true → inside = encode_all k →
  n = Z.of_nat (length k) → n < u64_modulus →
  at_items (tcbor_open c n) k (encode_all l ++ rest).
Proof.
  intros (_&Hok&_&s&Hr&Hb) Hk -> -> Hn. split; [done|]. unfold at_bytes, ctx_ok in *; cbn.
  destruct_and?; split_and!; try done; try lia; by eauto.
Qed.

Lemma at_close c inside l rest child :
  at_parent c inside l rest → at_items child [] (encode_all l ++ rest) →
  ∃ c', tcbor_close c child = Done (c', Some tt) ∧ at_items c' l rest.
Proof.
  intros (Hl&Hok&Hn&_) Hc. unfold tcbor_close. rewrite (at_items_end _ _ _ Hc); cbn.
  eexists. split; [done|]. destruct Hc as (_&Hokc&_&Hs). split; [done|].
  unfold at_bytes, ctx_ok in *; cbn in *. destruct_and?; split_and!; try done; try lia; by eauto.
Qed.

(** A container that still has items is not closed. *)
Lemma at_close_more c child x l rest :
  at_items child (x :: l) rest → ∃ c', tcbor_close c child = Done (c', None).
Proof. intros Hc. unfold tcbor_close. rewrite (at_items_end _ _ _ Hc). cbn. eauto. Qed.

(** *** Skipping *)

Lemma at_skip c l1 l2 rest :
  at_items c (l1 ++ l2) rest → Z.of_nat (length l1) < u64_modulus →
  ∃ c', tcbor_skip (Z.of_nat (length l1)) c = Done (c', Some tt) ∧ at_items c' l2 rest.
Proof.
  intros (Hwf&Hok&Hn&s&Hr&Hb) Hlen. rewrite forallb_app in Hwf. apply andb_true_iff in Hwf as [H1 H2].
  rewrite length_app in Hn. pose proof Hok as (Hrng&Hi&Hcn). unfold tcbor_skip.
  rewrite to_u64_small by lia. destruct (Z.ltb_spec (c_count c - c_index c) (Z.of_nat (length l1))); [lia|].
  rewrite encode_all_app, <-app_assoc in Hb. rewrite Hr in *. cbn in Hrng.
  destruct (skip_loop_encode (S (Z.to_nat (range_len (Some s)))) s l1 (encode_all l2 ++ rest) (c_error c))
    as (e'&He); try done.
  { pose proof (span_bytes_length s Hrng) as Hsl. rewrite Hb, length_app in Hsl. lia. }
  unfold tcbor_primitive_skip. rewrite He. cbn. eexists. split; [done|].
  split; [done|]. destruct (span_at_spec s _ _ Hrng Hb) as [? ?].
  unfold at_bytes, ctx_ok; cbn. rewrite to_u64_small by lia. split_and!; try lia; eauto.
Qed.

Lemma at_skip_one c x l rest :
  at_items c (x :: l) rest → ∃ c', tcbor_skip 1 c = Done (c', Some tt) ∧ at_items c' l rest.
Proof. intros H. by apply (at_skip c [x] l rest). Qed.

Lemma at_items_count c l rest : at_items c l rest → Z.of_nat (length l) < u64_modulus.
Proof. intros (_&(_&?&?)&?&_). lia. Qed.

Lemma at_skip_all c l rest :
  at_items c l rest → ∃ c', tcbor_skip_all c = Done (c', Some tt) ∧ at_items c' [] rest.
Proof.
  intros H. pose proof (at_items_count _ _ _ H). unfold tcbor_skip_all.
  pose proof H as (_&(_&?&?)&Hn&_). rewrite to_u64_small by lia. rewrite Hn.
  apply at_skip; [|done]. by rewrite app_nil_r.
Qed.

(** A reader at the end of its context fails. *)
Lemma at_end_read_any c rest :
  at_items c [] rest → tcbor_read_any c = Done (set_error c tcbor_END_OF_CONTEXT, None).
Proof. intros H. unfold tcbor_read_any. by rewrite (at_items_end _ _ _ H). Qed.

(** *** Containers *)

Section containers.
Context (c : tcbor_context) (x : cbor) (l : list cbor) (rest : list byte).
Hypothesis Hc : at_items c (x :: l) rest.

Lemma at_read_container mt ty f (m : tcbor_context → tcbor_context → tcbor_any → outcome (tcbor_context * option tcbor_context)) :
  (mt = 4 ∧ f = item_array) ∨ (mt = 5 ∧ f = item_map) →
  (∀ a, ty a = (Z.shiftr (any_header a) 5 =? mt)) →
  (∀ s c' a k, any_is x a → f x = Some k → at_parent c' (encode_all k) l rest →
    m s c' a = Done (c', Some (tcbor_open c' (Z.of_nat (length k))))) →
  (∀ k, f x = Some k → Z.of_nat (length k) < u64_modulus) →
  reads (read_matching ty m c) c (f x)
    (fun c' arr k => at_items arr k (encode_all l ++ rest) ∧ at_parent c' (encode_all k) l rest).
Proof.
  intros Hf Hty Hm Hlen. destruct (at_read_matching ty m c x l rest Hc) as (c'&a&Ha&Hb&->).
  rewrite Hty. unfold tcbor_is_tag in Hb. rewrite (any_is_major _ _ Ha) in *.
  pose proof Hc as [Hwf _]. cbn [forallb] in Hwf. apply andb_true_iff in Hwf as [Hx Hl].
  destruct (f x) as [k|] eqn:Hfx.
  - assert ((item_head x).1.1 = mt ∧ item_children x = k ∧ forallb cbor_wf k = true) as (Hmt&Hk&Hwk).
    { destruct Hf as [[-> ->]|[-> ->]], x; try done; injection Hfx as ->; cbn in *;
        repeat (apply andb_true_iff in Hx as [Hx ?]); done. }
    rewrite Hmt, Z.eqb_refl. rewrite Hmt in Hb.
    assert (at_parent c' (encode_all k) l rest) as Hp.
    { split; [done|]. rewrite Hk in Hb. destruct (Z.eqb_spec mt 6); [destruct Hf as [[]|[]]; lia|].
      by rewrite Z.add_0_r in Hb. }
    rewrite (Hm c c' a k) by done. eexists _, _. split; [done|]. split; [|done].
    by eapply at_open; eauto.
  - assert (((item_head x).1.1 =? mt) = false) as ->; [|eexists; split; [done|by apply ctx_same_fail]].
    apply Z.eqb_neq. destruct Hf as [[-> ->]|[-> ->]], x; cbn in *; try done.
    all: intros ->; bool_facts; done.
Qed.

Lemma at_children_count : Z.of_nat (length (item_children x)) < u64_modulus.
Proof.
  destruct Hc as (_&(Hr&_)&_&s&Hs&Hb). rewrite Hs in Hr. cbn in Hr.
  pose proof (span_bytes_length s Hr) as Hlen. destruct (item_head x) as [[mt ai] v] eqn:Hh.
  rewrite Hb, encode_all_cons, (encode_unfold x mt ai v Hh), !length_app in Hlen.
  pose proof (encode_all_length (item_children x)). destruct Hr as [? ?].
  cbn in Hlen. unfold PTRDIFF_MAX, u64_modulus in *. lia.
Qed.

Lemma at_read_array :
  reads (tcbor_read_array c) c (item_array x)
    (fun c' arr k => at_items arr k (encode_all l ++ rest) ∧ at_parent c' (encode_all k) l rest).
Proof.
  pose proof Hc as [Hwf _]. cbn [forallb] in Hwf. apply andb_true_iff in Hwf as [Hx _].
  apply (at_read_container 4); [by left|done| |].
  - intros s c' a k Ha Hk _. destruct x; try done. injection Hk as ->. cbn in Ha.
    by destruct Ha as (_&_&_&->).
  - intros k Hk. pose proof at_children_count. destruct x; try done. by injection Hk as ->.
Qed.

Lemma at_read_map :
  reads (tcbor_read_map c) c (item_map x)
    (fun c' arr k => at_items arr k (encode_all l ++ rest) ∧ at_parent c' (encode_all k) l rest).
Proof.
  pose proof at_children_count as Hlen.
  pose proof Hc as [Hwf _]. cbn [forallb] in Hwf. apply andb_true_iff in Hwf as [Hx _].
  apply (at_read_container 5); [by right|done| |].
  2: { intros k Hk. destruct x; try done. by injection Hk as ->. }
  intros s c' a k Ha Hk _. destruct x as [| | |ai k'|]; try done.
  injection Hk as ->. destruct (cbor_wf_head (CMap ai k) 5 ai (Z.of_nat (length k) / 2) Hx eq_refl)
    as (_&Hh&_&_&_&He). cbn in He. apply head_ok_range in Hh as [_ ?].
  cbn in Ha. destruct Ha as (_&_&_&->).
  cbn in Hlen. set (n := Z.of_nat (length k) / 2) in *.
  destruct (to_u64_no_overflow n n) as [-> Ho]; [lia..|].
  destruct (Z.ltb_spec (n + n) n); [lia|]. do 4 f_equal. lia.
Qed.

End containers.

(** *** Top level, tags and keys *)

Lemma at_toplevel s x rest :
  span_ok s → cbor_wf x = true → span_bytes s = encode x ++ rest →
  at_items (tcbor_toplevel (Some s)) [x] rest.
Proof.
  intros Hs Hx Hb. split; [cbn; by rewrite Hx|]. split; [by apply toplevel_ok|]. split; [done|].
  exists s. cbn. by rewrite app_nil_r.
Qed.

Lemma at_read_tag c ai v y l rest :
  at_items c (CTag ai v y :: l) rest →
  ∃ c', tcbor_read_tag c = Done (c', Some v) ∧ at_items c' (y :: l) rest.
Proof.
  intros H. destruct (at_read_matching tcbor_is_tag (fun _ ctx any => Done (ctx, Some (any_value any)))
    c _ l rest H) as (c'&a&Ha&Hb&He).
  unfold tcbor_read_tag. rewrite He. unfold tcbor_is_tag in *.
  rewrite (any_is_major _ _ Ha) in *. cbn in *. destruct Ha as (_&_&_&->).
  eexists. split; [done|]. destruct H as [Hwf _]. cbn in Hwf.
  apply andb_true_iff in Hwf as [[_ Hy]%andb_true_iff Hl].
  split; [by apply andb_true_iff|]. rewrite app_nil_r in Hb.
  rewrite encode_all_cons, <-app_assoc. cbn [length].
  by replace (Z.of_nat (S (length l))) with (Z.of_nat (length l) + 1) by lia.
Qed.

Lemma at_read_tag_other c x l rest :
  at_items c (x :: l) rest → (match x with CTag _ _ _ => False | _ => True end) →
  ∃ c', tcbor_read_tag c = Done (c', None).
Proof.
  intros H Hx. destruct (at_read_matching tcbor_is_tag (fun _ ctx any => Done (ctx, Some (any_value any)))
    c _ l rest H) as (c'&a&Ha&Hb&He).
  unfold tcbor_read_tag. rewrite He. unfold tcbor_is_tag in *.
  rewrite (any_is_major _ _ Ha) in *. pose proof H as [Hwf _]. cbn [forallb] in Hwf.
  apply andb_true_iff in Hwf as [Hw _].
  assert (((item_head x).1.1 =? 6) = false) as ->; [|eauto].
  apply Z.eqb_neq. destruct x; cbn in *; try done.
  all: intros ->; bool_facts; done.
Qed.

(** Keys of a map that are read whole by [tcbor_read_any]. *)
Definition flat_key (x : cbor) : bool :=
  match x with CAtom _ _ _ | CString _ _ _ => true | _ => false end.

(** The keys of an alternating list of keys and values. *)
Fixpoint keys (kvs : list cbor) : list cbor :=
  match kvs with k :: _ :: kvs => k :: keys kvs | _ => [] end.

(** Induction on alternating lists. *)
Lemma pairs_ind (P : list cbor → Prop) :
  P [] → (∀ k v kvs, P kvs → P (k :: v :: kvs)) →
  ∀ kvs, Nat.Even (length kvs) → P kvs.
Proof.
  intros H0 Hs. fix IH 1. intros [|k [|v kvs]] He; [done|by destruct He as [[|n] Hn]; cbn in *; lia|].
  apply Hs, IH. destruct He as [[|n] Hn]; [done|]. exists n. cbn in Hn. lia.
Qed.

Lemma map_pairs_even ai kvs : cbor_wf (CMap ai kvs) = true → Nat.Even (length kvs).
Proof.
  intros H. destruct (cbor_wf_head (CMap ai kvs) 5 ai _ H eq_refl) as (_&_&_&_&_&He). cbn in He.
  exists (Z.to_nat (Z.of_nat (length kvs) / 2)). lia.
Qed.

Lemma at_read_key c k l rest :
  at_items c (k :: l) rest → flat_key k = true →
  ∃ c' a, tcbor_read_any c = Done (c', Some a) ∧ any_is k a ∧ tcbor_is_tag a = false ∧
    at_items c' l rest.
Proof.
  intros H Hk. destruct (at_read_any c k l rest H) as (c'&a&He&Ha&Hb). exists c', a.
  assert (tcbor_is_tag a = false) as Ht.
  { unfold tcbor_is_tag. rewrite (any_is_major _ _ Ha). destruct H as [Hwf _].
    cbn [forallb] in Hwf. apply andb_true_iff in Hwf as [Hw _].
    apply Z.eqb_neq. destruct k; cbn in *; try done. all: intros ->; bool_facts; done. }
  rewrite Ht, Z.add_0_r in Hb. split_and!; try done. destruct H as [Hwf _].
  cbn [forallb] in Hwf. apply andb_true_iff in Hwf as [_ Hw].
  split; [done|]. by destruct k.
Qed.

(** What the tests of a key see. *)
Lemma any_is_uint k a :
  cbor_wf k = true → any_is k a →
  match item_uint k with
  | Some v => tcbor_is_uint a = true ∧ any_value a = v
  | None => tcbor_is_uint a = false
  end.
Proof.
  intros Hw Ha. unfold tcbor_is_uint. pose proof (any_is_major _ _ Ha) as ->.
  unfold any_is in Ha. destruct k as [mt ai v|mt ai bs|ai k|ai k|ai v y]; try done.
  - cbn [item_uint item_head fst] in *. destruct (Z.eqb_spec mt 0) as [->|]; [|done].
    by destruct Ha as (_&_&_&?).
  - cbn in *. apply Z.eqb_neq. intros ->. done.
Qed.

Lemma any_is_tstr k a :
  cbor_wf k = true → any_is k a →
  match item_string 3 k with
  | Some bs => tcbor_is_tstr a = true ∧ ∃ s, any_bytes a = Some s ∧ span_ok s ∧ span_bytes s = bs
  | None => tcbor_is_tstr a = false
  end.
Proof.
  intros Hw Ha. unfold tcbor_is_tstr. pose proof (any_is_major _ _ Ha) as ->.
  unfold any_is in Ha. destruct k as [mt ai v|mt ai bs|ai k|ai k|ai v y]; try done.
  - cbn in *. apply Z.eqb_neq. intros ->. done.
  - cbn [item_string item_head fst item_payload] in *. destruct (Z.eqb_spec mt 3) as [->|]; [|done].
    destruct Ha as (_&_&_&s&?&?&?). split; [done|]. by exists s.
Qed.

Lemma at_items_len c l rest :
  at_items c l rest → Z.of_nat (length l) <= range_len (c_r c).
Proof.
  intros (_&(Hr&_)&_&s&Hs&Hb). rewrite Hs in *. cbn [range_ok] in Hr.
  pose proof (span_bytes_length s Hr) as Hl. rewrite Hb, length_app in Hl.
  pose proof (encode_all_length l). lia.
Qed.

Lemma span_between s s' pre rest :
  span_ok s → sp_buf s' = sp_buf s → sp_end s' = sp_end s → sp_begin s <= sp_begin s' <= sp_end s' →
  span_bytes s = pre ++ rest → span_bytes s' = rest →
  span_bytes (Span (sp_buf s) (sp_begin s) (sp_begin s')) = pre.
Proof.
  intros [Hs1 Hs2] Hbuf He Hle Hb Hb'. unfold span_bytes in *; cbn.
  rewrite (slice_split _ _ (sp_begin s')) in Hb by lia. rewrite Hbuf, He in Hb'.
  rewrite Hb' in Hb. by apply app_inv_tail in Hb.
Qed.

(** A sub-object is the encoding of the next item. *)
Lemma at_read_subobject c x l rest :
  at_items c (x :: l) rest →
  ∃ c' s, tcbor_read_subobject c = Done (c', Some (Some s)) ∧ at_items c' l rest ∧
    span_ok s ∧ span_bytes s = encode x.
Proof.
  intros H. pose proof (at_items_ok _ _ _ H) as Hok.
  destruct (at_skip_one _ _ _ _ H) as (c'&He&Hc').
  pose proof (wp_elim _ _ (skip_spec 1 ltac:(by unfold u64_modulus) c Hok)) as (p&Hp&Hq).
  rewrite He in Hp. injection Hp as <-. destruct Hq as (_&(Hsuf&_)&_).
  destruct H as (_&_&_&s&Hs&Hb). destruct Hc' as (Hwf&Hok'&Hn&s'&Hs'&Hb').
  rewrite Hs, Hs' in Hsuf. destruct Hsuf as (?&?&?). destruct Hok as [Hr _]. rewrite Hs in Hr.
  cbn in Hr. exists c', (Span (sp_buf s) (sp_begin s) (sp_begin s')).
  rewrite encode_all_cons, <-app_assoc in Hb.
  split; [unfold tcbor_read_subobject; rewrite He; cbn; by rewrite Hs, Hs'|].
  split; [split; [done|]; split_and!; try done; by eauto|].
  split; [unfold span_ok in *; cbn; lia|]. by eapply span_between.
Qed.

Lemma at_end_matching {A} ty (f : tcbor_context → tcbor_context → tcbor_any →
    outcome (tcbor_context * option A)) c rest :
  at_items c [] rest → ∃ c', read_matching ty f c = Done (c', None) ∧ ctx_same c c'.
Proof.
  intros H. unfold read_matching. rewrite (at_end_read_any _ _ H). cbn.
  eexists. split; [done|apply ctx_same_fail].
Qed.

Lemma at_end_read_int c rest : at_items c [] rest → ∃ c', tcbor_read_int c = Done (c', None).
Proof.
  intros H. unfold tcbor_read_int, tcbor_read_uint, tcbor_read_nint.
  destruct (at_end_matching tcbor_is_uint (fun _ ctx any => Done (ctx, Some (any_value any))) c rest H)
    as (c1&->&Hs). cbn [or_else].
  destruct (at_end_matching tcbor_is_nint (fun _ ctx any => Done (ctx, Some (any_value any))) c1 rest)
    as (c2&->&_); [by eapply at_items_same|]. cbn. eauto.
Qed.

(** ** Trees from bytes

    A reference decoder for sequences of items: [n] items and what follows them. *)

Fixpoint decode_items (fuel : nat) (n : Z) (bs : list byte) : option (list cbor * list byte) :=
  if n <=? 0 then Some ([], bs)
  else
    match fuel with
    | O => None
    | S fuel =>
        match decode_item bs with
        | inl _ => None
        | inr d =>
            let mt := Z.shiftr (d_header d) 5 in
            '(cs, bs) ← decode_items fuel (announced mt (d_value d)) (d_rest d);
            '(l, bs) ← decode_items fuel (n - 1) bs;
            Some (assemble mt (Z.land (d_header d) 31) (d_value d) (d_payload d) cs :: l, bs)
        end
    end.

Lemma announced_nonneg mt v : 0 <= v → 0 <= announced mt v.
Proof. unfold announced. intros. repeat case_match; lia. Qed.

Lemma decode_items_sound fuel : ∀ n bs l rest,
  0 <= n → decode_items fuel n bs = Some (l, rest) →
  forallb cbor_wf l = true ∧ Z.of_nat (length l) = n ∧ bs = encode_all l ++ rest.
Proof.
  induction fuel as [|fuel IH]; intros n bs l rest Hn; cbn [decode_items]; destruct (Z.leb_spec n 0).
  1, 3: intros [= <- <-]; cbn; split_and!; done || lia.
  { done. }
  destruct (decode_item bs) as [|d] eqn:Hd; [done|].
  pose proof (decode_item_head _ _ Hd) as (mt & ai & Hmt & _ & -> & -> & Hok & H7 & Hpay & Hb).
  pose proof (head_ok_range _ _ Hok) as [_ Hv].
  destruct (decode_items fuel _ (d_rest d)) as [[cs bs1]|] eqn:Hcs; [|done]. cbn [mbind option_bind].
  destruct (decode_items fuel (n - 1) bs1) as [[l2 bs2]|] eqn:Hl2; [|done]. intros [= <- <-].
  apply IH in Hcs as (Hcs & Hlen & Hr); [|apply announced_nonneg; lia].
  apply IH in Hl2 as (Hl2 & Hlen2 & ->); [|lia].
  destruct (assemble_item mt ai (d_value d) (d_payload d) cs Hmt Hok H7 Hpay Hcs Hlen) as [Hwf He].
  cbn [forallb length]. rewrite Hwf, Hl2. split_and!; [done|lia|].
  by rewrite encode_all_cons, He, Hb, Hr, <-!app_assoc.
Qed.

Lemma assemble_parts c mt ai v :
  cbor_wf c = true → item_head c = (mt, ai, v) → assemble mt ai v (item_payload c) (item_children c) = c.
Proof.
  destruct c; cbn; intros Hwf [= <- <- <-]; unfold assemble, is_string; try done.
  - bool_facts. rename select (_ || _ = true) into Ho.
    apply orb_true_iff in Ho as [[]%orb_true_iff|]; bool_facts; by subst.
  - bool_facts. rename select (_ || _ = true) into Ho. by rewrite Ho.
Qed.

Lemma decode_items_encode fuel : ∀ l rest,
  forallb cbor_wf l = true → (length (encode_all l) <= fuel)%nat →
  decode_items fuel (Z.of_nat (length l)) (encode_all l ++ rest) = Some (l, rest).
Proof.
  induction fuel as [|fuel IH]; intros [|c l] rest Hwf Hf; [done| |done|].
  { rewrite encode_all_cons, length_app in Hf. pose proof (encode_nonempty c). lia. }
  cbn [decode_items]. destruct (Z.leb_spec (Z.of_nat (length (c :: l))) 0); [cbn [length] in *; lia|].
  apply andb_true_iff in Hwf as [Hc Hl]. destruct (item_head c) as [[mt ai] v] eqn:Hhd.
  pose proof (encode_unfold _ _ _ _ Hhd) as Henc.
  destruct (cbor_wf_head _ _ _ _ Hc Hhd) as (Hmt & Hok & H7 & Hpay & Hch & Hlen).
  pose proof (head_ok_range _ _ Hok) as [Hai _].
  rewrite encode_all_cons, Henc, <-!app_assoc, decode_item_encode by done.
  cbn [d_header d_value d_payload d_rest]. rewrite shiftr_head by lia.
  assert (Z.land (mt * 32 + ai) 31 = ai) as ->.
  { change 31 with (Z.ones 5). rewrite Z.land_ones by lia. change (2 ^ 5) with 32.
    by apply to_byte_head; lia. }
  rewrite encode_all_cons, Henc, !length_app in Hf. cbn [length] in Hf.
  change (announced mt v) with (if mt =? 4 then v else if mt =? 5 then 2 * v else if mt =? 6 then 1 else 0).
  rewrite <-Hlen, IH by (done || (cbn in Hf; lia)). cbn [mbind option_bind].
  replace (Z.of_nat (length (c :: l)) - 1) with (Z.of_nat (length l)) by (cbn [length]; lia).
  rewrite IH by (done || (cbn in Hf; lia)). cbn [mbind option_bind]. by rewrite assemble_parts.
Qed.

(** The entries of the map that some bytes begin with. *)
Definition decode_map (bs : list byte) : option (list cbor) :=
  match decode_items (length bs) 1 bs with
  | Some ([CMap _ kvs], _) => Some kvs
  | _ => None
  end.

(** It is defined exactly for the bytes that begin with an encoded map. *)
Lemma decode_map_iff bs kvs :
  decode_map bs = Some kvs ↔ ∃ ai rest, cbor_wf (CMap ai kvs) = true ∧ bs = encode (CMap ai kvs) ++ rest.
Proof.
  unfold decode_map. split.
  - destruct (decode_items _ 1 bs) as [[[|[| | |ai kvs'|] [|]] rest]|] eqn:Hd; try done. intros [= ->].
    apply decode_items_sound in Hd as (Hwf & _ & ->); [|lia]. cbn [forallb] in Hwf. rewrite andb_true_r in Hwf.
    exists ai, rest. split; [done|]. by rewrite encode_all_cons, app_nil_r.
  - intros (ai & rest & Hwf & ->).
    pose proof (decode_items_encode (length (encode (CMap ai kvs) ++ rest)) [CMap ai kvs] rest) as Hd.
    cbn [forallb length encode_all flat_map] in Hd.
    rewrite app_nil_r, andb_true_r in Hd. change (Z.of_nat 1) with 1 in Hd.
    rewrite Hd; [done|done|]. rewrite length_app. lia.
Qed.
