(* ===== verification/TcborTheorems.v ===== *)
(** * TcborTheorems: what the CBOR reader guarantees

    The theorems about [Tcbor], each with a concrete instance. *)

From S2P Require Import Prelude Tcbor TcborFacts CborSpec.

Local Open Scope Z_scope.

(** C15: [tcbor_primitive_skip], on arbitrary input, returns [true] for [count]
    exactly when the range starts with the encodings of [count] well-formed
    CBOR items (nested to any depth, tags included), and it then stops right
    behind them. *)
Theorem tcbor_primitive_skip_correct s n e s' :
  span_ok s → 0 <= n < u64_modulus →
  (∃ e', tcbor_primitive_skip (Some s) n e = Done (e', Some (Some s'))) ↔
  (∃ l, Z.of_nat (length l) = n ∧ forallb cbor_wf l = true ∧
    span_bytes s = encode_all l ++ span_bytes s' ∧ s' = span_at s (span_bytes s')).
Proof. apply primitive_skip_iff. Qed.

(** The map from [1, 'a'] to 7, with tag 1, followed by a stray byte. *)
Definition sample_item : cbor := CTag 1 1 (CMap 1 [CArray 2 [CAtom 0 1 1; CString 3 1 [x61]]; CAtom 0 7 7]).
Definition sample_bytes : list byte := encode sample_item ++ [xff].

Lemma tcbor_primitive_skip_correct_witness :
  ∃ e', tcbor_primitive_skip (Some (whole sample_bytes)) 1 tcbor_OK =
    Done (e', Some (Some (Span sample_bytes 7 8))).
Proof.
  apply tcbor_primitive_skip_correct; [by apply whole_ok|done|].
  exists [sample_item]. split_and!; vm_compute; reflexivity.
Defined.

(** C26: [tcbor_read_any] accepts exactly one encoded head with the payload of
    a string: it returns [true] precisely when the context has an item left and
    the remaining bytes are the head of major type [mt] and argument [v], the
    payload, and the rest; it then stores that item and moves behind it. *)
Theorem tcbor_read_any_correct c s c' a :
  ctx_ok c → c_r c = Some s →
  tcbor_read_any c = Done (c', Some a) ↔
  tcbor_is_end_of_context c = false ∧
  ∃ mt ai v bs rest,
    head_conditions mt ai v bs ∧ span_bytes s = encode_head mt ai v ++ bs ++ rest ∧
    a = any_of s (Decoded (mt * 32 + ai) v bs rest) ∧ c' = ctx_after c s mt rest.
Proof. apply read_any_iff. Qed.

Definition sample_context (buf : list byte) : tcbor_context := tcbor_toplevel (Some (whole buf)).

Lemma sample_context_ok buf :
  Z.of_nat (length buf) <= PTRDIFF_MAX → ctx_ok (sample_context buf).
Proof. intros. apply toplevel_ok. by apply whole_ok. Qed.

(** The text string ["ab"] before a stray byte. *)
Definition sample_string : list byte := [x62; x61; x62; xff].

Lemma tcbor_read_any_correct_witness :
  tcbor_read_any (sample_context sample_string) =
    Done (Context (Some (Span sample_string 3 4)) 1 1 tcbor_OK,
          Some (Any 98 (AnyBytes (Some (Span sample_string 1 3))))).
Proof.
  apply (tcbor_read_any_correct _ (whole sample_string)); [by apply sample_context_ok|done|].
  split; [done|]. exists 3, 2, 2, [x61; x62], [xff].
  split_and!; [|done..]. unfold head_conditions. split_and!; done.
Defined.

(** C17: memory safety and transactional behaviour of every reader, for
    arbitrary input bytes: each of them returns (no out-of-bounds access, no
    unbounded loop); when it returns [false] the context is what it was, up to
    the error code; when it returns [true] it has consumed bytes, advanced the
    index by the items it read, and what it stored lies inside the range it
    read from (ranges), is a [uint64_t] or an [int] (numbers), or is a fresh
    child context at the new position whose count is even for maps. *)
Theorem tcbor_readers_safe :
  reader_spec any_items (fun c _ a => any_wf (c_r c) a) tcbor_read_any ∧
  (∀ n, 0 < n < u64_modulus → reader_spec (fun _ => n) (fun _ _ _ => True) (tcbor_skip n)) ∧
  reader_spec one value_ok tcbor_read_uint ∧
  reader_spec one value_ok tcbor_read_nint ∧
  reader_spec one int_ok tcbor_read_int ∧
  reader_spec one bytes_ok tcbor_read_bstr ∧
  reader_spec one bytes_ok tcbor_read_tstr ∧
  reader_spec one bytes_ok tcbor_read_subobject ∧
  reader_spec one child_ok tcbor_read_array ∧
  reader_spec one (fun c c' m => child_ok c c' m ∧ Z.even (c_count m) = true) tcbor_read_map ∧
  reader_spec one (fun _ _ _ => True) tcbor_read_null ∧
  reader_spec one (fun _ _ _ => True) tcbor_read_bool ∧
  reader_spec (fun _ => 0) value_ok tcbor_read_tag.
Proof.
  split_and!; auto using read_any_spec, skip_spec, read_uint_spec, read_nint_spec, read_int_spec,
    read_bstr_spec, read_tstr_spec, read_subobject_spec, read_array_spec, read_map_spec,
    read_null_spec, read_bool_spec, read_tag_spec.
Qed.

(** C35: the values [tcbor_read_int] returns.  It returns [true] with [z] exactly
    when the next item is an unsigned integer whose argument is [z] converted
    to [uint64_t], or a negative integer whose argument is [~z] so converted.
    The conversions wrap around, so these are not only the encodings of [z]:
    an unsigned item of at least 2^64 - 2^31 is returned as a negative [int]. *)
Theorem tcbor_read_int_correct c s c' z :
  ctx_ok c → c_r c = Some s →
  tcbor_read_int c = Done (c', Some z) ↔
  tcbor_is_end_of_context c = false ∧ INT_MIN <= z <= INT_MAX ∧
  ∃ mt ai v rest,
    (mt = 0 ∧ v = to_u64 z ∨ mt = 1 ∧ v = to_u64 (not_int z)) ∧
    head_ok ai v = true ∧ span_bytes s = encode_head mt ai v ++ rest ∧ c' = ctx_after c s mt rest.
Proof. apply read_int_iff. Qed.

(** The unsigned integer 2^64 - 16 is read as the [int] -16. *)
Definition sample_int : list byte := [x1b; xff; xff; xff; xff; xff; xff; xff; xf0].

Lemma tcbor_read_int_correct_witness :
  tcbor_read_int (sample_context sample_int) =
    Done (Context (Some (Span sample_int 9 9)) 1 1 tcbor_OK, Some (-16)).
Proof.
  apply (tcbor_read_int_correct _ (whole sample_int)); [by apply sample_context_ok|done|].
  split; [done|]. split; [unfold INT_MIN, INT_MAX; lia|].
  exists 0, 27, 18446744073709551600, []. split_and!; [left|..]; done.
Defined.

(** Round trip of byte and text strings.  A reader of strings returns the
    range of exactly the payload bytes of the encoded string it was given, and
    rejects every item that is not an encoded string of its type. *)
Theorem tcbor_read_string_correct c s c' r :
  ctx_ok c → c_r c = Some s →
  (tcbor_read_bstr c = Done (c', Some r) ↔
     tcbor_is_end_of_context c = false ∧
     ∃ ai bs rest, head_ok ai (Z.of_nat (length bs)) = true ∧
       span_bytes s = encode (CString 2 ai bs) ++ rest ∧ range_bytes r = bs ∧
       r = Some (payload_span s bs rest) ∧ c' = ctx_after c s 2 rest) ∧
  (tcbor_read_tstr c = Done (c', Some r) ↔
     tcbor_is_end_of_context c = false ∧
     ∃ ai bs rest, head_ok ai (Z.of_nat (length bs)) = true ∧
       span_bytes s = encode (CString 3 ai bs) ++ rest ∧ range_bytes r = bs ∧
       r = Some (payload_span s bs rest) ∧ c' = ctx_after c s 3 rest).
Proof.
  intros Hok Hr. assert (span_ok s) as Hs. { destruct Hok as [H _]. by rewrite Hr in H. }
  assert (∀ mt ai bs rest, span_bytes s = encode (CString mt ai bs) ++ rest →
    span_bytes (payload_span s bs rest) = bs) as Hp.
  { intros mt ai bs rest Hb. cbn [encode] in Hb. rewrite <-app_assoc in Hb.
    by eapply payload_span_bytes. }
  split; [rewrite (read_string_iff 2 tcbor_is_bstr c s c' r Hok Hr eq_refl (fun _ => eq_refl))
         |rewrite (read_string_iff 3 tcbor_is_tstr c s c' r Hok Hr eq_refl (fun _ => eq_refl))].
  all: split; intros (? & ai & bs & rest & H); (split; [done|]); exists ai, bs, rest.
  all: destruct_and! H; subst; split_and!; try done; by eapply Hp.
Qed.

Lemma tcbor_read_string_correct_witness :
  tcbor_read_tstr (sample_context sample_string) =
    Done (Context (Some (Span sample_string 3 4)) 1 1 tcbor_OK,
          Some (Some (Span sample_string 1 3))).
Proof.
  refine (proj2 (proj2 (tcbor_read_string_correct _ (whole sample_string) _ _ _ _)) _);
    [by apply sample_context_ok|done|].
  split; [done|]. exists 2, [x61; x62], [xff]. split_and!; done.
Defined.

(** [tcbor_range_equal] decides equality of the bytes of two ranges, and
    tells the null range from an empty one; it reads no byte outside them. *)
Theorem tcbor_range_equal_correct x y :
  range_ok x → range_ok y →
  tcbor_range_equal x y =
    Done (Bool.eqb (tcbor_range_is_null x) (tcbor_range_is_null y) &&
          bool_decide (range_bytes x = range_bytes y)).
Proof. apply range_equal_spec. Qed.

Lemma tcbor_range_equal_correct_witness :
  tcbor_range_equal (Some (Span [x61; x62; x61] 0 1)) (Some (Span [x61; x62; x61] 2 3)) = Done true.
Proof.
  etransitivity; [apply tcbor_range_equal_correct|]; [..|by vm_compute];
    unfold range_ok, span_ok; cbn; unfold PTRDIFF_MAX; lia.
Defined.

(** The number of entries of a map cannot wrap around: [tcbor_read_map]
    opens a child context of exactly twice the number of pairs the head
    announces, and rejects a head whose number of pairs does not fit. *)
Theorem tcbor_read_map_count c s c' m :
  ctx_ok c → c_r c = Some s →
  tcbor_read_map c = Done (c', Some m) ↔
  tcbor_is_end_of_context c = false ∧
  ∃ ai v rest, head_ok ai v = true ∧ 2 * v < u64_modulus ∧
    span_bytes s = encode_head 5 ai v ++ rest ∧
    c' = ctx_after c s 5 rest ∧ m = Context (Some (span_at s rest)) 0 (2 * v) tcbor_OK.
Proof.
  intros Hok Hr. unfold tcbor_read_map. rewrite read_matching_done. split.
  - intros (c1 & a & Ha & Hty & H). apply (read_any_iff c s) in Ha; [|done..].
    destruct Ha as (Hend & mt & ai & v & bs & rest & Hhc & Hb & -> & ->).
    unfold tcbor_is_map in Hty. rewrite any_of_major in Hty by done. apply Z.eqb_eq in Hty as ->.
    destruct Hhc as (_ & Hok' & _ & Hbs). cbn in Hbs. subst bs.
    pose proof (head_ok_range _ _ Hok') as [? ?].
    rewrite any_of_value in H by (cbn [d_header]; rewrite shiftr_head by lia; done).
    cbn [d_value] in H. destruct (to_u64 (v + v) <? v) eqn:Ho; [done|].
    apply to_u64_overflow_inv in Ho as [Ho ?]; [|lia..]. rewrite Ho in H. injection H as <- <-.
    split; [done|]. exists ai, v, rest. split_and!; try done; [lia|].
    unfold tcbor_open; cbn. do 2 f_equal. lia.
  - intros (Hend & ai & v & rest & Hok' & Hv & Hb & -> & ->).
    pose proof (head_ok_range _ _ Hok') as [? ?].
    eexists _, (any_of s (Decoded (5 * 32 + ai) v [] rest)). split_and!.
    + apply (read_any_iff c s); [done..|]. split; [done|]. exists 5, ai, v, [], rest.
      split_and!; try done; by apply head_conditions_value.
    + unfold tcbor_is_map. rewrite any_of_major; [done|by apply head_conditions_value].
    + rewrite any_of_value by (cbn [d_header]; rewrite shiftr_head by lia; done).
      cbn [d_value]. destruct (to_u64_no_overflow v v) as [-> Ho]; [lia..|].
      destruct (Z.ltb_spec (v + v) v); [lia|]. unfold tcbor_open; cbn. do 4 f_equal. lia.
Qed.

Lemma tcbor_read_map_count_witness :
  tcbor_read_map (sample_context [xa1; x01; x02]) =
    Done (Context (Some (Span [xa1; x01; x02] 1 3)) 1 1 tcbor_OK,
          Some (Context (Some (Span [xa1; x01; x02] 1 3)) 0 2 tcbor_OK)).
Proof.
  apply (tcbor_read_map_count _ (whole [xa1; x01; x02])); [by apply sample_context_ok|done|].
  split; [done|]. exists 1, 1, [x01; x02]. split_and!; done.
Defined.
