(* ===== verification/SuitTypes.v ===== *)
(** * SuitTypes: the data of [lib/include/teesuit.h] and [teesuit-constant.h]

    Enumerations whose values are compared with integers read from CBOR are
    [Z] constants; the others are inductive types.  An array with a counter
    ([n_components], ...) is the list of its entries in use. *)

From S2P Require Import Prelude Tcbor.

Local Open Scope Z_scope.

(** ** [enum suit_cbor_label] *)

Definition SUIT_DELEGATION : Z := 1.
Definition SUIT_AUTHENTICATION_WRAPPER : Z := 2.
Definition SUIT_MANIFEST : Z := 3.
Definition SUIT_MANIFEST_VERSION : Z := 1.
Definition SUIT_MANIFEST_SEQUENCE_NUMBER : Z := 2.
Definition SUIT_COMMON : Z := 3.
Definition SUIT_REFERENCE_URI : Z := 4.
Definition SUIT_DEPENDENCY_RESOLUTION : Z := 7.
Definition SUIT_PAYLOAD_FETCH : Z := 8.
Definition SUIT_INSTALL : Z := 9.
Definition SUIT_VALIDATE : Z := 10.
Definition SUIT_LOAD : Z := 11.
Definition SUIT_RUN : Z := 12.
Definition SUIT_TEXT : Z := 13.
Definition SUIT_COSWID : Z := 14.
Definition SUIT_DEPENDENCIES : Z := 1.
Definition SUIT_COMPONENTS : Z := 2.
Definition SUIT_COMMON_SEQUENCE : Z := 4.

(** ** [enum suit_command_sequence], [enum suit_command] and parameters *)

Inductive suit_command_sequence :=
  | SUIT_COMMAND_SEQUENCE_DEPENDENCY_RESOLUTION
  | SUIT_COMMAND_SEQUENCE_PAYLOAD_FETCH
  | SUIT_COMMAND_SEQUENCE_INSTALL
  | SUIT_COMMAND_SEQUENCE_VALIDATE
  | SUIT_COMMAND_SEQUENCE_LOAD
  | SUIT_COMMAND_SEQUENCE_RUN.

Definition SUIT_CONDITION_VENDOR_IDENTIFIER : Z := 1.
Definition SUIT_CONDITION_CLASS_IDENTIFIER : Z := 2.
Definition SUIT_CONDITION_IMAGE_MATCH : Z := 3.
Definition SUIT_DIRECTIVE_SET_COMPONENT_INDEX : Z := 12.
Definition SUIT_DIRECTIVE_SET_DEPENDENCY_INDEX : Z := 13.
Definition SUIT_DIRECTIVE_PROCESS_DEPENDENCY : Z := 18.
Definition SUIT_DIRECTIVE_SET_PARAMETERS : Z := 19.
Definition SUIT_DIRECTIVE_OVERRIDE_PARAMETERS : Z := 20.
Definition SUIT_DIRECTIVE_FETCH : Z := 21.

(** Commands of the standard that no handler of the runner exists for. *)
Definition SUIT_CONDITION_USE_BEFORE : Z := 4.
Definition SUIT_CONDITION_COMPONENT_OFFSET : Z := 5.
Definition SUIT_CONDITION_ABORT : Z := 14.
Definition SUIT_CONDITION_DEVICE_IDENTIFIER : Z := 24.
Definition SUIT_CONDITION_IMAGE_NOT_MATCH : Z := 25.
Definition SUIT_CONDITION_MINIMUM_BATTERY : Z := 26.
Definition SUIT_CONDITION_UPDATE_AUTHORIZED : Z := 27.
Definition SUIT_CONDITION_VERSION : Z := 28.
Definition SUIT_DIRECTIVE_TRY_EACH : Z := 15.
Definition SUIT_DIRECTIVE_COPY : Z := 22.
Definition SUIT_DIRECTIVE_RUN : Z := 23.
Definition SUIT_DIRECTIVE_WAIT : Z := 29.
Definition SUIT_DIRECTIVE_FETCH_URI_LIST : Z := 30.
Definition SUIT_DIRECTIVE_SWAP : Z := 31.
Definition SUIT_DIRECTIVE_RUN_SEQUENCE : Z := 32.
Definition SUIT_DIRECTIVE_GARBAGE_COLLECT : Z := 33.

Definition SUIT_PARAMETER_VENDOR_IDENTIFIER : Z := 1.
Definition SUIT_PARAMETER_CLASS_IDENTIFIER : Z := 2.
Definition SUIT_PARAMETER_IMAGE_DIGEST : Z := 3.
Definition SUIT_PARAMETER_URI : Z := 21.

Definition SUIT_DIGEST_ALG_SHA256 : Z := -16.

(** ** Capacities *)

Definition SUIT_COMPONENT_MAX : nat := 8.
Definition SUIT_DEPENDENCY_MAX : nat := 8.
Definition SUIT_MANIFEST_MAX : nat := 8.
Definition SUIT_BINDER_MAX : nat := 32.
Definition SUIT_STACK_MAX : nat := 8.

(** ** The abstract syntax *)

Record suit_digest := Digest { algorithm_id : Z; digest_bytes : tcbor_range }.

(** The union of [struct suit_severable], tagged by what was written last:
    the whole [body], the [algorithm_id] of [digest] alone, or all of
    [digest].  [memset] to zero writes the null [body]. *)
Inductive severable_union :=
  | UBody (body : tcbor_range)
  | UAlgorithm (alg : Z)
  | UDigest (d : suit_digest).

Record suit_severable := Severable {
  has_value : bool;
  severed : bool;
  sev_union : severable_union
}.

Record suit_component := Component { id_cbor : tcbor_range }.

(** Nothing is ever stored in a [suit_dependency_t], so only the number of
    dependencies is kept. *)
Record suit_common := Common {
  n_dependencies : nat;
  components : list suit_component;
  command_sequence : tcbor_range
}.

Definition n_components (c : suit_common) : nat := length (components c).

Record suit_manifest := Manifest {
  envelope_bstr : tcbor_range;
  binary : tcbor_range;
  version : Z;
  sequence_number : Z;
  common_bstr : tcbor_range;
  common : suit_common;
  reference_uri : tcbor_range;
  dependency_resolution : suit_severable;
  payload_fetch : suit_severable;
  install : suit_severable;
  text : suit_severable;
  coswid : suit_severable;
  validate : tcbor_range;
  load_seq : tcbor_range;
  run_seq : tcbor_range
}.

(** A slot that [memset] cleared. *)
Definition severable_zero : suit_severable := Severable false false (UBody None).

Definition manifest_zero : suit_manifest :=
  Manifest None None 0 0 None (Common 0 [] None) None severable_zero severable_zero severable_zero
    severable_zero severable_zero None None None.

(** ** Assignments to the fields *)

Definition with_envelope_bstr (m : suit_manifest) (x : tcbor_range) : suit_manifest :=
  let 'Manifest _ b v n cb c u dr pf i t cw va l r := m in Manifest x b v n cb c u dr pf i t cw va l r.
Definition with_version (m : suit_manifest) (x : Z) : suit_manifest :=
  let 'Manifest e b _ n cb c u dr pf i t cw va l r := m in Manifest e b x n cb c u dr pf i t cw va l r.
Definition with_sequence_number (m : suit_manifest) (x : Z) : suit_manifest :=
  let 'Manifest e b v _ cb c u dr pf i t cw va l r := m in Manifest e b v x cb c u dr pf i t cw va l r.
Definition with_common_bstr (m : suit_manifest) (x : tcbor_range) : suit_manifest :=
  let 'Manifest e b v n _ c u dr pf i t cw va l r := m in Manifest e b v n x c u dr pf i t cw va l r.
Definition with_common (m : suit_manifest) (x : suit_common) : suit_manifest :=
  let 'Manifest e b v n cb _ u dr pf i t cw va l r := m in Manifest e b v n cb x u dr pf i t cw va l r.
Definition with_reference_uri (m : suit_manifest) (x : tcbor_range) : suit_manifest :=
  let 'Manifest e b v n cb c _ dr pf i t cw va l r := m in Manifest e b v n cb c x dr pf i t cw va l r.
Definition with_dependency_resolution (m : suit_manifest) (x : suit_severable) : suit_manifest :=
  let 'Manifest e b v n cb c u _ pf i t cw va l r := m in Manifest e b v n cb c u x pf i t cw va l r.
Definition with_payload_fetch (m : suit_manifest) (x : suit_severable) : suit_manifest :=
  let 'Manifest e b v n cb c u dr _ i t cw va l r := m in Manifest e b v n cb c u dr x i t cw va l r.
Definition with_install (m : suit_manifest) (x : suit_severable) : suit_manifest :=
  let 'Manifest e b v n cb c u dr pf _ t cw va l r := m in Manifest e b v n cb c u dr pf x t cw va l r.
Definition with_text (m : suit_manifest) (x : suit_severable) : suit_manifest :=
  let 'Manifest e b v n cb c u dr pf i _ cw va l r := m in Manifest e b v n cb c u dr pf i x cw va l r.
Definition with_coswid (m : suit_manifest) (x : suit_severable) : suit_manifest :=
  let 'Manifest e b v n cb c u dr pf i t _ va l r := m in Manifest e b v n cb c u dr pf i t x va l r.
Definition with_validate (m : suit_manifest) (x : tcbor_range) : suit_manifest :=
  let 'Manifest e b v n cb c u dr pf i t cw _ l r := m in Manifest e b v n cb c u dr pf i t cw x l r.
Definition with_load (m : suit_manifest) (x : tcbor_range) : suit_manifest :=
  let 'Manifest e b v n cb c u dr pf i t cw va _ r := m in Manifest e b v n cb c u dr pf i t cw va x r.
Definition with_run (m : suit_manifest) (x : tcbor_range) : suit_manifest :=
  let 'Manifest e b v n cb c u dr pf i t cw va l _ := m in Manifest e b v n cb c u dr pf i t cw va l x.

Definition with_has_value (s : suit_severable) (b : bool) : suit_severable :=
  Severable b (severed s) (sev_union s).
