(* ===== verification/SuitParser.v ===== *)
(** * SuitParser: [lib/suit/lib/suit-parser.c]

    A function [bool f(obj *o, ...)] that writes through [o] is a function to
    [outcome (obj * option _)]: the object as it was left, and the
    out-parameters when it returned [true].  Objects that a failing parse has
    partly written are modelled, because [suit_context_add_envelope] parses
    again into the same slot.  The loops [while (!tcbor_is_end_of_context(c))]
    consume at least one byte per iteration, so one more than the bytes left
    is enough fuel. *)

From S2P Require Import Prelude Tcbor SuitTypes.

Local Open Scope Z_scope.

Definition context_fuel (c : tcbor_context) : nat := S (Z.to_nat (range_len (c_r c))).

(** ** Keys *)

Definition match_key (ctx : tcbor_context) (key : Z) : outcome (tcbor_context * option unit) :=
  let saved := ctx in
  try ctx, k := tcbor_read_uint ctx otherwise Done (tcbor_fail ctx saved, None) ;;
  if negb (k =? key) then Done (tcbor_fail ctx saved, None)
  else Done (ctx, Some tt).

Definition read_key_and_uint (ctx : tcbor_context) (key : Z) : outcome (tcbor_context * option Z) :=
  let saved := ctx in
  try ctx, _u := match_key ctx key otherwise Done (tcbor_fail ctx saved, None) ;;
  try ctx, v := tcbor_read_uint ctx otherwise Done (tcbor_fail ctx saved, None) ;;
  Done (ctx, Some v).

Definition read_key_and_bstr (ctx : tcbor_context) (key : Z) :
    outcome (tcbor_context * option tcbor_range) :=
  let saved := ctx in
  try ctx, _u := match_key ctx key otherwise Done (tcbor_fail ctx saved, None) ;;
  try ctx, r := tcbor_read_bstr ctx otherwise Done (tcbor_fail ctx saved, None) ;;
  Done (ctx, Some r).

(** ** Digests and severable members *)

(** A destination [suit_digest_t *d]: its two assignments. *)
Record digest_dest (D : Type) := DigestDest {
  set_algorithm_id : D → Z → D;
  set_bytes : D → tcbor_range → D
}.
Arguments DigestDest {D} _ _.
Arguments set_algorithm_id {D} _ _ _.
Arguments set_bytes {D} _ _ _.

(** A [suit_digest_t] variable, and the member of a severable's union. *)
Definition digest_var : digest_dest suit_digest :=
  DigestDest (fun d a => Digest a (digest_bytes d)) (fun d b => Digest (algorithm_id d) b).

Definition digest_member : digest_dest severable_union :=
  DigestDest (fun _ a => UAlgorithm a)
    (fun u b => match u with
                | UAlgorithm a => UDigest (Digest a b)
                | UDigest d => UDigest (Digest (algorithm_id d) b)
                | UBody r => UBody r
                end).

Definition read_digest {D} (w : digest_dest D) (ctx : tcbor_context) (d : D) :
    outcome ((tcbor_context * D) * option unit) :=
  try ctx, array := tcbor_read_array ctx otherwise Done ((ctx, d), None) ;;
  try array, a := tcbor_read_int array otherwise Done ((ctx, d), None) ;;
  let d := set_algorithm_id w d a in
  try array, b := tcbor_read_bstr array otherwise Done ((ctx, d), None) ;;
  let d := set_bytes w d b in
  try array, _u := tcbor_skip_all array otherwise Done ((ctx, d), None) ;;
  try ctx, _u := tcbor_close ctx array otherwise Done ((ctx, d), None) ;;
  Done ((ctx, d), Some tt).

Definition read_severed (ctx : tcbor_context) (ret : suit_severable) :
    outcome ((tcbor_context * suit_severable) * option unit) :=
  try ctx, body := tcbor_read_bstr ctx
    otherwise
      (try cd, _u := read_digest digest_member ctx (sev_union ret)
         otherwise Done ((cd.1, Severable (has_value ret) (severed ret) cd.2), None) ;;
       Done ((cd.1, Severable true true cd.2), Some tt)) ;;
  Done ((ctx, Severable true false (UBody body)), Some tt).

(** ** The common section *)

Definition read_component : reader suit_component := fun ctx =>
  try ctx, r := tcbor_read_subobject ctx otherwise Done (ctx, None) ;;
  Done (ctx, Some (Component r)).

Definition read_dependency : reader unit := fun ctx =>
  try ctx, map := tcbor_read_map ctx otherwise Done (ctx, None) ;;
  try map, _u := tcbor_skip_all map otherwise Done (ctx, None) ;;
  try ctx, _u := tcbor_close ctx map otherwise Done (ctx, None) ;;
  Done (ctx, Some tt).

Definition with_n_dependencies (c : suit_common) (n : nat) : suit_common :=
  Common n (components c) (command_sequence c).
Definition with_components (c : suit_common) (l : list suit_component) : suit_common :=
  Common (n_dependencies c) l (command_sequence c).
Definition with_command_sequence (c : suit_common) (r : tcbor_range) : suit_common :=
  Common (n_dependencies c) (components c) r.

Fixpoint read_dependencies (fuel : nat) (array : tcbor_context) (ret : suit_common) :
    outcome (suit_common * option tcbor_context) :=
  if tcbor_is_end_of_context array then Done (ret, Some array)
  else
    match fuel with
    | O => NoFuel
    | S fuel =>
        if (n_dependencies ret =? SUIT_DEPENDENCY_MAX)%nat then Done (ret, None)
        else
          try array, _u := read_dependency array otherwise Done (ret, None) ;;
          read_dependencies fuel array (with_n_dependencies ret (S (n_dependencies ret)))
    end.

Fixpoint read_components (fuel : nat) (array : tcbor_context) (ret : suit_common) :
    outcome (suit_common * option tcbor_context) :=
  if tcbor_is_end_of_context array then Done (ret, Some array)
  else
    match fuel with
    | O => NoFuel
    | S fuel =>
        if (n_components ret =? SUIT_COMPONENT_MAX)%nat then Done (ret, None)
        else
          try array, cp := read_component array otherwise Done (ret, None) ;;
          read_components fuel array (with_components ret (components ret ++ [cp]))
    end.

(** The [while] loop of [suit_parse_common]. *)
Fixpoint parse_common_loop (fuel : nat) (map : tcbor_context) (ret : suit_common)
    (dependencies_seen components_seen : bool) : outcome (suit_common * option tcbor_context) :=
  if tcbor_is_end_of_context map then Done (ret, Some map)
  else
    match fuel with
    | O => NoFuel
    | S fuel =>
      try map, key := tcbor_read_any map otherwise Done (ret, None) ;;
      if tcbor_is_tag key then Done (ret, None)
      else if tcbor_is_uint key then
        if any_value key =? SUIT_DEPENDENCIES then
          if dependencies_seen then Done (ret, None)
          else
            try map, array := tcbor_read_array map otherwise Done (ret, None) ;;
            try ret, array := read_dependencies (context_fuel array) array ret
              otherwise Done (ret, None) ;;
            try map, _u := tcbor_close map array otherwise Done (ret, None) ;;
            parse_common_loop fuel map ret true components_seen
        else if any_value key =? SUIT_COMPONENTS then
          if components_seen then Done (ret, None)
          else
            try map, array := tcbor_read_array map otherwise Done (ret, None) ;;
            try ret, array := read_components (context_fuel array) array ret
              otherwise Done (ret, None) ;;
            try map, _u := tcbor_close map array otherwise Done (ret, None) ;;
            parse_common_loop fuel map ret dependencies_seen true
        else if any_value key =? SUIT_COMMON_SEQUENCE then
          if negb (tcbor_range_is_null (command_sequence ret)) then Done (ret, None)
          else
            try map, r := tcbor_read_bstr map otherwise Done (ret, None) ;;
            parse_common_loop fuel map (with_command_sequence ret r) dependencies_seen components_seen
        else Done (ret, None)
      else Done (ret, None)
    end.

(** [*ret] is overwritten entirely by the first three assignments. *)
Definition suit_parse_common (common_bstr : tcbor_range) : outcome (suit_common * option unit) :=
  let ret := Common 0 [] tcbor_range_null in
  let ctx := tcbor_toplevel common_bstr in
  try ctx, map := tcbor_read_map ctx otherwise Done (ret, None) ;;
  try ret, map := parse_common_loop (context_fuel map) map ret false false
    otherwise Done (ret, None) ;;
  try ctx, _u := tcbor_close ctx map otherwise Done (ret, None) ;;
  Done (ret, Some tt).

(** ** The manifest *)

(** One [case] that reads a byte string into a field. *)
Definition bstr_field (set : suit_manifest → tcbor_range → suit_manifest)
    (map : tcbor_context) (ret : suit_manifest) : outcome (suit_manifest * option tcbor_context) :=
  try map, r := tcbor_read_bstr map otherwise Done (ret, None) ;;
  Done (set ret r, Some map).

(** One [case] that reads a severable member into a field. *)
Definition severed_field (get : suit_manifest → suit_severable)
    (set : suit_manifest → suit_severable → suit_manifest)
    (map : tcbor_context) (ret : suit_manifest) : outcome (suit_manifest * option tcbor_context) :=
  try ms, _u := read_severed map (get ret) otherwise Done (set ret ms.2, None) ;;
  Done (set ret ms.2, Some ms.1).

Definition skip_field (map : tcbor_context) (ret : suit_manifest) :
    outcome (suit_manifest * option tcbor_context) :=
  try map, _u := tcbor_skip 1 map otherwise Done (ret, None) ;;
  Done (ret, Some map).

Definition common_field (map : tcbor_context) (ret : suit_manifest) :
    outcome (suit_manifest * option tcbor_context) :=
  try map, r := tcbor_read_bstr map otherwise Done (ret, None) ;;
  let ret := with_common_bstr ret r in
  try c, _u := suit_parse_common r otherwise Done (with_common ret c, None) ;;
  Done (with_common ret c, Some map).

(** The [switch (key.value)]. *)
Definition manifest_field (key : Z) (map : tcbor_context) (ret : suit_manifest) :
    outcome (suit_manifest * option tcbor_context) :=
  if (key =? SUIT_MANIFEST_VERSION) || (key =? SUIT_MANIFEST_SEQUENCE_NUMBER) then Done (ret, None)
  else if key =? SUIT_COMMON then common_field map ret
  else if key =? SUIT_REFERENCE_URI then bstr_field with_reference_uri map ret
  else if key =? SUIT_DEPENDENCY_RESOLUTION then
    severed_field dependency_resolution with_dependency_resolution map ret
  else if key =? SUIT_PAYLOAD_FETCH then severed_field payload_fetch with_payload_fetch map ret
  else if key =? SUIT_INSTALL then severed_field install with_install map ret
  else if key =? SUIT_TEXT then severed_field text with_text map ret
  else if key =? SUIT_COSWID then severed_field coswid with_coswid map ret
  else if key =? SUIT_VALIDATE then bstr_field with_validate map ret
  else if key =? SUIT_LOAD then bstr_field with_load map ret
  else if key =? SUIT_RUN then bstr_field with_run map ret
  else skip_field map ret.

Fixpoint parse_manifest_loop (fuel : nat) (map : tcbor_context) (ret : suit_manifest) :
    outcome (suit_manifest * option tcbor_context) :=
  if tcbor_is_end_of_context map then Done (ret, Some map)
  else
    match fuel with
    | O => NoFuel
    | S fuel =>
      try map, key := tcbor_read_any map otherwise Done (ret, None) ;;
      if tcbor_is_tag key then Done (ret, None)
      else
        try ret, map := (if tcbor_is_uint key then manifest_field (any_value key) map ret
                         else skip_field map ret)
          otherwise Done (ret, None) ;;
        parse_manifest_loop fuel map ret
    end.

(** The assignments at the start of [suit_manifest_parse]: [common], the
    version and sequence number and the unions keep their old contents. *)
Definition manifest_init (manifest_bstr : tcbor_range) (ret : suit_manifest) : suit_manifest :=
  Manifest tcbor_range_null manifest_bstr (version ret) (sequence_number ret) tcbor_range_null
    (common ret) tcbor_range_null
    (with_has_value (dependency_resolution ret) false)
    (with_has_value (payload_fetch ret) false)
    (with_has_value (install ret) false)
    (with_has_value (text ret) false)
    (with_has_value (coswid ret) false)
    tcbor_range_null tcbor_range_null tcbor_range_null.

Definition suit_manifest_parse (manifest_bstr : tcbor_range) (ret : suit_manifest) :
    outcome (suit_manifest * option unit) :=
  let ret := manifest_init manifest_bstr ret in
  let ctx := tcbor_toplevel manifest_bstr in
  try ctx, map := tcbor_read_map ctx otherwise Done (ret, None) ;;
  try map, v := read_key_and_uint map SUIT_MANIFEST_VERSION otherwise Done (ret, None) ;;
  let ret := with_version ret v in
  if negb (version ret =? 1) then Done (ret, None)
  else
    try map, n := read_key_and_uint map SUIT_MANIFEST_SEQUENCE_NUMBER otherwise Done (ret, None) ;;
    let ret := with_sequence_number ret n in
    try ret, map := parse_manifest_loop (context_fuel map) map ret otherwise Done (ret, None) ;;
    try ctx, _u := tcbor_close ctx map otherwise Done (ret, None) ;;
    if tcbor_range_is_null (common_bstr ret) then Done (ret, None)
    else Done (ret, Some tt).

(** ** Fields of the envelope *)

Definition is_envelope_key (key : Z) : bool :=
  (key =? SUIT_DELEGATION) || (key =? SUIT_AUTHENTICATION_WRAPPER) || (key =? SUIT_MANIFEST) ||
  (key =? SUIT_DEPENDENCY_RESOLUTION) || (key =? SUIT_PAYLOAD_FETCH) || (key =? SUIT_INSTALL) ||
  (key =? SUIT_TEXT) || (key =? SUIT_COSWID).

Fixpoint get_field_loop (fuel : nat) (use_tstr : bool) (key : Z) (key_tstr : tcbor_range)
    (map : tcbor_context) (field : tcbor_range) : outcome (option tcbor_range) :=
  if tcbor_is_end_of_context map then Done (Some field)
  else
    match fuel with
    | O => NoFuel
    | S fuel =>
      try map, k := tcbor_read_any map otherwise Done None ;;
      if tcbor_is_tag k then Done None
      else
        found ← (if tcbor_is_uint k then Done (negb use_tstr && (any_value k =? key))
                 else if tcbor_is_tstr k then
                   if use_tstr then tcbor_range_equal (any_bytes k) key_tstr else Done false
                 else Done false);
        if (found : bool) then
          try map, f := tcbor_read_bstr map otherwise Done None ;;
          get_field_loop fuel use_tstr key key_tstr map f
        else
          try map, _u := tcbor_skip 1 map otherwise Done None ;;
          get_field_loop fuel use_tstr key key_tstr map field
    end.

Definition suit_envelope_get_field (envelope_bstr : tcbor_range) (use_tstr : bool) (key : Z)
    (key_tstr : tcbor_range) : outcome (option tcbor_range) :=
  if negb use_tstr && negb (is_envelope_key key) then Done None
  else
    let ctx := tcbor_toplevel envelope_bstr in
    try ctx, tag := tcbor_read_tag ctx otherwise Done None ;;
    if negb (tag =? 107) then Done None
    else
      try ctx, map := tcbor_read_map ctx otherwise Done None ;;
      get_field_loop (context_fuel map) use_tstr key key_tstr map tcbor_range_null.

Definition suit_envelope_get_field_by_name (envelope_bstr key_tstr : tcbor_range) :
    outcome (option tcbor_range) :=
  suit_envelope_get_field envelope_bstr true SUIT_DELEGATION key_tstr.

Definition suit_envelope_get_field_by_key (envelope_bstr : tcbor_range) (key : Z) :
    outcome (option tcbor_range) :=
  suit_envelope_get_field envelope_bstr false key tcbor_range_null.

Definition suit_envelope_get_manifest (envelope_bstr : tcbor_range) (ret : suit_manifest) :
    outcome (suit_manifest * option unit) :=
  o ← suit_envelope_get_field_by_key envelope_bstr SUIT_MANIFEST;
  match o with
  | None => Done (ret, None)
  | Some manifest_bstr =>
      try ret, _u := suit_manifest_parse manifest_bstr ret otherwise Done (ret, None) ;;
      Done (with_envelope_bstr ret envelope_bstr, Some tt)
  end.

(** Reading [body] while the union holds a digest (or part of one) yields a
    pointer made of the bytes of [algorithm_id] and of what was there before. *)
Definition read_body (u : severable_union) : outcome tcbor_range :=
  match u with UBody r => Done r | _ => Ub end.

Definition suit_envelope_get_severed (severable : suit_severable) (sev : tcbor_range) :
    outcome tcbor_range :=
  if negb (has_value severable) then Done tcbor_range_null
  else if severed severable then Done sev
  else read_body (sev_union severable).

(** ** Readers of command sequences *)

Definition suit_command_reader := tcbor_context.

Definition suit_command_sequence_open (command_sequence_bstr : tcbor_range) :
    outcome (option suit_command_reader) :=
  let ctx := tcbor_toplevel command_sequence_bstr in
  try ctx, array := tcbor_read_array ctx otherwise Done None ;;
  Done (Some array).

Definition suit_command_sequence_read_command : reader Z := fun r =>
  try r, command := tcbor_read_uint r otherwise Done (r, None) ;;
  if INT_MAX <? command then Done (r, None)
  else Done (r, Some command).

Definition suit_command_sequence_read_reppolicy : reader unit := fun r =>
  try r, _u := tcbor_read_uint r otherwise Done (r, None) ;;
  Done (r, Some tt).

Definition suit_command_sequence_skip_param : reader unit := tcbor_skip 1.

Definition suit_command_sequence_end_of_sequence (r : suit_command_reader) : bool :=
  tcbor_is_end_of_context r.
