(* ===== verification/SuitParserFacts.v ===== *)
(** * SuitParserFacts: safety of the SUIT parser

    Every parser returns on arbitrary bytes, stays inside the range it is
    given, and leaves a well-formed object also when it fails. *)

From S2P Require Import Prelude Tcbor TcborFacts SuitTypes SuitParser.

Local Open Scope Z_scope.

(** ** Contexts that advanced *)

(** What a successful read leaves: a context further on in the same range. *)
Definition advanced (c c' : tcbor_context) : Prop :=
  ctx_ok c' ∧ range_suffix (c_r c') (c_r c) ∧ range_len (c_r c') < range_len (c_r c).

(** Readers that are safe but need not roll back when they fail. *)
Definition advancing {A} (P : tcbor_context → A → Prop) (f : reader A) : Prop :=
  ∀ c, ctx_ok c →
    wp (f c) (fun '(c', o) =>
      match o with Some a => advanced c c' ∧ c_count c' = c_count c ∧ P c a | None => True end).

Lemma advanced_trans c1 c2 c3 : advanced c1 c2 → advanced c2 c3 → advanced c1 c3.
Proof. intros (?&?&?) (?&?&?). unfold advanced. c_done. Qed.

Lemma reader_spec_advancing {A} n (P : tcbor_context → A → Prop) (f : reader A) :
  reader_spec n (fun c _ => P c) f → advancing P f.
Proof.
  intros H c Hc. eapply wp_mono; [by apply H|]. intros [c' [a|]]; [|done].
  intros (?&(?&?&?)&?&?). unfold advanced. c_done.
Qed.

Lemma advancing_mono {A} (P Q : tcbor_context → A → Prop) (f : reader A) :
  (∀ c a, P c a → Q c a) → advancing P f → advancing Q f.
Proof.
  intros HPQ H c Hc. eapply wp_mono; [by apply H|]. intros [c' [a|]]; [|done].
  intros (?&?&?). c_done.
Qed.

(** The ranges read from a context lie inside it and are not null. *)
Definition inner (c : tcbor_context) (r : tcbor_range) : Prop :=
  range_within r (c_r c) ∧ tcbor_range_is_null r = false.

Lemma bytes_inner c c' r : bytes_ok c c' r → inner c r.
Proof. intros (b & -> & H). done. Qed.

Lemma advanced_child c c' child :
  advanced c c' → ctx_ok child → c_r child = c_r c' → advanced c child.
Proof. intros (_&?&?) ? Hr. unfold advanced. by rewrite Hr. Qed.

Lemma read_bstr_inner c :
  ctx_ok c → wp (tcbor_read_bstr c) (fun '(c', o) =>
    match o with Some r => advanced c c' ∧ c_count c' = c_count c ∧ inner c r
               | None => ctx_same c c' end).
Proof.
  intros Hc. eapply wp_mono; [by apply read_bstr_spec|]. intros [c' [r|]]; [|done].
  intros (?&(?&?&?)&?&Hb). apply bytes_inner in Hb. unfold advanced. c_done.
Qed.

Lemma read_tstr_inner c :
  ctx_ok c → wp (tcbor_read_tstr c) (fun '(c', o) =>
    match o with Some r => advanced c c' ∧ c_count c' = c_count c ∧ inner c r
               | None => ctx_same c c' end).
Proof.
  intros Hc. eapply wp_mono; [by apply read_tstr_spec|]. intros [c' [r|]]; [|done].
  intros (?&(?&?&?)&?&Hb). apply bytes_inner in Hb. unfold advanced. c_done.
Qed.

Lemma read_array_child c :
  ctx_ok c → wp (tcbor_read_array c) (fun '(c', o) =>
    match o with
    | Some a => advanced c c' ∧ c_count c' = c_count c ∧ advanced c a ∧
                range_suffix (c_r a) (c_r c') ∧ c_index a = 0
    | None => ctx_same c c' end).
Proof.
  intros Hc. eapply wp_mono; [by apply read_array_spec|]. intros [c' [a|]]; [|done].
  intros (Hc'&(?&?&?)&?&(?&Ha&?)).
  assert (advanced c c') by (by unfold advanced; split_and!).
  split_and!; try done; [by eapply advanced_child|].
  rewrite Ha. apply range_suffix_refl. apply Hc'.
Qed.

Lemma read_map_child c :
  ctx_ok c → wp (tcbor_read_map c) (fun '(c', o) =>
    match o with
    | Some m => advanced c c' ∧ c_count c' = c_count c ∧ advanced c m ∧
                range_suffix (c_r m) (c_r c') ∧ c_index m = 0
    | None => ctx_same c c' end).
Proof.
  intros Hc. eapply wp_mono; [by apply read_map_spec|]. intros [c' [a|]]; [|done].
  intros (Hc'&(?&?&?)&?&((?&Ha&?)&_)).
  assert (advanced c c') by (by unfold advanced; split_and!).
  split_and!; try done; [by eapply advanced_child|].
  rewrite Ha. apply range_suffix_refl. apply Hc'.
Qed.

Lemma close_advanced parent child c0 :
  advanced c0 parent → ctx_ok child → range_suffix (c_r child) (c_r parent) →
  wp (tcbor_close parent child) (fun '(c', o) =>
    match o with
    | Some _ => advanced c0 c' ∧ c_count c' = c_count parent ∧ tcbor_is_end_of_context child = true
    | None => True
    end).
Proof.
  intros (Hp&Hs&Hl) Hc Hsuf. eapply wp_mono; [by apply close_spec|]. intros [c' [u|]]; [|done].
  intros (?&?&(?&?&?)&Hr). pose proof (range_suffix_len _ _ Hsuf). unfold advanced. rewrite Hr in *.
  c_done.
Qed.

Lemma inner_within c r : inner c r → range_within r (c_r c).
Proof. by intros []. Qed.

Lemma inner_ok c r : ctx_ok c → inner c r → range_ok r.
Proof. intros [? _] [? _]. eauto with c_ok. Qed.

Lemma inner_advanced c c' r : advanced c c' → inner c' r → inner c r.
Proof. intros (_&Hs&_) [? ?]. split; [|done]. eauto with c_ok. Qed.

Lemma advanced_ok c c' : advanced c c' → ctx_ok c'.
Proof. by intros []. Qed.

Lemma advanced_fuel c c' fuel :
  advanced c c' → range_len (c_r c) < Z.of_nat (S fuel) → range_len (c_r c') < Z.of_nat fuel.
Proof. intros (_&_&?). lia. Qed.

Lemma context_fuel_enough c : ctx_ok c → range_len (c_r c) < Z.of_nat (context_fuel c).
Proof. intros [Hr _]. unfold context_fuel. pose proof (range_len_nonneg _ Hr). lia. Qed.

Lemma advanced_suffix c c' : advanced c c' → range_suffix (c_r c') (c_r c).
Proof. by intros (_&?&_). Qed.

#[export] Hint Resolve inner_within inner_ok inner_advanced advanced_ok advanced_fuel
  context_fuel_enough advanced_trans toplevel_ok advanced_suffix : c_ok.

(** Run the reader [m] in [or_else m f k] by its specification [spec]. *)
Ltac wp_read spec :=
  apply wp_or_else; eapply wp_mono; [apply spec; eauto with c_ok|].

(** ** Digests and severable members *)

Lemma read_digest_safe {D} (w : digest_dest D) c d :
  ctx_ok c →
  wp (read_digest w c d) (fun '(c', d', o) =>
    match o with
    | Some _ => advanced c c' ∧ c_count c' = c_count c ∧
        ∃ a b, d' = set_bytes w (set_algorithm_id w d a) b ∧ inner c b ∧ INT_MIN <= a <= INT_MAX
    | None => (d' = d ∨ ∃ a, d' = set_algorithm_id w d a ∨
                 ∃ b, inner c b ∧ d' = set_bytes w (set_algorithm_id w d a) b)
    end).
Proof.
  intros Hc. unfold read_digest. wp_read read_array_child. intros [c1 [arr|]]; [|by left].
  intros (H1&Hn1&Ha&Hs&_). wp_read read_int_spec. intros [a1 [alg|]]; [|by left].
  intros (Hok1&(Hs1&_)&Hl1&Hi). wp_read read_bstr_inner. intros [a2 [b|]]; [|by right; eauto].
  intros (Ha2&_&Hb). assert (advanced c a1) as Ha1.
  { destruct Ha as (?&?&?). unfold advanced. c_done. }
  assert (inner c b) by eauto with c_ok.
  wp_read skip_all_spec. intros [a3 [u|]]; [|by right; eauto].
  intros (Hok3&Hs3&_&_). apply wp_or_else.
  eapply wp_mono; [apply (close_advanced _ _ c); [done..|]|].
  { pose proof (advanced_suffix _ _ Ha2). eauto with c_ok. }
  intros [c' [u'|]]; [|by right; eauto 6]. intros (?&?&_).
  split_and!; [done|congruence|]. exists alg, b. done.
Qed.

(** *** Properties of what is stored *)

(** Every range of a severable's union satisfies [P]. *)
Definition severable_all (P : tcbor_range → Prop) (s : suit_severable) : Prop :=
  match sev_union s with
  | UBody b => P b
  | UAlgorithm _ => True
  | UDigest d => P (digest_bytes d)
  end.

(** A member that was read: the flags describe the union. *)
Definition severable_set (P : tcbor_range → Prop) (s : suit_severable) : Prop :=
  has_value s = true →
    if severed s then ∃ d, sev_union s = UDigest d ∧ P (digest_bytes d)
    else ∃ b, sev_union s = UBody b ∧ P b ∧ tcbor_range_is_null b = false.

Lemma read_severed_safe c s :
  ctx_ok c → severable_all range_ok s →
  wp (read_severed c s) (fun '(c', s', o) =>
    severable_all range_ok s' ∧
    match o with
    | Some _ => advanced c c' ∧ c_count c' = c_count c ∧ has_value s' = true ∧
        severable_set (inner c) s'
    | None => has_value s' = has_value s
    end).
Proof.
  intros Hc Hs. unfold read_severed. wp_read read_bstr_inner. intros [c1 [b|]].
  { intros (?&?&?). unfold severable_set; cbn. split_and!; try done; [by eauto with c_ok|].
    intros _. exists b. pose proof H1 as [? ?]. done. }
  intros Hsame. wp_read (@read_digest_safe). intros [[c2 d] [u|]]; cbn.
  - intros (H2&Hn&a&b&->&Hb&_).
    rewrite Hsame in *. unfold severable_set; cbn.
    assert (range_ok b) by (by eapply (inner_ok c)). split_and!; try done. eauto.
  - intros Hd. split; [|done]. unfold severable_all; cbn.
    destruct Hd as [->|(a&[->|(b&Hb&->)])]; [done..|]. cbn.
    rewrite Hsame in Hb. by eapply (inner_ok c).
Qed.

(** ** The common section *)

Lemma read_component_safe :
  advancing (fun c cp => inner c (id_cbor cp)) read_component.
Proof.
  intros c Hc. unfold read_component. wp_read read_subobject_spec. intros [c' [r|]]; [|done].
  intros (?&(?&?&?)&?&Hb). apply bytes_inner in Hb. unfold advanced. cbn. c_done.
Qed.

Lemma read_dependency_safe : advancing (fun _ _ => True) read_dependency.
Proof.
  intros c Hc. unfold read_dependency. wp_read read_map_child. intros [c1 [m|]]; [|done].
  intros (H1&Hn1&Hm&Hs&_). wp_read skip_all_spec. intros [m' [u|]]; [|done].
  intros (Hok&Hs'&_). apply wp_or_else.
  eapply wp_mono; [apply (close_advanced _ _ c); eauto with c_ok|].
  intros [c' [u'|]]; [|done]. intros (?&?&_). cbn. split_and!; congruence || done.
Qed.

(** The capacities and ranges of a common section. *)
Definition common_all (P : tcbor_range → Prop) (c : suit_common) : Prop :=
  (n_dependencies c <= SUIT_DEPENDENCY_MAX)%nat ∧ (n_components c <= SUIT_COMPONENT_MAX)%nat ∧
  Forall (fun cp => P (id_cbor cp)) (components c) ∧ P (command_sequence c).

Lemma read_dependencies_safe P fuel array ret :
  ctx_ok array → range_len (c_r array) < Z.of_nat fuel → common_all P ret →
  wp (read_dependencies fuel array ret) (fun '(ret', o) =>
    common_all P ret' ∧
    match o with
    | Some array' => ctx_ok array' ∧ range_suffix (c_r array') (c_r array)
    | None => True
    end).
Proof.
  revert array ret. induction fuel as [|fuel IH]; intros array ret Hok Hf Hret; cbn [read_dependencies].
  all: destruct (tcbor_is_end_of_context array); [cbn; destruct Hok; unfold ctx_ok; c_done|].
  { destruct Hok as [Hr _]. pose proof (range_len_nonneg _ Hr). lia. }
  destruct (Nat.eqb_spec (n_dependencies ret) SUIT_DEPENDENCY_MAX); [done|].
  wp_read read_dependency_safe. intros [a' [u|]]; [|done]. intros (Ha&_&_).
  eapply wp_mono; [apply IH; eauto with c_ok|].
  - destruct Hret as (?&?&?&?). unfold common_all, n_components in *; cbn. split_and!; done || lia.
  - intros [ret' [b|]]; [|done]. intros (?&?&?). split; [done|]. split; [done|].
    pose proof (advanced_suffix _ _ Ha). eauto with c_ok.
Qed.

Lemma read_components_safe (P : tcbor_range → Prop) fuel array ret :
  ctx_ok array → range_len (c_r array) < Z.of_nat fuel → common_all P ret →
  (∀ r, inner array r → P r) →
  wp (read_components fuel array ret) (fun '(ret', o) =>
    common_all P ret' ∧
    match o with
    | Some array' => ctx_ok array' ∧ range_suffix (c_r array') (c_r array)
    | None => True
    end).
Proof.
  revert array ret. induction fuel as [|fuel IH]; intros array ret Hok Hf Hret HP; cbn [read_components].
  all: destruct (tcbor_is_end_of_context array); [cbn; destruct Hok; unfold ctx_ok; c_done|].
  { destruct Hok as [Hr _]. pose proof (range_len_nonneg _ Hr). lia. }
  destruct (Nat.eqb_spec (n_components ret) SUIT_COMPONENT_MAX); [done|].
  wp_read read_component_safe. intros [a' [cp|]]; [|done]. intros (Ha&_&Hcp).
  eapply wp_mono; [apply IH; eauto with c_ok|].
  - destruct Hret as (?&?&?&?). unfold common_all, n_components in *; cbn. rewrite length_app; cbn.
    rewrite Forall_app, Forall_singleton. split_and!; try done; [lia|by apply HP].
  - intros [ret' [b|]]; [|done]. intros (?&?&?). split; [done|]. split; [done|].
    pose proof (advanced_suffix _ _ Ha). eauto with c_ok.
Qed.

Lemma parse_common_loop_safe (P : tcbor_range → Prop) fuel map ret ds cs :
  ctx_ok map → range_len (c_r map) < Z.of_nat fuel → common_all P ret →
  (∀ r, inner map r → P r) →
  wp (parse_common_loop fuel map ret ds cs) (fun '(ret', o) =>
    common_all P ret' ∧
    match o with
    | Some map' => ctx_ok map' ∧ range_suffix (c_r map') (c_r map)
    | None => True
    end).
Proof.
  revert map ret ds cs.
  induction fuel as [|fuel IH]; intros map ret ds cs Hok Hf Hret HP; cbn [parse_common_loop].
  all: destruct (tcbor_is_end_of_context map); [cbn; destruct Hok; unfold ctx_ok; c_done|].
  { destruct Hok as [Hr _]. pose proof (range_len_nonneg _ Hr). lia. }
  wp_read read_any_spec. intros [m1 [key|]]; [|done]. intros (Hok1&(Hs1&_)&Hl1&_).
  assert (advanced map m1) as H1 by done.
  destruct (tcbor_is_tag key); [done|]. destruct (tcbor_is_uint key); [|done].
  assert (∀ m ret ds cs, advanced m1 m → common_all P ret →
    wp (parse_common_loop fuel m ret ds cs) (fun '(ret', o) =>
      common_all P ret' ∧
      match o with
      | Some map' => ctx_ok map' ∧ range_suffix (c_r map') (c_r map)
      | None => True
      end)) as Hnext.
  { intros m ret0 ds0 cs0 Hm Hret0. assert (advanced map m) as Hmm by eauto with c_ok.
    eapply wp_mono; [apply IH; eauto with c_ok|].
    intros [ret' [b|]]; [|done]. intros (?&?&?). split; [done|]. split; [done|].
    pose proof (advanced_suffix _ _ Hmm). eauto with c_ok. }
  destruct (any_value key =? SUIT_DEPENDENCIES); [|destruct (any_value key =? SUIT_COMPONENTS);
    [|destruct (any_value key =? SUIT_COMMON_SEQUENCE); [|done]]].
  - destruct ds; [done|]. wp_read read_array_child. intros [m2 [arr|]]; [|done].
    intros (H2&_&Ha&Hs2&_). wp_read read_dependencies_safe.
    intros [ret2 [arr'|]]; [|by intros []]. intros (Hret2&Hok2&Hs2').
    apply wp_or_else. eapply wp_mono; [apply (close_advanced _ _ m1); eauto with c_ok|].
    intros [m3 [u|]]; [|done]. intros (H3&_&_). by apply Hnext.
  - destruct cs; [done|]. wp_read read_array_child. intros [m2 [arr|]]; [|done].
    intros (H2&_&Ha&Hs2&_). wp_read (read_components_safe P).
    intros [ret2 [arr'|]]; [|by intros []]. intros (Hret2&Hok2&Hs2').
    apply wp_or_else. eapply wp_mono; [apply (close_advanced _ _ m1); eauto with c_ok|].
    intros [m3 [u|]]; [|done]. intros (H3&_&_). by apply Hnext.
  - destruct (negb _); [done|]. wp_read read_bstr_inner. intros [m2 [r|]]; [|done].
    intros (H2&_&Hr). apply Hnext; [done|].
    destruct Hret as (?&?&?&?). unfold common_all, n_components in *; cbn. split_and!; try done.
    apply HP. eauto with c_ok.
Qed.

Lemma parse_common_safe (P : tcbor_range → Prop) r :
  range_ok r → P None → (∀ r', range_within r' r → P r') →
  wp (suit_parse_common r) (fun '(ret, _) => common_all P ret).
Proof.
  intros Hr HN HP. assert (common_all P (Common 0 [] tcbor_range_null)) as H0.
  { unfold common_all, n_components; cbn. split_and!; try done; apply Nat.le_0_l. }
  unfold suit_parse_common. wp_read read_map_child.
  intros [c1 [m|]]; [|done]. intros (H1&_&Hm&Hs&_). wp_read (parse_common_loop_safe P).
  { intros r' Hr'. apply HP. pose proof (advanced_suffix _ _ Hm). cbn in *.
    apply inner_within in Hr'. eauto with c_ok. }
  intros [ret [m'|]]; [|by intros []]. intros (Hret&?&?).
  apply wp_or_else. eapply wp_mono; [apply (close_advanced _ _ (tcbor_toplevel r)); eauto with c_ok|].
  by intros [c2 [u|]].
Qed.

(** ** The manifest *)

(** The range fields other than the common section and the unions. *)
Definition manifest_ranges (P : tcbor_range → Prop) (m : suit_manifest) : Prop :=
  P (binary m) ∧ P (common_bstr m) ∧ P (reference_uri m) ∧ P (validate m) ∧ P (load_seq m) ∧
  P (run_seq m).

Definition severables (Q : suit_severable → Prop) (m : suit_manifest) : Prop :=
  Q (dependency_resolution m) ∧ Q (payload_fetch m) ∧ Q (install m) ∧ Q (text m) ∧ Q (coswid m).

(** What holds of a slot of the context at any time, parsed or not. *)
Definition slot_ok (m : suit_manifest) : Prop :=
  common_all range_ok (common m) ∧ severables (severable_all range_ok) m ∧
  range_ok (envelope_bstr m) ∧ manifest_ranges range_ok m.

Lemma severable_set_mono (P Q : tcbor_range → Prop) s :
  (∀ r, P r → Q r) → severable_set P s → severable_set Q s.
Proof.
  intros H Hs Hv. specialize (Hs Hv).
  destruct (severed s); [destruct Hs as (d&?&?)|destruct Hs as (b&?&?&?)]; eauto.
Qed.

Lemma common_all_mono (P Q : tcbor_range → Prop) c :
  (∀ r, P r → Q r) → common_all P c → common_all Q c.
Proof.
  intros H (?&?&Hf&?). unfold common_all. split_and!; auto.
  eapply Forall_impl; [|exact Hf]. auto.
Qed.

(** The invariant of the loop of [suit_manifest_parse] on the range [r]. *)
Definition parsing (r : tcbor_range) (m : suit_manifest) : Prop :=
  let within x := range_within x r in
  slot_ok m ∧ manifest_ranges within m ∧ severables (severable_set within) m ∧
  (tcbor_range_is_null (common_bstr m) = false → common_all within (common m)) ∧
  binary m = r ∧ version m = 1.

(** A manifest the parser accepted. *)
Definition parsed (r : tcbor_range) (m : suit_manifest) : Prop :=
  parsing r m ∧ tcbor_range_is_null (common_bstr m) = false.

Lemma slot_zero : slot_ok manifest_zero.
Proof.
  unfold slot_ok, common_all, severables, severable_all, manifest_ranges, n_components; cbn.
  split_and!; try done; apply Nat.le_0_l.
Qed.

Lemma manifest_init_ok r m : range_ok r → slot_ok m → slot_ok (manifest_init r m).
Proof.
  destruct m. unfold slot_ok, severables, severable_all, manifest_ranges, manifest_init; cbn.
  intros ? (?&(?&?&?&?&?)&?&?&?&?&?&?&?). split_and!; done.
Qed.

Lemma manifest_init_parsing r m :
  range_ok r → slot_ok m → parsing r (with_version (manifest_init r m) 1).
Proof.
  intros Hr Hm. pose proof (manifest_init_ok r m Hr Hm) as Hok. pose proof (range_within_refl r Hr).
  destruct m. unfold parsing, slot_ok, severables, severable_set, manifest_ranges in *; cbn in *.
  destruct_and! Hok. split_and!; done.
Qed.

Lemma parsing_sequence_number r m n : parsing r m → parsing r (with_sequence_number m n).
Proof. by destruct m. Qed.

(** A case of the switch preserves the invariant and moves on in the map. *)
Definition field_step (r : tcbor_range) (map : tcbor_context)
    (step : outcome (suit_manifest * option tcbor_context)) : Prop :=
  wp step (fun '(m', o) =>
    slot_ok m' ∧ match o with Some map' => parsing r m' ∧ advanced map map' | None => True end).

(** The fields a byte string is read into. *)
Definition range_setter (set : suit_manifest → tcbor_range → suit_manifest) : Prop :=
  ∀ r m x, range_ok r → range_within x r → parsing r m → parsing r (set m x).

(** The fields a severable member is read into. *)
Definition severable_setter (get : suit_manifest → suit_severable)
    (set : suit_manifest → suit_severable → suit_manifest) : Prop :=
  (∀ m, slot_ok m → severable_all range_ok (get m)) ∧
  (∀ m x, slot_ok m → severable_all range_ok x → slot_ok (set m x)) ∧
  ∀ r m x, range_ok r → severable_all range_ok x →
    severable_set (fun b => range_within b r) x → parsing r m → parsing r (set m x).

Ltac solve_setter :=
  unfold severable_setter, range_setter, parsing, slot_ok, severables, manifest_ranges;
  lazymatch goal with |- _ ∧ _ => split; [|split] | _ => idtac end; intros;
    match goal with m : suit_manifest |- _ => destruct m end; cbn in *;
    repeat match goal with H : _ ∧ _ |- _ => destruct H end; split_and?;
    try done; eauto with c_ok.

Lemma reference_uri_setter : range_setter with_reference_uri.
Proof. solve_setter. Qed.
Lemma validate_setter : range_setter with_validate.
Proof. solve_setter. Qed.
Lemma load_setter : range_setter with_load.
Proof. solve_setter. Qed.
Lemma run_setter : range_setter with_run.
Proof. solve_setter. Qed.
Lemma dependency_resolution_setter :
  severable_setter dependency_resolution with_dependency_resolution.
Proof. solve_setter. Qed.
Lemma payload_fetch_setter : severable_setter payload_fetch with_payload_fetch.
Proof. solve_setter. Qed.
Lemma install_setter : severable_setter install with_install.
Proof. solve_setter. Qed.
Lemma text_setter : severable_setter text with_text.
Proof. solve_setter. Qed.
Lemma coswid_setter : severable_setter coswid with_coswid.
Proof. solve_setter. Qed.

#[export] Hint Resolve reference_uri_setter validate_setter load_setter run_setter
  dependency_resolution_setter payload_fetch_setter install_setter text_setter coswid_setter : c_ok.

Lemma parsing_slot r m : parsing r m → slot_ok m.
Proof. by intros []. Qed.

#[export] Hint Resolve parsing_slot : c_ok.

Section fields.
Context (r : tcbor_range) (map : tcbor_context) (m : suit_manifest).
Hypothesis Hr : range_ok r.
Hypothesis Hmap : ctx_ok map.
Hypothesis Hin : range_suffix (c_r map) r.
Hypothesis Hm : parsing r m.

Lemma inner_in x : inner map x → range_within x r.
Proof. intros [? _]. eauto with c_ok. Qed.

Lemma bstr_field_safe set : range_setter set → field_step r map (bstr_field set map m).
Proof.
  intros Hset. unfold field_step, bstr_field. wp_read read_bstr_inner.
  intros [map' [x|]]; [|by split; [eauto with c_ok|]]. intros (?&_&?%inner_in).
  assert (parsing r (set m x)) by by apply Hset. cbn. eauto with c_ok.
Qed.

Lemma severed_field_safe get set :
  severable_setter get set → field_step r map (severed_field get set map m).
Proof.
  intros (Hget&Hslot&Hset). unfold field_step, severed_field. pose proof (parsing_slot _ _ Hm).
  wp_read read_severed_safe. intros [[map' s'] [u|]]; cbn; [|intros [? _]; split; auto].
  intros (Hs&?&_&_&Hsev). assert (parsing r (set m s')).
  { apply Hset; [done..| |done]. eapply severable_set_mono; [|done]. apply inner_in. }
  eauto with c_ok.
Qed.

Lemma skip_field_safe : field_step r map (skip_field map m).
Proof.
  unfold field_step, skip_field. wp_read (skip_spec 1); [by unfold u64_modulus|].
  intros [map' [u|]]; cbn; [|by split; [eauto with c_ok|]]. intros (?&(?&_)&?&_).
  unfold advanced. split_and!; eauto with c_ok.
Qed.

Lemma with_common_parsing x c :
  range_within x r → common_all (fun y => range_within y r) c →
  parsing r (with_common (with_common_bstr m x) c).
Proof.
  intros Hx Hc. assert (common_all range_ok c) by (apply (common_all_mono (fun y => range_within y r)); eauto with c_ok).
  clear Hmap Hin. unfold parsing, slot_ok, severables, manifest_ranges in *.
  destruct m; cbn in *. destruct_and! Hm. split_and?; try done; eauto with c_ok.
Qed.

Lemma common_field_safe : field_step r map (common_field map m).
Proof.
  unfold field_step, common_field. wp_read read_bstr_inner.
  intros [map' [x|]]; [|by split; [eauto with c_ok|]]. intros (?&_&Hx).
  apply inner_in in Hx as Hxr.
  apply wp_or_else. eapply wp_mono; [apply (parse_common_safe (fun y => range_within y r) x)|].
  - by eapply inner_ok.
  - done.
  - eauto with c_ok.
  - intros [c [u|]] Hc; cbn; pose proof (with_common_parsing x c Hxr Hc); eauto with c_ok.
Qed.

Lemma manifest_field_safe key : field_step r map (manifest_field key map m).
Proof.
  unfold manifest_field. destruct (_ || _); [split; [by eauto with c_ok|done]|].
  repeat match goal with |- field_step _ _ (if ?b then _ else _) => destruct b end;
    eauto using common_field_safe, bstr_field_safe, severed_field_safe, skip_field_safe with c_ok.
Qed.
End fields.

Lemma parse_manifest_loop_safe r fuel map m :
  range_ok r → ctx_ok map → range_len (c_r map) < Z.of_nat fuel → range_suffix (c_r map) r →
  parsing r m →
  wp (parse_manifest_loop fuel map m) (fun '(m', o) =>
    slot_ok m' ∧
    match o with
    | Some map' => parsing r m' ∧ ctx_ok map' ∧ range_suffix (c_r map') (c_r map)
    | None => True
    end).
Proof.
  revert map m. induction fuel as [|fuel IH]; intros map m Hr Hok Hf Hin Hm; cbn [parse_manifest_loop].
  all: destruct (tcbor_is_end_of_context map);
    [destruct Hok; unfold ctx_ok; cbn; c_done|].
  { destruct Hok as [Hr' _]. pose proof (range_len_nonneg _ Hr'). lia. }
  wp_read read_any_spec. intros [m1 [key|]]; [|by split; [eauto with c_ok|]].
  intros (Hok1&(Hs1&_)&Hl1&_). assert (advanced map m1) as H1 by done.
  destruct (tcbor_is_tag key); [by split; [eauto with c_ok|]|].
  assert (range_suffix (c_r m1) r) by eauto with c_ok.
  apply wp_or_else. eapply wp_mono.
  { instantiate (1 := fun '(m', o) => slot_ok m' ∧
      match o with Some map' => parsing r m' ∧ advanced m1 map' | None => True end).
    destruct (tcbor_is_uint key); [by apply manifest_field_safe|by apply skip_field_safe]. }
  intros [m' [map'|]]; [|by intros []]. intros (_&Hm'&Ha).
  assert (advanced map map') as Hmm by eauto with c_ok.
  pose proof (advanced_suffix _ _ Hmm).
  eapply wp_mono; [apply IH; eauto with c_ok|].
  intros [m'' [map''|]]; [|done]. intros (?&?&?&?). eauto with c_ok.
Qed.

Lemma read_key_and_uint_safe key : advancing (fun _ _ => True) (fun c => read_key_and_uint c key).
Proof.
  intros c Hc. unfold read_key_and_uint, match_key. apply wp_or_else.
  wp_read read_uint_spec. intros [c1 [k|]]; [|done]. intros (?&(?&?&?)&?&_).
  destruct (negb _); [done|]. cbn. wp_read read_uint_spec. intros [c2 [v|]]; [|done].
  intros (?&(?&?&?)&?&_). unfold advanced. cbn. c_done.
Qed.

Lemma with_version_ok m v : slot_ok m → slot_ok (with_version m v).
Proof. by destruct m. Qed.

(** The outcome of [suit_manifest_parse]: always a well-formed slot, and a
    manifest of the given range when it returns [true]. *)
Lemma manifest_parse_safe r m :
  range_ok r → slot_ok m →
  wp (suit_manifest_parse r m) (fun '(m', o) =>
    slot_ok m' ∧ match o with Some _ => parsed r m' | None => True end).
Proof.
  intros Hr Hm. unfold suit_manifest_parse. pose proof (manifest_init_ok r m Hr Hm) as Hi.
  wp_read read_map_child. intros [c1 [map|]]; [|done]. intros (H1&_&Hmap&Hs&_).
  wp_read (read_key_and_uint_safe SUIT_MANIFEST_VERSION). intros [map1 [v|]]; [|done]. intros (Hm1&_).
  destruct (Z.eqb_spec (version (with_version (manifest_init r m) v)) 1) as [Hv|]; cbn [negb];
    [|split; [by apply with_version_ok|done]].
  assert (v = 1) as ->. { by destruct m. }
  pose proof (manifest_init_parsing r m Hr Hm) as Hp.
  wp_read (read_key_and_uint_safe SUIT_MANIFEST_SEQUENCE_NUMBER). intros [map2 [n|]].
  2: { intros _. split; [by eauto with c_ok|done]. }
  intros (Hm2&_). assert (advanced (tcbor_toplevel r) map2) as Hm2' by eauto with c_ok.
  pose proof (advanced_suffix _ _ Hm2') as Hs2. cbn [c_r tcbor_toplevel] in Hs2.
  wp_read (parse_manifest_loop_safe r).
  intros [m' [map3|]]; [|by intros []]. intros (Hslot&Hp'&Hok3&Hs3).
  apply wp_or_else. eapply wp_mono; [apply (close_advanced _ _ (tcbor_toplevel r)); [done..|]|].
  { pose proof (advanced_suffix _ _ Hm2). pose proof (advanced_suffix _ _ Hm1). eauto with c_ok. }
  intros [c' [u|]]; [|done]. intros _. destruct (tcbor_range_is_null (common_bstr m')) eqn:?; done.
Qed.

(** ** Envelope fields *)

Lemma get_field_loop_safe (P : tcbor_range → Prop) fuel b key kt map field :
  ctx_ok map → range_len (c_r map) < Z.of_nat fuel → range_ok kt →
  (∀ x, inner map x → P x) → P field →
  wp (get_field_loop fuel b key kt map field) (fun o =>
    match o with Some x => P x | None => True end).
Proof.
  revert map field. induction fuel as [|fuel IH]; intros map field Hok Hf Hkt HP Hfield;
    cbn [get_field_loop].
  all: destruct (tcbor_is_end_of_context map); [done|].
  { destruct Hok as [Hr _]. pose proof (range_len_nonneg _ Hr). lia. }
  wp_read read_any_spec. intros [m1 [k|]]; [|done]. intros (Hok1&(Hs1&_)&Hl1&Hwf).
  assert (advanced map m1) as H1 by done.
  destruct (tcbor_is_tag k); [done|].
  apply wp_bind. eapply wp_mono.
  { instantiate (1 := fun _ => True). destruct (tcbor_is_uint k); [done|].
    destruct (tcbor_is_tstr k) eqn:Ht; [|done]. destruct b; [|done].
    destruct (any_wf_bytes _ _ Hwf) as (x&Hx&Hin); [by rewrite Ht, orb_true_r|].
    rewrite range_equal_spec; [done| |done]. rewrite Hx. destruct Hok. eauto with c_ok. }
  intros [|] _.
  - wp_read read_bstr_inner. intros [m2 [f|]]; [|done]. intros (H2&_&Hfi).
    apply IH; eauto with c_ok.
  - wp_read (skip_spec 1); [by unfold u64_modulus|]. intros [m2 [u|]]; [|done].
    intros (?&(?&_)&?&_). assert (advanced m1 m2) by done. apply IH; eauto with c_ok.
Qed.

(** A field is null or a byte string inside the envelope. *)
Lemma get_field_safe env b key kt :
  range_ok env → range_ok kt →
  wp (suit_envelope_get_field env b key kt) (fun o =>
    match o with Some x => range_within x env | None => True end).
Proof.
  intros Hr Hkt. unfold suit_envelope_get_field. destruct (_ && _); [done|].
  wp_read read_tag_spec. intros [c1 [tag|]]; [|done]. intros (?&(?&_)&?&_).
  destruct (negb _); [done|]. wp_read read_map_child. intros [c2 [map|]]; [|done].
  intros (H2&_&Hm&_&_). assert (range_suffix (c_r map) env).
  { pose proof (advanced_suffix _ _ Hm). cbn in *. eauto with c_ok. }
  apply get_field_loop_safe; try done; [eauto with c_ok..|]. intros x [? _]. eauto with c_ok.
Qed.

(** ** The context slot *)

(** [m] is the manifest that [env] holds. *)
Definition envelope_parsed (env : tcbor_range) (m : suit_manifest) : Prop :=
  ∃ r m0, suit_envelope_get_field_by_key env SUIT_MANIFEST = Done (Some r) ∧
    range_within r env ∧ parsed r m0 ∧ m = with_envelope_bstr m0 env.

Lemma get_manifest_safe env m :
  range_ok env → slot_ok m →
  wp (suit_envelope_get_manifest env m) (fun '(m', o) =>
    slot_ok m' ∧ match o with Some _ => envelope_parsed env m' | None => True end).
Proof.
  intros Henv Hm. unfold suit_envelope_get_manifest.
  destruct (wp_elim _ _ (get_field_safe env false SUIT_MANIFEST tcbor_range_null Henv I))
    as (o & Ho & Hr). unfold suit_envelope_get_field_by_key. rewrite Ho. cbn.
  destruct o as [r|]; [|done]. wp_read manifest_parse_safe.
  intros [m' [u|]]; [|by intros []]. intros (Hs&Hp). cbn. split.
  - destruct m'. unfold slot_ok, severables, manifest_ranges in *; cbn in *.
    destruct_and! Hs. by split_and?.
  - by exists r, m'.
Qed.
