(* ===== verification/SuitSpec.v ===== *)
(** * SuitSpec: what the SUIT parser computes on encoded CBOR

    Reference functions on CBOR trees for the envelope, the common section and
    the manifest, and the lemmas that compare the parser with them. *)

From stdpp Require Import gmap.
From S2P Require Import Prelude Tcbor TcborFacts CborSpec CborTree SuitTypes SuitParser SuitParserFacts.

Local Open Scope Z_scope.

(** The contents of a range; [None] for the null range. *)
Definition view (r : tcbor_range) : option (list byte) := span_bytes <$> r.

(** ** Envelope fields *)

Definition field_match (use_tstr : bool) (key : Z) (kt : option (list byte)) (k : cbor) : bool :=
  if use_tstr then
    match item_string 3 k with Some bs => bool_decide (Some bs = kt) | None => false end
  else match item_uint k with Some v => v =? key | None => false end.

(** The value of the last entry with the wanted key; an entry with that key
    whose value is not a byte string makes the whole look-up fail. *)
Fixpoint find_field (b : bool) (key : Z) (kt : option (list byte)) (kvs : list cbor)
    (field : option (list byte)) : option (option (list byte)) :=
  match kvs with
  | k :: v :: kvs =>
      if field_match b key kt k then
        match item_string 2 v with
        | Some bs => find_field b key kt kvs (Some bs)
        | None => None
        end
      else find_field b key kt kvs field
  | _ => Some field
  end.

Lemma field_match_code k a b key kt :
  cbor_wf k = true → flat_key k = true → any_is k a → range_ok kt →
  (if tcbor_is_uint a then Done (negb b && (any_value a =? key))
   else if tcbor_is_tstr a then if b then tcbor_range_equal (any_bytes a) kt else Done false
   else Done false) = Done (field_match b key (view kt) k).
Proof.
  intros Hk Hf Ha Hkt. pose proof (any_is_uint k a Hk Ha) as Hu. pose proof (any_is_tstr k a Hk Ha) as Ht.
  unfold field_match. destruct (item_uint k) as [v|] eqn:Huk.
  - destruct Hu as [-> ->]. destruct b; [|done]. cbn. by destruct k.
  - rewrite Hu. destruct (item_string 3 k) as [bs|] eqn:Htk.
    + destruct Ht as (->&s&Hs&Hok&Hb). destruct b; [|done]. rewrite Hs, range_equal_spec by done.
      destruct kt as [t|]; cbn; [|by rewrite bool_decide_eq_false_2].
      rewrite Hb. f_equal. apply bool_decide_ext. split; [by intros ->|by intros [= ->]].
    + rewrite Ht. by destruct b.
Qed.

Lemma at_items_tail_wf c k v l rest :
  at_items c (k :: v :: l) rest → cbor_wf k = true ∧ cbor_wf v = true.
Proof. intros [H _]. cbn in H. by apply andb_true_iff in H as [? [??]%andb_true_iff]. Qed.

Lemma get_field_loop_at b key kt : ∀ kvs,
  Nat.Even (length kvs) → ∀ fuel map field rest,
  at_items map kvs rest → forallb flat_key (keys kvs) = true →
  range_ok kt → (length kvs < fuel)%nat →
  ∃ o, get_field_loop fuel b key kt map field = Done o ∧
    (view <$> o) = find_field b key (view kt) kvs (view field).
Proof.
  refine (pairs_ind _ _ _); [|intros k v kvs IH]; intros fuel map field rest Hm Hk Hkt Hf;
    (destruct fuel as [|fuel]; [cbn in Hf; lia|]);
    cbn [get_field_loop]; rewrite (at_items_end _ _ _ Hm).
  { eexists. done. }
  cbn [keys forallb] in Hk. apply andb_true_iff in Hk as [Hk Hks]. cbn [length] in Hf.
  destruct (at_items_tail_wf _ _ _ _ _ Hm) as [Hwk Hwv].
  destruct (at_read_key _ _ _ _ Hm Hk) as (m1&a&->&Ha&Ht&Hm1). cbn [or_else]. rewrite Ht.
  rewrite (field_match_code k a b key kt) by done. cbn [mbind outcome_bind find_field].
  destruct (field_match b key (view kt) k).
  - pose proof (at_read_bstr _ _ _ _ Hm1) as Hr. destruct (item_string 2 v) as [bs|].
    + destruct Hr as (m2&r&->&Hm2&s&->&_&Hb). cbn [or_else].
      destruct (IH fuel m2 (Some s) rest) as (o&->&Ho); try done; [lia|].
      exists o. split; [done|]. rewrite Ho. cbn. by rewrite Hb.
    + destruct Hr as (m2&->&_). by exists None.
  - destruct (at_skip_one _ _ _ _ Hm1) as (m2&->&Hm2). cbn [or_else]. apply (IH fuel m2 field rest); try done. lia.
Qed.

(** *** A whole envelope *)

Definition map_fields (x : cbor) : list cbor := match x with CMap _ kvs => kvs | _ => [] end.

Lemma get_field_at s ai aim kvs rest b key kt :
  span_ok s → range_ok kt → cbor_wf (CTag ai 107 (CMap aim kvs)) = true →
  forallb flat_key (keys kvs) = true →
  span_bytes s = encode (CTag ai 107 (CMap aim kvs)) ++ rest →
  b = true ∨ is_envelope_key key = true →
  ∃ o, suit_envelope_get_field (Some s) b key kt = Done o ∧
    (view <$> o) = find_field b key (view kt) kvs None.
Proof.
  intros Hs Hkt Hwf Hk Hb Hkey. unfold suit_envelope_get_field.
  assert (negb b && negb (is_envelope_key key) = false) as ->.
  { destruct Hkey as [->| ->]; [done|by rewrite andb_false_r]. }
  pose proof (at_toplevel s _ _ Hs Hwf Hb) as Hc.
  destruct (at_read_tag _ _ _ _ _ _ Hc) as (c1&->&Hc1). cbn [or_else]. change (negb (107 =? 107)) with false.
  cbv iota. pose proof (at_read_map _ _ _ _ Hc1) as Hmap. cbn [item_map reads] in Hmap.
  destruct Hmap as (c2&map&->&Hm&_). cbn [or_else].
  apply (get_field_loop_at b key kt kvs) with (rest := encode_all [] ++ rest); try done.
  - cbn [cbor_wf] in Hwf. apply andb_true_iff in Hwf as [_ Hwf]. by eapply map_pairs_even.
  - pose proof (at_items_len _ _ _ Hm). unfold context_fuel. lia.
Qed.

(** ** The common section *)

Record common_view := CommonView {
  cv_dependencies : nat;
  cv_components : list (list byte);
  cv_sequence : option (list byte)
}.

Definition view_common (c : suit_common) : common_view :=
  CommonView (n_dependencies c)
    (map (fun cp => default [] (view (id_cbor cp))) (components c)) (view (command_sequence c)).

Definition is_map (x : cbor) : bool := match x with CMap _ _ => true | _ => false end.

(** The entries of the common section: each key at most once, at most eight
    dependencies (maps) and eight components, nothing else. *)
Fixpoint common_fields (kvs : list cbor) (ds cs : bool) (cv : common_view) : option common_view :=
  match kvs with
  | k :: v :: kvs =>
      match item_uint k with
      | Some key =>
          if key =? SUIT_DEPENDENCIES then
            match item_array v with
            | Some l =>
                if negb ds && (length l <=? 8)%nat && forallb is_map l
                then common_fields kvs true cs (CommonView (length l) (cv_components cv) (cv_sequence cv))
                else None
            | None => None
            end
          else if key =? SUIT_COMPONENTS then
            match item_array v with
            | Some l =>
                if negb cs && (length l <=? 8)%nat
                then common_fields kvs ds true
                       (CommonView (cv_dependencies cv) (map encode l) (cv_sequence cv))
                else None
            | None => None
            end
          else if key =? SUIT_COMMON_SEQUENCE then
            match item_string 2 v, cv_sequence cv with
            | Some bs, None =>
                common_fields kvs ds cs (CommonView (cv_dependencies cv) (cv_components cv) (Some bs))
            | _, _ => None
            end
          else None
      | None => None
      end
  | _ => Some cv
  end.

Lemma read_dependency_at c x l rest :
  at_items c (x :: l) rest →
  if is_map x then ∃ c', read_dependency c = Done (c', Some tt) ∧ at_items c' l rest
  else ∃ c', read_dependency c = Done (c', None).
Proof.
  intros H. unfold read_dependency. pose proof (at_read_map _ _ _ _ H) as Hm.
  destruct x; cbn [item_map reads is_map] in *; try (destruct Hm as (?&->&_); cbn; eauto; done).
  destruct Hm as (c'&m&->&Hm&Hp). cbn [or_else].
  destruct (at_skip_all _ _ _ Hm) as (m'&->&Hm'). cbn [or_else].
  destruct (at_close _ _ _ _ _ Hp Hm') as (c''&->&?). cbn. eauto.
Qed.

Lemma read_dependencies_at : ∀ l fuel c ret rest,
  at_items c l rest → (length l < fuel)%nat → (n_dependencies ret <= 8)%nat →
  if (n_dependencies ret + length l <=? 8)%nat && forallb is_map l then
    ∃ c', read_dependencies fuel c ret =
      Done (with_n_dependencies ret (n_dependencies ret + length l), Some c') ∧ at_items c' [] rest
  else ∃ ret', read_dependencies fuel c ret = Done (ret', None).
Proof.
  induction l as [|x l IH]; intros fuel c ret rest Hc Hf Hn; (destruct fuel as [|fuel]; [cbn in *; lia|]);
    cbn [read_dependencies]; rewrite (at_items_end _ _ _ Hc).
  { cbn. rewrite Nat.add_0_r. destruct (Nat.leb_spec (n_dependencies ret) 8); [|lia].
    exists c. by destruct ret. }
  destruct (Nat.eqb_spec (n_dependencies ret) SUIT_DEPENDENCY_MAX) as [He|Hne].
  { cbn [length]. destruct (Nat.leb_spec (n_dependencies ret + S (length l)) 8);
      [unfold SUIT_DEPENDENCY_MAX in *; lia|]. cbn [andb]. eauto. }
  pose proof (read_dependency_at _ _ _ _ Hc) as Hx. cbn [forallb].
  destruct (is_map x); [|destruct Hx as (?&->); rewrite andb_false_r; cbn; eauto].
  destruct Hx as (c'&->&Hc'). cbn [or_else andb]. cbn in Hf.
  specialize (IH fuel c' (with_n_dependencies ret (S (n_dependencies ret))) rest Hc').
  cbn [with_n_dependencies n_dependencies length] in IH |- *.
  rewrite <-plus_n_Sm. apply IH; unfold SUIT_DEPENDENCY_MAX in *; lia.
Qed.

Lemma read_components_at : ∀ l fuel c ret rest,
  at_items c l rest → (length l < fuel)%nat → (n_components ret <= 8)%nat →
  if (n_components ret + length l <=? 8)%nat then
    ∃ c' cps, read_components fuel c ret =
      Done (with_components ret (components ret ++ cps), Some c') ∧ at_items c' [] rest ∧
      map (fun cp => default [] (view (id_cbor cp))) cps = map encode l
  else ∃ ret', read_components fuel c ret = Done (ret', None).
Proof.
  induction l as [|x l IH]; intros fuel c ret rest Hc Hf Hn; (destruct fuel as [|fuel]; [cbn in *; lia|]);
    cbn [read_components]; rewrite (at_items_end _ _ _ Hc).
  { cbn. rewrite Nat.add_0_r. destruct (Nat.leb_spec (n_components ret) 8); [|lia].
    exists c, []. rewrite app_nil_r. by destruct ret. }
  destruct (Nat.eqb_spec (n_components ret) SUIT_COMPONENT_MAX) as [He|Hne].
  { cbn [length]. destruct (Nat.leb_spec (n_components ret + S (length l)) 8);
      [unfold SUIT_COMPONENT_MAX in *; lia|]. eauto. }
  unfold read_component. destruct (at_read_subobject _ _ _ _ Hc) as (c'&s&->&Hc'&_&Hs). cbn [or_else].
  set (ret' := with_components ret (components ret ++ [Component (Some s)])). cbn in Hf.
  assert (n_components ret' = S (n_components ret)) as Hn'.
  { unfold n_components; cbn. rewrite length_app; cbn. lia. }
  specialize (IH fuel c' ret' rest Hc'). rewrite Hn' in IH.
  cbn [length]. rewrite <-plus_n_Sm. change (S (n_components ret + length l)) with (S (n_components ret) + length l)%nat.
  destruct (_ <=? _)%nat.
  - destruct IH as (c2&cps&->&?&Hm); [unfold SUIT_COMPONENT_MAX in *; lia..|].
    exists c2, (Component (Some s) :: cps). split_and!; [|done|cbn; by rewrite Hs, Hm].
    unfold ret', with_components; cbn. by rewrite <-app_assoc.
  - apply IH; unfold SUIT_COMPONENT_MAX in *; lia.
Qed.

(** The loop of [suit_parse_common] on the entries that are left. *)
Definition common_loop_inv (ret : suit_common) (ds cs : bool) (cv : common_view) : Prop :=
  view_common ret = cv ∧ (ds = false → n_dependencies ret = 0%nat) ∧ (cs = false → components ret = []).

Definition common_result (o : outcome (suit_common * option tcbor_context)) (rest : list byte)
    (cv : option common_view) : Prop :=
  match cv with
  | Some cv => ∃ ret c, o = Done (ret, Some c) ∧ view_common ret = cv ∧ at_items c [] rest
  | None => ∃ ret, o = Done (ret, None)
  end.

Lemma dependencies_entry_at fuel map ret ds cs cv k v kvs rest :
  (∀ map' ret' cv', at_items map' kvs rest → common_loop_inv ret' true cs cv' →
     common_result (parse_common_loop fuel map' ret' true cs) rest (common_fields kvs true cs cv')) →
  item_uint k = Some SUIT_DEPENDENCIES →
  at_items map (v :: kvs) rest → common_loop_inv ret ds cs cv →
  common_result
    (if ds then Done (ret, None)
     else
       try map, array := tcbor_read_array map otherwise Done (ret, None) ;;
       try ret, array := read_dependencies (context_fuel array) array ret
         otherwise Done (ret, None) ;;
       try map, _u := tcbor_close map array otherwise Done (ret, None) ;;
       parse_common_loop fuel map ret true cs) rest
    (common_fields (k :: v :: kvs) ds cs cv).
Proof.
  intros IH Hk Hm (Hcv&Hds&Hcs). cbn [common_fields]. rewrite Hk, Z.eqb_refl.
  pose proof (at_read_array _ _ _ _ Hm) as Ha. destruct (item_array v) as [l|]; cbn [reads] in Ha.
  2: { destruct Ha as (c'&->&_). destruct ds; cbn; eauto. }
  destruct Ha as (m'&arr&->&Harr&Hp). destruct ds; cbn [negb andb or_else]; [cbn; eauto|].
  pose proof (read_dependencies_at l (context_fuel arr) arr ret _ Harr) as Hd.
  rewrite (Hds eq_refl) in Hd. cbn [Nat.add] in Hd.
  destruct ((length l <=? 8)%nat && forallb is_map l).
  - destruct Hd as (arr'&->&Harr'); [pose proof (at_items_len _ _ _ Harr); unfold context_fuel; lia|lia|].
    cbn [or_else]. destruct (at_close _ _ _ _ _ Hp Harr') as (m2&->&Hm2). cbn [or_else].
    apply IH; [done|]. split_and!; [|done|done]. by rewrite <-Hcv.
  - destruct Hd as (ret'&->); [pose proof (at_items_len _ _ _ Harr); unfold context_fuel; lia|lia|].
    cbn. eauto.
Qed.

Lemma components_entry_at fuel map ret ds cs cv k v kvs rest :
  (∀ map' ret' cv', at_items map' kvs rest → common_loop_inv ret' ds true cv' →
     common_result (parse_common_loop fuel map' ret' ds true) rest (common_fields kvs ds true cv')) →
  item_uint k = Some SUIT_COMPONENTS →
  at_items map (v :: kvs) rest → common_loop_inv ret ds cs cv →
  common_result
    (if cs then Done (ret, None)
     else
       try map, array := tcbor_read_array map otherwise Done (ret, None) ;;
       try ret, array := read_components (context_fuel array) array ret
         otherwise Done (ret, None) ;;
       try map, _u := tcbor_close map array otherwise Done (ret, None) ;;
       parse_common_loop fuel map ret ds true) rest
    (common_fields (k :: v :: kvs) ds cs cv).
Proof.
  intros IH Hk Hm (Hcv&Hds&Hcs). cbn [common_fields]. rewrite Hk.
  change (SUIT_COMPONENTS =? SUIT_DEPENDENCIES) with false. rewrite Z.eqb_refl. cbv iota.
  pose proof (at_read_array _ _ _ _ Hm) as Ha. destruct (item_array v) as [l|]; cbn [reads] in Ha.
  2: { destruct Ha as (c'&->&_). destruct cs; cbn; eauto. }
  destruct Ha as (m'&arr&->&Harr&Hp). destruct cs; cbn [negb andb or_else]; [cbn; eauto|].
  assert (n_components ret = 0%nat) as H0 by (unfold n_components; by rewrite Hcs).
  pose proof (read_components_at l (context_fuel arr) arr ret _ Harr) as Hd.
  rewrite H0 in Hd. cbn [Nat.add] in Hd.
  destruct (length l <=? 8)%nat.
  - destruct Hd as (arr'&cps&->&Harr'&Hv);
      [pose proof (at_items_len _ _ _ Harr); unfold context_fuel; lia|lia|].
    cbn [or_else]. destruct (at_close _ _ _ _ _ Hp Harr') as (m2&->&Hm2). cbn [or_else].
    apply IH; [done|]. split_and!; [|done|done]. rewrite Hcs by done. rewrite <-Hcv, <-Hv. done.
  - destruct Hd as (ret'&->); [pose proof (at_items_len _ _ _ Harr); unfold context_fuel; lia|lia|].
    cbn. eauto.
Qed.

Lemma sequence_entry_at fuel map ret ds cs cv k v kvs rest :
  (∀ map' ret' cv', at_items map' kvs rest → common_loop_inv ret' ds cs cv' →
     common_result (parse_common_loop fuel map' ret' ds cs) rest (common_fields kvs ds cs cv')) →
  item_uint k = Some SUIT_COMMON_SEQUENCE →
  at_items map (v :: kvs) rest → common_loop_inv ret ds cs cv →
  common_result
    (if negb (tcbor_range_is_null (command_sequence ret)) then Done (ret, None)
     else
       try map, r := tcbor_read_bstr map otherwise Done (ret, None) ;;
       parse_common_loop fuel map (with_command_sequence ret r) ds cs) rest
    (common_fields (k :: v :: kvs) ds cs cv).
Proof.
  intros IH Hk Hm (Hcv&Hds&Hcs). cbn [common_fields]. rewrite Hk.
  change (SUIT_COMMON_SEQUENCE =? SUIT_DEPENDENCIES) with false.
  change (SUIT_COMMON_SEQUENCE =? SUIT_COMPONENTS) with false. rewrite Z.eqb_refl. cbv iota.
  pose proof (at_read_bstr _ _ _ _ Hm) as Ha.
  assert (cv_sequence cv = view (command_sequence ret)) as Hseq by by rewrite <-Hcv.
  destruct (command_sequence ret) as [s0|] eqn:Hs0; cbn [tcbor_range_is_null negb].
  { rewrite Hseq. destruct (item_string 2 v); cbn; eauto. }
  destruct (item_string 2 v) as [bs|]; cbn [reads] in Ha.
  - destruct Ha as (m'&r&->&Hm'&s&->&_&Hs). rewrite Hseq. cbn [or_else view fmap option_fmap option_map].
    apply IH; [done|]. split_and!; [|done|done]. rewrite <-Hcv. cbn. unfold view_common; cbn. by rewrite Hs.
  - destruct Ha as (m'&->&_). cbn. eauto.
Qed.

Lemma parse_common_loop_at : ∀ kvs, Nat.Even (length kvs) → ∀ fuel map ret ds cs cv rest,
  at_items map kvs rest → (length kvs < fuel)%nat → common_loop_inv ret ds cs cv →
  common_result (parse_common_loop fuel map ret ds cs) rest (common_fields kvs ds cs cv).
Proof.
  refine (pairs_ind _ _ _); [|intros k v kvs IH]; intros fuel map ret ds cs cv rest Hm Hf Hinv;
    (destruct fuel as [|fuel]; [cbn in Hf; lia|]);
    cbn [parse_common_loop]; rewrite (at_items_end _ _ _ Hm).
  { cbn. destruct Hinv as (?&_). eauto. }
  cbn [length] in Hf. destruct (at_items_tail_wf _ _ _ _ _ Hm) as [Hwk Hwv].
  destruct (at_read_any _ _ _ _ Hm) as (m1&a&->&Ha&Hb). cbn [or_else].
  pose proof (any_is_uint k a Hwk Ha) as Hu.
  destruct (item_uint k) as [key|] eqn:Hk.
  2: { rewrite Hu. cbn [common_fields]. rewrite Hk. destruct (tcbor_is_tag a); cbn; eauto. }
  destruct Hu as [Hu <-]. rewrite Hu.
  destruct (at_read_key map k (v :: kvs) rest Hm) as (m1'&a'&He&Ha'&Ht&Hm1).
  { by destruct k. }
  assert (tcbor_is_tag a = false) as Hta.
  { unfold tcbor_is_tag, tcbor_is_uint in *. apply Z.eqb_eq in Hu. by rewrite Hu. }
  rewrite Hta in *. assert (at_items m1 (v :: kvs) rest) as Hm1'.
  { destruct Hm as [Hwf _]. cbn [forallb] in Hwf. apply andb_true_iff in Hwf as [_ Hwf].
    split; [done|]. rewrite Z.add_0_r in Hb. by destruct k. }
  destruct (Z.eqb_spec (any_value a) SUIT_DEPENDENCIES) as [E|E].
  { rewrite E in Hk. apply dependencies_entry_at; try done. intros. apply IH; try done; lia. }
  destruct (Z.eqb_spec (any_value a) SUIT_COMPONENTS) as [E'|E'].
  { rewrite E' in Hk. apply components_entry_at; try done. intros. apply IH; try done; lia. }
  destruct (Z.eqb_spec (any_value a) SUIT_COMMON_SEQUENCE) as [E''|E''].
  { rewrite E'' in Hk. apply sequence_entry_at; try done. intros. apply IH; try done; lia. }
  cbn [common_fields]. rewrite Hk.
  destruct (Z.eqb_spec (any_value a) SUIT_DEPENDENCIES); [done|].
  destruct (Z.eqb_spec (any_value a) SUIT_COMPONENTS); [done|].
  destruct (Z.eqb_spec (any_value a) SUIT_COMMON_SEQUENCE); [done|]. cbn. eauto.
Qed.

(** [suit_parse_common] on an encoded map. *)
Lemma parse_common_at s ai kvs rest :
  span_ok s → cbor_wf (CMap ai kvs) = true → span_bytes s = encode (CMap ai kvs) ++ rest →
  ∃ c o, suit_parse_common (Some s) = Done (c, o) ∧
    match common_fields kvs false false (CommonView 0 [] None) with
    | Some cv => o = Some tt ∧ view_common c = cv
    | None => o = None
    end.
Proof.
  intros Hs Hwf Hb. unfold suit_parse_common.
  pose proof (at_read_map _ _ _ _ (at_toplevel s _ _ Hs Hwf Hb)) as Hm. cbn [item_map reads] in Hm.
  destruct Hm as (c1&map&->&Hm&Hp). cbn [or_else].
  pose proof (parse_common_loop_at kvs (map_pairs_even _ _ Hwf) (context_fuel map) map
    (Common 0 [] tcbor_range_null) false false (CommonView 0 [] None) _ Hm) as Hl.
  unfold common_result in Hl. destruct (common_fields _ _ _ _) as [cv|].
  - destruct Hl as (ret&c&->&Hv&Hc);
      [pose proof (at_items_len _ _ _ Hm); unfold context_fuel; lia|done|].
    cbn [or_else]. destruct (at_close _ _ _ _ _ Hp Hc) as (c'&->&_). cbn. eauto.
  - destruct Hl as (ret&->); [pose proof (at_items_len _ _ _ Hm); unfold context_fuel; lia|done|].
    cbn. eauto.
Qed.

(** ** Digests and severable members *)

Definition digest_of (x : cbor) : option (Z * list byte) :=
  match item_array x with
  | Some (a :: b :: _) =>
      match item_int a, item_string 2 b with
      | Some alg, Some bs => Some (alg, bs)
      | _, _ => None
      end
  | _ => None
  end.

Lemma read_digest_at {D} (w : digest_dest D) c d x l rest :
  at_items c (x :: l) rest →
  match digest_of x with
  | Some (alg, bs) => ∃ c' s,
      read_digest w c d = Done ((c', set_bytes w (set_algorithm_id w d alg) (Some s)), Some tt) ∧
      span_ok s ∧ span_bytes s = bs ∧ at_items c' l rest
  | None => ∃ cd, read_digest w c d = Done (cd, None)
  end.
Proof.
  intros H. unfold read_digest, digest_of. pose proof (at_read_array _ _ _ _ H) as Ha.
  destruct (item_array x) as [k|]; cbn [reads] in Ha; [|destruct Ha as (c'&->&_); cbn; eauto].
  destruct Ha as (c1&arr&->&Harr&Hp). cbn [or_else]. destruct k as [|a k].
  { destruct (at_end_read_int _ _ Harr) as (c'&->). cbn. eauto. }
  pose proof (at_read_int _ _ _ _ Harr) as Hi. destruct k as [|b k].
  { destruct (item_int a); [|destruct Hi as (c'&->&_); cbn; eauto].
    destruct Hi as (a1&?&->&->&Ha1). cbn [or_else]. unfold tcbor_read_bstr.
    destruct (at_end_matching tcbor_is_bstr (fun _ ctx any => Done (ctx, Some (any_bytes any))) a1 _ Ha1)
      as (c'&->&_). cbn. eauto. }
  destruct (item_int a) as [alg|]; [|destruct Hi as (c'&->&_); cbn; eauto].
  destruct Hi as (a1&?&->&->&Ha1). cbn [or_else]. pose proof (at_read_bstr _ _ _ _ Ha1) as Hb.
  destruct (item_string 2 b) as [bs|]; cbn [reads] in Hb; [|destruct Hb as (c'&->&_); cbn; eauto].
  destruct Hb as (a2&?&->&Ha2&s&->&?&?). cbn [or_else].
  destruct (at_skip_all _ _ _ Ha2) as (a3&->&Ha3). cbn [or_else].
  destruct (at_close _ _ _ _ _ Hp Ha3) as (c'&->&?). cbn. eauto 8.
Qed.

(** The value of a field of the manifest. *)
Inductive fval := FBytes (bs : list byte) | FDigest (alg : Z) (bs : list byte).

Definition severable_view (s : suit_severable) : option fval :=
  if has_value s then
    match sev_union s with
    | UBody b => FBytes <$> view b
    | UAlgorithm _ => None
    | UDigest d => FDigest (algorithm_id d) <$> view (digest_bytes d)
    end
  else None.

Definition severable_of (v : cbor) : option fval :=
  match item_string 2 v with
  | Some bs => Some (FBytes bs)
  | None => '(alg, bs) ← digest_of v; Some (FDigest alg bs)
  end.

Lemma read_severed_at c s v l rest :
  at_items c (v :: l) rest →
  match severable_of v with
  | Some fv => ∃ c' s', read_severed c s = Done ((c', s'), Some tt) ∧
      severable_view s' = Some fv ∧ at_items c' l rest
  | None => ∃ cs, read_severed c s = Done (cs, None)
  end.
Proof.
  intros H. unfold read_severed, severable_of. pose proof (at_read_bstr _ _ _ _ H) as Hb.
  destruct (item_string 2 v) as [bs|]; cbn [reads] in Hb.
  { destruct Hb as (c'&?&->&Hc'&b&->&_&Hb). cbn [or_else]. eexists _, _. split; [done|].
    split; [|done]. cbn. by rewrite Hb. }
  destruct Hb as (c1&->&Hs). cbn [or_else]. apply (at_items_same _ _ _ _ Hs) in H.
  pose proof (read_digest_at digest_member c1 (sev_union s) _ _ _ H) as Hd.
  destruct (digest_of v) as [[alg bs]|]; [|destruct Hd as (cd&->); cbn; eauto].
  destruct Hd as (c'&b&->&_&Hb&Hc'). cbn. eexists _, _. split; [done|]. split; [|done].
  cbn. by rewrite Hb.
Qed.

(** ** The manifest *)

Definition range_field (key : Z) : bool :=
  (key =? SUIT_REFERENCE_URI) || (key =? SUIT_VALIDATE) || (key =? SUIT_LOAD) || (key =? SUIT_RUN).

Definition severable_field (key : Z) : bool :=
  (key =? SUIT_DEPENDENCY_RESOLUTION) || (key =? SUIT_PAYLOAD_FETCH) || (key =? SUIT_INSTALL) ||
  (key =? SUIT_TEXT) || (key =? SUIT_COSWID).

(** The fields of a manifest, by their label. *)
Definition field_of (m : suit_manifest) (key : Z) : option fval :=
  if key =? SUIT_COMMON then FBytes <$> view (common_bstr m)
  else if key =? SUIT_REFERENCE_URI then FBytes <$> view (reference_uri m)
  else if key =? SUIT_VALIDATE then FBytes <$> view (validate m)
  else if key =? SUIT_LOAD then FBytes <$> view (load_seq m)
  else if key =? SUIT_RUN then FBytes <$> view (run_seq m)
  else if key =? SUIT_DEPENDENCY_RESOLUTION then severable_view (dependency_resolution m)
  else if key =? SUIT_PAYLOAD_FETCH then severable_view (payload_fetch m)
  else if key =? SUIT_INSTALL then severable_view (install m)
  else if key =? SUIT_TEXT then severable_view (text m)
  else if key =? SUIT_COSWID then severable_view (coswid m)
  else None.

(** The common section in a byte string. *)
Definition common_spec (bs : list byte) : option common_view :=
  kvs ← decode_map bs; common_fields kvs false false (CommonView 0 [] None).

(** What an entry of the manifest adds to the fields: [None] if it is not
    acceptable; a common section has to be acceptable itself.  Unknown labels and keys that are not unsigned are ignored. *)
Definition entry_fields (k v : cbor) (fs : gmap Z fval) : option (gmap Z fval) :=
  match item_uint k with
  | None => Some fs
  | Some key =>
      if (key =? SUIT_MANIFEST_VERSION) || (key =? SUIT_MANIFEST_SEQUENCE_NUMBER) then None
      else if key =? SUIT_COMMON then
        bs ← item_string 2 v; _ ← common_spec bs; Some (<[key := FBytes bs]> fs)
      else if range_field key then
        bs ← item_string 2 v; Some (<[key := FBytes bs]> fs)
      else if severable_field key then fv ← severable_of v; Some (<[key := fv]> fs)
      else Some fs
  end.

Fixpoint manifest_fields (kvs : list cbor) (fs : gmap Z fval) : option (gmap Z fval) :=
  match kvs with
  | k :: v :: kvs => fs ← entry_fields k v fs; manifest_fields kvs fs
  | _ => Some fs
  end.

(** Every common section among the entries is an encoded map, acceptable or not. *)
Fixpoint commons_encoded (kvs : list cbor) : bool :=
  match kvs with
  | k :: v :: kvs =>
      match item_uint k, item_string 2 v with
      | Some key, Some bs => negb (key =? SUIT_COMMON) || bool_decide (is_Some (decode_map bs))
      | _, _ => true
      end && commons_encoded kvs
  | _ => true
  end.

(** [m] has the version and sequence number [hd] and the fields [fs], and its
    common section is the one that its common byte string encodes. *)
Definition has_fields (hd : Z * Z) (m : suit_manifest) (fs : gmap Z fval) : Prop :=
  (version m, sequence_number m) = hd ∧
  (∀ key, field_of m key = fs !! key) ∧
  (∀ s, common_bstr m = Some s → common_spec (span_bytes s) = Some (view_common (common m))).

(** An entry that the reference rejects is rejected; an accepted one is stored. *)
Definition entry_result (hd : Z * Z) (o : outcome (suit_manifest * option tcbor_context)) (l : list cbor)
    (rest : list byte) (fs : option (gmap Z fval)) : Prop :=
  match fs with
  | Some fs => ∃ m c, o = Done (m, Some c) ∧ has_fields hd m fs ∧ at_items c l rest
  | None => ∃ m, o = Done (m, None)
  end.

(** [set] stores in the field [key] what [look] sees of its argument. *)
Definition stores {A} (key : Z) (look : A → option fval) (set : suit_manifest → A → suit_manifest) :=
  ∀ m x, (∀ k, field_of (set m x) k = if k =? key then look x else field_of m k) ∧
    (version (set m x), sequence_number (set m x)) = (version m, sequence_number m) ∧
    common (set m x) = common m ∧ common_bstr (set m x) = common_bstr m.

Ltac solve_stores :=
  let m := fresh "m" in
  intros m ?; destruct m; split; [|done]; intros ?; unfold field_of; cbn;
  repeat match goal with |- context [?k =? ?c] => destruct (Z.eqb_spec k c); [subst; done|] end; done.

Definition look_range (x : tcbor_range) : option fval := FBytes <$> view x.

Lemma stores_reference_uri : stores SUIT_REFERENCE_URI look_range with_reference_uri.
Proof. solve_stores. Qed.
Lemma stores_validate : stores SUIT_VALIDATE look_range with_validate.
Proof. solve_stores. Qed.
Lemma stores_load : stores SUIT_LOAD look_range with_load.
Proof. solve_stores. Qed.
Lemma stores_run : stores SUIT_RUN look_range with_run.
Proof. solve_stores. Qed.
Lemma stores_dependency_resolution :
  stores SUIT_DEPENDENCY_RESOLUTION severable_view with_dependency_resolution.
Proof. solve_stores. Qed.
Lemma stores_payload_fetch : stores SUIT_PAYLOAD_FETCH severable_view with_payload_fetch.
Proof. solve_stores. Qed.
Lemma stores_install : stores SUIT_INSTALL severable_view with_install.
Proof. solve_stores. Qed.
Lemma stores_text : stores SUIT_TEXT severable_view with_text.
Proof. solve_stores. Qed.
Lemma stores_coswid : stores SUIT_COSWID severable_view with_coswid.
Proof. solve_stores. Qed.

#[export] Hint Resolve stores_reference_uri stores_validate stores_load stores_run
  stores_dependency_resolution stores_payload_fetch stores_install stores_text stores_coswid : c_ok.

Lemma has_fields_set {A} hd key look (set : suit_manifest → A → suit_manifest) m x fs fv :
  stores key look set → look x = Some fv → has_fields hd m fs →
  has_fields hd (set m x) (<[key := fv]> fs).
Proof.
  intros Hst Hl (Hh&Hf&Hc). destruct (Hst m x) as (Hs&Hh1&Hc1&Hc2). split; [by rewrite Hh1|]. split.
  - intros k. rewrite Hs, Hf. destruct (Z.eqb_spec k key) as [->|]; [by rewrite lookup_insert_eq|].
    by rewrite lookup_insert_ne.
  - intros s. rewrite Hc1, Hc2. apply Hc.
Qed.

Section entry.
Context (map : tcbor_context) (m : suit_manifest) (v : cbor) (l : list cbor) (rest : list byte)
  (fs : gmap Z fval) (hd : Z * Z).
Hypothesis Hmap : at_items map (v :: l) rest.
Hypothesis Hm : has_fields hd m fs.

Lemma bstr_field_at key set :
  stores key look_range set →
  entry_result hd (bstr_field set map m) l rest (bs ← item_string 2 v; Some (<[key := FBytes bs]> fs)).
Proof.
  intros Hs. unfold bstr_field. pose proof (at_read_bstr _ _ _ _ Hmap) as Hb.
  destruct (item_string 2 v) as [bs|]; cbn [reads] in Hb.
  - destruct Hb as (c'&?&->&?&s&->&_&Hbs). cbn. eexists _, _. split; [done|]. split; [|done].
    eapply has_fields_set; [done| |done]. unfold look_range; cbn. by rewrite Hbs.
  - destruct Hb as (c'&->&_). cbn. eauto.
Qed.

Lemma severed_field_at key get set :
  stores key severable_view set →
  entry_result hd (severed_field get set map m) l rest (fv ← severable_of v; Some (<[key := fv]> fs)).
Proof.
  intros Hs. unfold severed_field. pose proof (read_severed_at _ (get m) _ _ _ Hmap) as Hb.
  destruct (severable_of v) as [fv|].
  - destruct Hb as (c'&s'&->&Hv&?). cbn. eexists _, _. split; [done|]. split; [|done].
    by eapply has_fields_set.
  - destruct Hb as (cs&->). cbn. eauto.
Qed.

Lemma skip_field_at : entry_result hd (skip_field map m) l rest (Some fs).
Proof.
  unfold skip_field. destruct (at_skip_one _ _ _ _ Hmap) as (c'&->&?). cbn. eauto.
Qed.

Lemma common_field_at :
  (∀ bs, item_string 2 v = Some bs → is_Some (decode_map bs)) →
  entry_result hd (common_field map m) l rest
    (bs ← item_string 2 v; _ ← common_spec bs; Some (<[SUIT_COMMON := FBytes bs]> fs)).
Proof.
  intros Henc. unfold common_field. pose proof (at_read_bstr _ _ _ _ Hmap) as Hb.
  destruct (item_string 2 v) as [bs|]; cbn [reads] in Hb; [|destruct Hb as (c'&->&_); cbn; eauto].
  destruct Hb as (c'&?&->&?&s&->&Hok&Hbs). cbn [or_else].
  destruct (Henc bs eq_refl) as [kvs Hkvs]. pose proof Hkvs as (ai&rest'&Hwf&Henc')%decode_map_iff.
  destruct (parse_common_at s ai kvs rest' Hok Hwf) as (c&o&->&Ho); [by rewrite Hbs|].
  cbn [mbind option_bind]. assert (common_spec bs = common_fields kvs false false (CommonView 0 [] None)) as Hspec
    by (unfold common_spec; by rewrite Hkvs).
  rewrite Hspec. destruct (common_fields _ _ _ _) as [cv|]; [destruct Ho as [-> Hcv]|subst o; cbn; eauto].
  cbn. eexists _, _. split; [done|]. split; [|done]. destruct Hm as (Hh&Hf&Hc). split; [by destruct m|]. split.
  - intros k. destruct (Z.eqb_spec k SUIT_COMMON) as [->|Hk].
    + rewrite lookup_insert_eq. destruct m; cbn. by rewrite Hbs.
    + rewrite lookup_insert_ne, <-Hf by done. destruct m; unfold field_of; cbn.
      by destruct (Z.eqb_spec k SUIT_COMMON).
  - intros s'. destruct m; cbn. intros [= <-]. by rewrite Hbs, Hspec, Hcv.
Qed.

Lemma manifest_field_at k key :
  item_uint k = Some key →
  (key = SUIT_COMMON → ∀ bs, item_string 2 v = Some bs → is_Some (decode_map bs)) →
  entry_result hd (manifest_field key map m) l rest (entry_fields k v fs).
Proof.
  intros Hk Hacc. unfold manifest_field, entry_fields. rewrite Hk.
  destruct (_ || _); [cbn; eauto|].
  unfold range_field, severable_field.
  repeat match goal with |- context [if ?a =? ?b then _ else _] =>
    destruct (Z.eqb_spec a b) as [E|?];
      [subst a; first [apply common_field_at|eapply bstr_field_at|eapply severed_field_at];
       eauto with c_ok|] end.
  apply skip_field_at.
Qed.

End entry.

Lemma parse_manifest_loop_at : ∀ kvs, Nat.Even (length kvs) → ∀ fuel map m rest fs hd,
  at_items map kvs rest → forallb flat_key (keys kvs) = true → (length kvs < fuel)%nat →
  has_fields hd m fs → commons_encoded kvs = true →
  entry_result hd (parse_manifest_loop fuel map m) [] rest (manifest_fields kvs fs).
Proof.
  refine (pairs_ind _ _ _); [|intros k v kvs IH]; intros fuel map m rest fs hd Hm Hk Hf Hfs Hacc;
    (destruct fuel as [|fuel]; [cbn in Hf; lia|]);
    cbn [parse_manifest_loop]; rewrite (at_items_end _ _ _ Hm).
  { cbn. eauto. }
  cbn [keys forallb] in Hk. apply andb_true_iff in Hk as [Hk Hks]. cbn [length] in Hf.
  destruct (at_items_tail_wf _ _ _ _ _ Hm) as [Hwk Hwv].
  cbn [commons_encoded] in Hacc. apply andb_true_iff in Hacc as [Hac Haccs].
  destruct (at_read_key _ _ _ _ Hm Hk) as (m1&a&->&Ha&Ht&Hm1). cbn [or_else]. rewrite Ht.
  pose proof (any_is_uint k a Hwk Ha) as Hu. cbn [manifest_fields].
  assert (entry_result hd (if tcbor_is_uint a then manifest_field (any_value a) m1 m else skip_field m1 m)
    kvs rest (entry_fields k v fs)) as Hr.
  { destruct (item_uint k) as [key|] eqn:Hik.
    - destruct Hu as [-> ->]. apply manifest_field_at; try done. intros E bs Hbs.
      rewrite Hbs, E in Hac. by apply bool_decide_eq_true in Hac.
    - rewrite Hu. unfold entry_fields. rewrite Hik. by eapply skip_field_at. }
  destruct (entry_fields k v fs) as [fs'|].
  - destruct Hr as (m'&c'&->&Hfs'&Hc'). cbn [or_else mbind option_bind].
    apply IH; try done. lia.
  - destruct Hr as (m'&->). cbn. eauto.
Qed.

(** The fields of an accepted manifest: version 1 and the sequence number
    first, then the entries; the common section is required. *)
Definition manifest_spec (kvs : list cbor) : option (Z * gmap Z fval) :=
  match kvs with
  | k1 :: v1 :: k2 :: v2 :: kvs =>
      if bool_decide (item_uint k1 = Some SUIT_MANIFEST_VERSION) && bool_decide (item_uint v1 = Some 1) &&
         bool_decide (item_uint k2 = Some SUIT_MANIFEST_SEQUENCE_NUMBER)
      then n ← item_uint v2; fs ← manifest_fields kvs ∅; _ ← fs !! SUIT_COMMON; Some (n, fs)
      else None
  | _ => None
  end.

Lemma read_key_and_uint_at c key k v l rest :
  at_items c (k :: v :: l) rest →
  reads (read_key_and_uint c key) c
    (if bool_decide (item_uint k = Some key) then item_uint v else None)
    (fun c' a n => a = n ∧ at_items c' l rest).
Proof.
  intros H. unfold read_key_and_uint, match_key. pose proof (at_read_uint _ _ _ _ H) as Hk.
  destruct (item_uint k) as [n|]; [|destruct Hk as (c'&->&Hs)].
  2: { cbn. eexists. split; [done|apply ctx_same_fail]. }
  destruct Hk as (c1&?&->&->&H1). cbn [or_else]. pose proof (at_read_uint _ _ _ _ H1) as Hv.
  destruct (Z.eqb_spec n key) as [->|Hne]; cbn [negb or_else].
  - rewrite bool_decide_eq_true_2 by done.
    destruct (item_uint v) as [n'|]; [|destruct Hv as (c'&->&_)].
    + destruct Hv as (c2&?&->&->&H2). cbn. eauto.
    + cbn. eexists. split; [done|apply ctx_same_fail].
  - rewrite bool_decide_eq_false_2 by congruence. cbn. eexists. split; [done|apply ctx_same_fail].
Qed.

Lemma read_key_and_uint_end c key rest :
  at_items c [] rest → ∃ c', read_key_and_uint c key = Done (c', None).
Proof.
  intros H. unfold read_key_and_uint, match_key, tcbor_read_uint.
  destruct (at_end_matching tcbor_is_uint (fun _ ctx any => Done (ctx, Some (any_value any))) c rest H)
    as (c'&->&_). cbn. eauto.
Qed.

Lemma manifest_init_fields r m v n :
  has_fields (v, n) (with_sequence_number (with_version (manifest_init r m) v) n) ∅.
Proof.
  split; [by destruct m|]. split.
  - intros k. rewrite lookup_empty. unfold field_of, severable_view. destruct m; cbn.
    by repeat match goal with |- context [if ?b then _ else _] => destruct b end.
  - intros s. by destruct m.
Qed.

Lemma common_field_of hd m fs :
  has_fields hd m fs → tcbor_range_is_null (common_bstr m) = bool_decide (fs !! SUIT_COMMON = None).
Proof.
  intros (_&Hf&_). rewrite <-Hf. unfold field_of. rewrite Z.eqb_refl.
  by destruct (common_bstr m).
Qed.

(** Everything after the head of the map. *)
Definition manifest_body (c1 map : tcbor_context) (ret : suit_manifest) :
    outcome (suit_manifest * option unit) :=
  try map, v := read_key_and_uint map SUIT_MANIFEST_VERSION otherwise Done (ret, None) ;;
  let ret := with_version ret v in
  if negb (version ret =? 1) then Done (ret, None)
  else
    try map, n := read_key_and_uint map SUIT_MANIFEST_SEQUENCE_NUMBER otherwise Done (ret, None) ;;
    let ret := with_sequence_number ret n in
    try ret, map := parse_manifest_loop (context_fuel map) map ret otherwise Done (ret, None) ;;
    try ctx, _u := tcbor_close c1 map otherwise Done (ret, None) ;;
    if tcbor_range_is_null (common_bstr ret) then Done (ret, None)
    else Done (ret, Some tt).

Lemma manifest_body_at c1 map r m k1 v1 kvs inside rest :
  Nat.Even (length kvs) → at_items map (k1 :: v1 :: kvs) (encode_all [] ++ rest) →
  at_parent c1 inside [] rest →
  forallb flat_key (keys (k1 :: v1 :: kvs)) = true → commons_encoded (drop 2 kvs) = true →
  ∃ m' o, manifest_body c1 map (manifest_init r m) = Done (m', o) ∧
    match manifest_spec (k1 :: v1 :: kvs) with
    | Some (n, fs) => o = Some tt ∧ has_fields (1, n) m' fs
    | None => o = None
    end.
Proof.
  intros Heven Hm Hp Hk Hacc. unfold manifest_body.
  pose proof (read_key_and_uint_at map SUIT_MANIFEST_VERSION _ _ _ _ Hm) as H1. unfold manifest_spec.
  destruct (bool_decide (item_uint k1 = Some SUIT_MANIFEST_VERSION)); cbn [reads andb] in H1 |- *.
  2: { destruct H1 as (c'&->&_). eexists _, None. split; [done|]. by destruct kvs as [|? [|]]. }
  destruct (item_uint v1) as [v|]; cbn [reads] in H1.
  2: { destruct H1 as (c'&->&_). eexists _, None. split; [done|]. by destruct kvs as [|? [|]]. }
  destruct H1 as (map1&?&->&->&Hm1). cbn [or_else].
  assert (version (with_version (manifest_init r m) v) = v) as -> by by destruct m.
  destruct (Z.eqb_spec v 1) as [->|Hv]; cbn [negb].
  2: { rewrite bool_decide_eq_false_2 by congruence. eexists _, None. split; [done|]. by destruct kvs as [|? [|]]. }
  rewrite bool_decide_eq_true_2 by done. cbn [andb].
  destruct kvs as [|k2 [|v2 kvs]]; [|by destruct Heven as [[|j] ?]; cbn in *; lia|].
  { destruct (read_key_and_uint_end _ SUIT_MANIFEST_SEQUENCE_NUMBER _ Hm1) as (c'&->). cbn. eauto. }
  pose proof (read_key_and_uint_at map1 SUIT_MANIFEST_SEQUENCE_NUMBER _ _ _ _ Hm1) as H2.
  destruct (bool_decide (item_uint k2 = Some SUIT_MANIFEST_SEQUENCE_NUMBER)); cbn [reads] in H2.
  2: { destruct H2 as (c'&->&_). cbn. eauto. }
  destruct (item_uint v2) as [n|]; cbn [reads] in H2.
  2: { destruct H2 as (c'&->&_). cbn. eauto. }
  destruct H2 as (map2&?&->&->&Hm2). cbn [or_else mbind option_bind].
  cbn [keys forallb] in Hk. apply andb_true_iff in Hk as [_ [_ Hk]%andb_true_iff].
  pose proof (at_items_len _ _ _ Hm2) as Hlen.
  pose proof (parse_manifest_loop_at kvs) as Hl.
  specialize (Hl ltac:(destruct Heven as [[|j] ?]; cbn in *; [lia|exists j; lia])
    (context_fuel map2) map2 _ _ _ _ Hm2 Hk ltac:(unfold context_fuel; lia)
    (manifest_init_fields r m 1 n) Hacc).
  destruct (manifest_fields kvs ∅) as [fs|].
  - destruct Hl as (m'&c'&->&Hfs&Hc'). cbn [or_else mbind option_bind].
    destruct (at_close _ _ _ _ _ Hp Hc') as (c''&->&_). cbn [or_else].
    rewrite (common_field_of _ _ _ Hfs). destruct (fs !! SUIT_COMMON); cbn; eauto.
  - destruct Hl as (m'&->). cbn. eauto.
Qed.

(** [suit_manifest_parse] on an encoded map. *)
Lemma manifest_parse_at s ai kvs rest m :
  span_ok s → cbor_wf (CMap ai kvs) = true → span_bytes s = encode (CMap ai kvs) ++ rest →
  forallb flat_key (keys kvs) = true → commons_encoded (drop 4 kvs) = true →
  ∃ m' o, suit_manifest_parse (Some s) m = Done (m', o) ∧
    match manifest_spec kvs with
    | Some (n, fs) => o = Some tt ∧ has_fields (1, n) m' fs
    | None => o = None
    end.
Proof.
  intros Hs Hwf Hb Hk Hacc. unfold suit_manifest_parse.
  pose proof (at_read_map _ _ _ _ (at_toplevel s _ _ Hs Hwf Hb)) as Hm. cbn [item_map reads] in Hm.
  destruct Hm as (c1&map&->&Hm&Hp). cbn [or_else]. pose proof (map_pairs_even _ _ Hwf) as Heven.
  pose proof (at_items_len _ _ _ Hm) as Hlen.
  destruct kvs as [|k1 [|v1 kvs]]; [|by destruct Heven as [[|j] ?]; cbn in *; lia|].
  { destruct (read_key_and_uint_end _ SUIT_MANIFEST_VERSION _ Hm) as (c'&->). cbn. eauto. }
  refine (manifest_body_at c1 map (Some s) m k1 v1 kvs _ rest _ Hm Hp Hk Hacc).
  destruct Heven as [[|j] ?]; cbn in *; [lia|exists j; lia].
Qed.
