(* ===== verification/SuitAuth.v ===== *)
(** * SuitAuth: authentication of envelopes ([lib/suit/lib/suit-parser.c])

    Mbed TLS and t_cose are not part of the repository: what the code calls of
    them is the class [crypto_api].  A call that may fail returns an option;
    the digest context is threaded explicitly. *)

From S2P Require Import Prelude Tcbor SuitTypes SuitParser.

Local Open Scope Z_scope.

Class crypto_api := {
  (** The tag QCBOR names [CBOR_TAG_COSE_SIGN1]. *)
  CBOR_TAG_COSE_SIGN1 : Z;
  pk_key : Type;
  md_context : Type;
  (** [mbedtls_pk_parse_public_key] on the PEM text with its final NUL. *)
  pk_parse_public_key : list byte → option pk_key;
  (** [t_cose_sign1_verify_detached(key, sign1, detached payload) == T_COSE_SUCCESS]. *)
  t_cose_sign1_verify_detached : pk_key → option (list byte) → option (list byte) → bool;
  (** [mbedtls_md_info_from_type(MBEDTLS_MD_SHA256) != NULL]. *)
  md_sha256_available : bool;
  md_setup : option md_context;
  md_starts : md_context → option md_context;
  md_update : md_context → list byte → option md_context;
  md_finish : md_context → option (list byte);
  (** [mbedtls_md_get_size]. *)
  md_get_size : Z
}.

(** What Mbed TLS documents: the digest is a function of the concatenation of
    the updates, and has [md_get_size] bytes. *)
Class crypto_laws `{crypto_api} := {
  sha256 : list byte → list byte;
  md_digest : ∀ c0 c1 c2 c3 m1 m2 out,
    md_setup = Some c0 → md_starts c0 = Some c1 → md_update c1 m1 = Some c2 →
    md_update c2 m2 = Some c3 → md_finish c3 = Some out → out = sha256 (m1 ++ m2);
  md_size : ∀ c0 c1 c2 c3 m1 m2 out,
    md_setup = Some c0 → md_starts c0 = Some c1 → md_update c1 m1 = Some c2 →
    md_update c2 m2 = Some c3 → md_finish c3 = Some out → Z.of_nat (length out) = md_get_size;
  md_size_max : 0 <= md_get_size <= 64
}.

(** The bytes of a range, as a callee reads them. *)
Definition range_load (r : tcbor_range) : outcome (list byte) :=
  match r with
  | None => Done []
  | Some s => load_bytes (sp_buf s) (sp_begin s) (range_len r)
  end.

Definition to_UsefulBufC (r : tcbor_range) : outcome (option (list byte)) :=
  if tcbor_range_is_null r then Done None else Some <$> range_load r.

(** ** One authentication block *)

Definition read_tag (bstr : tcbor_range) : outcome (option Z) :=
  let ctx := tcbor_toplevel bstr in
  try ctx, tag := tcbor_read_tag ctx otherwise Done None ;;
  Done (Some tag).

Section auth.
Context `{crypto_api}.

Definition verify_auth_block (auth_block digest_bstr : tcbor_range) (key_pem : list byte) :
    outcome bool :=
  o ← read_tag auth_block;
  match o with
  | None => Done false
  | Some tag =>
      if tag =? CBOR_TAG_COSE_SIGN1 then
        match pk_parse_public_key key_pem with
        | None => Done false
        | Some key =>
            sign1 ← to_UsefulBufC auth_block;
            payload ← to_UsefulBufC digest_bstr;
            Done (t_cose_sign1_verify_detached key sign1 payload)
        end
      else Done false
  end.

(** ** The digest of the manifest *)

(** The loop that stores the big-endian length after the initial byte. *)
Fixpoint digest_len_bytes (i : nat) (len : Z) : list byte :=
  match i with
  | O => []
  | S i => to_byte (Z.land (Z.shiftr len (Z.of_nat i * 8)) 255) :: digest_len_bytes i len
  end.

(** [buf] and [n]: the head of the byte string that holds the manifest. *)
Definition digest_header (len : Z) : list byte :=
  if len <? 24 then [to_byte (Z.lor 64 len)]
  else
    let k := if len <? 256 then 0 else if len <? 65536 then 1 else if len <? 4294967296 then 2 else 3 in
    to_byte (Z.lor 64 (24 + k)) :: digest_len_bytes (Z.to_nat (Z.shiftl 1 k)) len.

(** The calls to [mbedtls_md_*]; [None] is [goto err]. *)
Definition md_hash (header manifest : list byte) : option (list byte) :=
  c ← md_setup; c ← md_starts c; c ← md_update c header; c ← md_update c manifest; md_finish c.

Definition verify_digest (digest_bstr manifest_bstr : tcbor_range) : outcome bool :=
  let ctx := tcbor_toplevel digest_bstr in
  try cd, _u := read_digest digest_var ctx (Digest 0 None) otherwise Done false ;;
  let digest := cd.2 in
  if negb (algorithm_id digest =? SUIT_DIGEST_ALG_SHA256) then Done false
  else if negb md_sha256_available then Done false
  else
    manifest ← range_load manifest_bstr;
    match md_hash (digest_header (range_len manifest_bstr)) manifest with
    | None => Done false
    | Some manifest_digest =>
        tcbor_range_equal (digest_bytes digest) (Some (Span manifest_digest 0 md_get_size))
    end.

(** ** The envelope *)

(** The [while] loop over the authentication blocks. *)
Fixpoint auth_block_loop (fuel : nat) (array : tcbor_context) (digest_bstr : tcbor_range)
    (key_pem : list byte) (authenticated : bool) : outcome (option (tcbor_context * bool)) :=
  if tcbor_is_end_of_context array then Done (Some (array, authenticated))
  else
    match fuel with
    | O => NoFuel
    | S fuel =>
      try array, auth_block := tcbor_read_bstr array otherwise Done None ;;
      ok ← verify_auth_block auth_block digest_bstr key_pem;
      if negb ok then Done None
      else auth_block_loop fuel array digest_bstr key_pem true
    end.

Definition suit_authenticate_envelope (envelope_bstr : tcbor_range) (key_pem : list byte) :
    outcome bool :=
  o ← suit_envelope_get_field_by_key envelope_bstr SUIT_AUTHENTICATION_WRAPPER;
  match o with
  | None => Done false
  | Some authentication_wrapper_bstr =>
      let ctx := tcbor_toplevel authentication_wrapper_bstr in
      try ctx, array := tcbor_read_array ctx otherwise Done false ;;
      try array, digest_bstr := tcbor_read_bstr array otherwise Done false ;;
      l ← auth_block_loop (context_fuel array) array digest_bstr key_pem false;
      match l with
      | None => Done false
      | Some (array, authenticated) =>
          try ctx, _u := tcbor_close ctx array otherwise Done false ;;
          if negb authenticated then Done false
          else
            o ← suit_envelope_get_field_by_key envelope_bstr SUIT_MANIFEST;
            match o with
            | None => Done false
            | Some manifest_bstr => verify_digest digest_bstr manifest_bstr
            end
      end
  end.

(** [suit_parse_authentication_wrapper], which checks the syntax only. *)
Fixpoint wrapper_block_loop (fuel : nat) (array : tcbor_context) : outcome (option tcbor_context) :=
  if tcbor_is_end_of_context array then Done (Some array)
  else
    match fuel with
    | O => NoFuel
    | S fuel =>
      try array, _b := tcbor_read_bstr array otherwise Done None ;;
      wrapper_block_loop fuel array
    end.

Definition suit_parse_authentication_wrapper (authentication_wrapper_bstr : tcbor_range)
    (ret : suit_digest) : outcome (suit_digest * option unit) :=
  let ctx := tcbor_toplevel authentication_wrapper_bstr in
  try ctx, array := tcbor_read_array ctx otherwise Done (ret, None) ;;
  try array, digest_bstr := tcbor_read_bstr array otherwise Done (ret, None) ;;
  try cd, _u := read_digest digest_var (tcbor_toplevel digest_bstr) ret
    otherwise Done (cd.2, None) ;;
  let ret := cd.2 in
  l ← wrapper_block_loop (context_fuel array) array;
  match l with
  | None => Done (ret, None)
  | Some array =>
      try ctx, _u := tcbor_close ctx array otherwise Done (ret, None) ;;
      Done (ret, Some tt)
  end.

End auth.
