(* ===== verification/SuitAuthFacts.v ===== *)
(** * SuitAuthFacts: what a successful authentication means *)

From S2P Require Import Prelude Tcbor TcborFacts CborSpec CborTree SuitTypes SuitParser SuitParserFacts.
From S2P Require Import SuitSpec SuitAuth.

Local Open Scope Z_scope.

(** ** Ranges handed to callees *)

Lemma range_load_spec r : range_ok r → range_load r = Done (range_bytes r).
Proof.
  destruct r as [s|]; [|done]. intros [Hs1 Hs2]. unfold range_load, range_bytes, span_bytes; cbn.
  rewrite load_bytes_slice by lia. do 2 f_equal. lia.
Qed.

Lemma range_load_length r bytes :
  range_load r = Done bytes → Z.of_nat (length bytes) = range_len r.
Proof.
  destruct r as [s|]; cbn; [|by intros [= <-]]. unfold load_bytes. case_match eqn:Hc; [|done].
  intros [= <-]. bool_facts. rewrite length_take, length_drop. cbn in *. lia.
Qed.

Lemma to_UsefulBufC_spec r : range_ok r → to_UsefulBufC r = Done (view r).
Proof.
  intros Hr. unfold to_UsefulBufC. destruct r as [s|]; [|done]. cbn [tcbor_range_is_null].
  by rewrite range_load_spec.
Qed.

Lemma view_bytes r : range_bytes r = default [] (view r).
Proof. by destruct r. Qed.

(** ** The head of the manifest byte string *)

(** The shortest encoding of a length. *)
Definition shortest (len : Z) : Z :=
  if len <? 24 then len else if len <? 256 then 24 else if len <? 65536 then 25
  else if len <? 4294967296 then 26 else 27.

Lemma digest_len_bytes_spec n len : 0 <= len → digest_len_bytes n len = be_bytes n len.
Proof.
  intros Hlen. assert (∀ i, digest_len_bytes (S i) len =
    to_byte (len / 256 ^ Z.of_nat i) :: digest_len_bytes i len) as Hs.
  { intros i. cbn [digest_len_bytes]. f_equal. apply u8_inj. rewrite !u8_to_byte.
    change 255 with (Z.ones 8). rewrite Z.land_ones, Z.shiftr_div_pow2 by lia.
    rewrite Z.mod_mod by lia. change (2 ^ 8) with 256.
    by rewrite Z.mul_comm, Z.pow_mul_r by lia. }
  assert (∀ i, be_bytes (S i) len = to_byte (len / 256 ^ Z.of_nat i) :: be_bytes i len) as Hb.
  { clear Hs. intros i. revert len Hlen. induction i as [|i IH]; intros len Hlen.
    - cbn. by rewrite Z.div_1_r.
    - cbn [be_bytes] in *. rewrite IH by (apply Z.div_pos; lia). cbn. do 2 f_equal.
      rewrite Z.div_div by lia. f_equal. rewrite Nat2Z.inj_succ, Z.pow_succ_r by lia. done. }
  induction n as [|n IH]; [done|]. by rewrite Hs, Hb, IH.
Qed.

(** The bytes [verify_digest] hashes in front of the manifest are the head of
    a canonically encoded byte string of its length. *)
Lemma digest_header_spec len :
  0 <= len < u64_modulus →
  digest_header len = encode_head 2 (shortest len) len ∧ head_ok (shortest len) len = true.
Proof.
  intros Hl. unfold digest_header, shortest, encode_head, head_arg, head_ok.
  assert (∀ z, 0 <= z < 32 → to_byte (Z.lor 64 z) = to_byte (2 * 32 + z)) as Hlor.
  { intros z Hz. f_equal. change (2 * 32) with 64. rewrite <-Z.add_lor_land.
    assert (Z.land 64 z = 0) as ->; [|lia]. apply Z.bits_inj'. intros k Hk.
    rewrite Z.land_spec, Z.bits_0. change 64 with (2 ^ 6). rewrite Z.pow2_bits_eqb by lia.
    destruct (Z.eqb_spec 6 k) as [<-|]; [|done]. cbn [andb].
    destruct (decide (z = 0)) as [->|]; [by rewrite Z.bits_0|]. apply Z.bits_above_log2; [lia|].
    apply Z.log2_lt_pow2; lia. }
  unfold u64_modulus in *.
  repeat match goal with |- context [len <? ?b] => destruct (Z.ltb_spec len b); try lia end.
  all: rewrite ?Hlor by lia; rewrite ?digest_len_bytes_spec by lia.
  all: repeat match goal with |- context [if ?b then _ else _] =>
      let b' := eval vm_compute in b in change b with b' end; cbv iota.
  all: split; [done|]; repeat (apply andb_true_iff; split); try done;
    try (apply Z.leb_le; lia); try (apply Z.ltb_lt; lia); try (apply Z.eqb_eq; lia).
Qed.

Section auth.
Context `{crypto_api} `{!crypto_laws}.

(** ** Signatures *)

(** What t_cose is asked for one authentication block. *)
Definition block_verified (key_pem : list byte) (digest block : tcbor_range) : Prop :=
  read_tag block = Done (Some CBOR_TAG_COSE_SIGN1) ∧
  ∃ pk, pk_parse_public_key key_pem = Some pk ∧
    t_cose_sign1_verify_detached pk (view block) (view digest) = true.

Lemma read_tag_safe b : range_ok b → wp (read_tag b) (fun _ => True).
Proof. intros Hb. unfold read_tag. wp_read read_tag_spec. by intros [c [t|]]. Qed.

Lemma verify_auth_block_spec block digest key :
  range_ok block → range_ok digest →
  wp (verify_auth_block block digest key) (fun b => b = true ↔ block_verified key digest block).
Proof.
  intros Hb Hd. unfold verify_auth_block, block_verified.
  destruct (wp_elim _ _ (read_tag_safe block Hb)) as (o&->&_). cbn.
  destruct o as [t|]; [|split; [done|by intros [[=] _]]].
  destruct (Z.eqb_spec t CBOR_TAG_COSE_SIGN1) as [->|Ht]; [|split; [done|by intros [[=] _]]].
  destruct (pk_parse_public_key key) as [pk|]; [|split; [done|by intros (_&?&[=]&_)]].
  rewrite !to_UsefulBufC_spec by done. cbn. split; [eauto|]. by intros (_&?&[= <-]&?).
Qed.

Lemma auth_block_loop_spec fuel array digest key auth :
  ctx_ok array → range_len (c_r array) < Z.of_nat fuel → range_ok digest →
  wp (auth_block_loop fuel array digest key auth) (fun o =>
    match o with
    | Some (array', auth') =>
        ctx_ok array' ∧ range_suffix (c_r array') (c_r array) ∧
        (auth' = true → auth = true ∨ ∃ block,
           range_within block (c_r array) ∧ block_verified key digest block)
    | None => True
    end).
Proof.
  revert array auth. induction fuel as [|fuel IH]; intros array auth Hok Hf Hd; cbn [auth_block_loop].
  all: destruct (tcbor_is_end_of_context array);
    [destruct Hok; unfold ctx_ok; cbn; split_and!; try done; try lia; eauto with c_ok|].
  { destruct Hok as [Hr _]. pose proof (range_len_nonneg _ Hr). lia. }
  wp_read read_bstr_inner. intros [a1 [b|]]; [|done]. intros (H1&_&Hb).
  assert (range_ok b) as Hbok by eauto with c_ok.
  apply wp_bind. eapply wp_mono; [by apply verify_auth_block_spec|].
  intros [|] Hv; cbn [negb]; [|done]. eapply wp_mono; [apply IH; eauto with c_ok|].
  intros [[a2 auth']|]; [|done]. intros (?&?&_). pose proof (advanced_suffix _ _ H1).
  split_and!; [done|eauto with c_ok|]. intros _. right. exists b. split; [apply Hb|by apply Hv].
Qed.

(** ** The digest *)

(** The digest in [d] is SHA-256 of the manifest as an encoded byte string. *)
Definition digest_covers (d manifest : tcbor_range) : Prop :=
  ∃ b, read_digest digest_var (tcbor_toplevel d) (Digest 0 None) =
         Done b ∧ b.2 = Some tt ∧ algorithm_id b.1.2 = SUIT_DIGEST_ALG_SHA256 ∧
       range_bytes (digest_bytes b.1.2) =
         sha256 (encode (CString 2 (shortest (range_len manifest)) (range_bytes manifest))).

Lemma range_bytes_length r : range_ok r → Z.of_nat (length (range_bytes r)) = range_len r.
Proof. destruct r as [s|]; [|done]. apply span_bytes_length. Qed.

Lemma md_hash_spec m out :
  md_hash (digest_header (range_len m)) (range_bytes m) = Some out → range_ok m →
  out = sha256 (encode (CString 2 (shortest (range_len m)) (range_bytes m))) ∧
  Z.of_nat (length out) = md_get_size.
Proof.
  intros Hmd Hm. unfold md_hash in Hmd.
  destruct md_setup as [c0|] eqn:E0; [|done]. cbn in Hmd.
  destruct (md_starts c0) as [c1|] eqn:E1; [|done]. cbn in Hmd.
  destruct (md_update c1 _) as [c2|] eqn:E2; [|done]. cbn in Hmd.
  destruct (md_update c2 _) as [c3|] eqn:E3; [|done]. cbn in Hmd.
  split; [|by eapply (md_size c0 c1 c2 c3)].
  pose proof (range_bytes_length m Hm) as Hl.
  assert (0 <= range_len m < u64_modulus) as Hlen.
  { destruct m as [s|]; [|done]. destruct Hm as [? ?]. cbn. unfold PTRDIFF_MAX, u64_modulus in *. lia. }
  destruct (digest_header_spec (range_len m) Hlen) as [He _].
  rewrite (md_digest _ _ _ _ _ _ _ E0 E1 E2 E3 Hmd). cbn [encode]. by rewrite He, Hl.
Qed.

Lemma verify_digest_spec d manifest :
  range_ok d → range_ok manifest →
  wp (verify_digest d manifest) (fun b => b = true → digest_covers d manifest).
Proof.
  intros Hd Hm. unfold verify_digest, digest_covers.
  destruct (wp_elim _ _ (read_digest_safe digest_var _ (Digest 0 None) (toplevel_ok _ Hd)))
    as ([[c dg] o]&He&Hq). rewrite He. cbn [or_else]. destruct o as [u|]; [|done].
  destruct Hq as (_&_&a&b&->&Hb&_). cbn [or_else snd set_bytes set_algorithm_id digest_var algorithm_id digest_bytes].
  destruct (Z.eqb_spec a SUIT_DIGEST_ALG_SHA256) as [->|]; cbn [negb]; [|done].
  destruct md_sha256_available; cbn [negb]; [|done].
  rewrite range_load_spec by done. cbn [mbind outcome_bind].
  destruct (md_hash _ _) as [out|] eqn:Hout; [|done].
  destruct (md_hash_spec manifest out Hout Hm) as [Hsha Hsz]. destruct md_size_max as [? ?].
  assert (span_ok (Span out 0 md_get_size)) as Hso.
  { unfold span_ok; cbn. unfold PTRDIFF_MAX. lia. }
  rewrite range_equal_spec; [|by eapply (inner_ok (tcbor_toplevel d)), Hb; apply toplevel_ok|done].
  cbn [wp tcbor_range_is_null]. destruct Hb as [_ ->]. cbn [Bool.eqb andb].
  intros Heq%bool_decide_eq_true. destruct u. eexists. split; [done|].
  split; [done|]. split; [done|]. cbn [fst snd digest_bytes]. rewrite Heq, <-Hsha. cbn. unfold span_bytes, slice; cbn.
  rewrite drop_0, take_ge; [done|]. lia.
Qed.

(** ** Envelopes *)

(** What a successful authentication of [env] with the key [key] shows. *)
Definition authentic (env : tcbor_range) (key : list byte) (manifest : tcbor_range) : Prop :=
  suit_envelope_get_field_by_key env SUIT_MANIFEST = Done (Some manifest) ∧
  ∃ wrapper digest block,
    suit_envelope_get_field_by_key env SUIT_AUTHENTICATION_WRAPPER = Done (Some wrapper) ∧
    range_within digest wrapper ∧ range_within block wrapper ∧
    block_verified key digest block ∧ digest_covers digest manifest.

Lemma authenticate_spec env key :
  range_ok env →
  wp (suit_authenticate_envelope env key) (fun b => b = true → ∃ m, authentic env key m).
Proof.
  intros Henv. unfold suit_authenticate_envelope, authentic.
  destruct (wp_elim _ _ (get_field_safe env false SUIT_AUTHENTICATION_WRAPPER tcbor_range_null Henv I))
    as (o&Ho&Hw). unfold suit_envelope_get_field_by_key. rewrite Ho. cbn [mbind outcome_bind].
  destruct o as [w|]; [|done]. assert (range_ok w) as Hwok by eauto with c_ok.
  wp_read read_array_child. intros [c1 [arr|]]; [|done]. intros (H1&_&Ha&Hs&_).
  wp_read read_bstr_inner. intros [a1 [d|]]; [|done]. intros (Ha1&_&Hd).
  assert (range_ok d) as Hdok by eauto with c_ok.
  pose proof (advanced_suffix _ _ Ha) as Hsa. pose proof (advanced_suffix _ _ Ha1) as Hsa1.
  cbn [c_r tcbor_toplevel] in Hsa.
  apply wp_bind. eapply wp_mono; [apply auth_block_loop_spec; eauto with c_ok|].
  intros [[a2 auth]|]; [|done]. intros (Ha2&Hs2&Hauth).
  apply wp_or_else. eapply wp_mono; [apply (close_advanced _ _ (tcbor_toplevel w)); eauto with c_ok|].
  intros [c2 [u|]]; [|done]. intros _. destruct auth; cbn [negb]; [|done].
  destruct (Hauth eq_refl) as [|(block&Hin&Hb)]; [done|].
  destruct (wp_elim _ _ (get_field_safe env false SUIT_MANIFEST tcbor_range_null Henv I))
    as (o&Hm&Hmr). rewrite Hm. cbn [mbind outcome_bind]. destruct o as [m|]; [|done].
  assert (range_ok m) by eauto with c_ok.
  eapply wp_mono; [by apply verify_digest_spec|]. intros b Hv Hbt. exists m. split; [done|].
  exists w, d, block. destruct Hd as [Hd _].
  split_and!; try done; [eauto with c_ok..|by apply Hv].
Qed.

Lemma parse_wrapper_safe w ret :
  range_ok w → wp (suit_parse_authentication_wrapper w ret) (fun _ => True).
Proof.
  intros Hw. unfold suit_parse_authentication_wrapper.
  assert (∀ fuel a, ctx_ok a → range_len (c_r a) < Z.of_nat fuel →
    wp (wrapper_block_loop fuel a) (fun o => match o with
      Some a' => ctx_ok a' ∧ range_suffix (c_r a') (c_r a) | None => True end)) as Hloop.
  { induction fuel as [|fuel IH]; intros a Ha Hf; cbn [wrapper_block_loop].
    all: destruct (tcbor_is_end_of_context a); [destruct Ha; unfold ctx_ok; cbn; c_done|].
    { destruct Ha as [Hr _]. pose proof (range_len_nonneg _ Hr). lia. }
    wp_read read_bstr_inner. intros [a1 [b|]]; [|done]. intros (H1&_&_).
    eapply wp_mono; [apply IH; eauto with c_ok|]. pose proof (advanced_suffix _ _ H1).
    intros [a2|]; [|done]. intros []. eauto with c_ok. }
  wp_read read_array_child. intros [c1 [arr|]]; [|done]. intros (H1&_&Ha&Hs&_).
  wp_read read_bstr_inner. intros [a1 [d|]]; [|done]. intros (Ha1&_&Hd).
  pose proof (advanced_suffix _ _ Ha1).
  wp_read (@read_digest_safe). intros [[c dg] [u|]]; [|done]. intros _.
  apply wp_bind. eapply wp_mono; [apply Hloop; eauto with c_ok|]. intros [a2|]; [|done].
  intros [? ?]. apply wp_or_else.
  eapply wp_mono; [apply (close_advanced _ _ (tcbor_toplevel w)); eauto with c_ok|].
  by intros [c2 [u2|]].
Qed.

(** ** Envelopes made of encoded items *)

(** The tag in front of some bytes. *)
Definition tag_of (bs : list byte) : option Z :=
  match decode_item bs with
  | inr d => if Z.shiftr (d_header d) 5 =? 6 then Some (d_value d) else None
  | inl _ => None
  end.

Lemma read_tag_at s : span_ok s → read_tag (Some s) = Done (tag_of (span_bytes s)).
Proof.
  intros Hs. unfold read_tag, tcbor_read_tag, read_matching, tag_of, tcbor_read_any.
  cbn -[tcbor_primitive_read_any].
  rewrite read_any_decode by done. destruct (decode_item (span_bytes s)) as [e|d] eqn:Hd; [done|].
  cbn. unfold tcbor_is_tag, any_of; cbn.
  destruct (Z.eqb_spec (Z.shiftr (d_header d) 5) 6) as [->|]; done.
Qed.

(** A block verifies the digest bytes [d]. *)
Definition block_ok (key d : list byte) (x : cbor) : bool :=
  match item_string 2 x with
  | Some b =>
      bool_decide (tag_of b = Some CBOR_TAG_COSE_SIGN1) &&
      match pk_parse_public_key key with
      | Some pk => t_cose_sign1_verify_detached pk (Some b) (Some d)
      | None => false
      end
  | None => false
  end.

Lemma verify_auth_block_at key s d bs :
  span_ok s → span_ok d → span_bytes s = bs →
  verify_auth_block (Some s) (Some d) key =
    Done (bool_decide (tag_of bs = Some CBOR_TAG_COSE_SIGN1) &&
      match pk_parse_public_key key with
      | Some pk => t_cose_sign1_verify_detached pk (Some bs) (Some (span_bytes d))
      | None => false
      end).
Proof.
  intros Hs Hd <-. unfold verify_auth_block. rewrite read_tag_at by done. cbn [mbind outcome_bind].
  destruct (tag_of (span_bytes s)) as [t|]; [|by rewrite bool_decide_eq_false_2].
  destruct (Z.eqb_spec t CBOR_TAG_COSE_SIGN1) as [->|].
  - rewrite bool_decide_eq_true_2 by done. destruct (pk_parse_public_key key); [|done].
    by rewrite !to_UsefulBufC_spec by done.
  - by rewrite bool_decide_eq_false_2 by congruence.
Qed.

Lemma auth_block_loop_at key d : span_ok d → ∀ blocks fuel array auth rest,
  at_items array blocks rest → (length blocks < fuel)%nat →
  if forallb (block_ok key (span_bytes d)) blocks then
    ∃ a', auth_block_loop fuel array (Some d) key auth =
      Done (Some (a', auth || match blocks with [] => false | _ => true end)) ∧ at_items a' [] rest
  else auth_block_loop fuel array (Some d) key auth = Done None.
Proof.
  intros Hd. induction blocks as [|x l IH]; intros fuel array auth rest Ha Hf;
    (destruct fuel as [|fuel]; [cbn in *; lia|]);
    cbn [auth_block_loop]; rewrite (at_items_end _ _ _ Ha).
  { cbn. rewrite orb_false_r. eauto. }
  pose proof (at_read_bstr _ _ _ _ Ha) as Hb. cbn [forallb]. unfold block_ok at 1.
  destruct (item_string 2 x) as [b|]; cbn [reads] in Hb; [|by destruct Hb as (c'&->&_)].
  destruct Hb as (a1&?&->&Ha1&s&->&Hs&Hb). cbn [or_else].
  rewrite (verify_auth_block_at key s d b) by done. cbn [mbind outcome_bind].
  set (ok := bool_decide (tag_of b = _) && _). destruct ok; cbn [negb andb]; [|done].
  cbn in Hf. specialize (IH fuel a1 true rest Ha1 ltac:(lia)).
  destruct (forallb _ l); [|done]. destruct IH as (a'&->&?). cbn. rewrite orb_true_r. eauto.
Qed.

(** The digest calls of Mbed TLS succeed. *)
Definition md_works : Prop :=
  md_sha256_available = true ∧ ∀ h m, is_Some (md_hash h m).

Lemma verify_digest_at d x rest m :
  md_works → span_ok d → cbor_wf x = true → span_bytes d = encode x ++ rest → range_ok m →
  verify_digest (Some d) m = Done (bool_decide (digest_of x = Some (SUIT_DIGEST_ALG_SHA256,
    sha256 (encode (CString 2 (shortest (range_len m)) (range_bytes m)))))).
Proof.
  intros [Hav Hmd] Hd Hx Hb Hm. unfold verify_digest.
  pose proof (read_digest_at digest_var _ (Digest 0 None) _ _ _ (at_toplevel d x rest Hd Hx Hb)) as Hr.
  destruct (digest_of x) as [[alg bs]|].
  2: { destruct Hr as (cd&->). cbn. by rewrite bool_decide_eq_false_2. }
  destruct Hr as (c'&s&->&Hs&Hsb&_).
  cbn [or_else snd set_bytes set_algorithm_id digest_var algorithm_id digest_bytes].
  destruct (Z.eqb_spec alg SUIT_DIGEST_ALG_SHA256) as [->|]; cbn [negb].
  2: { by rewrite bool_decide_eq_false_2 by congruence. }
  rewrite Hav, range_load_spec by done. cbn [negb mbind outcome_bind].
  destruct (Hmd (digest_header (range_len m)) (range_bytes m)) as [out Hout]. rewrite Hout.
  destruct (md_hash_spec m out Hout Hm) as [Hsha Hsz]. destruct md_size_max as [? ?].
  assert (span_ok (Span out 0 md_get_size)) as Hso.
  { unfold span_ok; cbn. unfold PTRDIFF_MAX. lia. }
  rewrite range_equal_spec by done. cbn [tcbor_range_is_null Bool.eqb andb range_bytes].
  rewrite Hsb, <-Hsha. unfold span_bytes, slice; cbn [sp_buf sp_begin sp_end].
  rewrite drop_0, take_ge by lia. do 2 f_equal. apply bool_decide_ext. split; congruence.
Qed.

(** The whole check on an envelope whose wrapper is the array of the digest
    [d] and the blocks, and whose manifest is [m]. *)
Lemma authenticate_at s ai aim kvs rest key w m aw ad d blocks wrest x drest :
  md_works → span_ok s → cbor_wf (CTag ai 107 (CMap aim kvs)) = true →
  forallb flat_key (keys kvs) = true →
  span_bytes s = encode (CTag ai 107 (CMap aim kvs)) ++ rest →
  find_field false SUIT_AUTHENTICATION_WRAPPER None kvs None = Some (Some w) →
  find_field false SUIT_MANIFEST None kvs None = Some (Some m) →
  w = encode (CArray aw (CString 2 ad d :: blocks)) ++ wrest →
  cbor_wf (CArray aw (CString 2 ad d :: blocks)) = true →
  d = encode x ++ drest → cbor_wf x = true →
  suit_authenticate_envelope (Some s) key =
    Done (forallb (block_ok key d) blocks && negb (bool_decide (blocks = [])) &&
      bool_decide (digest_of x = Some (SUIT_DIGEST_ALG_SHA256,
        sha256 (encode (CString 2 (shortest (Z.of_nat (length m))) m))))).
Proof.
  intros Hmd Hs Hwf Hk Hb Hw Hm Hwb Hwwf Hdb Hxwf. unfold suit_authenticate_envelope.
  destruct (get_field_at s ai aim kvs rest false SUIT_AUTHENTICATION_WRAPPER None Hs I Hwf Hk Hb)
    as (o&Ho&Hv); [by right|]. destruct (wp_elim _ _ (get_field_safe (Some s) false
    SUIT_AUTHENTICATION_WRAPPER None Hs I)) as (o1&Ho1&Hin1). rewrite Ho in Ho1. injection Ho1 as <-.
  destruct (get_field_at s ai aim kvs rest false SUIT_MANIFEST None Hs I Hwf Hk Hb)
    as (om&Hom&Hvm); [by right|]. destruct (wp_elim _ _ (get_field_safe (Some s) false
    SUIT_MANIFEST None Hs I)) as (o2&Ho2&Hin2). rewrite Hom in Ho2. injection Ho2 as <-.
  unfold suit_envelope_get_field_by_key, tcbor_range_null. rewrite Ho, Hom. cbn [mbind outcome_bind].
  cbn [view fmap option_fmap option_map] in Hv, Hvm. rewrite Hw in Hv. rewrite Hm in Hvm.
  destruct o as [[ws|]|]; cbn in Hv; try done. injection Hv as Hws.
  destruct om as [[ms|]|]; cbn in Hvm; try done. injection Hvm as Hms.
  assert (span_ok ws) as Hwok by (apply (range_within_ok _ _ Hin1); done).
  assert (span_ok ms) as Hmok by (apply (range_within_ok _ _ Hin2); done).
  rewrite Hwb in Hws. pose proof (at_toplevel ws _ _ Hwok Hwwf Hws) as Hc.
  pose proof (at_read_array _ _ _ _ Hc) as Ha. cbn [item_array reads] in Ha.
  destruct Ha as (c1&arr&->&Harr&Hp). cbn [or_else].
  pose proof (at_read_bstr _ _ _ _ Harr) as Hbs. cbn [item_string Z.eqb Pos.eqb reads] in Hbs.
  destruct Hbs as (a1&?&->&Ha1&ds&->&Hds&Hdsb). cbn [or_else].
  pose proof (auth_block_loop_at key ds Hds blocks (context_fuel a1) a1 false _ Ha1) as Hl.
  rewrite Hdsb in Hl.
  specialize (Hl ltac:(pose proof (at_items_len _ _ _ Ha1); unfold context_fuel; lia)).
  destruct (forallb (block_ok key d) blocks); [|by rewrite Hl].
  destruct Hl as (a2&->&Ha2). cbn [mbind outcome_bind orb].
  destruct (at_close _ _ _ _ _ Hp Ha2) as (c2&->&_). cbn [or_else andb].
  destruct blocks as [|b blocks]; [by rewrite bool_decide_eq_true_2|]. cbn [negb].
  rewrite (verify_digest_at ds x drest (Some ms)) by (done || congruence).
  rewrite (bool_decide_eq_false_2 (b :: blocks = [])) by done. cbn [negb andb].
  pose proof (span_bytes_length ms Hmok) as Hl. rewrite Hms in Hl. rewrite Hl. cbn [range_bytes].
  by rewrite Hms.
Qed.

End auth.
