(* ===== verification/SuitContext.v ===== *)
(** * SuitContext: [lib/suit/lib/suit-context.c]

    The manifests parsed so far.  [manifests] has all the slots of the array,
    also those beyond [n_manifest], which hold what a failing parse left. *)

From S2P Require Import Prelude Tcbor SuitTypes SuitParser.

Record suit_context := SuitContext { n_manifest : nat; manifests : list suit_manifest }.

(** [memset(p, 0, sizeof *p)]. *)
Definition suit_context_init : suit_context :=
  SuitContext 0 (replicate SUIT_MANIFEST_MAX manifest_zero).

Definition suit_context_add_envelope (p : suit_context) (envelope_bstr : tcbor_range) :
    outcome (suit_context * bool) :=
  if (n_manifest p =? SUIT_MANIFEST_MAX)%nat then Done (p, false)
  else
    match manifests p !! n_manifest p with
    | None => Ub
    | Some slot =>
        try manifest, _u := suit_envelope_get_manifest envelope_bstr slot
          otherwise
            Done (SuitContext (n_manifest p) (<[n_manifest p := manifest]> (manifests p)), false) ;;
        Done (SuitContext (S (n_manifest p)) (<[n_manifest p := manifest]> (manifests p)), true)
    end.

Definition suit_context_get_root_manifest (p : suit_context) : outcome (option suit_manifest) :=
  if (n_manifest p =? 0)%nat then Done None
  else match manifests p !! 0 with None => Ub | Some m => Done (Some m) end.
