(* ===== verification/SuitContextFacts.v ===== *)
(** * SuitContextFacts: the manifests of a SUIT context *)

From S2P Require Import Prelude Tcbor TcborFacts SuitTypes SuitParser SuitParserFacts SuitContext.

Local Open Scope Z_scope.

(** All slots are well formed, and there are eight of them. *)
Definition context_ok (p : suit_context) : Prop :=
  length (manifests p) = SUIT_MANIFEST_MAX ∧ (n_manifest p <= SUIT_MANIFEST_MAX)%nat ∧
  Forall slot_ok (manifests p).

Lemma context_init_ok : context_ok suit_context_init.
Proof.
  split; [done|]. split; [apply Nat.le_0_l|]. cbn. repeat constructor; try apply slot_zero.
Qed.

(** [suit_context_add_envelope] accepts at most eight envelopes, changes no
    slot but the next one, and counts it only when it parsed. *)
Lemma add_envelope_spec p env :
  context_ok p → range_ok env →
  wp (suit_context_add_envelope p env) (fun '(p', b) =>
    context_ok p' ∧
    (∀ i, i ≠ n_manifest p → manifests p' !! i = manifests p !! i) ∧
    if b then
      (n_manifest p < SUIT_MANIFEST_MAX)%nat ∧ n_manifest p' = S (n_manifest p) ∧
      ∃ m, manifests p' !! n_manifest p = Some m ∧ envelope_parsed env m
    else n_manifest p' = n_manifest p).
Proof.
  intros (Hlen&Hn&Hslots) Henv. unfold suit_context_add_envelope.
  destruct (Nat.eqb_spec (n_manifest p) SUIT_MANIFEST_MAX) as [|Hne]; [done|].
  destruct (lookup_lt_is_Some_2 (manifests p) (n_manifest p)) as [slot Hslot]; [lia|].
  rewrite Hslot. pose proof (Forall_lookup_1 _ _ _ _ Hslots Hslot) as Hok.
  apply wp_or_else. eapply wp_mono; [by apply get_manifest_safe|].
  intros [m [u|]] [Hm Hp]; cbn; (split; [|split]).
  - split; cbn; [by rewrite length_insert|]. split; [lia|]. by apply Forall_insert.
  - intros i Hi. by rewrite list_lookup_insert_ne.
  - split; [lia|]. split; [done|]. exists m. rewrite list_lookup_insert_eq by lia. done.
  - split; cbn; [by rewrite length_insert|]. split; [lia|]. by apply Forall_insert.
  - intros i Hi. by rewrite list_lookup_insert_ne.
  - done.
Qed.

(** ** What survives in a slot *)

(** While [has_value] of the install member is off, its union is not written. *)
Definition install_kept (m m' : suit_manifest) : Prop :=
  has_value (install m') = false →
  has_value (install m) = false ∧ sev_union (install m') = sev_union (install m).

Lemma install_kept_refl m : install_kept m m.
Proof. done. Qed.

Lemma install_kept_trans m1 m2 m3 : install_kept m1 m2 → install_kept m2 m3 → install_kept m1 m3.
Proof. intros H1 H2 H. destruct (H2 H) as [H3 ->]. by apply H1. Qed.

Definition keeps_install {R} (m : suit_manifest) (o : outcome (suit_manifest * option R)) : Prop :=
  may o (fun '(m', r) => match r with Some _ => install_kept m m' | None => True end).

Lemma bstr_field_keeps set map m :
  (∀ x, install (set m x) = install m) → keeps_install m (bstr_field set map m).
Proof.
  intros Hs. unfold keeps_install, bstr_field. apply may_or_else.
  destruct (tcbor_read_bstr map) as [| |[c [r|]]]; cbn; try done. intros Hv.
  by rewrite Hs in *.
Qed.

Lemma severed_field_keeps get set map m :
  (∀ x, install (set m x) = install m) → keeps_install m (severed_field get set map m).
Proof.
  intros Hs. unfold keeps_install, severed_field. apply may_or_else.
  destruct (read_severed map (get m)) as [| |[[c r] [u|]]]; cbn; try done. intros Hv.
  by rewrite Hs in *.
Qed.

Lemma install_field_keeps map m : keeps_install m (severed_field install with_install map m).
Proof.
  unfold keeps_install, severed_field, read_severed. apply may_or_else.
  destruct (tcbor_read_bstr map) as [| |[c [r|]]]; cbn; try done; unfold install_kept.
  - by destruct m.
  - destruct (read_digest _ _ _) as [| |[[c' d] [u|]]]; cbn; try done. by destruct m.
Qed.

Lemma common_field_keeps map m : keeps_install m (common_field map m).
Proof.
  unfold keeps_install, common_field. apply may_or_else.
  destruct (tcbor_read_bstr map) as [| |[c [r|]]]; cbn; try done.
  destruct (suit_parse_common r) as [| |[cm [u|]]]; cbn; try done. by destruct m.
Qed.

Lemma manifest_field_keeps key map m : keeps_install m (manifest_field key map m).
Proof.
  unfold manifest_field. destruct (_ || _); [done|].
  repeat match goal with |- keeps_install _ (if ?b then _ else _) => destruct b end;
    auto using common_field_keeps, install_field_keeps;
    try (apply bstr_field_keeps; intros; by destruct m);
    try (apply severed_field_keeps; intros; by destruct m).
  unfold keeps_install, skip_field. apply may_or_else.
  by destruct (tcbor_skip 1 map) as [| |[c [r|]]].
Qed.

Lemma parse_manifest_loop_keeps fuel map m : keeps_install m (parse_manifest_loop fuel map m).
Proof.
  revert map m. induction fuel as [|fuel IH]; intros map m; cbn [parse_manifest_loop];
    destruct (tcbor_is_end_of_context map); try done.
  unfold keeps_install. apply may_or_else.
  destruct (tcbor_read_any map) as [| |[c [key|]]]; cbn [may]; try done.
  destruct (tcbor_is_tag key); [done|]. apply may_or_else.
  assert (keeps_install m (if tcbor_is_uint key then manifest_field (any_value key) c m
    else skip_field c m)) as Hk.
  { destruct (tcbor_is_uint key); [apply manifest_field_keeps|].
    unfold keeps_install, skip_field. apply may_or_else.
    by destruct (tcbor_skip 1 c) as [| |[c' [r|]]]. }
  eapply may_mono; [exact Hk|]. intros [m' [c'|]] Hk'; [|done].
  eapply may_mono; [apply IH|]. intros [m'' [c''|]] Hk''; [|done].
  by eapply install_kept_trans.
Qed.

(** A manifest without an install member keeps the union of its slot. *)
Lemma manifest_parse_keeps r m m' :
  suit_manifest_parse r m = Done (m', Some tt) → has_value (install m') = false →
  sev_union (install m') = sev_union (install m).
Proof.
  intros H Hv. unfold suit_manifest_parse in H.
  apply or_else_done_inv in H as [(c1&map&_&H)|(?&_&?)]; [|done].
  apply or_else_done_inv in H as [(map1&v&_&H)|(?&_&?)]; [|done].
  destruct (negb _); [done|].
  apply or_else_done_inv in H as [(map2&n&_&H)|(?&_&?)]; [|done].
  apply or_else_done_inv in H as [(m1&map3&He&H)|(?&_&?)]; [|done].
  apply or_else_done_inv in H as [(c2&u&_&H)|(?&_&?)]; [|done].
  destruct (tcbor_range_is_null _); [done|]. injection H as ->.
  pose proof (parse_manifest_loop_keeps (context_fuel map2) map2
    (with_sequence_number (with_version (manifest_init r m) v) n)) as Hk.
  unfold keeps_install in Hk. rewrite He in Hk. destruct (Hk Hv) as [_ Hk'].
  by destruct m.
Qed.
