(* ===== verification/SuitTheorems.v ===== *)
(** * SuitTheorems: what the SUIT parser and its authentication guarantee

    The theorems about [SuitParser], [SuitAuth] and [SuitContext]. *)

From stdpp Require Import gmap.
From S2P Require Import Prelude Tcbor TcborFacts CborSpec CborTree SuitTypes SuitParser SuitParserFacts.
From S2P Require Import SuitSpec SuitAuth SuitAuthFacts SuitContext SuitContextFacts.

Local Open Scope Z_scope.

(** ** A sample manifest and envelope *)

(** A short encoding of a small number, of a text and of a byte string. *)
Definition num (n : Z) : cbor := CAtom 0 n n.
Definition bstr (bs : list byte) : cbor := CString 2 (if Z.of_nat (length bs) <? 24 then Z.of_nat (length bs) else 24) bs.

Definition sample_common : list cbor := [num 2; CArray 1 [CArray 1 [bstr [x74; x61]]]].

(** The manifest {1: 1, 2: 5, 3: << sample_common >>, 9: << [] >>}. *)
Definition sample_manifest : list cbor :=
  [num 1; num 1; num 2; num 5; num 3; bstr (encode (CMap 1 sample_common)); num 9; bstr [x80]].

Definition sample_fields : gmap Z fval :=
  {[ 3 := FBytes (encode (CMap 1 sample_common)); 9 := FBytes [x80] ]}.

(** C18: memory safety of [suit_manifest_parse].  Whatever the bytes of the
    manifest and whatever the slot held before, the parser returns without
    reading outside the given range; it leaves a well-formed slot; and when it
    returns [true], the version is 1, the common section is present, all ranges
    it stored lie inside the manifest, and at most eight components and eight
    dependencies were counted. *)
Theorem suit_manifest_parse_safe r m :
  range_ok r → slot_ok m →
  wp (suit_manifest_parse r m) (fun '(m', o) =>
    slot_ok m' ∧ match o with Some _ => parsed r m' | None => True end).
Proof. apply manifest_parse_safe. Qed.

Lemma suit_manifest_parse_safe_witness :
  wp (suit_manifest_parse (Some (whole (encode (CMap 4 sample_manifest)))) manifest_zero)
    (fun '(m', o) => slot_ok m' ∧
      match o with
      | Some _ => parsed (Some (whole (encode (CMap 4 sample_manifest)))) m'
      | None => True
      end).
Proof. apply suit_manifest_parse_safe; [by apply whole_ok|apply slot_zero]. Defined.

(** C12: functional correctness of [suit_manifest_parse] on encoded manifests.
    On the encoding of a map (with keys that are atoms or strings) whose common
    sections are encodings of maps, the parser returns [true] exactly when
    [manifest_spec] accepts the entries: version 1 first, then the sequence number,
    then entries in any order, among them a common section, and every common section
    is one that [common_spec] accepts; it then stores the version, the sequence
    number and, for every known label, the value of its last entry, whose bytes are
    those of the input; the common section stored is the one that these bytes
    encode. *)
Theorem suit_manifest_parse_correct s ai kvs rest m :
  span_ok s → cbor_wf (CMap ai kvs) = true → span_bytes s = encode (CMap ai kvs) ++ rest →
  forallb flat_key (keys kvs) = true → commons_encoded (drop 4 kvs) = true →
  ∃ m' o, suit_manifest_parse (Some s) m = Done (m', o) ∧
    match manifest_spec kvs with
    | Some (n, fs) => o = Some tt ∧ has_fields (1, n) m' fs
    | None => o = None
    end.
Proof. apply manifest_parse_at. Qed.

(** The sample is accepted; with nine components in its common section it is not. *)
Definition nine_components : list cbor :=
  [num 1; num 1; num 2; num 5; num 3; bstr (encode (CMap 1 [num 2; CArray 9 (replicate 9 (num 0))]))].

Lemma suit_manifest_parse_correct_witness :
  (∃ m' o, suit_manifest_parse (Some (whole (encode (CMap 4 sample_manifest)))) manifest_zero =
      Done (m', o) ∧ o = Some tt ∧ has_fields (1, 5) m' sample_fields) ∧
  ∃ m', suit_manifest_parse (Some (whole (encode (CMap 3 nine_components)))) manifest_zero = Done (m', None).
Proof.
  split.
  - destruct (suit_manifest_parse_correct (whole (encode (CMap 4 sample_manifest))) 4 sample_manifest []
      manifest_zero ltac:(by apply whole_ok) ltac:(by vm_compute) ltac:(by vm_compute) ltac:(by vm_compute)
      ltac:(by vm_compute)) as (m'&o&He&Ho).
    exists m', o. split; [exact He|]. exact Ho.
  - destruct (suit_manifest_parse_correct (whole (encode (CMap 3 nine_components))) 3 nine_components []
      manifest_zero ltac:(by apply whole_ok) ltac:(by vm_compute) ltac:(by vm_compute) ltac:(by vm_compute)
      ltac:(by vm_compute)) as (m'&o&He&Ho).
    assert (manifest_spec nine_components = None) as Hspec by by vm_compute.
    rewrite Hspec in Ho. exists m'. by rewrite <-Ho.
Defined.

(** C34: functional correctness of [suit_parse_common] on encoded common
    sections.  It returns [true] exactly when every key is 1, 2 or 4 and occurs
    at most once, the dependencies are at most eight maps, the components at
    most eight items, and the command sequence a byte string; it then stores
    their number, the encodings of the components in order, and the sequence. *)
Theorem suit_parse_common_correct s ai kvs rest :
  span_ok s → cbor_wf (CMap ai kvs) = true → span_bytes s = encode (CMap ai kvs) ++ rest →
  ∃ c o, suit_parse_common (Some s) = Done (c, o) ∧
    match common_fields kvs false false (CommonView 0 [] None) with
    | Some cv => o = Some tt ∧ view_common c = cv
    | None => o = None
    end.
Proof. apply parse_common_at. Qed.

(** Nine components are rejected. *)
Lemma suit_parse_common_correct_witness :
  ∃ c, suit_parse_common
    (Some (whole (encode (CMap 1 [num 2; CArray 9 (replicate 9 (num 0))])))) = Done (c, None).
Proof.
  destruct (suit_parse_common_correct (whole (encode (CMap 1 [num 2; CArray 9 (replicate 9 (num 0))])))
    1 [num 2; CArray 9 (replicate 9 (num 0))] []) as (c&o&He&Ho).
  - by apply whole_ok.
  - done.
  - done.
  - exists c. cbn in Ho. by rewrite Ho in He.
Defined.

(** C27: the look-up of envelope fields.  On an envelope that is an encoded
    map with tag 107 (keys atoms or strings), [suit_envelope_get_field] returns
    the contents of the last entry whose key is the requested number (or text);
    it returns the null range if there is none, and fails if an entry with that
    key is not a byte string. *)
Theorem suit_envelope_get_field_correct s ai aim kvs rest b key kt :
  span_ok s → range_ok kt → cbor_wf (CTag ai 107 (CMap aim kvs)) = true →
  forallb flat_key (keys kvs) = true →
  span_bytes s = encode (CTag ai 107 (CMap aim kvs)) ++ rest →
  b = true ∨ is_envelope_key key = true →
  ∃ o, suit_envelope_get_field (Some s) b key kt = Done o ∧
    (view <$> o) = find_field b key (view kt) kvs None.
Proof. apply get_field_at. Qed.

(** ["#a"], the name of an integrated payload. *)
Definition sample_name : list byte := [x23; x61].
Definition sample_payloads : list cbor :=
  [num 3; bstr [x01]; CString 3 2 sample_name; bstr [x02]; CString 3 2 sample_name; bstr [x03; x04]].

Lemma suit_envelope_get_field_correct_witness :
  ∃ o, suit_envelope_get_field (Some (whole (encode (CTag 24 107 (CMap 3 sample_payloads))))) true
         SUIT_DELEGATION (Some (whole sample_name)) = Done o ∧ (view <$> o) = Some (Some [x03; x04]).
Proof.
  destruct (suit_envelope_get_field_correct (whole (encode (CTag 24 107 (CMap 3 sample_payloads))))
    24 3 sample_payloads [] true SUIT_DELEGATION (Some (whole sample_name))) as (o&He&Ho).
  - by apply whole_ok.
  - by apply (whole_ok sample_name).
  - by vm_compute.
  - by vm_compute.
  - by vm_compute.
  - by left.
  - exists o. split; [exact He|]. rewrite Ho. by vm_compute.
Defined.

(** ** Authentication *)

(** A toy instance of the cryptographic interface, to run examples with: keys
    are bytes, a signature is a tag 18 and the signed bytes, and the digest of
    a message is its length. *)
Definition toy_hash (m : list byte) : list byte := [to_byte (Z.of_nat (length m))].

#[local] Instance toy_crypto : crypto_api := {|
  CBOR_TAG_COSE_SIGN1 := 18;
  pk_key := list byte;
  md_context := list byte;
  pk_parse_public_key k := Some k;
  t_cose_sign1_verify_detached k b p := bool_decide (b = (fun p => xd2 :: k ++ p) <$> p);
  md_sha256_available := true;
  md_setup := Some [];
  md_starts c := Some [];
  md_update c m := Some (c ++ m);
  md_finish c := Some (toy_hash c);
  md_get_size := 1
|}.

#[local] Instance toy_laws : crypto_laws.
Proof.
  refine {| sha256 := toy_hash |}.
  - cbn. intros c0 c1 c2 c3 m1 m2 out. by intros _ [= <-] [= <-] [= <-] [= <-].
  - cbn. intros c0 c1 c2 c3 m1 m2 out. by intros _ _ _ _ [= <-].
  - cbn. lia.
Defined.

Definition sample_manifest_bytes : list byte := encode (CMap 4 sample_manifest).
Definition sample_digest : cbor :=
  CArray 2 [CAtom 1 15 15; bstr (toy_hash (encode (bstr sample_manifest_bytes)))].
Definition sample_blocks (key : list byte) : list cbor := [bstr (xd2 :: key ++ encode sample_digest)].
Definition sample_wrapper (key : list byte) : cbor := CArray 2 (bstr (encode sample_digest) :: sample_blocks key).
Definition sample_entries (key : list byte) : list cbor :=
  [num 2; bstr (encode (sample_wrapper key)); num 3; bstr sample_manifest_bytes].
Definition sample_envelope (key : list byte) : list byte :=
  encode (CTag 24 107 (CMap 2 (sample_entries key))).

(** C2: soundness of [suit_authenticate_envelope], for arbitrary bytes: it
    always returns, and it returns [true] only if the manifest field of the
    envelope is found, some authentication block of the wrapper carries the
    COSE_Sign1 tag and t_cose verified it with the given key on the digest
    bytes, and that digest is the SHA-256 of the manifest encoded canonically as
    a byte string. *)
Theorem suit_authenticate_sound `{crypto_api} `{!crypto_laws} env key :
  range_ok env →
  wp (suit_authenticate_envelope env key) (fun b => b = true → ∃ m, authentic env key m).
Proof. apply authenticate_spec. Qed.

Lemma suit_authenticate_sound_witness :
  ∃ m, authentic (Some (whole (sample_envelope [x07]))) [x07] m.
Proof.
  pose proof (suit_authenticate_sound (Some (whole (sample_envelope [x07]))) [x07]
    ltac:(by apply whole_ok)) as H.
  assert (suit_authenticate_envelope (Some (whole (sample_envelope [x07]))) [x07] = Done true) as He
    by by vm_compute.
  rewrite He in H. exact (H eq_refl).
Defined.

(** C3: the decision of [suit_authenticate_envelope] on encoded envelopes: it
    accepts exactly when there is at least one authentication block, every
    block carries the COSE_Sign1 tag and verifies against the digest, the
    digest algorithm is SHA-256 and the digest is that of the manifest.  One bad
    block among good ones rejects the envelope. *)
Theorem suit_authenticate_correct `{crypto_api} `{!crypto_laws}
    s ai aim kvs rest key w m aw ad d blocks wrest x drest :
  md_works → span_ok s → cbor_wf (CTag ai 107 (CMap aim kvs)) = true →
  forallb flat_key (keys kvs) = true →
  span_bytes s = encode (CTag ai 107 (CMap aim kvs)) ++ rest →
  find_field false SUIT_AUTHENTICATION_WRAPPER None kvs None = Some (Some w) →
  find_field false SUIT_MANIFEST None kvs None = Some (Some m) →
  w = encode (CArray aw (CString 2 ad d :: blocks)) ++ wrest →
  cbor_wf (CArray aw (CString 2 ad d :: blocks)) = true →
  d = encode x ++ drest → cbor_wf x = true →
  suit_authenticate_envelope (Some s) key =
    Done (forallb (block_ok key d) blocks && negb (bool_decide (blocks = [])) &&
      bool_decide (digest_of x = Some (SUIT_DIGEST_ALG_SHA256,
        sha256 (encode (CString 2 (shortest (Z.of_nat (length m))) m))))).
Proof. apply authenticate_at. Qed.

(** Signed with one key and checked with another. *)
Lemma suit_authenticate_correct_witness :
  suit_authenticate_envelope (Some (whole (sample_envelope [x07]))) [x08] = Done false.
Proof.
  etransitivity; [eapply (suit_authenticate_correct (whole (sample_envelope [x07])) 24 2
    (sample_entries [x07]) [] [x08] (encode (sample_wrapper [x07])) sample_manifest_bytes 2 4
    (encode sample_digest) (sample_blocks [x07]) [] sample_digest [])|].
  - split; [done|]. intros h m. cbn. by eexists.
  - by apply whole_ok.
  - by vm_compute.
  - by vm_compute.
  - by vm_compute.
  - by vm_compute.
  - by vm_compute.
  - by vm_compute.
  - by vm_compute.
  - by vm_compute.
  - by vm_compute.
  - by vm_compute.
Defined.

(** ** The context *)

(** C33: [suit_context_add_envelope] keeps at most eight manifests and never
    touches the ones it holds; and the manifest it adds from an envelope that
    [suit_authenticate_envelope] accepted is parsed from exactly the bytes that
    were authenticated. *)
Theorem suit_context_add_envelope_correct `{crypto_api} `{!crypto_laws} p env key :
  context_ok p → range_ok env → suit_authenticate_envelope env key = Done true →
  wp (suit_context_add_envelope p env) (fun '(p', b) =>
    context_ok p' ∧ (n_manifest p' <= SUIT_MANIFEST_MAX)%nat ∧
    (∀ i, (i < n_manifest p)%nat → manifests p' !! i = manifests p !! i) ∧
    if b then
      n_manifest p' = S (n_manifest p) ∧
      ∃ r m, authentic env key r ∧ parsed r m ∧
        manifests p' !! n_manifest p = Some (with_envelope_bstr m env)
    else n_manifest p' = n_manifest p).
Proof.
  intros Hp Henv Hauth. pose proof (authenticate_spec env key Henv) as Ha. rewrite Hauth in Ha.
  destruct (Ha eq_refl) as (r&Hr).
  eapply wp_mono; [by apply add_envelope_spec|]. intros [p' b] (Hp'&Hold&Hb).
  split; [done|]. split; [apply Hp'|]. split; [intros i Hi; apply Hold; lia|].
  destruct b; [|done]. destruct Hb as (_&Hn&m&Hm&(r'&m0&Hr'&_&Hpar&->)). split; [done|].
  exists r, m0. destruct Hr as [Hr1 Hr2]. rewrite Hr1 in Hr'. injection Hr' as ->.
  split; [by split|]. done.
Qed.

Definition sample_context : suit_context :=
  match suit_context_add_envelope suit_context_init (Some (whole (sample_envelope [x07]))) with
  | Done (p, _) => p
  | _ => suit_context_init
  end.

Lemma suit_context_add_envelope_correct_witness :
  suit_context_add_envelope suit_context_init (Some (whole (sample_envelope [x07]))) =
    Done (sample_context, true) ∧
  n_manifest sample_context = 1%nat ∧ ∃ r m, parsed r m.
Proof.
  pose proof (suit_context_add_envelope_correct suit_context_init
    (Some (whole (sample_envelope [x07]))) [x07] context_init_ok ltac:(by apply whole_ok)
    ltac:(by vm_compute)) as H.
  assert (suit_context_add_envelope suit_context_init (Some (whole (sample_envelope [x07]))) =
    Done (sample_context, true)) as He by by vm_compute.
  rewrite He in H. destruct H as (_&_&_&Hn&r&m&_&Hm&_).
  split; [exact He|]. split; [exact Hn|]. by exists r, m.
Defined.

(** A slot keeps the install member of an earlier, rejected manifest: a
    manifest that is accepted without an install member leaves the union of its
    slot as it was, and [get_command_sequence_body] reads that union without
    looking at [has_value]. *)
Theorem suit_manifest_parse_stale_install r m m' :
  suit_manifest_parse r m = Done (m', Some tt) → has_value (install m') = false →
  sev_union (install m') = sev_union (install m).
Proof. apply manifest_parse_keeps. Qed.

(** A manifest with an install member and a second version entry is rejected;
    the manifest without install member that follows in the same slot is
    accepted with the install sequence of the first. *)
Definition sample_rejected : list byte :=
  encode (CMap 4 [num 1; num 1; num 2; num 5; num 9; bstr [x80]; num 1; num 1]).
Definition sample_no_install : list byte :=
  encode (CMap 3 [num 1; num 1; num 2; num 6; num 3; bstr (encode (CMap 1 sample_common))]).

Definition first_parse : outcome (suit_manifest * option unit) :=
  suit_manifest_parse (Some (whole sample_rejected)) manifest_zero.
Definition slot_after {A} (o : outcome (suit_manifest * A)) : suit_manifest :=
  match o with Done (m, _) => m | _ => manifest_zero end.

Lemma suit_manifest_parse_stale_install_witness :
  first_parse = Done (slot_after first_parse, None) ∧
  let second := suit_manifest_parse (Some (whole sample_no_install)) (slot_after first_parse) in
  second = Done (slot_after second, Some tt) ∧
  sev_union (install (slot_after second)) = UBody (Some (Span sample_rejected 7 8)).
Proof.
  split; [by vm_compute|]. cbv zeta.
  assert (suit_manifest_parse (Some (whole sample_no_install)) (slot_after first_parse) =
    Done (slot_after (suit_manifest_parse (Some (whole sample_no_install)) (slot_after first_parse)),
          Some tt)) as He by by vm_compute.
  split; [exact He|].
  rewrite (suit_manifest_parse_stale_install _ _ _ He); by vm_compute.
Defined.
