(* ===== verification/SuitRunner.v ===== *)
(** * SuitRunner: the command interpreter of [lib/suit/lib/suit.c]

    The runner executes the common and the install sequence of the root
    manifest.  It is a machine with a program counter, a stack of saved
    continuations, a table of parameters and flags for errors and suspension.

    - Manifests are not written while a runner uses them, so a continuation
      holds the manifest itself ([None] is the null pointer).
    - [n_binder] and [n_stack] are the lengths of [bindings] and [stack], whose
      last element is the top.
    - Parameters are looked up by the address of the local variable [target]
      of the running step.  That address is an argument [slot_addr] of
      [suit_runner_run], so that nothing is assumed about the layout of the
      C stack.
    - The callbacks of the user and the code addresses given to
      [suit_runner_suspend] are the class [suit_callbacks]; they receive the
      runner and the user's state and return them. *)

From S2P Require Import Prelude Tcbor SuitTypes SuitParser SuitContext.

Local Open Scope Z_scope.

(** ** The state *)

(** What a step still has to do with the selected objects. *)
Inductive suit_selection :=
  | SelectedAll (index : Z)
  | SelectedArray (array : tcbor_context).

Inductive suit_next :=
  | SUIT_NEXT_EXECUTE_SEQUENCE (common target : tcbor_context)
  | SUIT_NEXT_EXECUTE_COMMAND (command : Z) (param : tcbor_range) (is_component : bool)
      (selection : suit_selection)
  | SUIT_NEXT_EXECUTE_TRY_ENTRY
  | SUIT_NEXT_EXIT.

Record suit_continuation := Continuation { pc_manifest : option suit_manifest; pc_next : suit_next }.

(** A component or dependency of the manifest, by its index. *)
Record suit_object := Object { is_component : bool; object_index : Z }.

(** The local variable [target] of a step: its address and its contents. *)
Record suit_target := Target { target_addr : Z; target_object : suit_object }.

(** The three variables [suit_object_t target] of the steps. *)
Inductive target_slot := slot_sequence | slot_command_all | slot_command_array.

Record suit_binder := Binder { binder_target : Z; binder_key : Z; value_cbor : tcbor_range }.

Record suit_runner (code : Type) := Runner {
  sequence : suit_command_sequence;
  selected_components : tcbor_range;
  selected_dependencies : tcbor_range;
  bindings : list suit_binder;
  program_counter : suit_continuation;
  stack : list suit_continuation;
  has_error : bool;
  suspended : bool;
  on_resume : option code
}.
Arguments Runner {code} _ _ _ _ _ _ _ _ _.
Arguments sequence {code} _.
Arguments selected_components {code} _.
Arguments selected_dependencies {code} _.
Arguments bindings {code} _.
Arguments program_counter {code} _.
Arguments stack {code} _.
Arguments has_error {code} _.
Arguments suspended {code} _.
Arguments on_resume {code} _.

(** The functions the user of the runner supplies. *)
Class suit_callbacks := {
  user : Type;
  resume_code : Type;
  cb_store : suit_runner resume_code → user → suit_target → tcbor_range →
    suit_runner resume_code * user * bool;
  cb_fetch_and_store : suit_runner resume_code → user → suit_target → tcbor_range →
    suit_runner resume_code * user * bool;
  cb_resume : resume_code → suit_runner resume_code → user → suit_runner resume_code * user
}.

Section runner.
Context {code : Type}.
Implicit Types r : suit_runner code.

Definition with_selected r (comps deps : tcbor_range) : suit_runner code :=
  Runner (sequence r) comps deps (bindings r) (program_counter r) (stack r) (has_error r)
    (suspended r) (on_resume r).
Definition with_bindings r (l : list suit_binder) : suit_runner code :=
  Runner (sequence r) (selected_components r) (selected_dependencies r) l (program_counter r)
    (stack r) (has_error r) (suspended r) (on_resume r).
Definition with_program_counter r (pc : suit_continuation) : suit_runner code :=
  Runner (sequence r) (selected_components r) (selected_dependencies r) (bindings r) pc
    (stack r) (has_error r) (suspended r) (on_resume r).
Definition with_stack r (l : list suit_continuation) : suit_runner code :=
  Runner (sequence r) (selected_components r) (selected_dependencies r) (bindings r)
    (program_counter r) l (has_error r) (suspended r) (on_resume r).
Definition with_next r (n : suit_next) : suit_runner code :=
  with_program_counter r (Continuation (pc_manifest (program_counter r)) n).

(** ** Errors and suspension *)

Definition suit_runner_mark_error r : suit_runner code :=
  Runner (sequence r) (selected_components r) (selected_dependencies r) (bindings r)
    (program_counter r) (stack r) true (suspended r) (on_resume r).

Definition suit_runner_suspend r (f : option code) : suit_runner code :=
  Runner (sequence r) (selected_components r) (selected_dependencies r) (bindings r)
    (program_counter r) (stack r) (has_error r) true f.

Definition suit_runner_finished r : bool := negb (has_error r) && negb (suspended r).
Definition suit_runner_has_error r : bool := has_error r.
Definition suit_runner_suspended r : bool := negb (has_error r) && suspended r.
Definition suit_runner_get_error r : bool := has_error r.

(** ** Stack and entry *)

Definition empty_array : tcbor_range := Some (Span [x80] 0 1).
Definition cbor_true : tcbor_range := Some (Span [xf5] 0 1).

Definition push_program_counter r : suit_runner code * bool :=
  if (length (stack r) =? SUIT_STACK_MAX)%nat then (r, false)
  else (with_stack r (stack r ++ [program_counter r]), true).

Definition pop_program_counter r : suit_runner code * bool :=
  let n := pred (length (stack r)) in
  match stack r !! n with
  | None => (r, false)
  | Some pc => (with_program_counter (with_stack r (take n (stack r))) pc, true)
  end.

Definition get_command_sequence_body r (manifest : suit_manifest) : outcome (option tcbor_range) :=
  match sequence r with
  | SUIT_COMMAND_SEQUENCE_INSTALL => Some <$> read_body (sev_union (install manifest))
  | _ => Done None
  end.

(** [if (tcbor_range_is_null(s)) s = empty_array();] *)
Definition or_empty (s : tcbor_range) : tcbor_range :=
  if tcbor_range_is_null s then empty_array else s.

Definition call_command_sequence r (manifest : option suit_manifest) :
    outcome (suit_runner code * bool) :=
  match manifest with
  | None => Ub
  | Some m =>
      let common_sequence := or_empty (command_sequence (common m)) in
      o ← get_command_sequence_body r m;
      match o with
      | None => Done (r, false)
      | Some target_sequence =>
          try _c, target_array := tcbor_read_array (tcbor_toplevel (or_empty target_sequence))
            otherwise Done (r, false) ;;
          try _c, common_array := tcbor_read_array (tcbor_toplevel common_sequence)
            otherwise Done (r, false) ;;
          match push_program_counter r with
          | (r, false) => Done (r, false)
          | (r, true) =>
              Done (with_program_counter r
                (Continuation manifest (SUIT_NEXT_EXECUTE_SEQUENCE common_array target_array)), true)
          end
      end
  end.

Definition digest_equal (dx dy : suit_digest) : outcome bool :=
  if negb (algorithm_id dx =? algorithm_id dy) then Done false
  else tcbor_range_equal (digest_bytes dx) (digest_bytes dy).

Definition call_dependency r (manifest : option suit_manifest) : outcome (suit_runner code * bool) :=
  call_command_sequence r manifest.

(** [memset], the assignments, and the result of [call_dependency] ignored. *)
Definition suit_runner_init (context : suit_context) (seq : suit_command_sequence) :
    outcome (suit_runner code) :=
  manifest ← suit_context_get_root_manifest context;
  let r := Runner seq cbor_true tcbor_range_null []
             (Continuation manifest SUIT_NEXT_EXIT) [] false false None in
  p ← call_dependency r manifest;
  Done p.1.

(** ** Parameters *)

Definition read_rep_policy (ctx : tcbor_context) : outcome (tcbor_context * bool) :=
  try ctx, _p := tcbor_read_uint ctx
    otherwise (try ctx, _u := tcbor_read_null ctx otherwise Done (ctx, false) ;; Done (ctx, true)) ;;
  Done (ctx, true).

Definition parse_rep_policy (param : tcbor_range) : bool := true.

(** The index of the first binder of [target] and [key]. *)
Fixpoint lookup_binder (l : list suit_binder) (target key : Z) : option nat :=
  match l with
  | [] => None
  | b :: l =>
      if (binder_target b =? target) && (binder_key b =? key) then Some 0%nat
      else S <$> lookup_binder l target key
  end.

(** [binder->key = key] stores the 64-bit key in a 32-bit enumeration. *)
Definition alloc_binder r (target key : Z) (value : tcbor_range) : option (suit_runner code) :=
  if (length (bindings r) =? SUIT_BINDER_MAX)%nat then None
  else Some (with_bindings r (bindings r ++ [Binder target (to_u32 key) value])).

Definition set_parameter r (target key : Z) (value : tcbor_range) (override : bool) :
    suit_runner code * bool :=
  match lookup_binder (bindings r) target key with
  | Some i =>
      if negb override then (r, true)
      else
        (with_bindings r
           (alter (fun b => Binder (binder_target b) (binder_key b) value) i (bindings r)), true)
  | None =>
      match alloc_binder r target key value with
      | None => (r, false)
      | Some r => (r, true)
      end
  end.

Definition suit_runner_get_parameter r (target key : Z) : option tcbor_range :=
  i ← lookup_binder (bindings r) target key; b ← bindings r !! i; Some (value_cbor b).

(** The loop of [directive_set_parameters]. *)
Fixpoint set_parameters_loop (fuel : nat) (map : tcbor_context) r (target : Z) (override : bool) :
    outcome (suit_runner code * option tcbor_context) :=
  if tcbor_is_end_of_context map then Done (r, Some map)
  else
    match fuel with
    | O => NoFuel
    | S fuel =>
      try map, key := tcbor_read_uint map otherwise Done (r, None) ;;
      try map, value := tcbor_read_subobject map otherwise Done (r, None) ;;
      match set_parameter r target key value override with
      | (r, false) => Done (r, None)
      | (r, true) => set_parameters_loop fuel map r target override
      end
    end.

Definition get_object r (index : Z) (component : bool) : outcome (option suit_object) :=
  match pc_manifest (program_counter r) with
  | None => Ub
  | Some m =>
      let n := if component then n_components (common m) else n_dependencies (common m) in
      Done (if index <? Z.of_nat n then Some (Object component index) else None)
  end.

End runner.

(** ** Commands *)

Section handlers.
Context `{!suit_callbacks}.

(** The runner and the state behind the pointer [user]. *)
Definition runner_state : Type := suit_runner resume_code * user.

Definition command_handler_fun : Type :=
  runner_state → suit_target → Z → tcbor_range → outcome (runner_state * bool).

Definition condition_vendor_identifier : command_handler_fun := fun s target command param =>
  if negb (parse_rep_policy param) then Done (s, false) else Done (s, true).

Definition condition_class_identifier : command_handler_fun := fun s target command param =>
  if negb (parse_rep_policy param) then Done (s, false) else Done (s, true).

Definition condition_image_match : command_handler_fun := fun s target command param =>
  if negb (parse_rep_policy param) then Done (s, false) else Done (s, true).

Definition directive_set_parameters : command_handler_fun := fun s target command param =>
  let is_override := command =? SUIT_DIRECTIVE_OVERRIDE_PARAMETERS in
  let ctx := tcbor_toplevel param in
  try ctx, map := tcbor_read_map ctx otherwise Done (s, false) ;;
  try r, map := set_parameters_loop (context_fuel map) map s.1 (target_addr target) is_override
    otherwise Done ((r, s.2), false) ;;
  try ctx, _u := tcbor_close ctx map otherwise Done ((r, s.2), false) ;;
  Done ((r, s.2), true).

Definition directive_process_dependency : command_handler_fun := fun s target command param =>
  if negb (parse_rep_policy param) then Done (s, false) else Done (s, true).

Definition directive_fetch : command_handler_fun := fun s target command param =>
  if negb (parse_rep_policy param) then Done (s, false)
  else
    match suit_runner_get_parameter s.1 (target_addr target) SUIT_PARAMETER_URI with
    | None => Done (s, false)
    | Some uri_cbor =>
        try ctx, uri := tcbor_read_tstr (tcbor_toplevel uri_cbor) otherwise Done (s, false) ;;
        match uri with
        | None => Done (s, false)
        | Some u =>
            if sp_begin u =? sp_end u then Done (s, false)
            else
              c ← load (sp_buf u) (sp_begin u);
              if c =? 35 then
                match pc_manifest (program_counter s.1) with
                | None => Ub
                | Some m =>
                    o ← suit_envelope_get_field_by_name (envelope_bstr m) uri;
                    match o with
                    | None => Done (s, false)
                    | Some binary =>
                        let '(r, us, b) := cb_store s.1 s.2 target binary in Done ((r, us), b)
                    end
                end
              else
                let '(r, us, b) := cb_fetch_and_store s.1 s.2 target uri in Done ((r, us), b)
        end
    end.

Record command_handler := CommandHandler {
  h_command : Z;
  h_allow_common : bool;
  h_handler : command_handler_fun
}.

(** The table, without its null terminator. *)
Definition command_handlers : list command_handler := [
  CommandHandler SUIT_CONDITION_VENDOR_IDENTIFIER true condition_vendor_identifier;
  CommandHandler SUIT_CONDITION_CLASS_IDENTIFIER true condition_class_identifier;
  CommandHandler SUIT_CONDITION_IMAGE_MATCH true condition_image_match;
  CommandHandler SUIT_DIRECTIVE_SET_PARAMETERS true directive_set_parameters;
  CommandHandler SUIT_DIRECTIVE_OVERRIDE_PARAMETERS true directive_set_parameters;
  CommandHandler SUIT_DIRECTIVE_PROCESS_DEPENDENCY false directive_process_dependency;
  CommandHandler SUIT_DIRECTIVE_FETCH false directive_fetch ].

Fixpoint find_handler_in (l : list command_handler) (command : Z) (is_common : bool) :
    option command_handler :=
  match l with
  | [] => None
  | h :: l =>
      if h_command h =? command then
        if is_common && negb (h_allow_common h) then None else Some h
      else find_handler_in l command is_common
  end.

Definition find_handler (command : Z) (is_common : bool) : option command_handler :=
  find_handler_in command_handlers command is_common.

(** ** Steps *)

Section steps.
Variable slot_addr : target_slot → Z.

Definition err (s : runner_state) : outcome (runner_state * bool) :=
  Done ((suit_runner_mark_error s.1, s.2), false).

(** [if (!h->handler(...)) goto err;] *)
Definition call_handler (h : command_handler) (s : runner_state) (slot : target_slot)
    (o : suit_object) (command : Z) (param : tcbor_range)
    (k : runner_state → outcome (runner_state * bool)) : outcome (runner_state * bool) :=
  '(s, ok) ← h_handler h s (Target (slot_addr slot) o) command param;
  if (ok : bool) then k s else err s.

(** Dispatch on the selected objects, after the command [h] was found. *)
Definition run_selected (s : runner_state) (h : command_handler) (command : Z) (param : tcbor_range) :
    outcome (runner_state * bool) :=
  let r := s.1 in
  let is_component := negb (tcbor_range_is_null (selected_components r)) in
  let is_dependency := negb (tcbor_range_is_null (selected_dependencies r)) in
  if Bool.eqb is_component is_dependency then err s
  else
    let selected := if is_component then selected_components r else selected_dependencies r in
    let start (sel : suit_selection) :=
      match push_program_counter r with
      | (r, false) => err (r, s.2)
      | (r, true) =>
          Done ((with_program_counter r
            (Continuation (pc_manifest (program_counter r))
               (SUIT_NEXT_EXECUTE_COMMAND command param is_component sel)), s.2), false)
      end in
    try ctx, flag := tcbor_read_bool (tcbor_toplevel selected)
      otherwise
        (try ctx, index := tcbor_read_uint ctx
           otherwise
             (try ctx, array := tcbor_read_array ctx otherwise err s ;;
              start (SelectedArray array)) ;;
         o ← get_object r index is_component;
         match o with
         | None => err s
         | Some o => call_handler h s slot_sequence o command param (fun s => Done (s, false))
         end) ;;
    if flag then start (SelectedAll 0) else Done (s, false).

(** One command of the sequence whose context is [ctx]; [put] writes the
    context back into the program counter. *)
Definition run_sequence_command (s : runner_state) (ctx : tcbor_context) (is_common : bool)
    (put : tcbor_context → suit_next) : outcome (runner_state * bool) :=
  let update ctx := (with_next s.1 (put ctx), s.2) in
  try ctx, command := tcbor_read_uint ctx otherwise err (update ctx) ;;
  try ctx, param := tcbor_read_subobject ctx otherwise err (update ctx) ;;
  let s := update ctx in
  if command =? SUIT_DIRECTIVE_SET_COMPONENT_INDEX then
    Done ((with_selected s.1 param tcbor_range_null, s.2), false)
  else if command =? SUIT_DIRECTIVE_SET_DEPENDENCY_INDEX then
    Done ((with_selected s.1 tcbor_range_null param, s.2), false)
  else
    match find_handler command is_common with
    | None => err s
    | Some h => run_selected s h command param
    end.

(** The steps return the state and [*pop_pc]. *)
Definition run_sequence_step (s : runner_state) (common target : tcbor_context) :
    outcome (runner_state * bool) :=
  if negb (tcbor_is_end_of_context common) then
    run_sequence_command s common true (fun c => SUIT_NEXT_EXECUTE_SEQUENCE c target)
  else if negb (tcbor_is_end_of_context target) then
    run_sequence_command s target false (fun c => SUIT_NEXT_EXECUTE_SEQUENCE common c)
  else Done (s, true).

Definition run_try_step (s : runner_state) : outcome (runner_state * bool) := Done (s, false).

Definition call_found (oh : option command_handler) (s : runner_state) (slot : target_slot)
    (o : suit_object) (command : Z) (param : tcbor_range)
    (k : runner_state → outcome (runner_state * bool)) : outcome (runner_state * bool) :=
  match oh with None => Ub | Some h => call_handler h s slot o command param k end.

Definition run_command_step (s : runner_state) (command : Z) (param : tcbor_range)
    (component : bool) (sel : suit_selection) : outcome (runner_state * bool) :=
  let h := find_handler command false in
  match sel with
  | SelectedAll index =>
      o ← get_object s.1 index component;
      match o with
      | None => Done (s, true)
      | Some o =>
          call_found h s slot_command_all o command param (fun s =>
            match pc_next (program_counter s.1) with
            | SUIT_NEXT_EXECUTE_COMMAND command param component (SelectedAll index) =>
                Done ((with_next s.1 (SUIT_NEXT_EXECUTE_COMMAND command param component
                         (SelectedAll (to_u64 (index + 1)))), s.2), false)
            | _ => Ub
            end)
      end
  | SelectedArray array =>
      if tcbor_is_end_of_context array then Done (s, true)
      else
        let update a :=
          (with_next s.1 (SUIT_NEXT_EXECUTE_COMMAND command param component (SelectedArray a)), s.2) in
        try array, index := tcbor_read_uint array otherwise err (update array) ;;
        let s := update array in
        o ← get_object s.1 index component;
        match o with
        | None => err s
        | Some o => call_found h s slot_command_array o command param (fun s => Done (s, false))
        end
  end.

(** What the loop does after a step; [false] leaves the loop. *)
Definition after_step (o : outcome (runner_state * bool)) : outcome (runner_state * bool) :=
  '(s, pop_pc) ← o;
  if has_error s.1 then Done (s, false)
  else if (pop_pc : bool) then
    match pop_program_counter s.1 with
    | (r, true) => Done ((r, s.2), true)
    | (r, false) => Done ((suit_runner_mark_error r, s.2), false)
    end
  else Done (s, true).

(** One iteration of the loop of [suit_runner_run]. *)
Definition run_iteration (s : runner_state) : outcome (runner_state * bool) :=
  if suspended s.1 then Done (s, false)
  else
    match pc_next (program_counter s.1) with
    | SUIT_NEXT_EXIT => Done (s, false)
    | SUIT_NEXT_EXECUTE_SEQUENCE common target => after_step (run_sequence_step s common target)
    | SUIT_NEXT_EXECUTE_TRY_ENTRY => after_step (run_try_step s)
    | SUIT_NEXT_EXECUTE_COMMAND command param component sel =>
        after_step (run_command_step s command param component sel)
    end.

Fixpoint run_loop (fuel : nat) (s : runner_state) : outcome runner_state :=
  match fuel with
  | O => NoFuel
  | S fuel =>
      '(s, continue) ← run_iteration s;
      if (continue : bool) then run_loop fuel s else Done s
  end.

Definition suit_runner_run (fuel : nat) (s : runner_state) : outcome runner_state :=
  if has_error s.1 then Done s else run_loop fuel s.

End steps.

(** ** Resumption *)

Definition suit_runner_resume (s : runner_state) : runner_state :=
  let r := s.1 in
  if has_error r then s
  else if suspended r then
    let f := on_resume r in
    let r := Runner (sequence r) (selected_components r) (selected_dependencies r) (bindings r)
               (program_counter r) (stack r) (has_error r) false None in
    match f with
    | Some f => cb_resume f r s.2
    | None => (r, s.2)
    end
  else s.

End handlers.
