(* ===== verification/SuitRunnerFacts.v ===== *)
(** * SuitRunnerFacts: the invariant and the termination of the runner *)

From S2P Require Import Prelude Tcbor TcborFacts SuitTypes SuitParser SuitParserFacts.
From S2P Require Import SuitContext SuitContextFacts SuitRunner.

Local Open Scope Z_scope.

(** ** What callbacks may do

    The public functions a callback can apply to the runner it is given are
    [suit_runner_mark_error], [suit_runner_suspend] and the queries: they leave
    the program, the parameters and the selection alone, and never clear an
    error or a suspension. *)
Definition api_use {code} (r r' : suit_runner code) : Prop :=
  sequence r' = sequence r ∧ selected_components r' = selected_components r ∧
  selected_dependencies r' = selected_dependencies r ∧ bindings r' = bindings r ∧
  program_counter r' = program_counter r ∧ stack r' = stack r ∧
  (has_error r = true → has_error r' = true) ∧ (suspended r = true → suspended r' = true).

Lemma api_use_refl {code} (r : suit_runner code) : api_use r r.
Proof. by split_and!. Qed.

Lemma api_use_trans {code} (r1 r2 r3 : suit_runner code) :
  api_use r1 r2 → api_use r2 r3 → api_use r1 r3.
Proof. unfold api_use. intros (?&?&?&?&?&?&?&?) (?&?&?&?&?&?&?&?). split_and!; (congruence || auto). Qed.

Lemma api_use_mark_error {code} (r : suit_runner code) : api_use r (suit_runner_mark_error r).
Proof. by split_and!. Qed.

Lemma api_use_suspend {code} (r : suit_runner code) f : api_use r (suit_runner_suspend r f).
Proof. by split_and!. Qed.

(** An object of manifest [m] that a command can select. *)
Definition object_ok (m : suit_manifest) (o : suit_object) : Prop :=
  0 <= object_index o <
    Z.of_nat (if is_component o then n_components (common m) else n_dependencies (common m)).

(** [cb_user_ok m suspended u] is an invariant of the user's own state while the
    runner works on [m]. *)
Class callbacks_laws `{!suit_callbacks} := {
  cb_user_ok : suit_manifest → bool → user → Prop;
  cb_store_api r u t b : api_use r (cb_store r u t b).1.1;
  cb_fetch_api r u t b : api_use r (cb_fetch_and_store r u t b).1.1;
  cb_resume_api f r u : api_use r (cb_resume f r u).1;
  cb_store_user m r u t b :
    slot_ok m → pc_manifest (program_counter r) = Some m → object_ok m (target_object t) →
    range_ok b → cb_user_ok m (suspended r) u →
    cb_user_ok m (suspended (cb_store r u t b).1.1) (cb_store r u t b).1.2;
  cb_fetch_user m r u t b :
    slot_ok m → pc_manifest (program_counter r) = Some m → object_ok m (target_object t) →
    range_ok b → cb_user_ok m (suspended r) u →
    cb_user_ok m (suspended (cb_fetch_and_store r u t b).1.1) (cb_fetch_and_store r u t b).1.2;
  cb_resume_user m f r u :
    cb_user_ok m (suspended r) u →
    cb_user_ok m (suspended (cb_resume f r u).1) (cb_resume f r u).2
}.

(** ** The invariant *)

Section inv.
Context {code : Type}.
Implicit Types r : suit_runner code.

(** The tables and the selection. *)
Definition tables_ok r : Prop :=
  (length (bindings r) <= SUIT_BINDER_MAX)%nat ∧
  Forall (fun b => range_ok (value_cbor b)) (bindings r) ∧
  range_ok (selected_components r) ∧ range_ok (selected_dependencies r).

Definition selection_ok (sel : suit_selection) : Prop :=
  match sel with
  | SelectedAll i => 0 <= i < u64_modulus
  | SelectedArray a => ctx_ok a
  end.

(** A command that has a handler in a sequence of the given kind. *)
Definition known_command (command : Z) (is_common : bool) : bool :=
  if is_common then existsb (Z.eqb command) [1; 2; 3; 19; 20]
  else existsb (Z.eqb command) [1; 2; 3; 18; 19; 20; 21].

(** The continuation of a sequence of manifest [m]. *)
Definition sequence_pc (m : suit_manifest) (c t : tcbor_context) : suit_continuation :=
  Continuation (Some m) (SUIT_NEXT_EXECUTE_SEQUENCE c t).

Definition exit_pc (m : suit_manifest) : suit_continuation :=
  Continuation (Some m) SUIT_NEXT_EXIT.

(** The three shapes of program counter and stack: finished; in a sequence; in
    a command started by a sequence.  Commands that callbacks see are started
    only when the common sequence has ended. *)
Inductive control_ok (m : suit_manifest) : suit_continuation → list suit_continuation → Prop :=
  | control_exit : control_ok m (exit_pc m) []
  | control_sequence c t :
      ctx_ok c → ctx_ok t → control_ok m (sequence_pc m c t) [exit_pc m]
  | control_command c t command param b sel :
      ctx_ok c → ctx_ok t → known_command command false = true → range_ok param →
      selection_ok sel →
      (known_command command true = false → tcbor_is_end_of_context c = true) →
      control_ok m (Continuation (Some m) (SUIT_NEXT_EXECUTE_COMMAND command param b sel))
        [exit_pc m; sequence_pc m c t].

Definition runner_ok (m : suit_manifest) r : Prop :=
  slot_ok m ∧ tables_ok r ∧ control_ok m (program_counter r) (stack r).

(** ** A measure that every iteration decreases *)

Definition context_len (c : tcbor_context) : Z := range_len (c_r c).

(** More than any command needs. *)
Definition command_weight : Z := PTRDIFF_MAX + 16.

Definition selection_measure (m : suit_manifest) (b : bool) (sel : suit_selection) : Z :=
  match sel with
  | SelectedAll i =>
      Z.max 1 (Z.of_nat (if b then n_components (common m) else n_dependencies (common m)) + 1 - i)
  | SelectedArray a => context_len a + 1
  end.

Definition pc_measure (m : suit_manifest) (pc : suit_continuation) (st : list suit_continuation) : Z :=
  match pc_next pc, st with
  | SUIT_NEXT_EXIT, _ => 0
  | SUIT_NEXT_EXECUTE_SEQUENCE c t, _ => (context_len c + context_len t) * command_weight + 1
  | SUIT_NEXT_EXECUTE_COMMAND _ _ b sel, [_; Continuation _ (SUIT_NEXT_EXECUTE_SEQUENCE c t)] =>
      (context_len c + context_len t) * command_weight + 1 + selection_measure m b sel
  | _, _ => 0
  end.

Definition runner_measure (m : suit_manifest) r : Z := pc_measure m (program_counter r) (stack r).

Lemma runner_ok_api m r r' : api_use r r' → runner_ok m r → runner_ok m r'.
Proof.
  intros (_&H1&H2&H3&H4&H5&_). unfold runner_ok, tables_ok. by rewrite H1, H2, H3, H4, H5.
Qed.

Lemma runner_measure_api m r r' : api_use r r' → runner_measure m r' = runner_measure m r.
Proof. intros (_&_&_&_&H4&H5&_). unfold runner_measure. by rewrite H4, H5. Qed.

(** ** Parameters *)

Lemma set_parameter_tables r t k v ov r' b :
  set_parameter r t k v ov = (r', b) → tables_ok r → range_ok v →
  tables_ok r' ∧ program_counter r' = program_counter r ∧ stack r' = stack r ∧
  has_error r' = has_error r ∧ suspended r' = suspended r ∧
  selected_components r' = selected_components r ∧
  selected_dependencies r' = selected_dependencies r.
Proof.
  unfold set_parameter, alloc_binder. intros H (Hb&Hf&Hc&Hd) Hv.
  destruct (lookup_binder (bindings r) t k) as [i|].
  - destruct (negb ov); injection H as <- <-; [by split_and!|]. unfold tables_ok; cbn.
    rewrite length_alter. split_and!; try done. apply Forall_alter; [done|]. intros ? _ _. done.
  - destruct (Nat.eqb_spec (length (bindings r)) SUIT_BINDER_MAX); injection H as <- <-; [by split_and!|].
    unfold tables_ok; cbn. rewrite length_app; cbn. split_and!; try done; [lia|].
    apply Forall_app. split; [done|]. by apply Forall_singleton.
Qed.

Definition same_control r r' : Prop :=
  tables_ok r' ∧ program_counter r' = program_counter r ∧ stack r' = stack r ∧
  has_error r' = has_error r ∧ suspended r' = suspended r.

Lemma set_parameters_loop_safe fuel map r t ov :
  ctx_ok map → range_len (c_r map) < Z.of_nat fuel → tables_ok r →
  wp (set_parameters_loop fuel map r t ov) (fun '(r', o) =>
    same_control r r' ∧
    match o with
    | Some map' => ctx_ok map' ∧ range_suffix (c_r map') (c_r map)
    | None => True
    end).
Proof.
  revert map r. induction fuel as [|fuel IH]; intros map r Hok Hf Ht; cbn [set_parameters_loop].
  all: destruct (tcbor_is_end_of_context map);
    [destruct Hok; unfold same_control, ctx_ok; cbn; c_done|].
  { destruct Hok as [Hr _]. pose proof (range_len_nonneg _ Hr). lia. }
  wp_read read_uint_spec. intros [m1 [key|]]; [|by intros _; split; [split_and!|]].
  intros (Hm1&(Hs1&_)&Hl1&_). assert (advanced map m1) as H1 by done.
  wp_read read_subobject_spec. intros [m2 [v|]]; [|by intros _; split; [split_and!|]].
  intros (Hm2&(Hs2&_)&Hl2&Hv). apply bytes_inner in Hv. assert (advanced m1 m2) as H2 by done.
  assert (range_ok v) as Hvok by eauto with c_ok.
  destruct (set_parameter r t key v ov) as [r1 [|]] eqn:Hset.
  - destruct (set_parameter_tables _ _ _ _ _ _ _ Hset Ht Hvok) as (Ht1&Hpc&Hst&He&Hsu&_).
    assert (advanced map m2) as H12 by eauto with c_ok.
    eapply wp_mono; [apply IH; eauto with c_ok|].
    pose proof (advanced_suffix _ _ H12).
    intros [r' [map'|]] [(?&?&?&?&?) Ho]; cbn; (split; [split_and!; (done || congruence)|]); [|done].
    destruct Ho. eauto with c_ok.
  - destruct (set_parameter_tables _ _ _ _ _ _ _ Hset Ht Hvok) as (?&?&?&?&?&_). by split_and!.
Qed.

Lemma get_parameter_ok r t k v :
  tables_ok r → suit_runner_get_parameter r t k = Some v → range_ok v.
Proof.
  intros (_&Hf&_) H. unfold suit_runner_get_parameter in H.
  destruct (lookup_binder _ _ _) as [i|]; [|done]. cbn in H.
  destruct (bindings r !! i) as [b|] eqn:Hb; [|done]. injection H as <-.
  by apply (Forall_lookup_1 _ _ _ _ Hf) in Hb.
Qed.

(** ** Stack operations *)

Lemma get_object_spec m r i b :
  pc_manifest (program_counter r) = Some m →
  get_object r i b = Done (if i <? Z.of_nat (if b then n_components (common m)
                                             else n_dependencies (common m))
                           then Some (Object b i) else None).
Proof. intros H. unfold get_object. rewrite H. by destruct b. Qed.

Lemma control_manifest m pc st : control_ok m pc st → pc_manifest pc = Some m.
Proof. by destruct 1. Qed.

End inv.

(** ** Handlers *)

Section handlers.
Context `{!suit_callbacks} `{!callbacks_laws}.

(** The invariant of the user carries over from [s] to [s']. *)
Definition user_kept (m : suit_manifest) (s s' : runner_state) : Prop :=
  cb_user_ok m (suspended s.1) s.2 → cb_user_ok m (suspended s'.1) s'.2.

Lemma user_kept_refl m s : user_kept m s s.
Proof. by intros ?. Qed.
#[local] Hint Resolve user_kept_refl : core.

Lemma user_kept_trans m s1 s2 s3 : user_kept m s1 s2 → user_kept m s2 s3 → user_kept m s1 s3.
Proof. unfold user_kept. auto. Qed.

Lemma user_kept_same m s s' : suspended s'.1 = suspended s.1 → s'.2 = s.2 → user_kept m s s'.
Proof. intros Hs Hu. unfold user_kept. by rewrite Hs, Hu. Qed.
#[local] Hint Extern 0 (user_kept _ _ _) => apply user_kept_same; reflexivity : core.

(** A handler keeps the control state, adds parameters within bounds, and uses
    callbacks only for commands that the common sequence does not allow. *)
Definition handler_post (m : suit_manifest) (s : runner_state) (s' : runner_state) : Prop :=
  tables_ok s'.1 ∧ program_counter s'.1 = program_counter s.1 ∧ stack s'.1 = stack s.1 ∧
  (has_error s.1 = true → has_error s'.1 = true) ∧ user_kept m s s'.

Lemma handler_post_refl m s : tables_ok s.1 → handler_post m s s.
Proof. intros. unfold handler_post. auto. Qed.

Lemma handler_post_api m s r' u' :
  tables_ok s.1 → api_use s.1 r' → user_kept m s (r', u') → handler_post m s (r', u').
Proof.
  intros Ht (?&H1&H2&H3&H4&H5&?&?) Hu. split_and!; try done; cbn. unfold tables_ok in *.
  by rewrite H1, H2, H3.
Qed.

Lemma directive_set_parameters_safe m s target command param :
  tables_ok s.1 → range_ok param →
  wp (directive_set_parameters s target command param) (fun '(s', b) =>
    handler_post m s s' ∧ s'.2 = s.2).
Proof.
  intros Ht Hp. unfold directive_set_parameters. wp_read read_map_child.
  intros [c1 [map|]]; [|by split; [apply handler_post_refl|]]. intros (H1&_&Hm&Hs&_).
  apply wp_or_else. eapply wp_mono; [apply set_parameters_loop_safe; eauto with c_ok|].
  intros [r [map'|]] ((?&?&?&He&?)&Ho).
  - destruct Ho as [? ?]. apply wp_or_else.
    eapply wp_mono; [apply (close_advanced _ _ (tcbor_toplevel param)); eauto with c_ok|].
    intros [c2 [u|]] _; (split; [|done]); split_and!; cbn; try done; try congruence;
      by apply user_kept_same.
  - split; [|done]. split_and!; cbn; try done; try congruence. by apply user_kept_same.
Qed.

Lemma directive_fetch_safe m s target command param :
  runner_ok m s.1 → object_ok m (target_object target) →
  wp (directive_fetch s target command param) (fun '(s', b) => handler_post m s s').
Proof.
  intros (Hm&Ht&Hc) Hobj. pose proof (control_manifest _ _ _ Hc) as Hman. unfold directive_fetch. cbn [negb parse_rep_policy].
  destruct (suit_runner_get_parameter s.1 (target_addr target) SUIT_PARAMETER_URI) as [uri_cbor|] eqn:Hg;
    [|by apply handler_post_refl].
  apply get_parameter_ok in Hg; [|done].
  wp_read read_tstr_inner. intros [c [uri|]]; [|intros _; by apply handler_post_refl].
  intros (_&_&Hu). assert (range_ok uri) as Huok by eauto with c_ok.
  destruct uri as [u|]; [|by destruct Hu].
  destruct (Z.eqb_spec (sp_begin u) (sp_end u)) as [|Hne]; [by apply handler_post_refl|].
  destruct Huok as [Hu1 Hu2].
  destruct (slice_cons (sp_buf u) (sp_begin u) (sp_end u)) as (c0&Hl&_); [lia..|].
  rewrite Hl. cbn [mbind outcome_bind]. destruct (Z.eqb_spec (u8 c0) 35) as [E|E].
  - rewrite (control_manifest _ _ _ Hc).
    pose proof (get_field_safe (envelope_bstr m) true SUIT_DELEGATION (Some u)) as Hf.
    destruct (wp_elim _ _ (Hf ltac:(by destruct Hm as (_&_&?&_)) ltac:(by split)))
      as (o&Ho&Hbin). unfold suit_envelope_get_field_by_name. rewrite Ho. cbn [mbind outcome_bind].
    destruct o as [binary|]; [|by apply handler_post_refl].
    pose proof (cb_store_api s.1 s.2 target binary) as Ha.
    assert (range_ok binary) as Hbok.
    { eapply range_within_ok; [exact Hbin|]. by destruct Hm as (_&_&?&_). }
    pose proof (cb_store_user m s.1 s.2 target binary Hm Hman Hobj Hbok) as Hk.
    destruct (cb_store s.1 s.2 target binary) as [[r' u'] b]. by apply handler_post_api.
  - pose proof (cb_fetch_api s.1 s.2 target (Some u)) as Ha.
    pose proof (cb_fetch_user m s.1 s.2 target (Some u) Hm Hman Hobj ltac:(by split)) as Hk.
    destruct (cb_fetch_and_store s.1 s.2 target (Some u)) as [[r' u'] b]. by apply handler_post_api.
Qed.

(** The table lookup, computed. *)
Lemma find_handler_spec command is_common :
  match find_handler command is_common with
  | Some h => h_command h = command ∧ known_command command is_common = true
  | None => known_command command is_common = false
  end.
Proof.
  unfold find_handler, known_command, command_handlers. cbn [find_handler_in h_command h_allow_common].
  rewrite !(Z.eqb_sym _ command).
  unfold SUIT_CONDITION_VENDOR_IDENTIFIER, SUIT_CONDITION_CLASS_IDENTIFIER,
    SUIT_CONDITION_IMAGE_MATCH, SUIT_DIRECTIVE_SET_PARAMETERS, SUIT_DIRECTIVE_OVERRIDE_PARAMETERS,
    SUIT_DIRECTIVE_PROCESS_DEPENDENCY, SUIT_DIRECTIVE_FETCH.
  repeat match goal with |- context [command =? ?k] =>
    destruct (Z.eqb_spec command k); [subst; by destruct is_common|] end.
  destruct is_common; cbn;
    repeat match goal with |- context [command =? ?k] => rewrite (proj2 (Z.eqb_neq command k)) by done end;
    done.
Qed.

Lemma find_handler_in_elem l command b h : find_handler_in l command b = Some h → h ∈ l.
Proof.
  induction l as [|h' l IH]; cbn; [done|]. destruct (_ =? _); [destruct (_ && _); [done|]|].
  - intros [= ->]. by left.
  - intros Hl. right. auto.
Qed.

(** Every handler of the table is safe; one that the common sequence allows
    leaves the user's state alone. *)
Lemma handler_safe m command b h s target param :
  find_handler command b = Some h → runner_ok m s.1 → range_ok param →
  object_ok m (target_object target) →
  wp (h_handler h s target command param) (fun '(s', ok) =>
    handler_post m s s' ∧ (known_command command true = true → s'.2 = s.2)).
Proof.
  intros Hh Hok Hp Hobj. pose proof (find_handler_spec command b) as Hs. rewrite Hh in Hs.
  destruct Hs as [Hc _]. apply find_handler_in_elem in Hh.
  pose proof Hok as (_&Ht&_). pose proof (handler_post_refl m s Ht) as Hrefl.
  unfold command_handlers in Hh.
  repeat (apply elem_of_cons in Hh as [->|Hh]); try done;
    try (cbn; split; [exact Hrefl|done]); cbn [h_handler h_command] in *.
  - eapply wp_mono; [by apply directive_set_parameters_safe|]. by intros [s' ok] [? ?].
  - eapply wp_mono; [by apply directive_set_parameters_safe|]. by intros [s' ok] [? ?].
  - subst command. eapply wp_mono; [by eapply directive_fetch_safe|]. intros [s' ok] ?. by split.
  - by apply elem_of_nil in Hh.
Qed.

(** ** Steps *)

Section steps.
Context (slot_addr : target_slot → Z) (m : suit_manifest).

Lemma handler_post_ok s s' :
  handler_post m s s' → runner_ok m s.1 → runner_ok m s'.1 ∧ runner_measure m s'.1 = runner_measure m s.1.
Proof.
  intros (Ht&Hpc&Hst&_) (Hm&_&Hc). unfold runner_ok, runner_measure. by rewrite Hpc, Hst.
Qed.

Lemma runner_ok_mark_error (r : suit_runner resume_code) :
  runner_ok m r → runner_ok m (suit_runner_mark_error r).
Proof. apply runner_ok_api, api_use_mark_error. Qed.

(** The handler succeeds and the step goes on, or the error flag is set. *)
Lemma call_handler_spec (Q : runner_state * bool → Prop) h b s slot o command param k :
  runner_ok m s.1 → find_handler command b = Some h → range_ok param → object_ok m o →
  (∀ s', handler_post m s s' → (known_command command true = true → s'.2 = s.2) → wp (k s') Q) →
  (∀ s', runner_ok m s'.1 → has_error s'.1 = true →
     (known_command command true = true → s'.2 = s.2) → user_kept m s s' → Q (s', false)) →
  wp (call_handler slot_addr h s slot o command param k) Q.
Proof.
  intros Hok Hh Hp Ho Hk He. unfold call_handler. apply wp_bind.
  eapply wp_mono; [by eapply handler_safe|]. intros [s' [|]] [Hpost Hu]; [by apply Hk|].
  apply He; cbn; [|done|exact Hu|by destruct Hpost as (_&_&_&_&?)].
  apply runner_ok_mark_error. by apply (handler_post_ok s s').
Qed.

Lemma known_command_weaken command : known_command command true = true → known_command command false = true.
Proof.
  unfold known_command; cbn. intros Hk.
  repeat match goal with |- context [command =? ?k] => destruct (command =? k); cbn in *; try done end.
Qed.

Lemma context_len_bound c : ctx_ok c → 0 <= context_len c <= PTRDIFF_MAX.
Proof.
  intros [Hr _]. unfold context_len. destruct (c_r c) as [s|]; [|by cbn; unfold PTRDIFF_MAX; lia].
  destruct Hr as [? ?]. cbn. lia.
Qed.

(** The selection that starts a command weighs less than what was consumed. *)
Lemma start_measure b sel :
  slot_ok m → selection_ok sel → (∀ i, sel = SelectedAll i → i = 0) →
  0 < selection_measure m b sel < command_weight.
Proof.
  intros ((?&?&_)&_) Hs Hi. unfold selection_measure, command_weight.
  destruct sel as [i|a].
  - rewrite (Hi i eq_refl). unfold SUIT_DEPENDENCY_MAX, SUIT_COMPONENT_MAX, PTRDIFF_MAX in *.
    destruct b; lia.
  - pose proof (context_len_bound a Hs). lia.
Qed.

Definition in_sequence (s : runner_state) (c t : tcbor_context) : Prop :=
  program_counter s.1 = sequence_pc m c t ∧ stack s.1 = [exit_pc m].

(** Starting a command pushes the sequence and enters the command. *)
Lemma start_command_spec (Q : runner_state * bool → Prop) s c t b command param comp sel :
  runner_ok m s.1 → in_sequence s c t → range_ok param → known_command command b = true →
  (b = false → tcbor_is_end_of_context c = true) → selection_ok sel →
  (∀ i, sel = SelectedAll i → i = 0) →
  (∀ s', runner_ok m s'.1 → s'.2 = s.2 → suspended s'.1 = suspended s.1 →
     has_error s'.1 = has_error s.1 → runner_measure m s'.1 < runner_measure m s.1 + command_weight → Q (s', false)) →
  wp match push_program_counter s.1 with
     | (r, false) => err (r, s.2)
     | (r, true) =>
         Done ((with_program_counter r
           (Continuation (pc_manifest (program_counter r))
              (SUIT_NEXT_EXECUTE_COMMAND command param comp sel)), s.2), false)
     end Q.
Proof.
  intros (Hm&Ht&Hc) [Hpc Hst] Hp Hk Hb Hsel Hi HQ. unfold push_program_counter. rewrite Hst.
  cbn. rewrite Hpc. cbn. apply HQ; cbn; try done.
  - rewrite Hpc, Hst in Hc. inversion Hc; subst.
    split; [done|]. split; [done|]. cbn. apply control_command; try done.
    + destruct b; [by apply known_command_weaken|done].
    + intros Hk'. destruct b; [congruence|by apply Hb].
  - pose proof (start_measure comp sel Hm Hsel Hi). unfold runner_measure. rewrite Hpc. cbn. lia.
Qed.

Lemma run_selected_spec s c t b h command param :
  runner_ok m s.1 → in_sequence s c t → find_handler command b = Some h → range_ok param →
  (b = false → tcbor_is_end_of_context c = true) →
  wp (run_selected slot_addr s h command param) (fun '(s', pop) =>
    pop = false ∧ runner_ok m s'.1 ∧
    (has_error s'.1 = false → runner_measure m s'.1 < runner_measure m s.1 + command_weight) ∧
    (b = true → s'.2 = s.2) ∧ user_kept m s s').
Proof.
  intros Hok Hin Hh Hp Hb. unfold run_selected.
  pose proof (find_handler_spec command b) as Hk. rewrite Hh in Hk. destruct Hk as [_ Hk].
  assert (∀ s' : runner_state, runner_ok m s'.1 → has_error s'.1 = true → (b = true → s'.2 = s.2) →
    user_kept m s s' →
    false = false ∧ runner_ok m s'.1 ∧
    (has_error s'.1 = false → runner_measure m s'.1 < runner_measure m s.1 + command_weight) ∧
    (b = true → s'.2 = s.2) ∧ user_kept m s s') as Herr.
  { intros s' H1 H2 H3 H4. split_and!; try done. congruence. }
  assert (command_weight > 0) as Hw by done.
  destruct (Bool.eqb _ _).
  { apply (Herr (suit_runner_mark_error s.1, s.2)); [by apply runner_ok_mark_error|done..]. }
  set (comp := negb (tcbor_range_is_null (selected_components s.1))).
  assert (range_ok (if comp then selected_components s.1 else selected_dependencies s.1)) as Hsel.
  { destruct Hok as (_&(_&_&?&?)&_). by destruct comp. }
  wp_read read_bool_spec. intros [c1 [flag|]].
  { intros _. destruct flag; cbn.
    - eapply start_command_spec; try done; [by intros i [= <-]|].
      intros s' ? Hu ? ? ?. split_and!; try done. by apply user_kept_same.
    - split_and!; try done. lia. }
  intros Hs1. wp_read read_uint_spec. intros [c2 [index|]].
  { intros (_&_&_&Hi). rewrite (get_object_spec m) by (destruct Hin as [-> _]; done). cbn [mbind outcome_bind].
    destruct (Z.ltb_spec index (Z.of_nat (if comp then n_components (common m) else n_dependencies (common m)))).
    - eapply call_handler_spec; try done; [by destruct Hi|..].
      + intros s' Hpost Hu. cbn. destruct (handler_post_ok _ _ Hpost Hok) as [? ->].
        destruct Hpost as (_&_&_&_&?).
        split_and!; try done; [lia|]. intros ->. by apply Hu.
      + intros s' ? ? Hu ?. apply Herr; [done..| |done]. intros ->. by apply Hu.
    - apply (Herr (suit_runner_mark_error s.1, s.2)); [by apply runner_ok_mark_error|done..]. }
  intros Hs2. assert (ctx_ok c2) by eauto with c_ok.
  wp_read read_array_child. intros [c3 [arr|]].
  - intros (_&_&Ha&_). cbn. eapply start_command_spec; try done; [cbn; eauto with c_ok|].
    intros s' ? Hu ? ? ?. split_and!; try done. by apply user_kept_same.
  - intros _. apply (Herr (suit_runner_mark_error s.1, s.2)); [by apply runner_ok_mark_error|done..].
Qed.

(** The result of a step: the invariant; unless it pops or fails, progress;
    when it pops, nothing else has happened. *)
Definition step_post (s : runner_state) (frozen : bool) (p : runner_state * bool) : Prop :=
  runner_ok m p.1.1 ∧
  (if p.2 then p.1 = s
   else has_error p.1.1 = false → runner_measure m p.1.1 < runner_measure m s.1) ∧
  (frozen = true → p.1.2 = s.2) ∧ user_kept m s p.1.

Lemma step_post_err s frozen (r : suit_runner resume_code) :
  runner_ok m r → suspended r = suspended s.1 →
  step_post s frozen ((suit_runner_mark_error r, s.2), false).
Proof. intros. split; [by apply runner_ok_mark_error|]. split_and!; try done. by apply user_kept_same. Qed.

(** The sequence being read ([b]: the common one) and its replacement. *)
Definition current (b : bool) (c t : tcbor_context) : tcbor_context := if b then c else t.
Definition replace (b : bool) (c t x : tcbor_context) : suit_next :=
  if b then SUIT_NEXT_EXECUTE_SEQUENCE x t else SUIT_NEXT_EXECUTE_SEQUENCE c x.

Lemma in_sequence_ok s c t : runner_ok m s.1 → in_sequence s c t → ctx_ok c ∧ ctx_ok t.
Proof.
  intros (_&_&Hc) [Hpc Hst]. rewrite Hpc, Hst in Hc. by inversion Hc.
Qed.

Lemma update_sequence s c t b x :
  runner_ok m s.1 → in_sequence s c t → ctx_ok x →
  let s' := (with_next s.1 (replace b c t x), s.2) in
  runner_ok m s'.1 ∧ in_sequence s' (if b then x else c) (if b then t else x) ∧
  runner_measure m s'.1 =
    runner_measure m s.1 + (context_len x - context_len (current b c t)) * command_weight.
Proof.
  intros Hok Hin Hx. destruct (in_sequence_ok _ _ _ Hok Hin) as [Hc Ht].
  destruct Hok as (Hm&Htb&_). destruct Hin as [Hpc Hst]. cbn. unfold in_sequence, runner_ok; cbn.
  rewrite Hpc, Hst. split_and!; try done; try (by destruct b); unfold runner_measure; cbn.
  - destruct b; by apply control_sequence.
  - rewrite Hpc. destruct b; cbn; lia.
Qed.

Lemma run_sequence_command_spec s c t b :
  runner_ok m s.1 → in_sequence s c t → (b = false → tcbor_is_end_of_context c = true) →
  wp (run_sequence_command slot_addr s (current b c t) b (replace b c t)) (step_post s b).
Proof.
  intros Hok Hin Hb. destruct (in_sequence_ok _ _ _ Hok Hin) as [Hc Ht].
  assert (ctx_ok (current b c t)) as Hcur by by destruct b.
  assert (command_weight > 0) as Hw by done.
  unfold run_sequence_command. wp_read read_uint_spec. intros [x1 [command|]].
  2: { intros Hs. apply (step_post_err s b (with_next s.1 (replace b c t x1))); [|done].
       apply (update_sequence s c t b x1); eauto with c_ok. }
  intros (Hx1&(Hs1&_)&Hl1&_). wp_read read_subobject_spec. intros [x2 [param|]].
  2: { intros Hs. apply (step_post_err s b (with_next s.1 (replace b c t x2))); [|done].
       apply (update_sequence s c t b x2); eauto with c_ok. }
  intros (Hx2&(Hs2&_)&Hl2&Hp). apply bytes_inner in Hp.
  assert (range_ok param) as Hpok by eauto with c_ok.
  destruct (update_sequence s c t b x2 Hok Hin Hx2) as (Hok'&Hin'&Hmeas).
  set (s' := (with_next s.1 (replace b c t x2), s.2)) in *.
  assert (runner_measure m s'.1 + command_weight <= runner_measure m s.1) as Hless.
  { rewrite Hmeas. unfold context_len. nia. }
  assert (∀ comps deps, range_ok comps → range_ok deps →
    step_post s b ((with_selected s'.1 comps deps, s'.2), false)) as Hsel.
  { intros comps deps ? ?. split; [|by split; [intros _; change (runner_measure m s'.1 < runner_measure m s.1); lia|]].
    destruct Hok' as (?&(?&?&_)&?). by split. }
  destruct (_ =? SUIT_DIRECTIVE_SET_COMPONENT_INDEX); [by apply Hsel|].
  destruct (_ =? SUIT_DIRECTIVE_SET_DEPENDENCY_INDEX); [by apply Hsel|].
  destruct (find_handler command b) as [h|] eqn:Hh; [|by apply (step_post_err s b s'.1)].
  eapply wp_mono; [eapply run_selected_spec; try done|].
  - intros ->. by apply Hb.
  - intros [s'' pop] (->&?&Hlt&Hu&Hk). split; [done|]. split; [|split; [exact Hu|exact Hk]].
    cbn. intros He. specialize (Hlt He). lia.
Qed.

(** The common sequence of the sequence that is running has not ended. *)
Definition common_running (r : suit_runner resume_code) : bool :=
  match pc_next (program_counter r), stack r with
  | SUIT_NEXT_EXECUTE_SEQUENCE c _, _ => negb (tcbor_is_end_of_context c)
  | SUIT_NEXT_EXECUTE_COMMAND _ _ _ _, [_; Continuation _ (SUIT_NEXT_EXECUTE_SEQUENCE c _)] =>
      negb (tcbor_is_end_of_context c)
  | _, _ => false
  end.

Lemma run_sequence_step_spec s c t :
  runner_ok m s.1 → in_sequence s c t →
  wp (run_sequence_step slot_addr s c t) (step_post s (common_running s.1)).
Proof.
  intros Hok Hin. pose proof Hin as [Hpc _]. unfold run_sequence_step, common_running.
  rewrite Hpc. cbn [pc_next sequence_pc].
  destruct (tcbor_is_end_of_context c) eqn:Hc; cbn [negb].
  - destruct (tcbor_is_end_of_context t); cbn [negb]; [by split|].
    by apply (run_sequence_command_spec s c t false).
  - by apply (run_sequence_command_spec s c t true).
Qed.

Definition in_command (s : runner_state) command param b sel c t : Prop :=
  program_counter s.1 = Continuation (Some m) (SUIT_NEXT_EXECUTE_COMMAND command param b sel) ∧
  stack s.1 = [exit_pc m; sequence_pc m c t].

Lemma update_selection s command param b sel c t sel' :
  runner_ok m s.1 → in_command s command param b sel c t → selection_ok sel' →
  let s' := (with_next s.1 (SUIT_NEXT_EXECUTE_COMMAND command param b sel'), s.2) in
  runner_ok m s'.1 ∧ in_command s' command param b sel' c t ∧
  runner_measure m s'.1 =
    runner_measure m s.1 + selection_measure m b sel' - selection_measure m b sel.
Proof.
  intros (Hm&Htb&Hc) [Hpc Hst] Hsel. rewrite Hpc, Hst in Hc. inversion Hc; subst.
  unfold in_command, runner_ok, runner_measure; cbn. rewrite Hpc, Hst; cbn.
  split_and!; try done; [|lia]. by apply control_command.
Qed.

Lemma run_command_step_spec s command param b sel c t :
  runner_ok m s.1 → in_command s command param b sel c t →
  wp (run_command_step slot_addr s command param b sel) (step_post s (common_running s.1)).
Proof.
  intros Hok Hin. pose proof Hin as [Hpc Hst]. pose proof Hok as (Hm&Htb&Hc).
  rewrite Hpc, Hst in Hc. inversion Hc as [| |c0 t0 command0 param0 b0 sel0 Hcok Htok Hknown Hp Hsel Hcom].
  subst c0 t0 command0 param0 b0 sel0.
  assert (∃ h, find_handler command false = Some h) as [h Hh].
  { pose proof (find_handler_spec command false) as Hf. destruct (find_handler command false); [eauto|].
    congruence. }
  assert (∀ s' : runner_state, common_running s.1 = true → (known_command command true = true → s'.2 = s.2) → s'.2 = s.2)
    as Hu.
  { intros s' Hrun Hk. apply Hk. destruct (known_command command true); [done|].
    unfold common_running in Hrun. rewrite Hpc, Hst in Hrun. cbn in Hrun. by rewrite Hcom in Hrun. }
  assert (pc_manifest (program_counter s.1) = Some m) as Hman by by rewrite Hpc.
  unfold run_command_step, call_found. destruct sel as [i|a].
  - rewrite (get_object_spec m) by done. cbn [mbind outcome_bind].
    destruct (Z.ltb_spec i (Z.of_nat (if b then n_components (common m) else n_dependencies (common m))))
      as [Hi|]; [|by split].
    assert (object_ok m (Object b i)) as Hobj by (split; [apply Hsel|exact Hi]).
    rewrite Hh. eapply call_handler_spec; try done.
    + intros s' Hpost Hs'. destruct (handler_post_ok _ _ Hpost Hok) as [Hok' Hmeas].
      destruct Hpost as (_&Hpc'&Hst'&_&Hkept). rewrite Hpc', Hpc. cbn [pc_next].
      assert (in_command s' command param b (SelectedAll i) c t) as Hin' by (split; congruence).
      assert (Z.of_nat (if b then n_components (common m) else n_dependencies (common m)) <= 8) as Hn.
      { destruct Hm as ((?&?&_)&_). unfold SUIT_DEPENDENCY_MAX, SUIT_COMPONENT_MAX in *. destruct b; lia. }
      destruct Hsel as [Hi0 _]. assert (to_u64 (i + 1) = i + 1) as Hui.
      { apply to_u64_small. unfold u64_modulus. lia. }
      rewrite Hui.
      destruct (update_selection s' command param b (SelectedAll i) c t (SelectedAll (i + 1)) Hok' Hin')
        as (?&_&Hm'); [cbn; unfold u64_modulus; lia|].
      split; [done|]. cbn [fst snd]. split; [|split; [intros Hr; by apply Hu|exact Hkept]].
      intros _. cbn [fst snd] in Hm'. rewrite Hm', Hmeas. cbn [selection_measure]. destruct b; lia.
    + intros s' ? He Hs' ?. split; [done|]. split; [cbn; congruence|]. split; [|done].
      intros Hr. by apply Hu.
  - destruct (tcbor_is_end_of_context a); [by split|].
    wp_read read_uint_spec. intros [a1 [index|]].
    2: { intros Hs. apply (step_post_err s _
           (with_next s.1 (SUIT_NEXT_EXECUTE_COMMAND command param b (SelectedArray a1)))); [|done].
         apply (update_selection s command param b (SelectedArray a) c t (SelectedArray a1)); try done.
         cbn. eauto with c_ok. }
    intros (Ha1&(Hs1&_)&Hl1&Hv).
    destruct (update_selection s command param b (SelectedArray a) c t (SelectedArray a1) Hok Hin Ha1)
      as (Hok'&Hin'&Hmeas).
    set (s' := (with_next s.1 (SUIT_NEXT_EXECUTE_COMMAND command param b (SelectedArray a1)), s.2)) in *.
    assert (runner_measure m s'.1 < runner_measure m s.1) as Hless.
    { rewrite Hmeas. cbn. unfold context_len. lia. }
    rewrite (get_object_spec m) by by destruct Hin' as [-> _]. cbn [mbind outcome_bind].
    destruct (Z.ltb_spec index (Z.of_nat (if b then n_components (common m) else n_dependencies (common m))));
      [|by apply (step_post_err s _ s'.1)].
    assert (object_ok m (Object b index)) as Hobj by (split; [apply Hv|done]).
    rewrite Hh. eapply call_handler_spec; try done.
    + intros s'' Hpost Hs''. destruct (handler_post_ok _ _ Hpost Hok') as [Hok'' Hmeas'].
      destruct Hpost as (_&_&_&_&?).
      split; [done|]. cbn [fst snd]. split; [intros _; by rewrite Hmeas'|]. split; [|done].
      intros Hr. by apply Hu.
    + intros s'' ? He Hs'' ?. split; [done|]. split; [cbn; congruence|]. split; [|done].
      intros Hr. by apply Hu.
Qed.

(** ** The loop *)

Lemma selection_measure_pos b sel : selection_ok sel → 0 < selection_measure m b sel.
Proof.
  intros Hs. destruct sel as [i|a]; cbn; [lia|]. pose proof (context_len_bound a Hs). lia.
Qed.

Lemma pop_spec (r : suit_runner resume_code) :
  runner_ok m r → pc_next (program_counter r) ≠ SUIT_NEXT_EXIT →
  ∃ r', pop_program_counter r = (r', true) ∧ runner_ok m r' ∧
    runner_measure m r' < runner_measure m r ∧ has_error r' = has_error r ∧
    suspended r' = suspended r.
Proof.
  intros (Hm&Htb&Hc) Hne. unfold pop_program_counter.
  inversion Hc as [Hpc Hst|c t ? ? Hpc Hst|c t command param b sel Hcok Htok ? ? Hsel ? Hpc Hst].
  - rewrite <-Hpc in Hne. done.
  - eexists. split; [done|]. cbn. split.
    + split; [done|]. split; [done|]. apply control_exit.
    + unfold runner_measure. cbn. rewrite <-Hpc. cbn.
      pose proof (context_len_bound c ltac:(done)). pose proof (context_len_bound t ltac:(done)).
      unfold command_weight, PTRDIFF_MAX. split; [nia|by split].
  - eexists. split; [done|]. cbn. split.
    + split; [done|]. split; [done|]. by apply control_sequence.
    + unfold runner_measure. cbn. rewrite <-Hpc, <-Hst. cbn.
      pose proof (selection_measure_pos b sel Hsel). split; [lia|by split].
Qed.

(** The loop stops in an error, suspended, or at the end of the program. *)
Definition stopped (r : suit_runner resume_code) : Prop :=
  has_error r = true ∨ suspended r = true ∨
  (pc_next (program_counter r) = SUIT_NEXT_EXIT ∧ stack r = []).

Definition iteration_post (s : runner_state) (p : runner_state * bool) : Prop :=
  runner_ok m p.1.1 ∧
  (if p.2 then has_error p.1.1 = false ∧ runner_measure m p.1.1 < runner_measure m s.1
   else stopped p.1.1 ∧ (has_error p.1.1 = true ∨ p.1 = s)) ∧
  (common_running s.1 = true → p.1.2 = s.2) ∧ user_kept m s p.1.

Lemma after_step_spec s o :
  runner_ok m s.1 → has_error s.1 = false → pc_next (program_counter s.1) ≠ SUIT_NEXT_EXIT →
  wp o (step_post s (common_running s.1)) → wp (after_step o) (iteration_post s).
Proof.
  intros Hok He Hne Ho. unfold after_step. apply wp_bind. eapply wp_mono; [exact Ho|].
  intros [s' pop] (Hok'&Hp&Hu&Hk).
  cbn [fst snd] in *. destruct (has_error s'.1) eqn:He'.
  { split; [done|]. split; [split; by left|done]. }
  destruct pop.
  - subst s'. destruct (pop_spec s.1 Hok Hne) as (r'&->&?&?&?&?).
    split; [done|]. split; [split; cbn; congruence|]. split; [done|]. by apply user_kept_same.
  - split; [done|]. split; [split; auto|done].
Qed.

Lemma run_iteration_spec s :
  runner_ok m s.1 → has_error s.1 = false → wp (run_iteration slot_addr s) (iteration_post s).
Proof.
  intros Hok He. unfold run_iteration. destruct (suspended s.1) eqn:Hs.
  { split; [done|]. split; [split; [by right; left|by right]|by split]. }
  pose proof Hok as (_&_&Hc).
  inversion Hc as [Hpc Hst|c t ? ? Hpc Hst|c t command param b sel ? ? ? ? ? ? Hpc Hst]; cbn [pc_next].
  - split; [done|]. split; [|by split]. split; [|by right]. right. right. cbn. by rewrite <-Hpc.
  - apply after_step_spec; [done..|by rewrite <-Hpc|]. by apply run_sequence_step_spec.
  - apply after_step_spec; [done..|by rewrite <-Hpc|]. by eapply run_command_step_spec.
Qed.

Lemma sequence_measure_nonneg c t :
  ctx_ok c → ctx_ok t → 0 <= (context_len c + context_len t) * command_weight.
Proof.
  intros Hc Ht. apply Z.mul_nonneg_nonneg; [|done].
  pose proof (context_len_bound c Hc). pose proof (context_len_bound t Ht). lia.
Qed.

Lemma runner_measure_nonneg (r : suit_runner resume_code) : runner_ok m r → 0 <= runner_measure m r.
Proof.
  intros (_&_&Hc). unfold runner_measure, pc_measure.
  destruct Hc as [|c t Hc Ht|c t command param b sel Hc Ht]; cbn [pc_next sequence_pc exit_pc]; [done| |].
  - pose proof (sequence_measure_nonneg c t Hc Ht). lia.
  - pose proof (sequence_measure_nonneg c t Hc Ht).
    pose proof (selection_measure_pos b sel ltac:(done)). lia.
Qed.

(** What a run does: it stops, keeps both invariants, and makes progress if it
    was suspended on the way. *)
Definition run_post (s s' : runner_state) : Prop :=
  runner_ok m s'.1 ∧ stopped s'.1 ∧ user_kept m s s' ∧
  (has_error s'.1 = false → runner_measure m s'.1 <= runner_measure m s.1 ∧
     (suspended s.1 = false → suspended s'.1 = true → runner_measure m s'.1 < runner_measure m s.1)).

Lemma run_loop_spec fuel s :
  runner_ok m s.1 → has_error s.1 = false → runner_measure m s.1 < Z.of_nat fuel →
  wp (run_loop slot_addr fuel s) (run_post s).
Proof.
  revert s. induction fuel as [|fuel IH]; intros s Hok He Hf.
  { pose proof (runner_measure_nonneg _ Hok). lia. }
  cbn [run_loop]. apply wp_bind. eapply wp_mono; [by apply run_iteration_spec|].
  intros [s' [|]] (Hok'&Hc&_&Hk); cbn [fst snd] in *.
  - destruct Hc as [He' Hlt]. eapply wp_mono; [apply IH; (done || lia)|].
    intros s'' (?&?&Hk'&Hm). split_and!; try done; [by eapply user_kept_trans|].
    intros Hr. apply Hm in Hr as [? _]. split; [lia|]. intros _ _. lia.
  - destruct Hc as [Hst Hc]. split_and!; try done. intros He'. destruct Hc as [?| ->]; [congruence|].
    split; [lia|]. congruence.
Qed.

Lemma runner_run_spec fuel s :
  runner_ok m s.1 → runner_measure m s.1 < Z.of_nat fuel →
  wp (suit_runner_run slot_addr fuel s) (run_post s).
Proof.
  intros Hok Hf. unfold suit_runner_run. destruct (has_error s.1) eqn:He; [|by apply run_loop_spec].
  split; [done|]. split; [by left|]. split; [done|]. congruence.
Qed.

(** Fuel that is enough for every state of every manifest. *)
Definition runner_fuel : Z := 2 * PTRDIFF_MAX * command_weight + 1 + command_weight.

Lemma runner_measure_bound (r : suit_runner resume_code) :
  runner_ok m r → runner_measure m r <= runner_fuel.
Proof.
  intros (((?&?&_)&_)&_&Hc). unfold runner_measure, pc_measure, runner_fuel.
  destruct Hc as [|c t Hc Ht|c t command param b sel Hc Ht ? ? Hsel ?];
    cbn [pc_next sequence_pc exit_pc]; [by unfold command_weight, PTRDIFF_MAX| |];
    pose proof (context_len_bound c Hc); pose proof (context_len_bound t Ht);
    unfold command_weight in *; [unfold PTRDIFF_MAX in *; nia|].
  assert (selection_measure m b sel <= PTRDIFF_MAX + 16).
  { destruct sel as [i|a]; cbn.
    - cbn in Hsel. unfold SUIT_DEPENDENCY_MAX, SUIT_COMPONENT_MAX, PTRDIFF_MAX in *. destruct b; lia.
    - pose proof (context_len_bound a Hsel). lia. }
  unfold PTRDIFF_MAX in *. nia.
Qed.

End steps.

End handlers.

(** ** Parameters as a table *)

Section parameters.
Context {code : Type}.
Implicit Types r : suit_runner code.

(** The value bound to a target and a key: the first binder counts. *)
Fixpoint get_in (l : list suit_binder) (t k : Z) : option tcbor_range :=
  match l with
  | [] => None
  | b :: l =>
      if (binder_target b =? t) && (binder_key b =? k) then Some (value_cbor b) else get_in l t k
  end.

Lemma get_parameter_in r t k : suit_runner_get_parameter r t k = get_in (bindings r) t k.
Proof.
  unfold suit_runner_get_parameter. induction (bindings r) as [|b l IH]; [done|]. cbn.
  destruct (_ && _); [done|]. rewrite <-IH. by destruct (lookup_binder l t k).
Qed.

Lemma get_in_lookup l t k : is_Some (get_in l t k) ↔ is_Some (lookup_binder l t k).
Proof.
  induction l as [|b l IH]; cbn; [by split; intros []|]. destruct (_ && _); [done|].
  rewrite IH. by rewrite fmap_is_Some.
Qed.

Definition same_binder (t k t' k' : Z) : bool := (t' =? t) && (k' =? k).

Lemma get_in_alter l t k i v t' k' :
  lookup_binder l t k = Some i →
  get_in (alter (fun b => Binder (binder_target b) (binder_key b) v) i l) t' k' =
    if same_binder t k t' k' then Some v else get_in l t' k'.
Proof.
  unfold same_binder. revert i. induction l as [|b l IH]; intros i; cbn; [done|].
  destruct (Z.eqb_spec (binder_target b) t) as [Ht|Ht];
    destruct (Z.eqb_spec (binder_key b) k) as [Hk|Hk]; cbn.
  1: { intros [= <-]. cbn. destruct (Z.eqb_spec (binder_target b) t'), (Z.eqb_spec (binder_key b) k'),
      (Z.eqb_spec t' t), (Z.eqb_spec k' k); cbn; congruence. }
  all: destruct (lookup_binder l t k) as [j|]; [|done]; intros [= <-]; cbn; rewrite IH by done;
    destruct (Z.eqb_spec (binder_target b) t'), (Z.eqb_spec (binder_key b) k'),
      (Z.eqb_spec t' t), (Z.eqb_spec k' k); cbn; congruence.
Qed.

Lemma get_in_snoc l t k v t' k' :
  get_in (l ++ [Binder t k v]) t' k' =
    match get_in l t' k' with Some x => Some x | None => if same_binder t k t' k' then Some v else None end.
Proof.
  unfold same_binder. induction l as [|b l IH]; cbn.
  - by rewrite (Z.eqb_sym t' t), (Z.eqb_sym k' k).
  - by destruct ((binder_target b =? t') && (binder_key b =? k')).
Qed.

(** [set_parameter] on a key that fits in the enumeration: it binds the value
    unless there is one already and [override] is off; it fails only when the
    table is full. *)
Lemma set_parameter_spec r t k v ov :
  0 <= k < u32_modulus →
  let old := get_in (bindings r) t k in
  if bool_decide (old = None) && (length (bindings r) =? SUIT_BINDER_MAX)%nat
  then set_parameter r t k v ov = (r, false)
  else ∃ r', set_parameter r t k v ov = (r', true) ∧
    (length (bindings r') <= length (bindings r) + if bool_decide (old = None) then 1 else 0)%nat ∧
    ∀ t' k', get_in (bindings r') t' k' =
      if same_binder t k t' k' then Some (if ov then v else default v old)
      else get_in (bindings r) t' k'.
Proof.
  intros Hk old. unfold set_parameter, alloc_binder. pose proof (get_in_lookup (bindings r) t k) as Hl.
  destruct (lookup_binder (bindings r) t k) as [i|] eqn:Hi.
  - destruct (proj2 Hl ltac:(by eexists)) as [x Hx]. unfold old. rewrite Hx.
    rewrite bool_decide_eq_false_2 by done. cbn [andb default]. destruct ov; cbn [negb].
    + eexists. split; [done|]. cbn. rewrite length_alter. split; [lia|].
      intros t' k'. by apply get_in_alter.
    + eexists. split; [done|]. split; [lia|]. intros t' k'. unfold same_binder.
      destruct (Z.eqb_spec t' t) as [->|]; [|done]. destruct (Z.eqb_spec k' k) as [->|]; [|done]. done.
  - assert (get_in (bindings r) t k = None) as Hx.
    { destruct (get_in (bindings r) t k); [|done]. by destruct (proj1 Hl ltac:(by eexists)). }
    unfold old. rewrite Hx. rewrite bool_decide_eq_true_2 by done. cbn [andb default].
    destruct (Nat.eqb_spec (length (bindings r)) SUIT_BINDER_MAX); [done|].
    eexists. split; [done|]. cbn. rewrite length_app; cbn. split; [lia|]. intros t' k'.
    unfold to_u32. rewrite (Z.mod_small k) by done. rewrite get_in_snoc. unfold same_binder.
    destruct (Z.eqb_spec t' t) as [->|]; cbn; [|by destruct (get_in _ t' k')].
    destruct (Z.eqb_spec k' k) as [->|]; cbn; [|by destruct (get_in _ t k')].
    rewrite Hx. by destruct ov.
Qed.

End parameters.
