(* ===== verification/SuitRunnerTheorems.v ===== *)
(** * SuitRunnerTheorems: what the command interpreter guarantees *)

From S2P Require Import Prelude Tcbor TcborFacts CborSpec CborTree SuitTypes SuitParser.
From S2P Require Import SuitParserFacts SuitSpec SuitContext SuitContextFacts SuitRunner SuitRunnerFacts.

Local Open Scope Z_scope.

(** ** Entering the program *)

(** The body that [call_command_sequence] reads, and whether it can be opened. *)
Definition opens (r : tcbor_range) : bool :=
  match tcbor_read_array (tcbor_toplevel (or_empty r)) with Done (_, Some _) => true | _ => false end.

Lemma or_empty_ok r : range_ok r → range_ok (or_empty r).
Proof.
  intros Hr. unfold or_empty. destruct (tcbor_range_is_null r); [|done]. cbn. unfold span_ok; cbn.
  unfold PTRDIFF_MAX. lia.
Qed.

Lemma open_array r :
  range_ok r →
  if opens r then ∃ c a, tcbor_read_array (tcbor_toplevel (or_empty r)) = Done (c, Some a) ∧ ctx_ok a
  else ∃ c, tcbor_read_array (tcbor_toplevel (or_empty r)) = Done (c, None).
Proof.
  intros Hr. pose proof (read_array_child _ (toplevel_ok _ (or_empty_ok r Hr))) as H. unfold opens.
  destruct (tcbor_read_array _) as [| |[c [a|]]]; try done; [|by eauto].
  destruct H as (_&_&Ha&_). eauto with c_ok.
Qed.

(** The runner right after [memset] and the assignments of [suit_runner_init]. *)
Definition initial_runner {code} (seq : suit_command_sequence) (m : suit_manifest) : suit_runner code :=
  Runner seq cbor_true tcbor_range_null [] (exit_pc m) [] false false None.

Definition root (p : suit_context) : option suit_manifest :=
  if (n_manifest p =? 0)%nat then None else manifests p !! 0%nat.

Lemma root_spec p m :
  root p = Some m → suit_context_get_root_manifest p = Done (Some m).
Proof.
  unfold root, suit_context_get_root_manifest. destruct (_ =? _)%nat; [done|]. by intros ->.
Qed.

Lemma initial_tables {code} seq m : tables_ok (initial_runner (code := code) seq m).
Proof.
  unfold tables_ok, initial_runner; cbn. split_and!; try done; apply Nat.le_0_l.
Qed.

Lemma runner_init_spec {code} p m body :
  context_ok p → root p = Some m → sev_union (install m) = UBody body →
  ∃ r : suit_runner code, suit_runner_init p SUIT_COMMAND_SEQUENCE_INSTALL = Done r ∧ runner_ok m r ∧
    has_error r = false ∧ suspended r = false ∧
    if opens body && opens (command_sequence (common m))
    then ∃ c t, program_counter r = sequence_pc m c t ∧ stack r = [exit_pc m]
    else r = initial_runner SUIT_COMMAND_SEQUENCE_INSTALL m.
Proof.
  intros (Hlen&_&Hslots) Hroot Hbody. unfold suit_runner_init.
  rewrite (root_spec _ _ Hroot). cbn [mbind outcome_bind].
  assert (slot_ok m) as Hm.
  { unfold root in Hroot. destruct (_ =? _)%nat; [done|]. by eapply Forall_lookup_1. }
  unfold call_dependency, call_command_sequence, get_command_sequence_body.
  cbn [sequence]. rewrite Hbody. cbn [read_body fmap outcome_fmap mbind outcome_bind].
  change (Runner SUIT_COMMAND_SEQUENCE_INSTALL cbor_true tcbor_range_null []
    (Continuation (Some m) SUIT_NEXT_EXIT) [] false false None)
    with (initial_runner (code := code) SUIT_COMMAND_SEQUENCE_INSTALL m).
  assert (runner_ok m (initial_runner (code := code) SUIT_COMMAND_SEQUENCE_INSTALL m)) as Hinit.
  { split; [done|]. split; [apply initial_tables|apply control_exit]. }
  assert (range_ok body) as Hb.
  { destruct Hm as (_&(_&_&Hi&_)&_). unfold severable_all in Hi. by rewrite Hbody in Hi. }
  assert (range_ok (command_sequence (common m))) as Hc by (destruct Hm as ((_&_&_&?)&_); done).
  pose proof (open_array body Hb) as Ho. destruct (opens body); cbn [andb].
  2: { destruct Ho as (c&->). cbn. eauto 8. }
  destruct Ho as (c1&t&->&Ht). cbn [or_else]. pose proof (open_array _ Hc) as Ho.
  destruct (opens (command_sequence (common m))).
  2: { destruct Ho as (c&->). cbn. eauto 8. }
  destruct Ho as (c2&c&->&Hcok). cbn [or_else push_program_counter initial_runner stack length Nat.eqb SUIT_STACK_MAX].
  eexists. split; [done|]. cbn. split_and!; try done; [|by eauto].
  split; [done|]. split; [apply (initial_tables (code := code) SUIT_COMMAND_SEQUENCE_INSTALL m)|].
  cbn. by apply control_sequence.
Qed.

(** ** States the runner can be in *)

Section reachable.
Context `{!suit_callbacks}.

(** What the user of the runner does: create it, run it (from any place in the
    C stack), resume it, and use the rest of the interface in between. *)
Inductive reaches (p : suit_context) : runner_state → Prop :=
  | reaches_init r u :
      suit_runner_init p SUIT_COMMAND_SEQUENCE_INSTALL = Done r → reaches p (r, u)
  | reaches_run slot_addr fuel s s' :
      reaches p s → suit_runner_run slot_addr fuel s = Done s' → reaches p s'
  | reaches_resume s : reaches p s → reaches p (suit_runner_resume s)
  | reaches_user s r u : reaches p s → api_use s.1 r → reaches p (r, u).

Context `{!callbacks_laws}.

Lemma resume_ok m s : runner_ok m s.1 → runner_ok m (suit_runner_resume s).1.
Proof.
  intros Hok. unfold suit_runner_resume. destruct (has_error s.1); [done|].
  destruct (suspended s.1); [|done]. destruct (on_resume s.1) as [f|]; [|done].
  eapply runner_ok_api; [apply cb_resume_api|done].
Qed.

Lemma run_ok m slot_addr fuel s s' :
  runner_ok m s.1 → suit_runner_run slot_addr fuel s = Done s' → runner_ok m s'.1.
Proof.
  intros Hok. unfold suit_runner_run. destruct (has_error s.1) eqn:He; [by intros [= <-]|].
  revert s Hok He. induction fuel as [|fuel IH]; intros s Hok He; [done|]. cbn [run_loop].
  destruct (wp_elim _ _ (run_iteration_spec slot_addr m s Hok He)) as ([s1 [|]]&->&Hok1&Hc&_);
    cbn in *; [|by intros [= <-]]. destruct Hc. by apply IH.
Qed.

Lemma reaches_ok p m body s :
  context_ok p → root p = Some m → sev_union (install m) = UBody body →
  reaches p s → runner_ok m s.1.
Proof.
  intros Hp Hroot Hbody Hs. induction Hs as [r u Hr|slot fuel s s' _ IH Hr|s _ IH|s r u _ IH Hu].
  - destruct (runner_init_spec (code := resume_code) p m body Hp Hroot Hbody) as (r'&Hr'&?&_).
    rewrite Hr in Hr'. by injection Hr' as ->.
  - by eapply run_ok.
  - by apply resume_ok.
  - by eapply runner_ok_api.
Qed.

Lemma control_stack m pc st : control_ok m pc st → (length st <= 2)%nat.
Proof. destruct 1; cbn; lia. Qed.

(** C11: safety and termination of the runner, for every manifest the parser can
    leave in the context (with an install member that is not a digest), every
    behaviour of the callbacks within the interface, and every history of runs,
    resumptions and errors.  The stack never holds more than two continuations
    and the table of parameters never more than 32, so the capacity checks that
    would turn a valid program into an error are never hit by nesting; and
    [suit_runner_run] returns from every such state, having stopped because of
    an error, because it was suspended, or at the end of the program. *)
Theorem suit_runner_total p m body s slot_addr :
  context_ok p → root p = Some m → sev_union (install m) = UBody body → reaches p s →
  (length (stack s.1) <= 2)%nat ∧ (length (bindings s.1) <= SUIT_BINDER_MAX)%nat ∧
  ∃ fuel s', suit_runner_run slot_addr fuel s = Done s' ∧ stopped s'.1.
Proof.
  intros Hp Hroot Hbody Hs. pose proof (reaches_ok p m body s Hp Hroot Hbody Hs) as Hok.
  pose proof Hok as (_&(?&_)&Hc). split; [by eapply control_stack|]. split; [done|].
  exists (S (Z.to_nat runner_fuel)).
  destruct (wp_elim _ _ (runner_run_spec slot_addr m (S (Z.to_nat runner_fuel)) s Hok
    ltac:(pose proof (runner_measure_bound m s.1 Hok); lia))) as (s'&?&_&?&_).
  by exists s'.
Qed.

(** C30: while the common sequence of the manifest is being executed, no callback
    of the user runs: the iteration leaves the user's state unchanged.  Fetching
    and storing happen only after the common sequence has ended. *)
Theorem suit_common_sequence_pure p m body s slot_addr s' continue :
  context_ok p → root p = Some m → sev_union (install m) = UBody body → reaches p s →
  has_error s.1 = false → common_running s.1 = true →
  run_iteration slot_addr s = Done (s', continue) → s'.2 = s.2.
Proof.
  intros Hp Hroot Hbody Hs He Hc Hr. pose proof (reaches_ok p m body s Hp Hroot Hbody Hs) as Hok.
  pose proof (run_iteration_spec slot_addr m s Hok He) as H'. rewrite Hr in H'.
  destruct H' as (_&_&Hu&_). by apply Hu.
Qed.

End reachable.

(** What [suit_runner_init] does for each root manifest.  Without a manifest
    it dereferences a null pointer; with a severed install member it reads a
    digest as a range.  Otherwise it returns a runner without error, also when
    the install or the common sequence is not an array, or when another sequence
    than install is asked for: the program is then empty, and a run finishes at
    once without having executed anything. *)
Theorem suit_runner_init_outcome {code} p seq :
  context_ok p →
  (root p = None → suit_runner_init (code := code) p seq = Ub) ∧
  (∀ m, root p = Some m → seq ≠ SUIT_COMMAND_SEQUENCE_INSTALL →
     suit_runner_init (code := code) p seq = Done (initial_runner seq m)) ∧
  (∀ m d, root p = Some m → sev_union (install m) = UDigest d →
     suit_runner_init (code := code) p SUIT_COMMAND_SEQUENCE_INSTALL = Ub) ∧
  (∀ m body, root p = Some m → sev_union (install m) = UBody body →
     ∃ r : suit_runner code, suit_runner_init p SUIT_COMMAND_SEQUENCE_INSTALL = Done r ∧
       has_error r = false ∧
       if opens body && opens (command_sequence (common m))
       then ∃ c t, program_counter r = sequence_pc m c t ∧ stack r = [exit_pc m]
       else r = initial_runner SUIT_COMMAND_SEQUENCE_INSTALL m).
Proof.
  intros Hp. split_and!.
  - intros Hroot. unfold suit_runner_init, suit_context_get_root_manifest. unfold root in Hroot.
    destruct (Nat.eqb_spec (n_manifest p) 0); [done|].
    destruct Hp as (Hlen&_). apply lookup_ge_None in Hroot. rewrite Hlen in Hroot.
    unfold SUIT_MANIFEST_MAX in Hroot. lia.
  - intros m Hroot Hseq. unfold suit_runner_init. rewrite (root_spec _ _ Hroot). by destruct seq.
  - intros m d Hroot Hd. unfold suit_runner_init. rewrite (root_spec _ _ Hroot). cbn. by rewrite Hd.
  - intros m body Hroot Hbody.
    destruct (runner_init_spec (code := code) p m body Hp Hroot Hbody) as (r&?&_&?&_&?). eauto.
Qed.

(** ** Parameters *)

(** What a set- or override-parameters directive leaves bound to a key. *)
Fixpoint params_get (override : bool) (kvs : list cbor) (key : Z) (old : option (list byte)) :
    option (list byte) :=
  match kvs with
  | k :: v :: kvs =>
      params_get override kvs key
        (if bool_decide (item_uint k = Some key)
         then Some (if override then encode v else default (encode v) old) else old)
  | _ => old
  end.

Definition key_fits (x : cbor) : bool :=
  match item_uint x with Some k => k <? u32_modulus | None => false end.

(** The contents bound to a target and a key. *)
Definition bound {code} (r : suit_runner code) (t k : Z) : option (list byte) :=
  (fun v => default [] (view v)) <$> suit_runner_get_parameter r t k.

Lemma set_parameters_loop_at {code} t ov : ∀ kvs,
  Nat.Even (length kvs) → ∀ fuel map (r : suit_runner code) rest,
  at_items map kvs rest → forallb key_fits (keys kvs) = true → (length kvs < fuel)%nat →
  (2 * length (bindings r) + length kvs <= 2 * SUIT_BINDER_MAX)%nat →
  ∃ r' map', set_parameters_loop fuel map r t ov = Done (r', Some map') ∧ at_items map' [] rest ∧
    ∀ t' k, bound r' t' k = if t' =? t then params_get ov kvs k (bound r t k) else bound r t' k.
Proof.
  refine (pairs_ind _ _ _); [|intros k v kvs IH]; intros fuel map r rest Hm Hk Hf Hlen;
    (destruct fuel as [|fuel]; [cbn in Hf; lia|]);
    cbn [set_parameters_loop]; rewrite (at_items_end _ _ _ Hm).
  { exists r, map. split; [done|]. split; [done|]. intros t' k.
    by destruct (Z.eqb_spec t' t) as [->|]. }
  cbn [keys forallb] in Hk. apply andb_true_iff in Hk as [Hk Hks]. unfold key_fits in Hk.
  pose proof (at_read_uint _ _ _ _ Hm) as Hr. destruct (item_uint k) as [key|] eqn:Hik; [|done].
  destruct Hr as (m1&?&->&->&Hm1). cbn [or_else].
  destruct (at_read_subobject _ _ _ _ Hm1) as (m2&s&->&Hm2&_&Hs). cbn [or_else].
  apply Z.ltb_lt in Hk. assert (0 <= key < u32_modulus) as Hkey.
  { split; [|done]. destruct (at_items_tail_wf _ _ _ _ _ Hm) as [Hwk _].
    destruct k as [mt ai x| | | |]; try done. cbn in Hik, Hwk.
    destruct (mt =? 0); [injection Hik as ->|done].
    apply andb_true_iff in Hwk as [[_ Hh]%andb_true_iff _]. apply head_ok_range in Hh. lia. }
  pose proof (set_parameter_spec r t key (Some s) ov Hkey) as Hset. cbn zeta in Hset.
  cbn [length] in Hlen, Hf.
  destruct (Nat.eqb_spec (length (bindings r)) SUIT_BINDER_MAX) as [Hfull|_]; [lia|].
  rewrite andb_false_r in Hset. destruct Hset as (r1&->&Hl1&Hget).
  destruct (IH fuel m2 r1 rest Hm2 Hks ltac:(lia)) as (r'&map'&->&Hend&Hb).
  { destruct (bool_decide _); lia. }
  exists r', map'. split; [done|]. split; [done|]. intros t' k'. rewrite Hb.
  unfold bound in *. rewrite !get_parameter_in, !Hget. unfold same_binder.
  destruct (Z.eqb_spec t' t) as [->|Hne]; cbn [andb].
  2: { by destruct (Z.eqb_spec t' t). }
  rewrite Z.eqb_refl. cbn [andb params_get]. rewrite Hik. f_equal.
  destruct (Z.eqb_spec k' key) as [->|Hk'].
  - rewrite bool_decide_eq_true_2 by done. destruct ov; [cbn; by rewrite Hs|].
    destruct (get_in (bindings r) t key) as [x|]; cbn; [done|by rewrite Hs].
  - by rewrite bool_decide_eq_false_2 by congruence.
Qed.

(** C28: functional correctness of set-parameters and override-parameters.  On an
    encoded map whose keys are unsigned and fit in 32 bits, and with room in the
    table, the directive succeeds; for the target it binds every key of the map
    to the encoding of its value — the last one for override, the first one and
    only if the key was unbound for set — and it changes nothing else. *)
Theorem suit_set_parameters_correct `{!suit_callbacks} (s : runner_state) target override param ai kvs rest :
  span_ok param → cbor_wf (CMap ai kvs) = true → span_bytes param = encode (CMap ai kvs) ++ rest →
  forallb key_fits (keys kvs) = true →
  (2 * length (bindings s.1) + length kvs <= 2 * SUIT_BINDER_MAX)%nat →
  ∃ r', directive_set_parameters s target
      (if override : bool then SUIT_DIRECTIVE_OVERRIDE_PARAMETERS else SUIT_DIRECTIVE_SET_PARAMETERS)
      (Some param) = Done ((r', s.2), true) ∧
    ∀ t k, bound r' t k = if t =? target_addr target then params_get override kvs k (bound s.1 t k)
                          else bound s.1 t k.
Proof.
  intros Hp Hwf Hb Hk Hlen. unfold directive_set_parameters.
  assert (((if override : bool then SUIT_DIRECTIVE_OVERRIDE_PARAMETERS
            else SUIT_DIRECTIVE_SET_PARAMETERS) =? SUIT_DIRECTIVE_OVERRIDE_PARAMETERS) = override) as ->
    by by destruct override.
  pose proof (at_read_map _ _ _ _ (at_toplevel param _ _ Hp Hwf Hb)) as Hm. cbn [item_map reads] in Hm.
  destruct Hm as (c1&map&->&Hm&Hpar). cbn [or_else].
  destruct (set_parameters_loop_at (target_addr target) override kvs (map_pairs_even _ _ Hwf)
    (context_fuel map) map s.1 _ Hm Hk) as (r'&map'&->&Hend&Hget); [|done|].
  { pose proof (at_items_len _ _ _ Hm). unfold context_fuel. lia. }
  cbn [or_else]. destruct (at_close _ _ _ _ _ Hpar Hend) as (c2&->&_). cbn [or_else].
  exists r'. split; [done|]. intros t k. rewrite Hget. by destruct (Z.eqb_spec t (target_addr target)) as [->|].
Qed.

(** Keys of parameters are truncated to 32 bits when they are stored but
    not when they are looked up: setting an unbound key of 2^32 or more binds
    the key reduced modulo 2^32, when that one is unbound too. *)
Theorem suit_parameter_key_truncated {code} (r : suit_runner code) t k v ov :
  u32_modulus <= k → (∀ b, In b (bindings r) → 0 <= binder_key b < u32_modulus) →
  (length (bindings r) < SUIT_BINDER_MAX)%nat →
  suit_runner_get_parameter r t (to_u32 k) = None →
  ∃ r', set_parameter r t k v ov = (r', true) ∧
    suit_runner_get_parameter r' t k = None ∧ suit_runner_get_parameter r' t (to_u32 k) = Some v.
Proof.
  intros Hk Hkeys Hlen Hold. rewrite get_parameter_in in Hold.
  assert (∀ l, (∀ b, In b l → 0 <= binder_key b < u32_modulus) → get_in l t k = None) as Hnone.
  { intros l Hl. induction l as [|b l IH]; [done|]. cbn.
    assert ((binder_key b =? k) = false) as ->.
    { apply Z.eqb_neq. specialize (Hl b (or_introl eq_refl)). lia. }
    rewrite andb_false_r. apply IH. intros b' Hb'. apply Hl. by right. }
  unfold set_parameter. pose proof (get_in_lookup (bindings r) t k) as Hl.
  rewrite (Hnone _ Hkeys) in Hl.
  destruct (lookup_binder (bindings r) t k); [by destruct (proj2 Hl ltac:(by eexists))|].
  unfold alloc_binder. destruct (Nat.eqb_spec (length (bindings r)) SUIT_BINDER_MAX); [lia|].
  eexists. split; [done|]. rewrite !get_parameter_in. cbn. rewrite !get_in_snoc, Hold, (Hnone _ Hkeys).
  unfold same_binder. rewrite !Z.eqb_refl. cbn. split; [|done].
  assert ((k =? to_u32 k) = false) as ->; [|done]. apply Z.eqb_neq.
  assert (0 <= to_u32 k < u32_modulus) by by apply Z.mod_pos_bound. lia.
Qed.

(** ** Fetching *)

(** C29: what the fetch directive does with the URI bound to its target.  An
    empty URI is an error; a URI that starts with a number sign names a payload
    of the envelope, whose contents are handed to the store callback — the null
    range when the envelope has no such payload, so that the callback runs all
    the same; any other URI is handed to the fetch callback. *)
Theorem suit_fetch_correct `{!suit_callbacks} (s : runner_state) target command param m u ai uri rest :
  pc_manifest (program_counter s.1) = Some m →
  suit_runner_get_parameter s.1 (target_addr target) SUIT_PARAMETER_URI = Some (Some u) →
  span_ok u → cbor_wf (CString 3 ai uri) = true → span_bytes u = encode (CString 3 ai uri) ++ rest →
  match uri with
  | [] => directive_fetch s target command param = Done (s, false)
  | c :: _ =>
      if u8 c =? 35 then
        ∀ env eai eam kvs erest, envelope_bstr m = Some env → span_ok env →
          cbor_wf (CTag eai 107 (CMap eam kvs)) = true → forallb flat_key (keys kvs) = true →
          span_bytes env = encode (CTag eai 107 (CMap eam kvs)) ++ erest →
          match find_field true SUIT_DELEGATION (Some uri) kvs None with
          | None => directive_fetch s target command param = Done (s, false)
          | Some content => ∃ body, view body = content ∧
              let '(r, us, b) := cb_store s.1 s.2 target body in
              directive_fetch s target command param = Done ((r, us), b)
          end
      else ∃ x, view x = Some uri ∧
        let '(r, us, b) := cb_fetch_and_store s.1 s.2 target x in
        directive_fetch s target command param = Done ((r, us), b)
  end.
Proof.
  intros Hpc Hg Hu Hwf Hb. unfold directive_fetch. cbn [negb parse_rep_policy]. rewrite Hg, Hpc.
  pose proof (at_read_tstr _ _ _ _ (at_toplevel u _ _ Hu Hwf Hb)) as Hr. cbn [item_string Z.eqb Pos.eqb reads] in Hr.
  destruct Hr as (c1&?&->&_&x&->&[Hx1 Hx2]&Hx). cbn [or_else].
  pose proof (span_bytes_length x ltac:(by split)) as Hlen. rewrite Hx in Hlen. cbn [range_len] in Hlen.
  destruct uri as [|c uri].
  { destruct (Z.eqb_spec (sp_begin x) (sp_end x)); [done|cbn in Hlen; lia]. }
  destruct (Z.eqb_spec (sp_begin x) (sp_end x)) as [|Hne]; [cbn in Hlen; lia|].
  destruct (slice_cons (sp_buf x) (sp_begin x) (sp_end x)) as (c0&Hl&Hs); [lia..|].
  unfold span_bytes in Hx. rewrite Hs in Hx. injection Hx as -> Hx. rewrite Hl. cbn [mbind outcome_bind].
  assert (view (Some x) = Some (c :: uri)) as Hv by (cbn; unfold span_bytes; by rewrite Hs, Hx).
  destruct (u8 c =? 35).
  - intros env eai eam kvs erest Henv Hok Hewf Hek Heb. rewrite Henv.
    destruct (get_field_at env eai eam kvs erest true SUIT_DELEGATION (Some x) Hok ltac:(by split)
      Hewf Hek Heb ltac:(by left)) as (o&Ho&Hf).
    unfold suit_envelope_get_field_by_name. rewrite Ho. cbn [mbind outcome_bind].
    rewrite Hv in Hf. rewrite <-Hf. destruct o as [body|]; [|done]. cbn.
    exists body. split; [done|]. by destruct (cb_store s.1 s.2 target body) as [[r us] b].
  - exists (Some x). split; [done|]. by destruct (cb_fetch_and_store s.1 s.2 target (Some x)) as [[r us] b].
Qed.

(** ** Witnesses *)

Section witnesses.

(** Callbacks that log what they are called with; fetching suspends. *)
Record call := Call { call_fetch : bool; call_object : Z; call_bytes : option (list byte) }.

#[local] Instance log_callbacks : suit_callbacks := {|
  user := list call;
  resume_code := unit;
  cb_store r u t b := (r, u ++ [Call false (object_index (target_object t)) (view b)], true);
  cb_fetch_and_store r u t b :=
    (suit_runner_suspend r (Some tt), u ++ [Call true (object_index (target_object t)) (view b)], true);
  cb_resume _ r u := (r, u)
|}.

#[local] Instance log_laws : callbacks_laws.
Proof.
  refine (Build_callbacks_laws _ (fun _ _ _ => True) _ _ _ _ _ _); intros; cbn; try done.
Defined.

Definition num (n : Z) : cbor := CAtom 0 n n.
Definition str (mt : Z) (bs : list byte) : cbor :=
  CString mt (if Z.of_nat (length bs) <? 24 then Z.of_nat (length bs) else 24) bs.
Definition uri (b : byte) : cbor := CMap 1 [num 21; str 3 [b]].

(** Two components, each with its own URI, set one after the other; then the
    second one is fetched. *)
Definition sample_common_sequence : cbor :=
  CArray 8 [num 12; num 0; num 19; uri x61; num 12; num 1; num 19; uri x62].
Definition sample_install : cbor := CArray 4 [num 12; num 1; num 21; CAtom 7 22 22].
Definition sample_manifest : cbor :=
  CMap 4 [num 1; num 1; num 2; num 1;
          num 3; str 2 (encode (CMap 2 [num 2; CArray 2 [num 0; num 1]; num 4; str 2 (encode sample_common_sequence)]));
          num 9; str 2 (encode sample_install)].
Definition sample_envelope : list byte :=
  encode (CTag 24 107 (CMap 1 [num 3; str 2 (encode sample_manifest)])).

Definition done_or {A} (d : A) (o : outcome A) : A := match o with Done a => a | _ => d end.

Definition sample_context : suit_context :=
  (done_or (suit_context_init, false)
     (suit_context_add_envelope suit_context_init (Some (whole sample_envelope)))).1.

Definition sample_root : suit_manifest := default manifest_zero (root sample_context).
Definition sample_body : tcbor_range :=
  match sev_union (install sample_root) with UBody b => b | _ => None end.

Definition sample_runner : suit_runner resume_code :=
  done_or (initial_runner SUIT_COMMAND_SEQUENCE_INSTALL manifest_zero)
    (suit_runner_init sample_context SUIT_COMMAND_SEQUENCE_INSTALL).

(** Three places in the C stack. *)
Definition slots (t : target_slot) : Z :=
  match t with slot_sequence => 1000 | slot_command_all => 2000 | slot_command_array => 3000 end.

Definition sample_run : runner_state := done_or (sample_runner, []) (suit_runner_run slots 100 (sample_runner, [])).

Lemma run_context_ok : context_ok sample_context.
Proof.
  pose proof (add_envelope_spec suit_context_init (Some (whole sample_envelope)) context_init_ok
    ltac:(by apply whole_ok)) as H.
  unfold sample_context. destruct (suit_context_add_envelope _ _) as [| |[p b]]; [done..|].
  cbn. by destruct H as (?&_).
Qed.

Lemma sample_root_eq : root sample_context = Some sample_root.
Proof. by vm_compute. Qed.

Lemma sample_body_eq : sev_union (install sample_root) = UBody sample_body.
Proof. by vm_compute. Qed.

Lemma sample_runner_eq :
  suit_runner_init sample_context SUIT_COMMAND_SEQUENCE_INSTALL = Done sample_runner.
Proof. by vm_compute. Qed.

Lemma sample_reaches : reaches sample_context (sample_runner, []).
Proof. exact (reaches_init (H := log_callbacks) sample_context sample_runner [] sample_runner_eq). Qed.

Lemma suit_runner_total_witness :
  ∃ fuel s', suit_runner_run slots fuel (suit_runner_resume sample_run) = Done s' ∧ stopped s'.1.
Proof.
  apply (suit_runner_total sample_context sample_root sample_body (suit_runner_resume sample_run) slots).
  - apply run_context_ok.
  - apply sample_root_eq.
  - apply sample_body_eq.
  - apply reaches_resume. apply (reaches_run _ slots 100 (sample_runner, [])); [apply sample_reaches|].
    by vm_compute.
Defined.

Definition sample_iteration : runner_state * bool :=
  done_or ((sample_runner, []), false) (run_iteration slots (sample_runner, [])).

Lemma suit_common_sequence_pure_witness : sample_iteration.1.2 = [].
Proof.
  apply (suit_common_sequence_pure sample_context sample_root sample_body (sample_runner, []) slots
    sample_iteration.1 sample_iteration.2).
  - apply run_context_ok.
  - apply sample_root_eq.
  - apply sample_body_eq.
  - apply sample_reaches.
  - by vm_compute.
  - by vm_compute.
  - by vm_compute.
Defined.

Lemma suit_runner_init_outcome_witness :
  suit_runner_init (code := unit) suit_context_init SUIT_COMMAND_SEQUENCE_INSTALL = Ub.
Proof. apply suit_runner_init_outcome; [apply context_init_ok|done]. Defined.

(** Keys 21 and 3 set on a runner where 21 is bound already. *)
Definition params : list cbor := [num 21; num 7; num 3; num 8; num 3; num 9].

Lemma suit_set_parameters_correct_witness :
  ∃ r', directive_set_parameters (sample_run.1, []) (Target 1000 (Object true 0))
      SUIT_DIRECTIVE_SET_PARAMETERS (Some (whole (encode (CMap 3 params)))) = Done ((r', []), true) ∧
    bound r' 1000 21 = Some (encode (str 3 [x61])) ∧ bound r' 1000 3 = Some [x08].
Proof.
  destruct (suit_set_parameters_correct (sample_run.1, []) (Target 1000 (Object true 0)) false
    (whole (encode (CMap 3 params))) 3 params []) as (r'&He&Hb).
  - by apply whole_ok.
  - by vm_compute.
  - by vm_compute.
  - by vm_compute.
  - vm_compute. lia.
  - exists r'. split; [exact He|]. rewrite !Hb. split; by vm_compute.
Defined.

Lemma suit_parameter_key_truncated_witness :
  ∃ r', set_parameter sample_runner 1000 4294967317 (Some (whole [x61])) false = (r', true) ∧
    suit_runner_get_parameter r' 1000 4294967317 = None ∧
    suit_runner_get_parameter r' 1000 SUIT_PARAMETER_URI = Some (Some (whole [x61])).
Proof.
  apply (suit_parameter_key_truncated sample_runner 1000 4294967317 (Some (whole [x61])) false).
  - unfold u32_modulus. lia.
  - intros b Hb. vm_compute in Hb. destruct Hb.
  - vm_compute. lia.
  - by vm_compute.
Defined.

Definition sample_uri : tcbor_span :=
  match suit_runner_get_parameter sample_run.1 1000 21 with Some (Some u) => u | _ => whole [] end.

Lemma suit_fetch_correct_witness :
  ∃ x, view x = Some [x61] ∧
    let '(r, us, b) := cb_fetch_and_store sample_run.1 sample_run.2 (Target 1000 (Object true 1)) x in
    directive_fetch sample_run (Target 1000 (Object true 1)) SUIT_DIRECTIVE_FETCH None =
      Done ((r, us), b).
Proof.
  refine (suit_fetch_correct sample_run (Target 1000 (Object true 1)) SUIT_DIRECTIVE_FETCH None
    sample_root sample_uri 1 [x61] [] _ _ _ _ _).
  - by vm_compute.
  - by vm_compute.
  - vm_compute. repeat split; discriminate.
  - by vm_compute.
  - by vm_compute.
Defined.

End witnesses.

(** Parameters are not kept per component.  The variable the binders point
    to is the same for both components, so in a manifest that sets the URI of
    component 0 to [a] and that of component 1 to [b] with set-parameters, the
    fetch for component 1 asks for [a]; the run then waits, suspended. *)
Theorem suit_parameters_shared :
  suit_runner_run (H := log_callbacks) slots 100 (sample_runner, []) = Done sample_run ∧
  sample_run.2 = [Call true 1 (Some [x61])] ∧ suit_runner_suspended sample_run.1 = true.
Proof. split_and!; by vm_compute. Qed.
