(* ===== verification/RunInstall.v ===== *)
(** * RunInstall: the example client of the SUIT library

    [run-install.cpp] adds the envelopes of its arguments to a context and runs the
    install sequence, with callbacks that print what they are asked for.  What is
    printed by the callbacks is a trace; the contents of the files are arguments,
    [None] for a file that cannot be read. *)

From S2P Require Import Prelude Tcbor TcborFacts SuitTypes SuitParser SuitParserFacts.
From S2P Require Import SuitContext SuitContextFacts SuitRunner SuitRunnerFacts SuitRunnerTheorems.

Local Open Scope Z_scope.

Inductive printed :=
  | PrintedStore (target : suit_object)
  | PrintedFetch (target : suit_object) (uri : tcbor_range).

(** [store] and [fetch_and_store] of the example; nothing is suspended, so nothing
    is resumed. *)
#[export] Instance print_callbacks : suit_callbacks := {|
  user := list printed;
  resume_code := unit;
  cb_store r u target body := (r, u ++ [PrintedStore (target_object target)], true);
  cb_fetch_and_store r u target uri := (r, u ++ [PrintedFetch (target_object target) uri], true);
  cb_resume _ r u := (r, u)
|}.

(** The range of a vector; an empty one has no storage. *)
Definition vector_range (bin : list byte) : tcbor_range :=
  match bin with [] => tcbor_range_null | _ => Some (Span bin 0 (Z.of_nat (length bin))) end.

(** The first loop: all files or none. *)
Fixpoint read_files (files : list (option (list byte))) : option (list (list byte)) :=
  match files with
  | [] => Some []
  | f :: files => bin ← f; bins ← read_files files; Some (bin :: bins)
  end.

(** The second loop. *)
Fixpoint add_all (p : suit_context) (bins : list (list byte)) : outcome (suit_context * bool) :=
  match bins with
  | [] => Done (p, true)
  | bin :: bins =>
      '(p, ok) ← suit_context_add_envelope p (vector_range bin);
      if ok : bool then add_all p bins else Done (p, false)
  end.

Section main.
Variable slot_addr : target_slot → Z.
Variable fuel : nat.

(** [while (true)]. *)
Fixpoint install_loop (rounds : nat) (s : runner_state) : outcome (runner_state * Z) :=
  match rounds with
  | O => NoFuel
  | S rounds =>
      s ← suit_runner_run slot_addr fuel s;
      if suit_runner_finished s.1 then Done (s, 0)
      else if suit_runner_suspended s.1 then install_loop rounds (suit_runner_resume s)
      else Done (s, 1)
  end.

(** [main]: what the callbacks printed, and the exit status. *)
Definition run_install (rounds : nat) (files : list (option (list byte))) : outcome (list printed * Z) :=
  if bool_decide (files = []) then Done ([], 1)
  else
    match read_files files with
    | None => Done ([], 1)
    | Some bins =>
        '(p, ok) ← add_all suit_context_init bins;
        if negb ok then Done ([], 1)
        else
          r ← suit_runner_init p SUIT_COMMAND_SEQUENCE_INSTALL;
          '(s, ret) ← install_loop rounds (r, []);
          Done (s.2, ret)
    end.
End main.

(** ** The example ends *)

(** The runner is not suspended while these callbacks run. *)
#[local] Instance print_laws : callbacks_laws.
Proof.
  refine (Build_callbacks_laws print_callbacks (fun _ suspended _ => suspended = false) _ _ _ _ _ _);
    intros; cbn; (apply api_use_refl || assumption).
Defined.

Lemma vector_range_ok bin : Z.of_nat (length bin) <= PTRDIFF_MAX → range_ok (vector_range bin).
Proof. intros Hl. destruct bin as [|b bin]; [done|]. split; cbn in *; lia. Qed.

Lemma add_all_spec bins p :
  context_ok p → Forall (fun bin => Z.of_nat (length bin) <= PTRDIFF_MAX) bins →
  wp (add_all p bins) (fun '(p', ok) => context_ok p' ∧
    (ok = true → (n_manifest p' = n_manifest p + length bins ∧ n_manifest p' ≤ Nat.max (n_manifest p) SUIT_MANIFEST_MAX)%nat)).
Proof.
  revert p. induction bins as [|bin bins IH]; intros p Hp Hall; cbn [add_all length].
  { split; [done|]. intros _. lia. }
  apply Forall_cons_1 in Hall as [Hl Hall]. apply wp_bind.
  eapply wp_mono; [apply add_envelope_spec; [done|by apply vector_range_ok]|].
  intros [p1 ok] (Hp1&_&Hok). destruct ok; [|by split].
  destruct Hok as (Hlt&Hn&_). eapply wp_mono; [by apply IH|]. intros [p2 ok] [Hp2 Hok2]. split; [done|].
  intros Ht. destruct (Hok2 Ht) as [Heq Hle]. rewrite Hn in Heq, Hle. split; [lia|]. lia.
Qed.

Lemma read_files_length files bins : read_files files = Some bins → length files = length bins.
Proof.
  revert bins. induction files as [|f files IH]; intros bins; cbn; [by intros [= <-]|].
  destruct f as [bin|]; [cbn|done]. destruct (read_files files) as [l|]; [|done]. cbn. intros [= <-].
  cbn. by rewrite (IH l).
Qed.

(** What the code relies on: the install member of the root manifest is there. *)
Definition install_present (bins : list (list byte)) : Prop :=
  ∀ p m, add_all suit_context_init bins = Done (p, true) → root p = Some m →
    ∃ body, sev_union (install m) = UBody body.

Section ends.
Variable slot_addr : target_slot → Z.
Variable fuel : nat.
Hypothesis Hfuel : runner_fuel < Z.of_nat fuel.

(** One round is enough: the callbacks do not suspend. *)
Lemma install_loop_spec m r rounds :
  runner_ok m r → suspended r = false →
  wp (install_loop slot_addr fuel (S rounds) (r, [])) (fun '(s, ret) =>
    if has_error s.1 then ret = 1
    else ret = 0 ∧ pc_next (program_counter s.1) = SUIT_NEXT_EXIT ∧ stack s.1 = []).
Proof.
  intros Hr Hs. cbn [install_loop]. apply wp_bind.
  eapply wp_mono; [apply (runner_run_spec slot_addr m fuel (r, [])); [done|]|].
  { pose proof (runner_measure_bound m r Hr). cbn [fst]. lia. }
  intros s (_&Hstop&Hkept&_). assert (suspended s.1 = false) as Hs' by by apply Hkept.
  unfold suit_runner_finished, suit_runner_suspended. rewrite Hs'. destruct (has_error s.1) eqn:He; cbn.
  - cbn in *. by rewrite He.
  - unfold stopped in Hstop. cbn in *. rewrite He, Hs' in *. split; [done|].
    by destruct Hstop as [?|[?|?]].
Qed.

(** The example ends for all files: it exits with 0 or 1, and 1 if there are no
    files, one of them cannot be read, or there are more than eight. *)
Theorem run_install_ends rounds files :
  (∀ bins, read_files files = Some bins →
     Forall (fun bin => Z.of_nat (length bin) <= PTRDIFF_MAX) bins ∧ install_present bins) →
  wp (run_install slot_addr fuel (S rounds) files) (fun '(u, ret) =>
    (ret = 0 ∨ ret = 1) ∧
    (files = [] ∨ read_files files = None ∨ (SUIT_MANIFEST_MAX < length files)%nat → ret = 1 ∧ u = [])).
Proof.
  intros Hfiles. unfold run_install. case_bool_decide as Hnil; [by split; [right|]|].
  destruct (read_files files) as [bins|] eqn:Hread; [|by split; [right|]].
  destruct (Hfiles bins eq_refl) as [Hsmall Hinstall]. apply read_files_length in Hread as Hlen.
  pose proof (add_all_spec bins suit_context_init context_init_ok Hsmall) as Hadd. unfold install_present in Hinstall.
  destruct (add_all suit_context_init bins) as [| |[p ok]]; [done..|]. cbn [mbind outcome_bind].
  destruct Hadd as [Hp Hok]. destruct ok; cbn [negb]; [|by split; [right|]].
  destruct (Hok eq_refl) as [Hn Hmax]. cbn in Hn, Hmax.
  assert (∃ m, root p = Some m) as [m Hm].
  { unfold root. destruct files; [done|]. cbn in Hlen. rewrite Hn, <-Hlen. cbn [Nat.eqb].
    apply lookup_lt_is_Some_2. destruct Hp as (-> & _). unfold SUIT_MANIFEST_MAX. lia. }
  destruct (Hinstall p m eq_refl Hm) as [body Hbody].
  destruct (runner_init_spec (code := resume_code) p m body Hp Hm Hbody) as (r&->&Hr&_&Hs&_).
  cbn [mbind outcome_bind]. apply wp_bind. eapply wp_mono; [by apply (install_loop_spec m)|].
  intros [s ret] Hret. cbn [wp]. split; [revert Hret; case_match; [by right|intros [? _]; by left]|].
  intros [?|[?|?]]; [done|done|]. unfold SUIT_MANIFEST_MAX in *. lia.
Qed.
End ends.

(** ** Witness: the sample of SuitRunnerTheorems *)

Lemma sample_added : add_all suit_context_init [sample_envelope] = Done (sample_context, true).
Proof. by vm_compute. Qed.

Lemma sample_install_present : install_present [sample_envelope].
Proof.
  intros p m. rewrite sample_added. intros [<- _]%done_pair. rewrite sample_root_eq.
  intros Hm. assert (sample_root = m) as <- by by apply (inj Some).
  exists sample_body. apply sample_body_eq.
Qed.

(** The second component is fetched. *)
Lemma run_install_ends_witness :
  (∃ t, run_install slots 100 1 [Some sample_envelope] = Done ([t], 0)) ∧
  ∃ u ret, run_install slots (S (Z.to_nat runner_fuel)) 1 [Some sample_envelope] = Done (u, ret) ∧ (ret = 0 ∨ ret = 1).
Proof.
  split; [eexists; by vm_compute|].
  assert (runner_fuel < Z.of_nat (S (Z.to_nat runner_fuel))) as Hfuel.
  { rewrite Nat2Z.inj_succ, Z2Nat.id; unfold runner_fuel, command_weight, PTRDIFF_MAX; lia. }
  assert (∀ bins, read_files [Some sample_envelope] = Some bins →
    Forall (fun bin => Z.of_nat (length bin) <= PTRDIFF_MAX) bins ∧ install_present bins) as Hfiles.
  { intros bins [= <-]. split; [|apply sample_install_present].
    constructor; [|constructor]. apply Z.leb_le. by vm_compute. }
  destruct (wp_elim _ _ (run_install_ends slots (S (Z.to_nat runner_fuel)) Hfuel 0 [Some sample_envelope] Hfiles))
    as ([u ret]&Hrun&Hret&_).
  exists u, ret. split; [exact Hrun|exact Hret].
Defined.
