(* ===== verification/ExampleUtil.v ===== *)
(** * ExampleUtil: printing ([lib/suit/example/example-util.cpp])

    What the examples of the SUIT library print is the text on the standard
    output, which every function takes and returns with its own text behind it.
    A conversion of [printf] that does not fit its argument is undefined
    behaviour. *)

From stdpp Require Import strings.
From S2P Require Import Prelude Text Tcbor SuitTypes SuitParser SuitAuth.

Local Open Scope Z_scope.

(** ** Standard output *)

(** A statement that prints. *)
Definition printing : Type := list byte → outcome (list byte).

Definition nothing : printing := Done.
Definition then_print (f g : printing) : printing := fun out => out ← f out; g out.
Definition put (text : list byte) : printing := fun out => Done (out ++ text).

(** A literal, without and with a newline at its end. *)
Definition say (s : String.string) : printing := put (bytes_of_string s).
Definition say_line (s : String.string) : printing := put (bytes_of_string s ++ newline).

Declare Scope print_scope.
Delimit Scope print_scope with print.
Notation "f ;> g" := (then_print f g) (at level 90, right associativity) : print_scope.
#[global] Open Scope print_scope.

(** [%PRIu64] of an [int]: the type of the argument is not the one of the
    conversion. *)
Definition put_u64_of_int (value : Z) : printing := fun _ => Ub.

(** ** Files *)

(** The loop of [read_file]: [std::fread] hands out at most 4096 bytes of what the
    file still yields, until there are none. *)
Fixpoint read_file_loop (fuel : nat) (dst rest : list byte) : outcome (list byte) :=
  match fuel with
  | O => NoFuel
  | S fuel =>
      let buf := take 4096 rest in
      if bool_decide (buf = []) then Done dst
      else read_file_loop fuel (dst ++ buf) (drop 4096 rest)
  end.

(** A file is what can be read of it, [None] if it cannot be opened. *)
Definition read_file (dst : list byte) (file : option (list byte)) : outcome (list byte * bool) :=
  match file with
  | None => Done (dst, false)
  | Some content => dst ← read_file_loop (S (length content)) dst content; Done (dst, true)
  end.

(** ** Ranges *)

(** The inner loop of [hexdump]: the rest of a line of [i] bytes. *)
Fixpoint hexdump_line (i : nat) (buf : list byte) (p e : Z) (out : list byte) : outcome (Z * list byte) :=
  match i with
  | O => Done (p, out)
  | S i =>
      if p =? e then Done (p, out)
      else
        b ← load buf p;
        hexdump_line i buf (p + 1) e (out ++ [x20] ++ hex2 b)
  end.

Fixpoint hexdump_loop (fuel : nat) (buf : list byte) (p e : Z) : printing := fun out =>
  if p =? e then Done out
  else
    match fuel with
    | O => NoFuel
    | S fuel =>
        '(p, out) ← hexdump_line 16 buf p e out;
        hexdump_loop fuel buf p e (out ++ newline)
    end.

Definition hexdump (r : tcbor_range) : printing :=
  match r with
  | None => say_line " (NULL)"
  | Some s => hexdump_loop (Z.to_nat (range_len r)) (sp_buf s) (sp_begin s) (sp_end s)
  end.

(** The loops of [print_tstr] and [print_bstr], over the text of one byte. *)
Fixpoint print_bytes (text : Z → list byte) (fuel : nat) (buf : list byte) (p e : Z) : printing := fun out =>
  if p =? e then Done out
  else
    match fuel with
    | O => NoFuel
    | S fuel =>
        b ← load buf p;
        print_bytes text fuel buf (p + 1) e (out ++ text b)
    end.

Definition print_range (text : Z → list byte) (r : tcbor_range) : printing :=
  match r with
  | None => say "(NULL)"
  | Some s => print_bytes text (Z.to_nat (range_len r)) (sp_buf s) (sp_begin s) (sp_end s)
  end.

Definition print_tstr : tcbor_range → printing := print_range (fun b => [to_byte b]).
Definition print_bstr : tcbor_range → printing := print_range hex2.

(** ** SUIT *)

(** [s.digest] where the union holds one. *)
Definition read_digest_member (u : severable_union) : outcome suit_digest :=
  match u with UDigest d => Done d | _ => Ub end.

Definition print_severable (s : suit_severable) : printing :=
  if negb (has_value s) then say_line " (NULL)"
  else if severed s then fun out =>
    d ← read_digest_member (sev_union s);
    (say "  id=" ;> put_u64_of_int (algorithm_id d) ;> put newline ;> hexdump (digest_bytes d)) out
  else fun out => body ← read_body (sev_union s); hexdump body out.

Definition print_digest (d : suit_digest) : printing :=
  say "  algorithm=" ;> put_u64_of_int (algorithm_id d) ;> put newline ;> hexdump (digest_bytes d).

(** The argument is [w.digest], the only member that is used. *)
Definition print_auth_wrapper (w : suit_digest) : printing := print_digest w.

Definition print_envelope_field (envelope_bstr : tcbor_range) (key : Z) : printing := fun out =>
  o ← suit_envelope_get_field_by_key envelope_bstr key;
  match o with Some field => hexdump field out | None => Done out end.

(** The target is a component, or a dependency. *)
Definition pirnt_object (target : option suit_component) : printing :=
  match target with
  | Some c => say "component: id=" ;> print_bstr (id_cbor c) ;> put newline
  | None => say "dependency: id="
  end.
