(* ===== verification/Dump.v ===== *)
(** * Dump: the example that prints a manifest ([lib/suit/example/dump.cpp]) *)

From stdpp Require Import strings.
From S2P Require Import Prelude Text Tcbor SuitTypes SuitParser SuitAuth RunInstall ExampleUtil.

Local Open Scope Z_scope.

(** ** Command sequences *)

Definition command_names : list (Z * String.string) := [
  (SUIT_CONDITION_VENDOR_IDENTIFIER, "cond_vendor_id"%string);
  (SUIT_CONDITION_CLASS_IDENTIFIER, "cond_class_id"%string);
  (SUIT_CONDITION_IMAGE_MATCH, "cond_image_match"%string);
  (SUIT_CONDITION_USE_BEFORE, "cond_use_before"%string);
  (SUIT_CONDITION_COMPONENT_OFFSET, "cond_component_offset"%string);
  (SUIT_CONDITION_ABORT, "cond_abort"%string);
  (SUIT_CONDITION_DEVICE_IDENTIFIER, "cond_device_id"%string);
  (SUIT_CONDITION_IMAGE_NOT_MATCH, "cond_image_not_match"%string);
  (SUIT_CONDITION_MINIMUM_BATTERY, "cond_minimum_bettery"%string);
  (SUIT_CONDITION_UPDATE_AUTHORIZED, "cond_update_authorized"%string);
  (SUIT_CONDITION_VERSION, "cond_version"%string);
  (SUIT_DIRECTIVE_SET_COMPONENT_INDEX, "set_component_index"%string);
  (SUIT_DIRECTIVE_SET_DEPENDENCY_INDEX, "set_dependency_index"%string);
  (SUIT_DIRECTIVE_TRY_EACH, "try_each"%string);
  (SUIT_DIRECTIVE_PROCESS_DEPENDENCY, "process_dependency"%string);
  (SUIT_DIRECTIVE_SET_PARAMETERS, "set_parameters"%string);
  (SUIT_DIRECTIVE_OVERRIDE_PARAMETERS, "override_parameters"%string);
  (SUIT_DIRECTIVE_FETCH, "fetch"%string);
  (SUIT_DIRECTIVE_COPY, "copy"%string);
  (SUIT_DIRECTIVE_RUN, "run"%string);
  (SUIT_DIRECTIVE_WAIT, "wait"%string);
  (SUIT_DIRECTIVE_FETCH_URI_LIST, "fetch_uri_list"%string);
  (SUIT_DIRECTIVE_SWAP, "swap"%string);
  (SUIT_DIRECTIVE_RUN_SEQUENCE, "run_sequence"%string);
  (SUIT_DIRECTIVE_GARBAGE_COLLECT, "gabage_collect"%string)].

(** The [switch]: the name of the one case that matches. *)
Definition command_name (command : Z) : option String.string :=
  snd ∘ snd <$> list_find (fun case => case.1 = command) command_names.

(** [printf("  %s (%d)\n", ...)]. *)
Definition command_line (command : Z) : list byte :=
  bytes_of_string "  " ++ bytes_of_string (default "unknown command"%string (command_name command)) ++
  bytes_of_string " (" ++ decimal command ++ bytes_of_string ")" ++ newline.

Definition sequence_error : list byte := bytes_of_string "  parse error (command sequence)" ++ newline.

(** The [while] loop; a round consumes at least one byte. *)
Fixpoint print_commands (fuel : nat) (r : suit_command_reader) : printing := fun out =>
  if suit_command_sequence_end_of_sequence r then Done out
  else
    match fuel with
    | O => NoFuel
    | S fuel =>
        try r, command := suit_command_sequence_read_command r otherwise put sequence_error out ;;
        let out := out ++ command_line command in
        try r, _u := suit_command_sequence_skip_param r otherwise put sequence_error out ;;
        print_commands fuel r out
    end.

Definition print_command_sequence (command_sequence_bstr : tcbor_range) : printing := fun out =>
  if tcbor_range_is_null command_sequence_bstr then Done out
  else
    o ← suit_command_sequence_open command_sequence_bstr;
    match o with
    | None => put sequence_error out
    | Some r => print_commands (context_fuel r) r out
    end.

Definition print_severable_command_sequence (s : suit_severable) : printing :=
  if negb (has_value s) then nothing
  else if severed s then nothing
  else fun out => body ← read_body (sev_union s); print_command_sequence body out.

(** ** The manifest *)

(** [for (size_t i = 0; i < n; i++) printf("...[%zu]: \n", i);] *)
Definition print_indices (prefix : String.string) (n : nat) : printing :=
  put (flat_map (fun i => bytes_of_string prefix ++ bytes_of_string "[" ++ decimal (Z.of_nat i) ++
                          bytes_of_string "]: " ++ newline) (seq 0 n)).

(** One severable member with a command sequence, and one range with one. *)
Definition print_severable_member (heading : String.string) (s : suit_severable) : printing :=
  say_line heading ;> print_severable s ;> print_severable_command_sequence s.

Definition print_range_member (heading : String.string) (r : tcbor_range) : printing :=
  say_line heading ;> hexdump r ;> print_command_sequence r.

Definition put_number (heading : String.string) (n : Z) : printing :=
  say heading ;> put (decimal n) ;> put newline.

Definition print_manifest (manifest : suit_manifest) : printing :=
  say_line "envelope.manifest:" ;>
  hexdump (binary manifest) ;>
  put_number "envelope.manifest.version: " (version manifest) ;>
  put_number "envelope.manifest.sequence_number: " (sequence_number manifest) ;>
  say_line "envelope.manifest.common:" ;>
  hexdump (common_bstr manifest) ;>
  print_indices "envelope.manifest.dependencies" (n_dependencies (common manifest)) ;>
  print_indices "envelope.manifest.components" (n_components (common manifest)) ;>
  print_range_member "envelope.manifest.command_sequence:" (command_sequence (common manifest)) ;>
  say_line "envelope.manifest.reference_uri:" ;>
  hexdump (reference_uri manifest) ;>
  print_severable_member "envelope.manifest.dependency_resolution:" (dependency_resolution manifest) ;>
  print_severable_member "envelope.manifest.payload_fetch:" (payload_fetch manifest) ;>
  print_severable_member "envelope.manifest.install:" (install manifest) ;>
  say_line "envelope.manifest.text:" ;>
  print_severable (text manifest) ;>
  say_line "envelope.manifest.coswid:" ;>
  print_severable (coswid manifest) ;>
  print_range_member "envelope.manifest.validate:" (validate manifest) ;>
  print_range_member "envelope.manifest.load:" (load_seq manifest) ;>
  print_range_member "envelope.manifest.run:" (run_seq manifest).

(** ** The program *)

Definition dump_envelope (uninitialized : suit_manifest) (envelope_bstr : tcbor_range) : printing :=
  say_line "envelope:" ;>
  hexdump envelope_bstr ;>
  say_line "envelope.delegation:" ;>
  print_envelope_field envelope_bstr SUIT_DELEGATION ;>
  say_line "envelope.authentication_wrapper:" ;>
  print_envelope_field envelope_bstr SUIT_AUTHENTICATION_WRAPPER ;>
  fun out =>
    '(manifest, ok) ← suit_envelope_get_manifest envelope_bstr uninitialized;
    match ok with Some _ => print_manifest manifest out | None => Done out end.

(** [main]: the standard output and the exit status.  The arguments are the files,
    and [uninitialized] is what the variable [manifest] holds before it is parsed
    into. *)
Definition dump (uninitialized : suit_manifest) (files : list (option (list byte))) : outcome (list byte * Z) :=
  match files with
  | [] => out ← say_line "Usage: dump envelope" []; Done (out, 1)
  | file :: _ =>
      '(envelope_binary, ok) ← read_file [] file;
      if negb ok then Done ([], 1)
      else out ← dump_envelope uninitialized (vector_range envelope_binary) []; Done (out, 0)
  end.
