(* ===== verification/DumpFacts.v ===== *)
(** * DumpFacts: what the printing functions print

    [emits f t]: the statement [f] is defined and prints the text [t]. *)

From stdpp Require Import strings.
From S2P Require Import Prelude Text Tcbor TcborFacts CborSpec CborTree SuitTypes SuitParser SuitParserFacts.
From S2P Require Import SuitAuth RunInstall ExampleUtil Dump.

Local Open Scope Z_scope.

(** ** Statements that print *)

Definition emits (f : printing) (t : list byte) : Prop := ∀ out, f out = Done (out ++ t).

(** Defined, and only adds to the output. *)
Definition prints (f : printing) : Prop := ∃ t, emits f t.

Lemma emits_put t : emits (put t) t.
Proof. done. Qed.

Lemma emits_say_line s : emits (say_line s) (bytes_of_string s ++ newline).
Proof. done. Qed.

Lemma emits_nothing : emits nothing [].
Proof. intros out. by rewrite app_nil_r. Qed.

Lemma emits_then f g t u : emits f t → emits g u → emits (f ;> g) (t ++ u).
Proof. intros Hf Hg out. unfold then_print. rewrite Hf. cbn. by rewrite Hg, app_assoc. Qed.

Lemma then_emits f g t out : emits f t → (f ;> g) out = g (out ++ t).
Proof. intros Hf. unfold then_print. by rewrite Hf. Qed.

Lemma prints_emits f t : emits f t → prints f.
Proof. by exists t. Qed.

Lemma prints_put t : prints (put t).
Proof. by exists t. Qed.

Lemma prints_nothing : prints nothing.
Proof. eapply prints_emits, emits_nothing. Qed.

Lemma prints_then f g : prints f → prints g → prints (f ;> g).
Proof. intros [t Ht] [u Hu]. exists (t ++ u). by apply emits_then. Qed.

Lemma then_ub f g : prints f → (∀ out, g out = Ub) → ∀ out, (f ;> g) out = Ub.
Proof. intros [t Ht] Hg out. unfold then_print. rewrite Ht. apply Hg. Qed.

Lemma prints_say s : prints (say s).
Proof. apply prints_put. Qed.

Lemma prints_say_line s : prints (say_line s).
Proof. apply prints_put. Qed.

Lemma prints_indices prefix n : prints (print_indices prefix n).
Proof. apply prints_put. Qed.

#[export] Hint Resolve emits_put emits_nothing prints_put prints_nothing prints_then prints_say prints_say_line
  prints_indices : c_ok.

(** ** Files *)

Lemma read_file_loop_spec fuel : ∀ dst rest,
  (length rest < fuel)%nat → read_file_loop fuel dst rest = Done (dst ++ rest).
Proof.
  induction fuel as [|fuel IH]; intros dst rest Hl; [lia|]. cbn [read_file_loop].
  destruct rest as [|b rest].
  { rewrite bool_decide_true by done. by rewrite app_nil_r. }
  rewrite bool_decide_false by done. rewrite IH.
  - by rewrite <-app_assoc, take_drop.
  - rewrite length_drop. cbn [length] in *. lia.
Qed.

(** Whatever the size of the buffer, the whole file is read. *)
Lemma read_file_spec dst content : read_file dst (Some content) = Done (dst ++ content, true).
Proof. unfold read_file. rewrite read_file_loop_spec by lia. done. Qed.

(** ** Hexadecimal *)

(** The bytes of a line, and of all lines of at most [n] bytes. *)
Definition hex_bytes (bs : list byte) : list byte := flat_map (fun b => x20 :: hex2 (u8 b)) bs.

Fixpoint hex_lines (fuel n : nat) (bs : list byte) : list byte :=
  match fuel, bs with
  | O, _ | _, [] => []
  | S fuel, bs => hex_bytes (take n bs) ++ newline ++ hex_lines fuel n (drop n bs)
  end.

Definition hex_text (bs : list byte) : list byte := hex_lines (length bs) 16 bs.

(** The text of a range, null included. *)
Definition range_text (r : tcbor_range) : list byte :=
  match r with
  | None => bytes_of_string " (NULL)" ++ newline
  | Some s => hex_text (span_bytes s)
  end.

Lemma hexdump_line_spec i : ∀ buf p e out,
  0 <= p <= e → e <= Z.of_nat (length buf) →
  hexdump_line i buf p e out =
    Done (p + Z.of_nat (length (take i (slice buf p e))), out ++ hex_bytes (take i (slice buf p e))).
Proof.
  induction i as [|i IH]; intros buf p e out Hp He; cbn [hexdump_line].
  - cbn. by rewrite Z.add_0_r, app_nil_r.
  - destruct (Z.eqb_spec p e) as [->|].
    + rewrite slice_nil. cbn. by rewrite Z.add_0_r, app_nil_r.
    + destruct (slice_cons buf p e) as (b&Hload&Hs); [lia..|].
      rewrite Hload, Hs. cbn [mbind outcome_bind]. rewrite IH by lia.
      cbn [take hex_bytes flat_map length]. f_equal. f_equal; [lia|].
      by rewrite <-!app_assoc.
Qed.

Lemma hexdump_loop_spec fuel : ∀ buf p e,
  0 <= p <= e → e <= Z.of_nat (length buf) → (Z.to_nat (e - p) <= fuel)%nat →
  emits (hexdump_loop fuel buf p e) (hex_lines fuel 16 (slice buf p e)).
Proof.
  induction fuel as [|fuel IH]; intros buf p e Hp He Hf out; cbn [hexdump_loop];
    destruct (Z.eqb_spec p e) as [->|]; try lia.
  - cbn. by rewrite app_nil_r.
  - rewrite slice_nil. cbn. by rewrite app_nil_r.
  - rewrite hexdump_line_spec by lia. cbn [mbind outcome_bind].
    pose proof (slice_length buf p e Hp He) as Hlen.
    set (bs := slice buf p e) in *. set (k := length (take 16 bs)).
    assert (Z.of_nat k = Z.min 16 (e - p)) as Hk by (unfold k; rewrite length_take; lia).
    rewrite IH by lia. destruct bs as [|b bs'] eqn:Hbs; [cbn in Hlen; lia|].
    assert (slice buf (p + Z.of_nat k) e = drop 16 (b :: bs')) as ->.
    { rewrite <-slice_drop by lia. fold bs. rewrite Hbs.
      unfold k. rewrite length_take. destruct (decide (16 ≤ length (b :: bs'))%nat).
      - by rewrite Nat.min_l.
      - rewrite Nat.min_r by lia. by rewrite !drop_ge by lia. }
    cbn [hex_lines]. by rewrite <-!app_assoc.
Qed.

Lemma hexdump_emits r : range_ok r → emits (hexdump r) (range_text r).
Proof.
  destruct r as [s|]; cbn [range_text hexdump]; [|intros _; apply emits_put].
  intros Hs. pose proof (span_bytes_length s Hs) as Hl. destruct Hs as [? ?]. cbn [range_len] in *.
  unfold hex_text. replace (length (span_bytes s)) with (Z.to_nat (sp_end s - sp_begin s)) by lia.
  apply hexdump_loop_spec; lia.
Qed.

(** Reading such a text back. *)
Definition hex_value (d : byte) : option Z :=
  let c := u8 d in
  if (48 <=? c) && (c <=? 57) then Some (c - 48)
  else if (65 <=? c) && (c <=? 70) then Some (c - 55)
  else None.

Fixpoint undump (text : list byte) : option (list byte) :=
  match text with
  | [] => Some []
  | c :: text =>
      if bool_decide (c = x0a) then undump text
      else
        match text with
        | d1 :: d2 :: text =>
            if bool_decide (c = x20) then
              h ← hex_value d1; l ← hex_value d2; bs ← undump text; Some (to_byte (h * 16 + l) :: bs)
            else None
        | _ => None
        end
  end.

Lemma hex_value_digit d : 0 <= d < 16 → hex_value (hex_digit_upper d) = Some d.
Proof.
  intros Hd. assert (d = 0 ∨ d = 1 ∨ d = 2 ∨ d = 3 ∨ d = 4 ∨ d = 5 ∨ d = 6 ∨ d = 7 ∨ d = 8 ∨ d = 9 ∨ d = 10 ∨
    d = 11 ∨ d = 12 ∨ d = 13 ∨ d = 14 ∨ d = 15) as Hcases by lia.
  by repeat (destruct Hcases as [->|Hcases]; [reflexivity|]); subst.
Qed.

Lemma undump_byte b text : undump (x20 :: hex2 (u8 b) ++ text) = (bs ← undump text; Some (b :: bs)).
Proof.
  pose proof (u8_range b). unfold hex2. cbn [undump app]. rewrite bool_decide_false by done.
  rewrite bool_decide_true by done. rewrite !hex_value_digit.
  - cbn [mbind option_bind]. by rewrite Z.mul_comm, <-Z.div_mod, to_byte_u8 by lia.
  - split; [by apply Z.div_pos; lia|]. apply Z.div_lt_upper_bound; lia.
  - by apply Z.mod_pos_bound.
Qed.

Lemma undump_bytes bs text : undump (hex_bytes bs ++ text) = (more ← undump text; Some (bs ++ more)).
Proof.
  induction bs as [|b bs IH]; cbn [hex_bytes flat_map].
  - cbn. by destruct (undump text).
  - fold (hex_bytes bs). change ((_ ++ hex_bytes bs) ++ text) with (x20 :: hex2 (u8 b) ++ hex_bytes bs ++ text).
    rewrite undump_byte, IH.
    by destruct (undump text).
Qed.

Lemma undump_lines fuel n : ∀ bs,
  (0 < n)%nat → (length bs <= fuel)%nat → undump (hex_lines fuel n bs) = Some bs.
Proof.
  induction fuel as [|fuel IH]; intros bs Hn Hl; [by destruct bs; cbn in *; [|lia]|].
  destruct bs as [|b bs]; [done|]. cbn [hex_lines]. rewrite undump_bytes. cbn [newline app undump].
  rewrite bool_decide_true by done. rewrite IH; [|done|].
  - cbn [mbind option_bind]. by rewrite take_drop.
  - rewrite length_drop. cbn [length] in *. lia.
Qed.

(** ** Command sequences *)

(** What is printed of the items of a sequence. *)
Fixpoint sequence_text (l : list cbor) : list byte :=
  match l with
  | [] => []
  | x :: l =>
      match item_uint x with
      | Some command =>
          if INT_MAX <? command then sequence_error
          else command_line command ++ match l with [] => sequence_error | _ :: l => sequence_text l end
      | None => sequence_error
      end
  end.

Lemma read_command_spec c :
  ctx_ok c → wp (suit_command_sequence_read_command c) (fun '(c', o) =>
    match o with Some _ => ctx_ok c' ∧ range_len (c_r c') < range_len (c_r c) | None => True end).
Proof.
  intros Hc. unfold suit_command_sequence_read_command. wp_read read_uint_spec.
  intros [c1 [v|]]; [|done]. intros (?&_&?&_). by destruct (INT_MAX <? v).
Qed.

(** Every sequence is printed, whatever it holds. *)
Lemma print_commands_prints fuel : ∀ r,
  ctx_ok r → range_len (c_r r) < Z.of_nat fuel → prints (print_commands fuel r).
Proof.
  induction fuel as [|fuel IH]; intros r Hr Hf.
  { destruct Hr as [Hr _]. pose proof (range_len_nonneg _ Hr). lia. }
  unfold prints, emits. cbn [print_commands].
  destruct (suit_command_sequence_end_of_sequence r); [apply prints_nothing|].
  destruct (wp_elim _ _ (read_command_spec r Hr)) as ([r1 [command|]]&->&H1); cbn [or_else].
  2: { by exists sequence_error. }
  destruct H1 as [Hok1 Hl1]. unfold suit_command_sequence_skip_param.
  destruct (wp_elim _ _ (skip_spec 1 ltac:(by unfold u64_modulus) r1 Hok1)) as ([r2 [u|]]&->&H2); cbn [or_else].
  2: { exists (command_line command ++ sequence_error). intros out. unfold put. by rewrite app_assoc. }
  destruct H2 as (Hok2&_&Hl2&_). destruct (IH r2 Hok2) as [t Ht]; [lia|].
  exists (command_line command ++ t). intros out. by rewrite Ht, app_assoc.
Qed.

Lemma print_command_sequence_prints r : range_ok r → prints (print_command_sequence r).
Proof.
  intros Hr. unfold print_command_sequence, prints, emits.
  destruct (tcbor_range_is_null r); [apply prints_nothing|].
  unfold suit_command_sequence_open.
  destruct (wp_elim _ _ (read_array_child _ (toplevel_ok _ Hr))) as ([c [arr|]]&->&H); cbn [or_else mbind outcome_bind].
  2: { by exists sequence_error. }
  destruct H as (_&_&Ha&_). apply print_commands_prints; eauto with c_ok.
Qed.

(** On encoded items it prints their text. *)
Lemma print_commands_at fuel : ∀ r l rest,
  at_items r l rest → range_len (c_r r) < Z.of_nat fuel →
  emits (print_commands fuel r) (sequence_text l).
Proof.
  induction fuel as [|fuel IH]; intros r l rest Hat Hf out.
  { destruct (at_items_ok _ _ _ Hat) as [Hr _]. pose proof (range_len_nonneg _ Hr). lia. }
  pose proof (at_items_ok _ _ _ Hat) as Hok.
  destruct (wp_elim _ _ (read_command_spec r Hok)) as (res&Hres&Hlen).
  cbn [print_commands]. unfold suit_command_sequence_end_of_sequence. rewrite (at_items_end _ _ _ Hat).
  destruct l as [|x l]; [cbn; by rewrite app_nil_r|]. cbn [sequence_text].
  unfold suit_command_sequence_read_command in *. pose proof (at_read_uint r x l rest Hat) as Hu.
  destruct (item_uint x) as [command|].
  2: { by destruct Hu as (r1&->&_). }
  destruct Hu as (r1&a&Hread&->&Hat1). rewrite Hread in *. cbn [or_else] in *.
  destruct (INT_MAX <? command); [done|]. injection Hres as <-. cbn [or_else].
  unfold suit_command_sequence_skip_param. destruct Hlen as [Hok1 Hl1].
  destruct (wp_elim _ _ (skip_spec 1 ltac:(by unfold u64_modulus) r1 Hok1)) as ([r2 o]&Hskip&H2).
  destruct l as [|y l].
  - destruct Hat1 as (_&(_&?&?)&Hn&_). cbn in Hn. unfold tcbor_skip. rewrite to_u64_small by lia.
    rewrite Hn. cbn. unfold put. by rewrite <-app_assoc.
  - destruct (at_skip_one r1 y l rest Hat1) as (r3&Hskip3&Hat3). rewrite Hskip3 in *. cbn [or_else].
    injection Hskip as <- <-. destruct H2 as (_&_&Hl2&_). rewrite (IH r3 l rest) by (done || lia).
    by rewrite app_assoc.
Qed.

(** ** Manifests *)

(** A member the program prints without undefined behaviour. *)
Definition printable (s : suit_severable) : Prop := has_value s = true → severed s = false.

#[export] Instance printable_dec s : Decision (printable s).
Proof. unfold printable. apply _. Defined.

(** No member is severed. *)
Definition unsevered (m : suit_manifest) : Prop := severables printable m.

#[export] Instance unsevered_dec m : Decision (unsevered m).
Proof. unfold unsevered, severables. apply _. Defined.

Lemma hexdump_prints r : range_ok r → prints (hexdump r).
Proof. intros Hr. eapply prints_emits. by apply hexdump_emits. Qed.

Lemma field_prints env key : range_ok env → prints (print_envelope_field env key).
Proof.
  intros Henv. unfold print_envelope_field, prints, emits, suit_envelope_get_field_by_key.
  destruct (wp_elim _ _ (get_field_safe env false key tcbor_range_null Henv I)) as (o&->&Ho).
  cbn [mbind outcome_bind]. destruct o as [r|]; [|apply prints_nothing].
  apply hexdump_prints. by eapply range_within_ok.
Qed.

(** A member of a parsed manifest. *)
Lemma severable_prints s : severable_set range_ok s → printable s → prints (print_severable s).
Proof.
  intros Hs Hp. unfold print_severable. destruct (has_value s) eqn:Hv; cbn [negb]; [|apply prints_put].
  specialize (Hs Hv). specialize (Hp Hv). rewrite Hp in *. destruct Hs as (b&->&Hb&_).
  by apply hexdump_prints.
Qed.

Lemma severable_sequence_prints s : severable_set range_ok s → prints (print_severable_command_sequence s).
Proof.
  intros Hs. unfold print_severable_command_sequence. destruct (has_value s) eqn:Hv; [|apply prints_nothing].
  specialize (Hs Hv). cbn [negb]. destruct (severed s); [apply prints_nothing|].
  destruct Hs as (b&->&Hb&_). by apply print_command_sequence_prints.
Qed.

Lemma severable_ub s out : severable_set range_ok s → ¬ printable s → print_severable s out = Ub.
Proof.
  intros Hs Hp. unfold print_severable, printable in *. destruct (has_value s) eqn:Hv; cbn [negb].
  - specialize (Hs Hv). destruct (severed s); [|by destruct Hp]. by destruct Hs as (d&->&_).
  - by destruct Hp.
Qed.

Lemma severable_member_prints heading s :
  severable_set range_ok s → printable s → prints (print_severable_member heading s).
Proof.
  intros Hs Hp. unfold print_severable_member, say_line.
  eauto using severable_prints, severable_sequence_prints with c_ok.
Qed.

Lemma range_member_prints heading r : range_ok r → prints (print_range_member heading r).
Proof.
  intros Hr. unfold print_range_member, say_line.
  eauto using hexdump_prints, print_command_sequence_prints with c_ok.
Qed.

Lemma put_number_prints heading n : prints (put_number heading n).
Proof. unfold put_number, say. auto with c_ok. Qed.

#[export] Hint Resolve print_command_sequence_prints hexdump_prints field_prints severable_prints severable_member_prints
  range_member_prints put_number_prints : c_ok.

(** The statements in front of the last one. *)
Lemma then_decided f g : (∀ out, f out = Ub) ∨ (prints f ∧ ∀ out, g out = Ub) → ∀ out, (f ;> g) out = Ub.
Proof.
  intros [Hf|[Hf Hg]]; [|by apply then_ub]. intros out. unfold then_print. by rewrite Hf.
Qed.

(** Go past a statement that prints. *)
Ltac skip_printed := apply then_decided; right; split; [by auto with c_ok|].

Lemma severable_member_ub heading s :
  severable_set range_ok s → ¬ printable s → ∀ out, print_severable_member heading s out = Ub.
Proof.
  intros Hs Hp. unfold print_severable_member. skip_printed. apply then_decided. left. intros out. by apply severable_ub.
Qed.

Definition manifest_printable (m : suit_manifest) : Prop :=
  manifest_ranges range_ok m ∧ range_ok (command_sequence (common m)) ∧
  severables (severable_set range_ok) m.

(** A manifest is printed exactly if no member of it is severed. *)
Lemma print_manifest_outcome m :
  manifest_printable m →
  if decide (unsevered m) then prints (print_manifest m) else ∀ out, print_manifest m out = Ub.
Proof.
  intros ((?&?&?&?&?&?)&?&(?&?&?&?&?)). unfold unsevered, severables, print_manifest.
  destruct (decide _) as [(?&?&?&?&?)|Hno].
  - repeat (apply prints_then; [by auto with c_ok|]). auto with c_ok.
  - repeat match goal with
    | |- ∀ out, (print_severable_member _ ?s ;> _) out = Ub =>
        destruct (decide (printable s)); [skip_printed|by apply then_decided; left; apply severable_member_ub]
    | |- ∀ out, (print_severable ?s ;> _) out = Ub =>
        destruct (decide (printable s)); [skip_printed|by apply then_decided; left; intros out; apply severable_ub]
    | _ => skip_printed
    end. tauto.
Qed.

Lemma parsed_printable env m : range_ok env → envelope_parsed env m → manifest_printable m.
Proof.
  intros Henv (r&m0&_&Hin&((Hslot&Hr&Hs&Hc&Hb&_)&Hnull)&->).
  assert (range_ok r) as Hrok by by eapply range_within_ok.
  assert (∀ x, range_within x r → range_ok x) as Hok by (intros x Hx; by eapply range_within_ok).
  specialize (Hc Hnull). destruct m0, Hc as (_&_&_&Hseq).
  unfold manifest_printable, manifest_ranges, severables in *. cbn in *. destruct_and!.
  pose proof (fun s => severable_set_mono (fun x => range_within x r) range_ok s Hok). split_and!; auto.
Qed.
