(* ===== verification/DumpTheorems.v ===== *)
(** * DumpTheorems: the example that prints manifests

    What is printed does not depend on the memory the manifest is parsed into;
    the program ends, unless a member of the manifest is severed; command
    sequences and bytes are printed as they are. *)

From stdpp Require Import strings.
From S2P Require Import Prelude Text Tcbor TcborFacts CborSpec CborTree SuitTypes SuitParser SuitParserFacts.
From S2P Require Import SuitSpec SuitAuth SuitTheorems RunInstall ExampleUtil Dump DumpFacts.

Local Open Scope Z_scope.

(** ** The slot a manifest is parsed into *)

(** The union of an absent member, and the common section before it is read, are
    whatever they were. *)
Definition same_severable (s s' : suit_severable) : Prop :=
  has_value s = has_value s' ∧ (has_value s = true → s = s').

Record same_manifest (m m' : suit_manifest) : Prop := {
  same_envelope : envelope_bstr m = envelope_bstr m';
  same_binary : binary m = binary m';
  same_version : version m = version m';
  same_number : sequence_number m = sequence_number m';
  same_common_bstr : common_bstr m = common_bstr m';
  same_common : tcbor_range_is_null (common_bstr m) = false → common m = common m';
  same_uri : reference_uri m = reference_uri m';
  same_resolution : same_severable (dependency_resolution m) (dependency_resolution m');
  same_fetch : same_severable (payload_fetch m) (payload_fetch m');
  same_install : same_severable (install m) (install m');
  same_text : same_severable (text m) (text m');
  same_coswid : same_severable (coswid m) (coswid m');
  same_validate : validate m = validate m';
  same_load : load_seq m = load_seq m';
  same_run : run_seq m = run_seq m'
}.

(** Two runs of a parser that succeed together, with the same values in the slot. *)
Definition agree {A} (o o' : outcome (suit_manifest * option A)) : Prop :=
  match o, o' with
  | Done (m, Some a), Done (m', Some a') => a = a' ∧ same_manifest m m'
  | Done (_, None), Done (_, None) | Ub, Ub | NoFuel, NoFuel => True
  | _, _ => False
  end.

Lemma same_severable_refl s : same_severable s s.
Proof. done. Qed.

Lemma read_severed_same ctx s s' :
  match read_severed ctx s, read_severed ctx s' with
  | Done (ms, Some _), Done (ms', Some _) => ms = ms'
  | Done (_, None), Done (_, None) | Ub, Ub | NoFuel, NoFuel => True
  | _, _ => False
  end.
Proof.
  unfold read_severed. destruct (tcbor_read_bstr ctx) as [| |[c [b|]]]; cbn; try done.
  unfold read_digest. destruct (tcbor_read_array c) as [| |[c1 [arr|]]]; cbn; try done.
  destruct (tcbor_read_int arr) as [| |[a1 [v|]]]; cbn; try done.
  destruct (tcbor_read_bstr a1) as [| |[a2 [d|]]]; cbn; try done.
  destruct (tcbor_skip_all a2) as [| |[a3 [u|]]]; cbn; try done.
  by destruct (tcbor_close c1 a3) as [| |[c2 [u'|]]]; cbn.
Qed.

Section slots.
Context (m m' : suit_manifest) (Hm : same_manifest m m').

(** An assignment of one value to both slots. *)
Ltac assign := destruct m, m', Hm; split; cbn in *; auto using same_severable_refl.

Lemma bstr_field_same set map :
  (∀ r, same_manifest (set m r) (set m' r)) → agree (bstr_field set map m) (bstr_field set map m').
Proof. intros Hset. unfold bstr_field. by destruct (tcbor_read_bstr map) as [| |[c [r|]]]. Qed.

Lemma severed_field_same get set map :
  (∀ s, same_manifest (set m s) (set m' s)) → agree (severed_field get set map m) (severed_field get set map m').
Proof.
  intros Hset. unfold severed_field. pose proof (read_severed_same map (get m) (get m')) as Hs.
  destruct (read_severed map (get m)) as [| |[ms [u|]]], (read_severed map (get m')) as [| |[ms' [u'|]]];
    cbn; try done. by subst.
Qed.

Lemma common_field_same map : agree (common_field map m) (common_field map m').
Proof.
  unfold common_field. destruct (tcbor_read_bstr map) as [| |[c [r|]]]; cbn; try done.
  destruct (suit_parse_common r) as [| |[cc [u|]]]; cbn; try done. split; [done|]. assign.
Qed.

Lemma skip_field_same map : agree (skip_field map m) (skip_field map m').
Proof. unfold skip_field. by destruct (tcbor_skip 1 map) as [| |[c [u|]]]. Qed.

Lemma manifest_field_same key map : agree (manifest_field key map m) (manifest_field key map m').
Proof.
  unfold manifest_field. destruct (_ || _); [done|].
  repeat match goal with |- context [if key =? ?k then _ else _] => destruct (key =? k) end;
    auto using common_field_same, skip_field_same;
    first [apply bstr_field_same|apply severed_field_same]; intros; assign.
Qed.
End slots.

Lemma manifest_loop_same fuel : ∀ map m m', same_manifest m m' →
  agree (parse_manifest_loop fuel map m) (parse_manifest_loop fuel map m').
Proof.
  induction fuel as [|fuel IH]; intros map m m' Hm; cbn [parse_manifest_loop];
    destruct (tcbor_is_end_of_context map); try done.
  destruct (tcbor_read_any map) as [| |[map1 [key|]]]; cbn [or_else]; try done.
  destruct (tcbor_is_tag key); [done|].
  assert (agree (if tcbor_is_uint key then manifest_field (any_value key) map1 m else skip_field map1 m)
                (if tcbor_is_uint key then manifest_field (any_value key) map1 m' else skip_field map1 m')) as Ha.
  { destruct (tcbor_is_uint key); [by apply manifest_field_same|by apply skip_field_same]. }
  destruct (if tcbor_is_uint key then _ else _) as [| |[m1 [map2|]]], (if tcbor_is_uint key then _ else _)
    as [| |[m1' [map2'|]]]; cbn in *; try done. destruct Ha as [-> Ha]. by apply IH.
Qed.

(** The start of [suit_manifest_parse], up to the loop. *)
Lemma manifest_init_same r m m' v n :
  same_manifest (with_sequence_number (with_version (manifest_init r m) v) n)
    (with_sequence_number (with_version (manifest_init r m') v) n).
Proof. destruct m, m'. by split; cbn. Qed.

Lemma manifest_parse_same r m m' : agree (suit_manifest_parse r m) (suit_manifest_parse r m').
Proof.
  unfold suit_manifest_parse. destruct (tcbor_read_map _) as [| |[c [map|]]]; cbn [or_else]; try done.
  destruct (read_key_and_uint map _) as [| |[map1 [v|]]]; cbn [or_else]; try done.
  assert (∀ x : suit_manifest, version (with_version x v) = v) as Hv by by intros [].
  rewrite !Hv. destruct (negb (v =? 1)); [done|].
  destruct (read_key_and_uint map1 _) as [| |[map2 [n|]]]; cbn [or_else]; try done.
  pose proof (manifest_loop_same (context_fuel map2) map2 _ _ (manifest_init_same r m m' v n)) as Ha.
  destruct (parse_manifest_loop _ _ _) as [| |[m1 [map3|]]], (parse_manifest_loop _ _ _)
    as [| |[m1' [map3'|]]]; cbn [agree or_else] in *; try done. destruct Ha as [<- Ha].
  destruct (tcbor_close c map3) as [| |[c' [u|]]]; cbn [or_else]; try done.
  rewrite <-(same_common_bstr _ _ Ha). by destruct (tcbor_range_is_null _).
Qed.

Lemma get_manifest_same env m m' :
  agree (suit_envelope_get_manifest env m) (suit_envelope_get_manifest env m').
Proof.
  unfold suit_envelope_get_manifest. destruct (suit_envelope_get_field_by_key _ _) as [| |[r|]]; cbn; try done.
  pose proof (manifest_parse_same r m m') as Ha.
  destruct (suit_manifest_parse r m) as [| |[m1 [u|]]], (suit_manifest_parse r m') as [| |[m1' [u'|]]];
    cbn in *; try done. destruct Ha as [_ Ha]. split; [done|]. by destruct m1, m1', Ha; split; cbn in *.
Qed.

(** ** The program *)

Lemma print_severable_same s s' : same_severable s s' →
  print_severable s = print_severable s' ∧ print_severable_command_sequence s = print_severable_command_sequence s'.
Proof.
  intros [Hv Hs]. unfold print_severable, print_severable_command_sequence.
  destruct (has_value s); rewrite <-Hv; cbn [negb]; [|done]. by rewrite (Hs eq_refl).
Qed.

Lemma print_manifest_same m m' :
  same_manifest m m' → tcbor_range_is_null (common_bstr m) = false → print_manifest m = print_manifest m'.
Proof.
  intros [] Hnull. unfold print_manifest, print_severable_member, print_range_member.
  repeat match goal with H : same_severable _ _ |- _ => apply print_severable_same in H as [? ?] end.
  specialize (same_common0 Hnull). congruence.
Qed.

(** What the last part of [dump_envelope] prints. *)
Lemma dump_manifest_spec env :
  range_ok env → ∃ m o,
    suit_envelope_get_manifest env manifest_zero = Done (m, o) ∧
    (o = Some tt → manifest_printable m) ∧
    ∀ uninitialized out,
      ('(manifest, ok) ← suit_envelope_get_manifest env uninitialized;
       match ok with Some _ => print_manifest manifest out | None => Done out end) =
      match o with Some _ => print_manifest m out | None => Done out end.
Proof.
  intros Henv. destruct (wp_elim _ _ (get_manifest_safe env manifest_zero Henv slot_zero)) as ([m o]&Hget&_&Ho).
  exists m, o. split; [done|]. split.
  { intros ->. by eapply parsed_printable. }
  intros uninitialized out. pose proof (get_manifest_same env manifest_zero uninitialized) as Ha. rewrite Hget in Ha.
  destruct (suit_envelope_get_manifest env uninitialized) as [| |[m' o']];
    cbn [agree mbind outcome_bind] in *; destruct o as [u|]; try done; destruct o' as [u'|]; try done.
  destruct Ha as [_ Ha].
  destruct Ho as (r&m0&_&_&[_ Hnull]&->). rewrite (print_manifest_same _ _ Ha); [done|]. by destruct m0.
Qed.

(** The first lines: the bytes of the file. *)
Definition envelope_text (env : tcbor_range) : list byte :=
  bytes_of_string "envelope:" ++ newline ++ range_text env.

Lemma dump_envelope_spec env :
  range_ok env → ∃ text, ∀ uninitialized,
    dump_envelope uninitialized env [] =
    ('(manifest, ok) ← suit_envelope_get_manifest env uninitialized;
     match ok with
     | Some _ => print_manifest manifest (envelope_text env ++ text)
     | None => Done (envelope_text env ++ text)
     end).
Proof.
  intros Henv. destruct (field_prints env SUIT_DELEGATION Henv) as [t1 H1].
  destruct (field_prints env SUIT_AUTHENTICATION_WRAPPER Henv) as [t2 H2].
  eexists. intros uninitialized. unfold dump_envelope.
  rewrite (then_emits _ _ _ _ (emits_say_line _)), (then_emits _ _ _ _ (hexdump_emits env Henv)).
  rewrite (then_emits _ _ _ _ (emits_say_line _)), (then_emits _ _ _ _ H1).
  rewrite (then_emits _ _ _ _ (emits_say_line _)), (then_emits _ _ _ _ H2).
  unfold envelope_text. rewrite app_nil_l, <-!app_assoc. reflexivity.
Qed.

(** C38: The outcome of the program for all arguments.  Without a file, or if the
    file cannot be read, it returns 1.  Otherwise it reads all of the file and
    prints its bytes first, and returns 0, whether or not the manifest can be
    parsed; except that the behaviour is undefined if a member of the manifest is
    severed, because the algorithm of its digest is printed as another type.  What is
    printed does not depend on the uninitialized variable. *)
Theorem dump_outcome files :
  Forall (fun file => ∀ bin, file = Some bin → Z.of_nat (length bin) <= PTRDIFF_MAX) files →
  match files with
  | [] => ∃ usage, ∀ uninitialized, dump uninitialized files = Done (usage, 1)
  | None :: _ => ∀ uninitialized, dump uninitialized files = Done ([], 1)
  | Some bin :: _ => ∃ m o text,
      suit_envelope_get_manifest (vector_range bin) manifest_zero = Done (m, o) ∧
      ∀ uninitialized, dump uninitialized files =
        if decide (o = Some tt ∧ ¬ unsevered m) then Ub
        else Done (envelope_text (vector_range bin) ++ text, 0)
  end.
Proof.
  intros Hall. destruct files as [|[bin|] files]; [by eexists|..|done].
  apply Forall_cons_1 in Hall as [Hbin _]. pose proof (vector_range_ok bin (Hbin _ eq_refl)) as Henv.
  destruct (dump_manifest_spec _ Henv) as (m&o&Hget&Hok&Hlast). exists m, o.
  destruct (dump_envelope_spec _ Henv) as [text1 Hstart].
  assert (∀ uninitialized, dump uninitialized (Some bin :: files) = 
    (out ← match o with Some _ => print_manifest m (envelope_text (vector_range bin) ++ text1)
                      | None => Done (envelope_text (vector_range bin) ++ text1) end; Done (out, 0))) as Hdump.
  { intros uninitialized. rewrite <-(Hlast uninitialized). unfold dump. rewrite read_file_spec.
    cbn [mbind outcome_bind negb]. by rewrite app_nil_l, Hstart. }
  destruct o as [[]|].
  - pose proof (print_manifest_outcome m (Hok eq_refl)) as Hm. destruct (decide (unsevered m)) as [Hu|Hu].
    + destruct Hm as [text2 Hm]. exists (text1 ++ text2). split; [done|]. intros uninitialized.
      rewrite Hdump, Hm, decide_False by tauto. cbn [mbind outcome_bind]. by rewrite <-app_assoc.
    + exists []. split; [done|]. intros uninitialized. by rewrite Hdump, Hm, decide_True.
  - exists text1. split; [done|]. intros uninitialized. rewrite Hdump, decide_False by by intros [].
    done.
Qed.

(** A command sequence that is an encoded item is printed as its commands: a
    line for each with its name and number, in order, without their arguments, up to
    the first item that is not a command or a command without an argument, where
    the error is reported; so is any item that is not an array. *)
Theorem print_command_sequence_correct s x rest :
  span_ok s → cbor_wf x = true → span_bytes s = encode x ++ rest →
  emits (print_command_sequence (Some s))
    (match x with CArray _ l => sequence_text l | _ => sequence_error end).
Proof.
  intros Hs Hx Hb out. unfold print_command_sequence. cbn [tcbor_range_is_null].
  pose proof (at_toplevel s x rest Hs Hx Hb) as Hat. unfold suit_command_sequence_open.
  destruct (wp_elim _ _ (read_array_child _ (toplevel_ok (Some s) Hs))) as (res&Hres&Hchild).
  pose proof (at_read_array _ x [] rest Hat) as Ha. destruct x as [| |ai k| |]; cbn [item_array reads] in Ha.
  1,2,4,5: by destruct Ha as (c'&->&_).
  destruct Ha as (c'&arr&Hread&Harr&_). rewrite Hread in *. injection Hres as <-. cbn [or_else mbind outcome_bind].
  destruct Hchild as (_&_&Hchild&_). eapply print_commands_at; [exact Harr|]. eauto with c_ok.
Qed.

Lemma undump_null : undump (bytes_of_string " (NULL)" ++ newline) = None.
Proof. reflexivity. Qed.

(** The hexadecimal text of a range can be read back, so it determines the
    bytes; it is not that of a null range. *)
Theorem hexdump_roundtrip s :
  span_ok s → ∃ text, emits (hexdump (Some s)) text ∧ undump text = Some (span_bytes s) ∧
    ∀ r, range_ok r → emits (hexdump r) text → r ≠ None ∧ range_bytes r = span_bytes s.
Proof.
  intros Hs. exists (range_text (Some s)). split; [by apply hexdump_emits|].
  assert (∀ s, undump (range_text (Some s)) = Some (span_bytes s)) as Hread.
  { intros s0. apply undump_lines; lia. }
  split; [apply Hread|]. intros r Hr Hemits.
  pose proof (hexdump_emits r Hr []) as Htext. rewrite (Hemits []) in Htext. injection Htext as Htext.
  pose proof (Hread s) as H. destruct r as [s'|].
  - split; [done|]. pose proof (Hread s') as H'. unfold range_text in *. rewrite <-Htext, H in H'.
    by injection H' as ->.
  - unfold range_text in *. by rewrite Htext, undump_null in H.
Qed.

(** ** Concrete inputs *)

(** The sample of SuitTheorems with its install sequence replaced by a digest. *)
Definition severed_manifest : cbor :=
  CMap 4 [num 1; num 1; num 2; num 5; num 3; bstr (encode (CMap 0 [])); num 9; CArray 2 [CAtom 1 15 15; bstr [x12]]].
Definition severed_envelope : list byte :=
  encode (CTag 24 107 (CMap 1 [num 3; bstr (encode severed_manifest)])).

Lemma dump_outcome_witness :
  dump manifest_zero [Some severed_envelope] = Ub ∧
  ∃ text, dump manifest_zero [Some (sample_envelope [x07]); None] =
    Done (envelope_text (vector_range (sample_envelope [x07])) ++ text, 0).
Proof.
  split.
  - destruct (dump_outcome [Some severed_envelope]) as (m&o&text&Hget&Hd).
    { constructor; [by intros bin [= <-]|constructor]. }
    rewrite Hd. vm_compute in Hget. injection Hget as <- <-. by vm_compute.
  - destruct (dump_outcome [Some (sample_envelope [x07]); None]) as (m&o&text&Hget&Hd).
    { constructor; [by intros bin [= <-]|by repeat constructor]. }
    exists text. rewrite Hd. vm_compute in Hget. injection Hget as <- <-. rewrite decide_False; [done|].
    intros [_ []]. by vm_compute.
Defined.

(** Three commands, the last without an argument. *)
Definition sample_commands : list cbor := [num 12; num 0; num 21; CAtom 7 22 22; num 3].

Lemma print_command_sequence_correct_witness :
  emits (print_command_sequence (Some (whole (encode (CArray 5 sample_commands)))))
    (command_line 12 ++ command_line 21 ++ command_line 3 ++ sequence_error) ∧
  command_line 21 = bytes_of_string "  fetch (21)" ++ newline.
Proof.
  split; [|reflexivity].
  exact (print_command_sequence_correct (whole (encode (CArray 5 sample_commands))) (CArray 5 sample_commands) []
    ltac:(by apply whole_ok) eq_refl eq_refl).
Defined.

Lemma hexdump_roundtrip_witness :
  hexdump (Some (whole [x01; xab])) [] = Done (bytes_of_string " 01 AB" ++ newline) ∧
  undump (bytes_of_string " 01 AB" ++ newline) = Some [x01; xab].
Proof.
  split; [reflexivity|].
  destruct (hexdump_roundtrip (whole [x01; xab]) ltac:(by apply whole_ok)) as (text&He&Hu&_).
  specialize (He []). injection He as <-. exact Hu.
Defined.
