(* ===== verification/TeepMessage.v ===== *)
(** * TeepMessage: parsing TEEP messages ([lib/teep/libteep.c], [qcbor-ext.c])

    QCBOR is not part of the repository: its decoder is the class [qcbor].  The
    heap is explicit: every block [malloc] returns has a number, and [free] of a
    block that is not live is undefined behaviour.  Whether an allocation
    succeeds is decided by the class [allocator], so that out-of-memory paths
    are covered.

    The union of [struct teep_message] is an inductive type: the code tests
    [m->type] before each access, and never changes it. *)

From S2P Require Import Prelude Tcbor.

Local Open Scope Z_scope.

(** ** Heap *)

Record heap := Heap { h_next : nat; h_live : list nat }.

Class allocator := malloc_succeeds : nat → Z → bool.

Definition malloc `{allocator} (h : heap) (size : Z) : heap * option nat :=
  if malloc_succeeds (h_next h) size
  then (Heap (S (h_next h)) (h_next h :: h_live h), Some (h_next h))
  else (Heap (S (h_next h)) (h_live h), None).

Definition free (h : heap) (p : option nat) : outcome heap :=
  match p with
  | None => Done h
  | Some b =>
      if bool_decide (b ∈ h_live h) then Done (Heap (h_next h) (filter (fun x => x ≠ b) (h_live h)))
      else Ub
  end.

(** ** QCBOR *)

(** [UsefulBufC]: the null buffer or some bytes. *)
Definition useful_buf := option (list byte).

Inductive qcbor_type :=
  | QCBOR_TYPE_NONE
  | QCBOR_TYPE_INT64
  | QCBOR_TYPE_BYTE_STRING
  | QCBOR_TYPE_TEXT_STRING
  | QCBOR_TYPE_ARRAY
  | QCBOR_TYPE_MAP
  | QCBOR_TYPE_OTHER (n : Z).

#[export] Instance qcbor_type_eq_dec : EqDecision qcbor_type.
Proof. solve_decision. Defined.

(** The members of [QCBORItem] the code reads. *)
Record qcbor_item := QItem {
  uDataType : qcbor_type;
  uLabelType : qcbor_type;
  uNestingLevel : Z;
  uNextNestLevel : Z;
  val_int64 : Z;
  val_string : useful_buf;
  val_uCount : nat;
  label_int64 : Z
}.

Class qcbor := {
  decode_context : Type;
  QCBORDecode_Init : useful_buf → decode_context;
  QCBORDecode_GetNext : decode_context → decode_context * qcbor_item;
  (** [QCBORDecode_Finish(&DC) == QCBOR_SUCCESS]. *)
  QCBORDecode_Finish : decode_context → bool;
  UsefulInputBuf_Tell : decode_context → Z;
  InBuf_UB : decode_context → useful_buf;
  UsefulBuf_Head : useful_buf → Z → useful_buf;
  UsefulBuf_Tail : useful_buf → Z → useful_buf;
  (** [None] when the result is negative. *)
  QCBOR_Int64ToUInt32 : Z → option Z
}.

(** What QCBOR documents: the input cursor never moves back, an item that is not
    an error consumes input, a string is a part of the input (so no larger than
    an object can be), and the conversion accepts exactly the values of
    [uint32_t]. *)
Class qcbor_laws `{qcbor} := {
  remaining : decode_context → nat;
  get_next_monotone : ∀ DC, (remaining (QCBORDecode_GetNext DC).1 ≤ remaining DC)%nat;
  get_next_progress : ∀ DC, uDataType (QCBORDecode_GetNext DC).2 ≠ QCBOR_TYPE_NONE →
    (remaining (QCBORDecode_GetNext DC).1 < remaining DC)%nat;
  string_object : ∀ DC bytes, val_string (QCBORDecode_GetNext DC).2 = Some bytes →
    Z.of_nat (length bytes) <= PTRDIFF_MAX;
  int64_to_uint32 : ∀ z, QCBOR_Int64ToUInt32 z =
    if (0 <=? z) && (z <? u32_modulus) then Some z else None
}.

(** ** Messages *)

Definition TEEP_QUERY_REQUEST : Z := 1.
Definition TEEP_QUERY_RESPONSE : Z := 2.
Definition TEEP_UPDATE : Z := 3.
Definition TEEP_SUCCESS : Z := 5.
Definition TEEP_ERROR : Z := 6.

Definition TEEP_DATA_ATTESTATION : Z := 1.
Definition TEEP_DATA_TRUSTED_COMPONENTS : Z := 2.
Definition TEEP_DATA_EXTENSIONS : Z := 4.
Definition TEEP_DATA_SUIT_COMMANDS : Z := 8.

Definition TEEP_ERR_PERMANENT_ERROR : Z := 1.
Definition TEEP_ERR_TEMPORARY_ERROR : Z := 10.

Definition TEEP_OPTION_SUPPORTED_CIPHER_SUITS : Z := 1.
Definition TEEP_OPTION_CHALLENGE : Z := 2.
Definition TEEP_OPTION_VERSIONS : Z := 3.
Definition TEEP_OPTION_OCSP_DATA : Z := 4.
Definition TEEP_OPTION_SELECTED_CIPHER_SUIT : Z := 5.
Definition TEEP_OPTION_SELECTED_VERSION : Z := 6.
Definition TEEP_OPTION_EVIDENCE : Z := 7.
Definition TEEP_OPTION_TC_LIST : Z := 8.
Definition TEEP_OPTION_EXT_LIST : Z := 9.
Definition TEEP_OPTION_MANIFEST_LIST : Z := 10.
Definition TEEP_OPTION_MSG : Z := 11.
Definition TEEP_OPTION_ERR_MSG : Z := 12.
Definition TEEP_OPTION_EVIDENCE_FORMAT : Z := 13.
Definition TEEP_OPTION_REQUESTED_TC_LIST : Z := 14.
Definition TEEP_OPTION_UNNEEDED_TC_LIST : Z := 15.
Definition TEEP_OPTION_COMPONENT_ID : Z := 16.
Definition TEEP_OPTION_TC_MANIFEST_SEQUENCE_NUMBER : Z := 17.
Definition TEEP_OPTION_HAVE_BINARY : Z := 18.
Definition TEEP_OPTION_SUIT_REPORTS : Z := 19.
Definition TEEP_OPTION_TOKEN : Z := 20.
Definition TEEP_OPTION_SUPPORTED_FRESHNESS_MECHANISMS : Z := 21.

(** The array structures: the flag, the block, its elements written so far and
    the length. *)
Record teep_array (A : Type) := Array {
  arr_have_value : bool;
  arr_block : option nat;
  arr_elems : list A;
  arr_len : nat
}.
Arguments Array {A} _ _ _ _.
Arguments arr_have_value {A} _.
Arguments arr_block {A} _.
Arguments arr_elems {A} _.
Arguments arr_len {A} _.

Definition array_zero {A} : teep_array A := Array false None [] 0.

Record teep_uint32_option := UInt32Option { opt_have_value : bool; opt_value : Z }.
Definition uint32_zero : teep_uint32_option := UInt32Option false 0.

Definition teep_component_id := useful_buf.

Record teep_tc_info := TcInfo {
  component_id : teep_component_id;
  tc_manifest_sequence_number : teep_uint32_option;
  have_binary : teep_uint32_option
}.
Definition tc_info_zero : teep_tc_info := TcInfo None uint32_zero uint32_zero.

Record query_request := QueryRequest {
  rq_supported_cipher_suits : teep_array Z;
  rq_supported_freshness_mechanisms : teep_array Z;
  rq_challenge : useful_buf;
  rq_versions : teep_array Z;
  rq_ocsp_data : useful_buf;
  rq_data_item_requested : Z
}.

Record query_response := QueryResponse {
  rs_selected_cipher_suit : teep_uint32_option;
  rs_selected_version : teep_uint32_option;
  rs_evidence_format : useful_buf;
  rs_evidence : useful_buf;
  rs_tc_list : teep_array teep_tc_info;
  rs_requested_tc_list : teep_array teep_tc_info;
  rs_unneeded_tc_list : teep_array teep_component_id;
  rs_ext_list : teep_array Z
}.

Record teep_success := TeepSuccess { su_msg : useful_buf; su_suit_reports : teep_array useful_buf }.

Record teep_error := TeepError {
  er_err_msg : useful_buf;
  er_supported_cipher_suits : teep_array Z;
  er_supported_freshness_mechanisms : teep_array Z;
  er_versions : teep_array Z;
  er_suit_reports : teep_array useful_buf;
  er_err_code : Z
}.

Inductive teep_body :=
  | BodyQueryRequest (q : query_request)
  | BodyQueryResponse (q : query_response)
  | BodyUpdate (manifest_list : teep_array useful_buf)
  | BodySuccess (s : teep_success)
  | BodyError (e : teep_error).

Record teep_message := Message { m_token : useful_buf; m_body : teep_body }.

Definition m_type (m : teep_message) : Z :=
  match m_body m with
  | BodyQueryRequest _ => TEEP_QUERY_REQUEST
  | BodyQueryResponse _ => TEEP_QUERY_RESPONSE
  | BodyUpdate _ => TEEP_UPDATE
  | BodySuccess _ => TEEP_SUCCESS
  | BodyError _ => TEEP_ERROR
  end.

(** The message after [memset] and [m->type = type_val]; [None] is the default
    case of the [switch (type_val)]. *)
Definition body_zero (type_val : Z) : option teep_body :=
  if type_val =? TEEP_QUERY_REQUEST then
    Some (BodyQueryRequest (QueryRequest array_zero array_zero None array_zero None 0))
  else if type_val =? TEEP_QUERY_RESPONSE then
    Some (BodyQueryResponse (QueryResponse uint32_zero uint32_zero None None array_zero array_zero
            array_zero array_zero))
  else if type_val =? TEEP_UPDATE then Some (BodyUpdate array_zero)
  else if type_val =? TEEP_SUCCESS then Some (BodySuccess (TeepSuccess None array_zero))
  else if type_val =? TEEP_ERROR then
    Some (BodyError (TeepError None array_zero array_zero array_zero array_zero 0))
  else None.

(** Assignments to the members of the union. *)
Definition set_rq_supported_cipher_suits (q : query_request) p := BodyQueryRequest
  (QueryRequest p (rq_supported_freshness_mechanisms q) (rq_challenge q) (rq_versions q)
     (rq_ocsp_data q) (rq_data_item_requested q)).
Definition set_rq_supported_freshness_mechanisms (q : query_request) p := BodyQueryRequest
  (QueryRequest (rq_supported_cipher_suits q) p (rq_challenge q) (rq_versions q)
     (rq_ocsp_data q) (rq_data_item_requested q)).
Definition set_rq_challenge (q : query_request) b := BodyQueryRequest
  (QueryRequest (rq_supported_cipher_suits q) (rq_supported_freshness_mechanisms q) b
     (rq_versions q) (rq_ocsp_data q) (rq_data_item_requested q)).
Definition set_rq_versions (q : query_request) p := BodyQueryRequest
  (QueryRequest (rq_supported_cipher_suits q) (rq_supported_freshness_mechanisms q)
     (rq_challenge q) p (rq_ocsp_data q) (rq_data_item_requested q)).
Definition set_rq_ocsp_data (q : query_request) b := BodyQueryRequest
  (QueryRequest (rq_supported_cipher_suits q) (rq_supported_freshness_mechanisms q)
     (rq_challenge q) (rq_versions q) b (rq_data_item_requested q)).
Definition set_rq_data_item_requested (q : query_request) n := BodyQueryRequest
  (QueryRequest (rq_supported_cipher_suits q) (rq_supported_freshness_mechanisms q)
     (rq_challenge q) (rq_versions q) (rq_ocsp_data q) n).

Definition set_rs_selected_cipher_suit (q : query_response) o := BodyQueryResponse
  (QueryResponse o (rs_selected_version q) (rs_evidence_format q) (rs_evidence q) (rs_tc_list q)
     (rs_requested_tc_list q) (rs_unneeded_tc_list q) (rs_ext_list q)).
Definition set_rs_selected_version (q : query_response) o := BodyQueryResponse
  (QueryResponse (rs_selected_cipher_suit q) o (rs_evidence_format q) (rs_evidence q)
     (rs_tc_list q) (rs_requested_tc_list q) (rs_unneeded_tc_list q) (rs_ext_list q)).
Definition set_rs_evidence_format (q : query_response) b := BodyQueryResponse
  (QueryResponse (rs_selected_cipher_suit q) (rs_selected_version q) b (rs_evidence q)
     (rs_tc_list q) (rs_requested_tc_list q) (rs_unneeded_tc_list q) (rs_ext_list q)).
Definition set_rs_evidence (q : query_response) b := BodyQueryResponse
  (QueryResponse (rs_selected_cipher_suit q) (rs_selected_version q) (rs_evidence_format q) b
     (rs_tc_list q) (rs_requested_tc_list q) (rs_unneeded_tc_list q) (rs_ext_list q)).
Definition set_rs_tc_list (q : query_response) p := BodyQueryResponse
  (QueryResponse (rs_selected_cipher_suit q) (rs_selected_version q) (rs_evidence_format q)
     (rs_evidence q) p (rs_requested_tc_list q) (rs_unneeded_tc_list q) (rs_ext_list q)).
Definition set_rs_requested_tc_list (q : query_response) p := BodyQueryResponse
  (QueryResponse (rs_selected_cipher_suit q) (rs_selected_version q) (rs_evidence_format q)
     (rs_evidence q) (rs_tc_list q) p (rs_unneeded_tc_list q) (rs_ext_list q)).
Definition set_rs_unneeded_tc_list (q : query_response) p := BodyQueryResponse
  (QueryResponse (rs_selected_cipher_suit q) (rs_selected_version q) (rs_evidence_format q)
     (rs_evidence q) (rs_tc_list q) (rs_requested_tc_list q) p (rs_ext_list q)).
Definition set_rs_ext_list (q : query_response) p := BodyQueryResponse
  (QueryResponse (rs_selected_cipher_suit q) (rs_selected_version q) (rs_evidence_format q)
     (rs_evidence q) (rs_tc_list q) (rs_requested_tc_list q) (rs_unneeded_tc_list q) p).

Definition set_su_msg (s : teep_success) b := BodySuccess (TeepSuccess b (su_suit_reports s)).
Definition set_su_suit_reports (s : teep_success) p := BodySuccess (TeepSuccess (su_msg s) p).

Definition set_er_err_msg (e : teep_error) b := BodyError
  (TeepError b (er_supported_cipher_suits e) (er_supported_freshness_mechanisms e) (er_versions e)
     (er_suit_reports e) (er_err_code e)).
Definition set_er_supported_cipher_suits (e : teep_error) p := BodyError
  (TeepError (er_err_msg e) p (er_supported_freshness_mechanisms e) (er_versions e)
     (er_suit_reports e) (er_err_code e)).
Definition set_er_supported_freshness_mechanisms (e : teep_error) p := BodyError
  (TeepError (er_err_msg e) (er_supported_cipher_suits e) p (er_versions e)
     (er_suit_reports e) (er_err_code e)).
Definition set_er_versions (e : teep_error) p := BodyError
  (TeepError (er_err_msg e) (er_supported_cipher_suits e) (er_supported_freshness_mechanisms e) p
     (er_suit_reports e) (er_err_code e)).
Definition set_er_suit_reports (e : teep_error) p := BodyError
  (TeepError (er_err_msg e) (er_supported_cipher_suits e) (er_supported_freshness_mechanisms e)
     (er_versions e) p (er_err_code e)).
Definition set_er_err_code (e : teep_error) n := BodyError
  (TeepError (er_err_msg e) (er_supported_cipher_suits e) (er_supported_freshness_mechanisms e)
     (er_versions e) (er_suit_reports e) n).

(** ** [qcbor-ext.c] *)

Section parser.
Context `{allocator, qcbor}.

Definition QCBORDecode_Tell (DC : decode_context) : Z := UsefulInputBuf_Tell DC.

Definition QCBORDecode_GetNextWithOffset (DC : decode_context)
    : decode_context * (qcbor_item * Z) :=
  let offset := QCBORDecode_Tell DC in
  let '(DC, item) := QCBORDecode_GetNext DC in (DC, (item, offset)).

Definition QCBORDecode_Slice (DC : decode_context) (begin end_ : Z) : useful_buf :=
  let src := InBuf_UB DC in UsefulBuf_Tail (UsefulBuf_Head src end_) begin.

(** [while (uNestLevel != uNextNestLevel)]; [GetNext] fails with an item of type
    [QCBOR_TYPE_NONE]. *)
Fixpoint sub_object_loop (fuel : nat) (DC : decode_context) (uNestLevel uNextNestLevel_ : Z)
    : outcome (decode_context * bool) :=
  match fuel with
  | O => NoFuel
  | S fuel =>
      if uNestLevel =? uNextNestLevel_ then Done (DC, true)
      else
        let '(DC, Item) := QCBORDecode_GetNext DC in
        if bool_decide (uDataType Item = QCBOR_TYPE_NONE) then Done (DC, false)
        else sub_object_loop fuel DC uNestLevel (uNextNestLevel Item)
  end.

Definition QCBORDecode_SubObjectFrom (fuel : nat) (DC : decode_context)
    (pFirstItem : qcbor_item * Z) : outcome (decode_context * useful_buf) :=
  '(DC, ok) ← sub_object_loop fuel DC (uNestingLevel pFirstItem.1) (uNextNestLevel pFirstItem.1);
  Done (DC, if (ok : bool) then QCBORDecode_Slice DC pFirstItem.2 (QCBORDecode_Tell DC) else None).

Definition QCBORDecode_NextSubObject (fuel : nat) (DC : decode_context)
    : outcome (decode_context * (qcbor_item * Z) * useful_buf) :=
  let '(DC, first) := QCBORDecode_GetNextWithOffset DC in
  if bool_decide (uDataType first.1 = QCBOR_TYPE_NONE) then Done (DC, first, None)
  else '(DC, sub) ← QCBORDecode_SubObjectFrom fuel DC first; Done (DC, first, sub).

(** ** The values of options

    Each parser returns the heap, the decoder, the object it fills (also when it
    fails half way) and the success flag. *)

Definition parsed_array (A : Type) : Type := heap * decode_context * teep_array A * bool.

(** [p->len = option->val.uCount; p->array = malloc(p->len * size)] after the
    check of the type, then [fill] on the new block. *)
Definition allocate_array {A} (size : Z) (h : heap) (p : teep_array A) (DC : decode_context)
    (option : qcbor_item)
    (fill : nat → decode_context → decode_context * list A * bool) : parsed_array A :=
  if negb (bool_decide (uDataType option = QCBOR_TYPE_ARRAY)) then (h, DC, p, false)
  else
    let len := val_uCount option in
    let '(h, block) := malloc h (Z.of_nat len * size) in
    match block with
    | None => (h, DC, Array (arr_have_value p) None [] len, false)
    | Some b =>
        let '(DC, elems, ok) := fill len DC in
        if ok then (h, DC, Array true (Some b) elems len, true)
        else (h, DC, Array (arr_have_value p) (Some b) elems len, false)
    end.

Fixpoint uint32_elems (n : nat) (DC : decode_context) (elems : list Z)
    : decode_context * list Z * bool :=
  match n with
  | O => (DC, elems, true)
  | S n =>
      let '(DC, Item) := QCBORDecode_GetNext DC in
      if bool_decide (uDataType Item = QCBOR_TYPE_INT64) then
        match QCBOR_Int64ToUInt32 (val_int64 Item) with
        | Some v => uint32_elems n DC (elems ++ [v])
        | None => (DC, elems, false)
        end
      else (DC, elems, false)
  end.

Definition parse_uint32_array (h : heap) (p : teep_array Z) (DC : decode_context)
    (option : qcbor_item) : parsed_array Z :=
  allocate_array 4 h p DC option (fun len DC => uint32_elems len DC []).

Definition parse_uint32_option (p : teep_uint32_option) (option : qcbor_item)
    : teep_uint32_option * bool :=
  if bool_decide (uDataType option = QCBOR_TYPE_INT64) then
    match QCBOR_Int64ToUInt32 (val_int64 option) with
    | Some v => (UInt32Option true v, true)
    | None => (p, false)
    end
  else (p, false).

Fixpoint buffer_elems (binary : bool) (n : nat) (DC : decode_context) (elems : list useful_buf)
    : decode_context * list useful_buf * bool :=
  match n with
  | O => (DC, elems, true)
  | S n =>
      let '(DC, Item) := QCBORDecode_GetNext DC in
      if bool_decide (uDataType Item = QCBOR_TYPE_BYTE_STRING) && binary then
        buffer_elems binary n DC (elems ++ [val_string Item])
      else if bool_decide (uDataType Item = QCBOR_TYPE_TEXT_STRING) && negb binary then
        buffer_elems binary n DC (elems ++ [val_string Item])
      else (DC, elems, false)
  end.

Definition parse_buffer_array (h : heap) (p : teep_array useful_buf) (DC : decode_context)
    (option : qcbor_item) (binary : bool) : parsed_array useful_buf :=
  allocate_array 16 h p DC option (fun len DC => buffer_elems binary len DC []).

(** The loop of [teep_parse_component_id]: the elements must be strings. *)
Fixpoint component_id_strings (n : nat) (DC : decode_context) : decode_context * bool :=
  match n with
  | O => (DC, true)
  | S n =>
      let '(DC, Item) := QCBORDecode_GetNext DC in
      if negb (bool_decide (uDataType Item = QCBOR_TYPE_BYTE_STRING)) &&
         negb (bool_decide (uDataType Item = QCBOR_TYPE_TEXT_STRING))
      then (DC, false)
      else component_id_strings n DC
  end.

Definition teep_parse_component_id (p : teep_component_id) (DC : decode_context)
    (component_id : qcbor_item * Z) : decode_context * teep_component_id * bool :=
  let '(item, offset) := component_id in
  if negb (bool_decide (uDataType item = QCBOR_TYPE_ARRAY)) then (DC, p, false)
  else
    let '(DC, ok) := component_id_strings (val_uCount item) DC in
    if ok then (DC, QCBORDecode_Slice DC offset (QCBORDecode_Tell DC), true)
    else (DC, p, false).

(** One entry of a [tc_info] map.  [TEEP_OPTION_HAVE_BINARY] falls through to
    [default: return 0]. *)
Definition tc_info_field (requested : bool) (p : teep_tc_info) (DC : decode_context)
    (Item : qcbor_item * Z) : decode_context * teep_tc_info * bool :=
  let label := label_int64 Item.1 in
  if label =? TEEP_OPTION_COMPONENT_ID then
    let '(DC, id, ok) := teep_parse_component_id (component_id p) DC Item in
    (DC, TcInfo id (tc_manifest_sequence_number p) (have_binary p), ok)
  else if label =? TEEP_OPTION_TC_MANIFEST_SEQUENCE_NUMBER then
    let '(o, ok) := parse_uint32_option (tc_manifest_sequence_number p) Item.1 in
    (DC, TcInfo (component_id p) o (have_binary p), ok)
  else if label =? TEEP_OPTION_HAVE_BINARY then
    if negb requested then (DC, p, false)
    else
      let '(o, ok) := parse_uint32_option (have_binary p) Item.1 in
      (DC, TcInfo (component_id p) (tc_manifest_sequence_number p) o, false)
  else (DC, p, false).

Fixpoint tc_info_fields (requested : bool) (n : nat) (p : teep_tc_info) (DC : decode_context)
    : decode_context * teep_tc_info * bool :=
  match n with
  | O => (DC, p, true)
  | S n =>
      let '(DC, Item) := QCBORDecode_GetNextWithOffset DC in
      if negb (bool_decide (uLabelType Item.1 = QCBOR_TYPE_INT64)) then (DC, p, false)
      else
        let '(DC, p, ok) := tc_info_field requested p DC Item in
        if ok then tc_info_fields requested n p DC else (DC, p, false)
  end.

(** The loop [for (i = ...; i < len; i++)], [n] iterations before its end;
    [elems] is the whole array, zero from [i] on. *)
Fixpoint tc_info_elems (requested : bool) (n i : nat) (DC : decode_context)
    (elems : list teep_tc_info) : decode_context * list teep_tc_info * bool :=
  match n with
  | O => (DC, elems, true)
  | S n =>
      let '(DC, Map) := QCBORDecode_GetNext DC in
      if negb (bool_decide (uDataType Map = QCBOR_TYPE_MAP)) then (DC, elems, false)
      else
        let '(DC, p, ok) := tc_info_fields requested (val_uCount Map)
                              (default tc_info_zero (elems !! i)) DC in
        if ok then tc_info_elems requested n (S i) DC (<[i := p]> elems)
        else (DC, <[i := p]> elems, false)
  end.

Definition parse_tc_info_array (h : heap) (p : teep_array teep_tc_info) (DC : decode_context)
    (option : qcbor_item) (requested : bool) : parsed_array teep_tc_info :=
  allocate_array 32 h p DC option
    (fun len DC => tc_info_elems requested len 0 DC (replicate len tc_info_zero)).

Fixpoint component_id_elems (n i : nat) (DC : decode_context) (elems : list teep_component_id)
    : decode_context * list teep_component_id * bool :=
  match n with
  | O => (DC, elems, true)
  | S n =>
      let '(DC, Item) := QCBORDecode_GetNextWithOffset DC in
      let '(DC, id, ok) := teep_parse_component_id (default None (elems !! i)) DC Item in
      if ok then component_id_elems n (S i) DC (<[i := id]> elems)
      else (DC, <[i := id]> elems, false)
  end.

Definition parse_component_id_array (h : heap) (p : teep_array teep_component_id)
    (DC : decode_context) (option : qcbor_item) : parsed_array teep_component_id :=
  allocate_array 16 h p DC option
    (fun len DC => component_id_elems len 0 DC (replicate len None)).

(** ** Options *)

Definition parsed_message : Type := heap * decode_context * teep_message * bool.

(** [while (level != nest_level)] of the [skip] label. *)
Fixpoint skip_option (fuel : nat) (h : heap) (DC : decode_context) (m : teep_message)
    (level nest_level : Z) : outcome parsed_message :=
  match fuel with
  | O => NoFuel
  | S fuel =>
      if level =? nest_level then Done (h, DC, m, true)
      else
        let '(DC, Item) := QCBORDecode_GetNext DC in
        if bool_decide (uDataType Item = QCBOR_TYPE_NONE) then Done (h, DC, m, false)
        else skip_option fuel h DC m (uNextNestLevel Item) nest_level
  end.

(** An array parsed in place: [set] stores it in the union. *)
Definition store_array {A} (m : teep_message) (set : teep_array A → teep_body)
    (r : parsed_array A) : outcome parsed_message :=
  let '(h, DC, p, ok) := r in Done (h, DC, Message (m_token m) (set p), ok).

Definition store_uint32 (h : heap) (DC : decode_context) (m : teep_message)
    (set : teep_uint32_option → teep_body) (r : teep_uint32_option * bool)
    : outcome parsed_message :=
  let '(o, ok) := r in Done (h, DC, Message (m_token m) (set o), ok).

(** A string of type [ty] stored by [set]. *)
Definition store_string (h : heap) (DC : decode_context) (m : teep_message) (ty : qcbor_type)
    (option : qcbor_item) (set : useful_buf → teep_body) : outcome parsed_message :=
  if negb (bool_decide (uDataType option = ty)) then Done (h, DC, m, false)
  else Done (h, DC, Message (m_token m) (set (val_string option)), true).

Definition parse_option (fuel : nat) (h : heap) (m : teep_message) (DC : decode_context)
    (option : qcbor_item) (nest_level : Z) : outcome parsed_message :=
  if negb (bool_decide (uLabelType option = QCBOR_TYPE_INT64)) then Done (h, DC, m, false)
  else
  let label := label_int64 option in
  let skip := skip_option fuel h DC m (uNextNestLevel option) nest_level in
  if label =? TEEP_OPTION_SUPPORTED_CIPHER_SUITS then
    match m_body m with
    | BodyQueryRequest q => store_array m (set_rq_supported_cipher_suits q)
        (parse_uint32_array h (rq_supported_cipher_suits q) DC option)
    | BodyError e => store_array m (set_er_supported_cipher_suits e)
        (parse_uint32_array h (er_supported_cipher_suits e) DC option)
    | _ => skip
    end
  else if (label =? TEEP_OPTION_CHALLENGE) || (label =? TEEP_OPTION_OCSP_DATA) then
    match m_body m with
    | BodyQueryRequest q => store_string h DC m QCBOR_TYPE_BYTE_STRING option
        (if label =? TEEP_OPTION_CHALLENGE then set_rq_challenge q else set_rq_ocsp_data q)
    | _ => skip
    end
  else if label =? TEEP_OPTION_VERSIONS then
    match m_body m with
    | BodyQueryRequest q => store_array m (set_rq_versions q)
        (parse_uint32_array h (rq_versions q) DC option)
    | BodyError e => store_array m (set_er_versions e)
        (parse_uint32_array h (er_versions e) DC option)
    | _ => skip
    end
  else if label =? TEEP_OPTION_SELECTED_CIPHER_SUIT then
    match m_body m with
    | BodyQueryResponse q => store_uint32 h DC m (set_rs_selected_cipher_suit q)
        (parse_uint32_option (rs_selected_cipher_suit q) option)
    | _ => skip
    end
  else if label =? TEEP_OPTION_SELECTED_VERSION then
    match m_body m with
    | BodyQueryResponse q => store_uint32 h DC m (set_rs_selected_version q)
        (parse_uint32_option (rs_selected_version q) option)
    | _ => skip
    end
  else if label =? TEEP_OPTION_EVIDENCE_FORMAT then
    match m_body m with
    | BodyQueryResponse q =>
        store_string h DC m QCBOR_TYPE_TEXT_STRING option (set_rs_evidence_format q)
    | _ => skip
    end
  else if label =? TEEP_OPTION_EVIDENCE then
    match m_body m with
    | BodyQueryResponse q =>
        store_string h DC m QCBOR_TYPE_BYTE_STRING option (set_rs_evidence q)
    | _ => skip
    end
  else if label =? TEEP_OPTION_TC_LIST then
    match m_body m with
    | BodyQueryResponse q => store_array m (set_rs_tc_list q)
        (parse_tc_info_array h (rs_tc_list q) DC option false)
    | _ => skip
    end
  else if label =? TEEP_OPTION_REQUESTED_TC_LIST then
    match m_body m with
    | BodyQueryResponse q => store_array m (set_rs_requested_tc_list q)
        (parse_tc_info_array h (rs_requested_tc_list q) DC option true)
    | _ => skip
    end
  else if label =? TEEP_OPTION_UNNEEDED_TC_LIST then
    match m_body m with
    | BodyQueryResponse q => store_array m (set_rs_unneeded_tc_list q)
        (parse_component_id_array h (rs_unneeded_tc_list q) DC option)
    | _ => skip
    end
  else if label =? TEEP_OPTION_EXT_LIST then
    match m_body m with
    | BodyQueryResponse q => store_array m (set_rs_ext_list q)
        (parse_uint32_array h (rs_ext_list q) DC option)
    | _ => skip
    end
  else if label =? TEEP_OPTION_MANIFEST_LIST then
    match m_body m with
    | BodyUpdate manifest_list => store_array m BodyUpdate
        (parse_buffer_array h manifest_list DC option true)
    | _ => skip
    end
  else if label =? TEEP_OPTION_MSG then
    match m_body m with
    | BodySuccess s => store_string h DC m QCBOR_TYPE_TEXT_STRING option (set_su_msg s)
    | _ => skip
    end
  else if label =? TEEP_OPTION_ERR_MSG then
    match m_body m with
    | BodyError e => store_string h DC m QCBOR_TYPE_TEXT_STRING option (set_er_err_msg e)
    | _ => skip
    end
  else if label =? TEEP_OPTION_SUIT_REPORTS then
    match m_body m with
    | BodySuccess s => store_array m (set_su_suit_reports s)
        (parse_buffer_array h (su_suit_reports s) DC option true)
    | BodyError e => store_array m (set_er_suit_reports e)
        (parse_buffer_array h (er_suit_reports e) DC option true)
    | _ => skip
    end
  else if label =? TEEP_OPTION_TOKEN then
    if negb (bool_decide (uDataType option = QCBOR_TYPE_BYTE_STRING)) then Done (h, DC, m, false)
    else Done (h, DC, Message (val_string option) (m_body m), true)
  else if label =? TEEP_OPTION_SUPPORTED_FRESHNESS_MECHANISMS then
    match m_body m with
    | BodyQueryRequest q => store_array m (set_rq_supported_freshness_mechanisms q)
        (parse_uint32_array h (rq_supported_freshness_mechanisms q) DC option)
    | BodyError e => store_array m (set_er_supported_freshness_mechanisms e)
        (parse_uint32_array h (er_supported_freshness_mechanisms e) DC option)
    | _ => skip
    end
  else skip.

Fixpoint parse_options_loop (fuel n : nat) (h : heap) (m : teep_message) (DC : decode_context)
    (nest_level : Z) : outcome parsed_message :=
  match n with
  | O => Done (h, DC, m, true)
  | S n =>
      let '(DC, option) := QCBORDecode_GetNext DC in
      '(h, DC, m, ok) ← parse_option fuel h m DC option nest_level;
      if negb ok then Done (h, DC, m, false)
      else parse_options_loop fuel n h m DC nest_level
  end.

Definition parse_options (fuel : nat) (h : heap) (m : teep_message) (DC : decode_context)
    : outcome parsed_message :=
  let '(DC, options) := QCBORDecode_GetNext DC in
  if negb (bool_decide (uDataType options = QCBOR_TYPE_MAP)) then Done (h, DC, m, false)
  else parse_options_loop fuel (val_uCount options) h m DC (uNextNestLevel options).

(** ** Messages *)

(** The blocks [free_parsed_teep_message] releases, in its order. *)
Definition array_blocks (b : teep_body) : list (option nat) :=
  match b with
  | BodyQueryRequest q =>
      [arr_block (rq_supported_cipher_suits q); arr_block (rq_supported_freshness_mechanisms q);
       arr_block (rq_versions q)]
  | BodyQueryResponse q =>
      [arr_block (rs_tc_list q); arr_block (rs_requested_tc_list q);
       arr_block (rs_unneeded_tc_list q); arr_block (rs_ext_list q)]
  | BodyUpdate manifest_list => [arr_block manifest_list]
  | BodySuccess s => [arr_block (su_suit_reports s)]
  | BodyError e =>
      [arr_block (er_supported_cipher_suits e); arr_block (er_supported_freshness_mechanisms e);
       arr_block (er_versions e); arr_block (er_suit_reports e)]
  end.

Fixpoint free_all (h : heap) (l : list (option nat)) : outcome heap :=
  match l with
  | [] => Done h
  | p :: l => h ← free h p; free_all h l
  end.

(** The message and the block that holds it. *)
Definition free_parsed_teep_message (h : heap) (message : option (nat * teep_message))
    : outcome heap :=
  match message with
  | None => Done h
  | Some (block, m) => h ← free_all h (array_blocks (m_body m)); free h (Some block)
  end.

Definition sizeof_teep_message : Z := 168.

(** The item after the options, for the types that have one. *)
Definition parse_tail (m : teep_message) (DC : decode_context)
    : decode_context * teep_message * bool :=
  match m_body m with
  | BodyQueryRequest q =>
      let '(DC, Item) := QCBORDecode_GetNext DC in
      if negb (bool_decide (uDataType Item = QCBOR_TYPE_INT64)) then (DC, m, false)
      else (DC, Message (m_token m) (set_rq_data_item_requested q (to_u64 (val_int64 Item))), true)
  | BodyError e =>
      let '(DC, Item) := QCBORDecode_GetNext DC in
      if negb (bool_decide (uDataType Item = QCBOR_TYPE_INT64)) then (DC, m, false)
      else (DC, Message (m_token m) (set_er_err_code e (val_int64 Item)), true)
  | _ => (DC, m, true)
  end.

Definition parse_teep_message (fuel : nat) (h : heap) (cbor : useful_buf)
    : outcome (heap * option (nat * teep_message)) :=
  let DC := QCBORDecode_Init cbor in
  let '(DC, Item) := QCBORDecode_GetNext DC in
  if negb (bool_decide (uDataType Item = QCBOR_TYPE_ARRAY)) then Done (h, None) else
  let '(DC, Item) := QCBORDecode_GetNext DC in
  if negb (bool_decide (uDataType Item = QCBOR_TYPE_INT64)) then Done (h, None) else
  match body_zero (val_int64 Item) with
  | None => Done (h, None)
  | Some body =>
      let '(h, block) := malloc h sizeof_teep_message in
      match block with
      | None => Done (h, None)
      | Some block =>
          let err h m := h ← free_parsed_teep_message h (Some (block, m)); Done (h, None) in
          '(h, DC, m, ok) ← parse_options fuel h (Message None body) DC;
          if negb ok then err h m
          else
            let '(DC, m, ok) := parse_tail m DC in
            if negb ok then err h m
            else if negb (QCBORDecode_Finish DC) then err h m
            else Done (h, Some (block, m))
      end
  end.

End parser.
