(* ===== verification/TeepMessageFacts.v ===== *)
(** * TeepMessageFacts: memory and well-formedness of parsed TEEP messages

    [heap_effect] is all a single option can do to the heap: nothing, or one
    [malloc] whose result replaces the block of the option's own member.
    [accounts] keeps the books: the live blocks are those of the message and a
    frame.  [body_ok] is the well-formedness of a message under construction.
    The facts about one option are proved by cases on the option and combined by
    induction on the loop over the options. *)

From S2P Require Import Prelude TeepMessage.

Local Open Scope Z_scope.

(** ** Heaps *)

Record heap_wf (h : heap) : Prop := {
  live_nodup : NoDup (h_live h);
  live_below : ∀ b, b ∈ h_live h → (b < h_next h)%nat
}.

Definition blocks (l : list (option nat)) : list nat := omap id l.

Lemma blocks_app l1 l2 : blocks (l1 ++ l2) = blocks l1 ++ blocks l2.
Proof. apply omap_app. Qed.

Lemma blocks_cons o l : blocks (o :: l) = option_list o ++ blocks l.
Proof. unfold blocks. destruct o; cbn; reflexivity. Qed.

(** The live blocks are those of [l] and those of the frame. *)
Definition accounts (h : heap) (l : list (option nat)) (frame : list nat) : Prop :=
  heap_wf h ∧ h_live h ≡ₚ blocks l ++ frame.

Section heap.
Context `{allocator}.

Lemma malloc_wf h size : heap_wf h → heap_wf (malloc h size).1.
Proof.
  intros [Hnd Hlt]. unfold malloc. case_match; cbn; split; cbn; try done.
  - constructor; [|done]. intros Hin%Hlt. lia.
  - intros b [->|Hb%Hlt]%elem_of_cons; lia.
  - intros b Hb%Hlt. lia.
Qed.

Lemma malloc_live h size :
  h_live (malloc h size).1 = option_list (malloc h size).2 ++ h_live h.
Proof. unfold malloc. by case_match. Qed.

Lemma accounts_malloc h size l frame :
  accounts h l frame → accounts (malloc h size).1 ((malloc h size).2 :: l) frame.
Proof.
  intros [Hwf Hl]. split; [by apply malloc_wf|]. rewrite malloc_live, blocks_cons, Hl.
  by rewrite (assoc_L (++)).
Qed.

Lemma accounts_perm h l l' frame frame' :
  accounts h l frame → blocks l ++ frame ≡ₚ blocks l' ++ frame' → accounts h l' frame'.
Proof. intros [? Hl] Hp. split; [done|]. by rewrite Hl. Qed.

(** [free] of an owned block is defined and gives the block back. *)
Lemma free_owned h o l frame :
  accounts h (o :: l) frame → wp (free h o) (fun h' => accounts h' l frame).
Proof.
  intros [[Hnd Hlt] Hl]. destruct o as [b|]; cbn; [|by split].
  rewrite blocks_cons in Hl. cbn in Hl.
  assert (b ∈ h_live h) as Hin by (rewrite Hl; left).
  rewrite bool_decide_true by done. cbn.
  assert (b ∉ blocks l ++ frame) as Hout.
  { rewrite Hl in Hnd. by apply list.NoDup_cons in Hnd as [? _]. }
  split; [split; cbn|cbn].
  - by apply list.NoDup_filter.
  - intros x [_ Hx]%list_elem_of_filter. auto.
  - rewrite Hl, filter_cons_False by tauto.
    assert (∀ k, b ∉ k → filter (fun x : nat => x ≠ b) k = k) as ->; [|done|done].
    induction k as [|x k IH]; [done|]. intros Hk. apply not_elem_of_cons in Hk as [Hx Hk].
    rewrite filter_cons_True by done. by rewrite IH.
Qed.

Lemma free_all_owned l h l' frame :
  accounts h (l ++ l') frame → wp (free_all h l) (fun h' => accounts h' l' frame).
Proof.
  revert h. induction l as [|o l IH]; intros h Hh; cbn; [done|].
  apply wp_bind. eapply wp_mono; [by apply free_owned|]. cbn. auto.
Qed.

Lemma free_message h block m frame :
  accounts h (Some block :: array_blocks (m_body m)) frame →
  wp (free_parsed_teep_message h (Some (block, m))) (fun h' => accounts h' [] frame).
Proof.
  intros Hh. cbn. apply wp_bind. eapply wp_mono.
  - apply (free_all_owned _ _ [Some block] frame). eapply accounts_perm; [done|].
    rewrite blocks_app, blocks_cons. cbn. by rewrite (comm (++) (blocks _) [block]).
  - intros h' Hh'. exact (free_owned h' (Some block) [] frame Hh').
Qed.

(** ** The effect of one option *)

(** [old] is the block of the member the option is stored in. *)
Inductive heap_effect (old : option nat) (array : bool)
    : heap → list (option nat) → heap → list (option nat) → Prop :=
  | effect_none h l : old = None ∨ array = false → heap_effect old array h l h l
  | effect_alloc h l1 l2 size : array = true →
      heap_effect old array h (l1 ++ old :: l2)
        (malloc h size).1 (l1 ++ (malloc h size).2 :: l2).

(** What [heap_effect] loses: nothing, or the block that was there before. *)
Lemma heap_effect_accounts old array h l h' l' frame :
  heap_effect old array h l h' l' → accounts h l frame →
  ∃ leak, (leak = [] ∨ leak = option_list old) ∧ accounts h' l' (leak ++ frame).
Proof.
  intros [h1 l1 Hold|h1 l1 l2 size Harr] Hacc; [exists []; eauto|].
  exists (option_list old). split; [eauto|].
  apply (accounts_malloc _ size) in Hacc. eapply accounts_perm; [done|].
  rewrite blocks_cons, !blocks_app, !blocks_cons. solve_Permutation.
Qed.

Lemma heap_effect_leak b h l h' l' frame :
  heap_effect (Some b) true h l h' l' → accounts h l frame →
  b ∈ h_live h' ∧ Some b ∉ l'.
Proof.
  intros Heff Hacc. inversion Heff as [? ? [?|?]|? l1 l2 size _]; subst; try done.
  apply (accounts_malloc _ size) in Hacc. destruct Hacc as [[Hnd _] Hl].
  rewrite Hl in Hnd |- *.
  assert (blocks ((malloc h size).2 :: l1 ++ Some b :: l2) ++ frame ≡ₚ
          b :: (blocks (l1 ++ (malloc h size).2 :: l2) ++ frame)) as Hp.
  { rewrite blocks_cons, !blocks_app, !blocks_cons. cbn. solve_Permutation. }
  rewrite Hp in Hnd |- *. split; [left|]. intros Hin.
  apply list.NoDup_cons in Hnd as [Hnot _]. apply Hnot, elem_of_app. left.
  apply list_elem_of_omap. by exists (Some b).
Qed.
End heap.

(** ** Values *)

Definition uint32 (v : Z) : Prop := 0 <= v < u32_modulus.

(** The size of an object. *)
Definition buffer_ok (b : useful_buf) : Prop :=
  match b with Some bytes => Z.of_nat (length bytes) <= PTRDIFF_MAX | None => True end.

Definition uint32_option_ok (o : teep_uint32_option) : Prop :=
  o = uint32_zero ∨ (opt_have_value o = true ∧ uint32 (opt_value o)).

(** An array is absent, or has its block and all its elements. *)
Definition array_ok {A} (P : A → Prop) (p : teep_array A) : Prop :=
  p = array_zero ∨
  (arr_have_value p = true ∧ is_Some (arr_block p) ∧ length (arr_elems p) = arr_len p ∧
   Forall P (arr_elems p)).

Definition tc_info_ok (p : teep_tc_info) : Prop :=
  uint32_option_ok (tc_manifest_sequence_number p) ∧ have_binary p = uint32_zero.

Lemma tc_info_zero_ok : tc_info_ok tc_info_zero.
Proof. split; [by left|done]. Qed.

Definition body_ok (b : teep_body) : Prop :=
  match b with
  | BodyQueryRequest q =>
      array_ok uint32 (rq_supported_cipher_suits q) ∧
      array_ok uint32 (rq_supported_freshness_mechanisms q) ∧ array_ok uint32 (rq_versions q)
  | BodyQueryResponse q =>
      uint32_option_ok (rs_selected_cipher_suit q) ∧ uint32_option_ok (rs_selected_version q) ∧
      array_ok tc_info_ok (rs_tc_list q) ∧ array_ok tc_info_ok (rs_requested_tc_list q) ∧
      array_ok (fun _ => True) (rs_unneeded_tc_list q) ∧ array_ok uint32 (rs_ext_list q)
  | BodyUpdate manifest_list => array_ok buffer_ok manifest_list
  | BodySuccess s => array_ok buffer_ok (su_suit_reports s)
  | BodyError e =>
      array_ok uint32 (er_supported_cipher_suits e) ∧
      array_ok uint32 (er_supported_freshness_mechanisms e) ∧ array_ok uint32 (er_versions e) ∧
      array_ok buffer_ok (er_suit_reports e)
  end.

(** The member an option is stored in, when it is an array. *)
Definition option_block (b : teep_body) (label : Z) : option nat :=
  match b with
  | BodyQueryRequest q =>
      if label =? TEEP_OPTION_SUPPORTED_CIPHER_SUITS then arr_block (rq_supported_cipher_suits q)
      else if label =? TEEP_OPTION_VERSIONS then arr_block (rq_versions q)
      else if label =? TEEP_OPTION_SUPPORTED_FRESHNESS_MECHANISMS
      then arr_block (rq_supported_freshness_mechanisms q) else None
  | BodyQueryResponse q =>
      if label =? TEEP_OPTION_TC_LIST then arr_block (rs_tc_list q)
      else if label =? TEEP_OPTION_REQUESTED_TC_LIST then arr_block (rs_requested_tc_list q)
      else if label =? TEEP_OPTION_UNNEEDED_TC_LIST then arr_block (rs_unneeded_tc_list q)
      else if label =? TEEP_OPTION_EXT_LIST then arr_block (rs_ext_list q) else None
  | BodyUpdate manifest_list =>
      if label =? TEEP_OPTION_MANIFEST_LIST then arr_block manifest_list else None
  | BodySuccess s => if label =? TEEP_OPTION_SUIT_REPORTS then arr_block (su_suit_reports s) else None
  | BodyError e =>
      if label =? TEEP_OPTION_SUPPORTED_CIPHER_SUITS then arr_block (er_supported_cipher_suits e)
      else if label =? TEEP_OPTION_VERSIONS then arr_block (er_versions e)
      else if label =? TEEP_OPTION_SUPPORTED_FRESHNESS_MECHANISMS
      then arr_block (er_supported_freshness_mechanisms e)
      else if label =? TEEP_OPTION_SUIT_REPORTS then arr_block (er_suit_reports e) else None
  end.

Section values.
Context `{allocator, Hq : qcbor, !qcbor_laws}.
Implicit Types DC : decode_context.

(** The next [n] items. *)
Fixpoint next_items (n : nat) DC : list qcbor_item * decode_context :=
  match n with
  | O => ([], DC)
  | S n =>
      let '(DC, Item) := QCBORDecode_GetNext DC in
      let '(items, DC) := next_items n DC in (Item :: items, DC)
  end.

Definition uint32_item (Item : qcbor_item) : bool :=
  bool_decide (uDataType Item = QCBOR_TYPE_INT64) &&
  (0 <=? val_int64 Item) && (val_int64 Item <? u32_modulus).

Definition buffer_item (binary : bool) (Item : qcbor_item) : bool :=
  bool_decide (uDataType Item = if binary then QCBOR_TYPE_BYTE_STRING else QCBOR_TYPE_TEXT_STRING).

(** [fill] is the loop over the elements of an array: a prefix of [items] is
    accepted by [ok] and translated by [f]. *)
Definition fill_spec {A} (ok : qcbor_item → bool) (f : qcbor_item → A)
    (r : decode_context * list A * bool) (elems : list A) (n : nat) DC : Prop :=
  let '(items, DC') := next_items n DC in
  if forallb ok items then r = (DC', elems ++ (f <$> items), true) else r.2 = false.

Lemma uint32_elems_spec n DC elems :
  fill_spec uint32_item val_int64 (uint32_elems n DC elems) elems n DC.
Proof.
  revert DC elems. unfold fill_spec. induction n as [|n IH]; intros DC elems; cbn.
  { by rewrite app_nil_r. }
  destruct (QCBORDecode_GetNext DC) as [DC1 Item].
  specialize (IH DC1 (elems ++ [val_int64 Item])).
  destruct (next_items n DC1) as [items DC2]. cbn. unfold uint32_item at 1.
  case_bool_decide; cbn; [|done]. rewrite int64_to_uint32.
  destruct ((0 <=? val_int64 Item) && (val_int64 Item <? u32_modulus)); cbn; [|done]. destruct (forallb _ _); [|done].
  by rewrite IH, <-(assoc_L (++)).
Qed.

Lemma buffer_elems_spec binary n DC elems :
  fill_spec (buffer_item binary) val_string (buffer_elems binary n DC elems) elems n DC.
Proof.
  revert DC elems. unfold fill_spec. induction n as [|n IH]; intros DC elems; cbn.
  { by rewrite app_nil_r. }
  destruct (QCBORDecode_GetNext DC) as [DC1 Item].
  specialize (IH DC1 (elems ++ [val_string Item])).
  destruct (next_items n DC1) as [items DC2]. cbn. unfold buffer_item at 1.
  destruct binary; cbn; rewrite ?andb_false_r, ?andb_true_r; (case_bool_decide; cbn; [|done]);
    (destruct (forallb _ _); [|done]); by rewrite IH, <-(assoc_L (++)).
Qed.

Lemma next_items_length n DC : length (next_items n DC).1 = n.
Proof.
  revert DC. induction n as [|n IH]; intros DC; cbn; [done|].
  destruct (QCBORDecode_GetNext DC) as [DC1 Item]. specialize (IH DC1).
  destruct (next_items n DC1); cbn in *. by rewrite IH.
Qed.

Lemma next_items_remaining n DC : (remaining (next_items n DC).2 ≤ remaining DC)%nat.
Proof.
  revert DC. induction n as [|n IH]; intros DC; cbn; [done|].
  pose proof (get_next_monotone DC). destruct (QCBORDecode_GetNext DC) as [DC1 Item].
  specialize (IH DC1). destruct (next_items n DC1); cbn in *. lia.
Qed.

(** ** Loops over elements: progress and well-formedness *)

(** The decoder does not move back, and if the loop succeeds there are [n]
    elements that satisfy [P]. *)
Definition fills {A} (P : A → Prop) (n : nat) DC (r : decode_context * list A * bool) : Prop :=
  (remaining r.1.1 ≤ remaining DC)%nat ∧ (r.2 = true → length r.1.2 = n ∧ Forall P r.1.2).

Lemma uint32_elems_fills n DC elems :
  Forall uint32 elems →
  fills uint32 (length elems + n) DC (uint32_elems n DC elems).
Proof.
  revert DC elems. induction n as [|n IH]; intros DC elems He; cbn.
  { split; cbn; [done|]. split; [lia|done]. }
  pose proof (get_next_monotone DC) as Hm. destruct (QCBORDecode_GetNext DC) as [DC1 Item].
  cbn in Hm. case_bool_decide; [|by split]. rewrite int64_to_uint32.
  destruct (_ && _) eqn:Hr; [|by split]. bool_facts.
  destruct (IH DC1 (elems ++ [val_int64 Item])) as [Hle Hok].
  { apply Forall_app. split; [done|]. by constructor. }
  split; [lia|]. rewrite length_app in Hok. cbn in Hok.
  by replace (length elems + S n)%nat with (length elems + 1 + n)%nat by lia.
Qed.

Lemma buffer_elems_fills binary n DC elems :
  Forall buffer_ok elems →
  fills buffer_ok (length elems + n) DC (buffer_elems binary n DC elems).
Proof.
  revert DC elems. induction n as [|n IH]; intros DC elems He; cbn.
  { split; cbn; [done|]. intros _. split; [lia|done]. }
  pose proof (get_next_monotone DC) as Hm. pose proof (string_object DC) as Hs.
  destruct (QCBORDecode_GetNext DC) as [DC1 Item]. cbn in Hm, Hs.
  destruct (IH DC1 (elems ++ [val_string Item])) as [Hle Hok].
  { apply Forall_app. split; [done|]. constructor; [|done].
    unfold buffer_ok. destruct (val_string Item); auto. }
  rewrite length_app in Hok. cbn in Hok.
  replace (length elems + S n)%nat with (length elems + 1 + n)%nat by lia.
  repeat case_match; split; (done || lia).
Qed.

Lemma component_id_strings_remaining n DC :
  (remaining (component_id_strings n DC).1 ≤ remaining DC)%nat.
Proof.
  revert DC. induction n as [|n IH]; intros DC; cbn; [done|].
  pose proof (get_next_monotone DC) as Hm. destruct (QCBORDecode_GetNext DC) as [DC1 Item].
  cbn in Hm. specialize (IH DC1). case_match; cbn; lia.
Qed.

Lemma teep_parse_component_id_remaining p DC item :
  (remaining (teep_parse_component_id p DC item).1.1 ≤ remaining DC)%nat.
Proof.
  unfold teep_parse_component_id. destruct item as [item offset]. case_match; [done|].
  pose proof (component_id_strings_remaining (val_uCount item) DC).
  destruct (component_id_strings _ _) as [? []]; done.
Qed.

Lemma parse_uint32_option_ok p option :
  uint32_option_ok p → uint32_option_ok (parse_uint32_option p option).1.
Proof.
  intros Hp. unfold parse_uint32_option. case_bool_decide; [|done].
  rewrite int64_to_uint32. destruct (_ && _) eqn:Hr; [|done]. bool_facts. by right.
Qed.

Lemma tc_info_field_ok requested p DC Item :
  tc_info_ok p →
  (remaining (tc_info_field requested p DC Item).1.1 ≤ remaining DC)%nat ∧
  ((tc_info_field requested p DC Item).2 = true →
   tc_info_ok (tc_info_field requested p DC Item).1.2).
Proof.
  intros [Hs Hb]. unfold tc_info_field.
  repeat (case_match; cbn; try done).
  - pose proof (teep_parse_component_id_remaining (component_id p) DC Item).
    by destruct (teep_parse_component_id _ _ _) as [[? ?] ?]; simplify_eq/=.
  - pose proof (parse_uint32_option_ok _ Item.1 Hs).
    by destruct (parse_uint32_option _ _) as [? ?]; simplify_eq/=.
Qed.
End values.

#[local] Arguments teep_parse_component_id : simpl never.
#[local] Arguments tc_info_fields : simpl never.

Section options.
Context `{allocator, Hq : qcbor, !qcbor_laws}.
Implicit Types DC : decode_context.

Lemma tc_info_fields_ok requested n p DC :
  tc_info_ok p →
  (remaining (tc_info_fields requested n p DC).1.1 ≤ remaining DC)%nat ∧
  ((tc_info_fields requested n p DC).2 = true →
   tc_info_ok (tc_info_fields requested n p DC).1.2).
Proof.
  revert p DC. induction n as [|n IH]; intros p DC Hp; unfold tc_info_fields; cbn; [done|].
  fold tc_info_fields.
  unfold QCBORDecode_GetNextWithOffset.
  pose proof (get_next_monotone DC) as Hm. destruct (QCBORDecode_GetNext DC) as [DC1 item].
  cbn in Hm |- *. case_match; [done|].
  pose proof (tc_info_field_ok requested p DC1 (item, QCBORDecode_Tell DC) Hp) as [Hle Hok].
  destruct (tc_info_field _ _ _ _) as [[DC2 p'] [|]]; cbn in *; [|split; [lia|done]].
  destruct (IH p' DC2) as [Hle' Hok']; [auto|]. split; [lia|done].
Qed.

Lemma tc_info_elems_fills requested n i DC elems :
  Forall tc_info_ok elems →
  fills tc_info_ok (length elems) DC (tc_info_elems requested n i DC elems).
Proof.
  revert i DC elems. induction n as [|n IH]; intros i DC elems He; cbn; [by split|].
  pose proof (get_next_monotone DC) as Hm. destruct (QCBORDecode_GetNext DC) as [DC1 Map].
  cbn in Hm. case_match; [by split|].
  assert (tc_info_ok (default tc_info_zero (elems !! i))) as Hd.
  { destruct (elems !! i) eqn:Hi; cbn; [exact (Forall_lookup_1 _ _ _ _ He Hi)|]. apply tc_info_zero_ok. }
  pose proof (tc_info_fields_ok requested (val_uCount Map) _ DC1 Hd) as [Hle Hok].
  destruct (tc_info_fields _ _ _ _) as [[DC2 p] [|]]; cbn in *; [|split; cbn; [lia|done]].
  destruct (IH (S i) DC2 (<[i:=p]> elems)) as [Hle' Hok'].
  { apply Forall_insert; auto. }
  rewrite length_insert in Hok'. split; [lia|done].
Qed.

Lemma component_id_elems_fills n i DC elems :
  fills (fun _ => True) (length elems) DC (component_id_elems n i DC elems).
Proof.
  revert i DC elems. induction n as [|n IH]; intros i DC elems; cbn.
  { split; [done|]. intros _. split; [done|]. by apply list.Forall_forall. }
  unfold QCBORDecode_GetNextWithOffset.
  pose proof (get_next_monotone DC) as Hm. destruct (QCBORDecode_GetNext DC) as [DC1 item].
  cbn in Hm |- *.
  pose proof (teep_parse_component_id_remaining (default None (elems !! i)) DC1
                (item, QCBORDecode_Tell DC)) as Hle.
  destruct (teep_parse_component_id _ _ _) as [[DC2 id] [|]]; cbn in *; [|split; cbn; [lia|done]].
  destruct (IH (S i) DC2 (<[i:=id]> elems)) as [Hle' Hok'].
  rewrite length_insert in Hok'. split; [lia|done].
Qed.

(** ** One array option *)

Definition is_array (option : qcbor_item) : bool :=
  bool_decide (uDataType option = QCBOR_TYPE_ARRAY).

Definition array_post {A} (P : A → Prop) (h : heap) (p : teep_array A) DC (option : qcbor_item)
    (r : parsed_array A) : Prop :=
  let '(h', DC', p', ok) := r in
  (remaining DC' ≤ remaining DC)%nat ∧
  (if is_array option
   then ∃ size, h' = (malloc h size).1 ∧ arr_block p' = (malloc h size).2
   else h' = h ∧ p' = p ∧ ok = false) ∧
  (ok = true → array_ok P p').

Lemma allocate_array_post {A} (P : A → Prop) size h (p : teep_array A) DC option fill :
  (∀ DC, fills P (val_uCount option) DC (fill (val_uCount option) DC)) →
  array_post P h p DC option (allocate_array size h p DC option fill).
Proof.
  intros Hfill. unfold allocate_array, array_post, is_array. case_bool_decide; cbn; [|done].
  destruct (malloc h _) as [h' [b|]] eqn:Hmal; cbn.
  - destruct (Hfill DC) as [Hle Hok]. destruct (fill _ DC) as [[DC' elems] [|]]; cbn in *.
    + split; [done|]. split; [eexists; by rewrite Hmal|]. intros _. right. cbn.
      destruct Hok; [done|]. eauto.
    + split; [done|]. split; [eexists; by rewrite Hmal|done].
  - split; [done|]. split; [eexists; by rewrite Hmal|done].
Qed.

Lemma parse_uint32_array_post h p DC option :
  array_post uint32 h p DC option (parse_uint32_array h p DC option).
Proof.
  apply allocate_array_post. intros DC'. apply (uint32_elems_fills _ _ []). constructor.
Qed.

Lemma parse_buffer_array_post h p DC option binary :
  array_post buffer_ok h p DC option (parse_buffer_array h p DC option binary).
Proof. apply allocate_array_post. intros DC'. by apply (buffer_elems_fills _ _ _ []). Qed.

Lemma parse_tc_info_array_post h p DC option requested :
  array_post tc_info_ok h p DC option (parse_tc_info_array h p DC option requested).
Proof.
  apply allocate_array_post. intros DC'.
  rewrite <-(length_replicate (val_uCount option) tc_info_zero) at 1.
  apply tc_info_elems_fills, Forall_replicate, tc_info_zero_ok.
Qed.

Lemma parse_component_id_array_post h p DC option :
  array_post (fun _ => True) h p DC option (parse_component_id_array h p DC option).
Proof.
  apply allocate_array_post. intros DC'.
  rewrite <-(length_replicate (val_uCount option) (None : teep_component_id)) at 1.
  apply component_id_elems_fills.
Qed.

(** ** One option *)

Definition array_option (option : qcbor_item) : bool :=
  bool_decide (uLabelType option = QCBOR_TYPE_INT64) && is_array option.

Record option_post (h : heap) (m : teep_message) DC (option : qcbor_item) (r : parsed_message)
    : Prop := {
  post_remaining : (remaining r.1.1.2 ≤ remaining DC)%nat;
  post_heap : heap_effect (option_block (m_body m) (label_int64 option)) (array_option option)
    h (array_blocks (m_body m)) r.1.1.1 (array_blocks (m_body r.1.2));
  post_type : m_type r.1.2 = m_type m;
  post_body : body_ok (m_body m) → r.2 = true → body_ok (m_body r.1.2);
  post_others : ∀ label, label ≠ label_int64 option →
    option_block (m_body r.1.2) label = option_block (m_body m) label
}.

(** An array member of the union: [set] writes it, and it is the block after
    [l1] in the order of [free_parsed_teep_message]. *)
Lemma store_array_post {A} (P : A → Prop) l1 l2 h m DC option (p : teep_array A) set r :
  uLabelType option = QCBOR_TYPE_INT64 →
  array_post P h p DC option r →
  array_blocks (m_body m) = l1 ++ arr_block p :: l2 →
  (∀ p', array_blocks (set p') = l1 ++ arr_block p' :: l2) →
  option_block (m_body m) (label_int64 option) = arr_block p →
  set p = m_body m →
  (∀ t p', m_type (Message t (set p')) = m_type m) →
  (∀ p', body_ok (m_body m) → array_ok P p' → body_ok (set p')) →
  (∀ p' label, label ≠ label_int64 option →
     option_block (set p') label = option_block (m_body m) label) →
  wp (store_array m set r) (option_post h m DC option).
Proof.
  destruct r as [[[h' DC'] p'] ok]. intros Hl (Hle & Harr & Hok) Hbs Hbs' Hob Hset Hty Hbody Hoth.
  cbn. split; cbn; auto.
  rewrite Hob, Hbs'. unfold array_option. rewrite bool_decide_true by done. cbn.
  destruct (is_array option) eqn:Hisa.
  - destruct Harr as (size & -> & ->). rewrite Hbs. by constructor.
  - destruct Harr as (-> & -> & _). rewrite Hbs. constructor. auto.
Qed.

Lemma unchanged_post h m m' DC DC' option ok :
  option_block (m_body m) (label_int64 option) = None ∨ array_option option = false →
  (remaining DC' ≤ remaining DC)%nat →
  array_blocks (m_body m') = array_blocks (m_body m) →
  m_type m' = m_type m →
  (body_ok (m_body m) → ok = true → body_ok (m_body m')) →
  (∀ label, option_block (m_body m') label = option_block (m_body m) label) →
  option_post h m DC option (h, DC', m', ok).
Proof. intros Hob Hle Hbs Hty Hb Hoth. split; cbn; auto. rewrite Hbs. by constructor. Qed.

Lemma skip_option_spec fuel h DC m level nest_level :
  (remaining DC < fuel)%nat →
  wp (skip_option fuel h DC m level nest_level)
    (fun r => r.1.1.1 = h ∧ (remaining r.1.1.2 ≤ remaining DC)%nat ∧ r.1.2 = m).
Proof.
  revert DC level. induction fuel as [|fuel IH]; intros DC level Hf; [lia|]. cbn.
  case_match; [done|].
  pose proof (get_next_monotone DC) as Hm. pose proof (get_next_progress DC) as Hp.
  destruct (QCBORDecode_GetNext DC) as [DC1 Item]. cbn in Hm, Hp.
  case_bool_decide; [done|].
  eapply wp_mono; [apply IH; specialize (Hp ltac:(done)); lia|].
  intros r (? & ? & ?). split; [done|]. split; [lia|done].
Qed.
End options.

#[export] Hint Resolve parse_uint32_array_post parse_buffer_array_post parse_tc_info_array_post
  parse_component_id_array_post : c_ok.

(** Case analysis on the tests of a goal about labels. *)
Ltac label_cases :=
  repeat match goal with
  | |- context [if ?l =? ?k then _ else _] => destruct (Z.eqb_spec l k); try congruence
  | H : ?l = ?a, H' : ?l = ?b |- _ => exfalso; rewrite H in H'; discriminate H'
  end.

Section parse_option.
Context `{allocator, Hq : qcbor, !qcbor_laws}.
Implicit Types DC : decode_context.

(** The body after [option] when it is not skipped, and [None] otherwise: the
    options a type of message has. *)
Definition applicable (b : teep_body) (label : Z) : bool :=
  match b with
  | BodyQueryRequest _ => bool_decide (label ∈
      [TEEP_OPTION_SUPPORTED_CIPHER_SUITS; TEEP_OPTION_CHALLENGE; TEEP_OPTION_VERSIONS;
       TEEP_OPTION_OCSP_DATA; TEEP_OPTION_TOKEN; TEEP_OPTION_SUPPORTED_FRESHNESS_MECHANISMS])
  | BodyQueryResponse _ => bool_decide (label ∈
      [TEEP_OPTION_SELECTED_CIPHER_SUIT; TEEP_OPTION_SELECTED_VERSION; TEEP_OPTION_EVIDENCE_FORMAT;
       TEEP_OPTION_EVIDENCE; TEEP_OPTION_TC_LIST; TEEP_OPTION_REQUESTED_TC_LIST;
       TEEP_OPTION_UNNEEDED_TC_LIST; TEEP_OPTION_EXT_LIST; TEEP_OPTION_TOKEN])
  | BodyUpdate _ => bool_decide (label ∈ [TEEP_OPTION_MANIFEST_LIST; TEEP_OPTION_TOKEN])
  | BodySuccess _ => bool_decide (label ∈
      [TEEP_OPTION_MSG; TEEP_OPTION_SUIT_REPORTS; TEEP_OPTION_TOKEN])
  | BodyError _ => bool_decide (label ∈
      [TEEP_OPTION_SUPPORTED_CIPHER_SUITS; TEEP_OPTION_VERSIONS; TEEP_OPTION_ERR_MSG;
       TEEP_OPTION_SUIT_REPORTS; TEEP_OPTION_TOKEN; TEEP_OPTION_SUPPORTED_FRESHNESS_MECHANISMS])
  end.

(** An option that does not apply goes to [skip]. *)
Lemma parse_option_skip fuel h m DC option nest_level :
  uLabelType option = QCBOR_TYPE_INT64 →
  applicable (m_body m) (label_int64 option) = false →
  parse_option fuel h m DC option nest_level =
  skip_option fuel h DC m (uNextNestLevel option) nest_level.
Proof.
  intros Hl Ha. unfold parse_option. rewrite bool_decide_true by done. cbn [negb].
  generalize dependent (label_int64 option). intros label Ha.
  destruct (m_body m); cbn [applicable] in Ha; apply bool_decide_eq_false in Ha;
    rewrite !not_elem_of_cons in Ha; destruct_and! Ha;
    repeat match goal with
    | H : ?l ≠ ?k |- context [?l =? ?k] => rewrite (proj2 (Z.eqb_neq l k) H)
    end; cbn [orb]; repeat case_match; done.
Qed.

(** The items [skip_option] consumes. *)
Lemma skip_option_items fuel h m DC level nest_level :
  (remaining DC < fuel)%nat →
  wp (skip_option fuel h DC m level nest_level) (fun '(h', DC', m', ok) =>
    h' = h ∧ m' = m ∧
    ∃ items, next_items (length items) DC = (items, DC') ∧
      let levels := level :: (uNextNestLevel <$> items) in
      (∀ l, l ∈ removelast levels → l ≠ nest_level) ∧
      (if ok then list.last levels = Some nest_level
       else ∃ Item, list.last items = Some Item ∧ uDataType Item = QCBOR_TYPE_NONE)).
Proof.
  revert DC level. induction fuel as [|fuel IH]; intros DC level Hf; [lia|]. cbn.
  destruct (Z.eqb_spec level nest_level) as [->|Hne].
  { split_and!; [done..|]. exists []. split_and!; [done| |done]. by intros l ?%elem_of_nil. }
  pose proof (get_next_monotone DC) as Hm. pose proof (get_next_progress DC) as Hp.
  destruct (QCBORDecode_GetNext DC) as [DC1 Item] eqn:Hget. cbn in Hm, Hp.
  case_bool_decide.
  { split_and!; [done..|]. exists [Item]. cbn. rewrite Hget.
    split_and!; [done| |eauto]. by intros l ->%list_elem_of_singleton. }
  eapply wp_mono; [apply IH; specialize (Hp ltac:(done)); lia|].
  intros [[[h' DC'] m'] ok] (-> & -> & items & Hitems & Hlev & Hlast).
  split_and!; [done..|]. exists (Item :: items). cbn [length next_items fmap list_fmap].
  rewrite Hget, Hitems. cbn zeta in *. split_and!; [done| |].
  - intros l. cbn [removelast]. intros [->|Hl]%elem_of_cons; [done|]. by apply Hlev.
  - destruct ok; [done|]. destruct Hlast as (It & Hl & Hn). exists It. split; [|done].
    destruct items; [done|]. exact Hl.
Qed.

Lemma skip_post fuel h m DC option nest_level :
  (remaining DC < fuel)%nat →
  option_block (m_body m) (label_int64 option) = None →
  wp (skip_option fuel h DC m (uNextNestLevel option) nest_level) (option_post h m DC option).
Proof.
  intros Hf Hob. eapply wp_mono; [by apply skip_option_spec|].
  intros [[[h' DC'] m'] ok]. cbn. intros (-> & Hle & ->). apply unchanged_post; auto.
Qed.
End parse_option.

Section parse_option_post.
Context `{allocator, Hq : qcbor, !qcbor_laws}.
Implicit Types DC : decode_context.

Lemma store_uint32_post h m DC option (o : teep_uint32_option) set :
  option_block (m_body m) (label_int64 option) = None →
  (∀ o', array_blocks (set o') = array_blocks (m_body m)) →
  (∀ t o', m_type (Message t (set o')) = m_type m) →
  (∀ o', body_ok (m_body m) → (uint32_option_ok o → uint32_option_ok o') → body_ok (set o')) →
  (∀ o' label, option_block (set o') label = option_block (m_body m) label) →
  wp (store_uint32 h DC m set (parse_uint32_option o option)) (option_post h m DC option).
Proof.
  intros Hob Hbs Hty Hok Hoth. pose proof (parse_uint32_option_ok o option) as Ho.
  destruct (parse_uint32_option o option) as [o' ok]. cbn in *. apply unchanged_post; cbn; auto.
Qed.

Lemma store_string_post h m DC ty option set :
  option_block (m_body m) (label_int64 option) = None →
  (∀ b, array_blocks (set b) = array_blocks (m_body m)) →
  (∀ t b, m_type (Message t (set b)) = m_type m) →
  (∀ b, body_ok (m_body m) → body_ok (set b)) →
  (∀ b label, option_block (set b) label = option_block (m_body m) label) →
  wp (store_string h DC m ty option set) (option_post h m DC option).
Proof.
  intros. unfold store_string. case_match; apply unchanged_post; cbn; auto.
Qed.

(** The cases of [parse_option], by the shape of what it does with the option. *)
Ltac label_is :=
  repeat match goal with
  | |- context [if ?l =? ?k then _ else _] => destruct (Z.eqb_spec l k); cbn [orb]
  | |- context [if (?l =? ?k) || _ then _ else _] => destruct (Z.eqb_spec l k); cbn [orb]
  end.

Ltac fields_done :=
  intros; cbn in *; first [solve [auto] | tauto | solve [label_cases]].

Ltac array_case :=
  first
    [ eapply (store_array_post _ []); [done|by auto with c_ok|reflexivity|fields_done..]
    | eapply (store_array_post _ [_]); [done|by auto with c_ok|reflexivity|fields_done..]
    | eapply (store_array_post _ [_; _]); [done|by auto with c_ok|reflexivity|fields_done..]
    | eapply (store_array_post _ [_; _; _]); [done|by auto with c_ok|reflexivity|fields_done..] ].

Ltac option_case :=
  first
    [ array_case
    | apply store_uint32_post; fields_done
    | apply store_string_post; fields_done
    | apply skip_post; [done|fields_done]
    | case_match; (apply unchanged_post; [left; fields_done|fields_done..]) ].

(** Every option of every message. *)
Lemma parse_option_ok fuel h m DC option nest_level :
  (remaining DC < fuel)%nat →
  wp (parse_option fuel h m DC option nest_level) (option_post h m DC option).
Proof.
  intros Hf. unfold parse_option.
  case_bool_decide as Hlt; cbn [negb];
    [|apply unchanged_post; auto; right; unfold array_option; by rewrite bool_decide_false].
  destruct m as [t [[]|[]| |[]|[]]]; cbn [m_body]; label_is.
  all: option_case.
Qed.
End parse_option_post.

(** ** The loop over the options *)

Section messages.
Context `{allocator, Hq : qcbor, !qcbor_laws}.
Implicit Types (DC : decode_context) (h : heap) (m : teep_message).

(** The options a run of [parse_options_loop] reads. *)
Fixpoint options_read (fuel n : nat) h m DC nest_level : list qcbor_item :=
  match n with
  | O => []
  | S n =>
      let '(DC, option) := QCBORDecode_GetNext DC in
      option ::
      match parse_option fuel h m DC option nest_level with
      | Done (h, DC, m, true) => options_read fuel n h m DC nest_level
      | _ => []
      end
  end.

(** The options read fill distinct, empty members. *)
Definition distinct_options (m : teep_message) (options : list qcbor_item) : Prop :=
  NoDup (label_int64 <$> options) ∧
  ∀ o, o ∈ options → option_block (m_body m) (label_int64 o) = None.

Record options_post h m (frame : list nat) (options : list qcbor_item) (r : parsed_message) : Prop := {
  options_heap : ∃ leak, accounts r.1.1.1 (array_blocks (m_body r.1.2)) (leak ++ frame) ∧
    (distinct_options m options → leak = []);
  options_type : m_type r.1.2 = m_type m;
  options_body : body_ok (m_body m) → r.2 = true → body_ok (m_body r.1.2)
}.

Lemma distinct_options_next m m' o options :
  distinct_options m (o :: options) →
  (∀ label, label ≠ label_int64 o →
     option_block (m_body m') label = option_block (m_body m) label) →
  distinct_options m' options.
Proof.
  intros [Hnd Hnone] Hoth. cbn in Hnd. apply list.NoDup_cons in Hnd as [Hout Hnd].
  split; [done|]. intros o' Ho'. rewrite Hoth; [apply Hnone; by right|].
  intros Heq. apply Hout. rewrite <-Heq. by apply list_elem_of_fmap_2.
Qed.

Lemma parse_options_loop_ok fuel n h m DC nest_level frame :
  (remaining DC < fuel)%nat →
  accounts h (array_blocks (m_body m)) frame →
  wp (parse_options_loop fuel n h m DC nest_level)
    (options_post h m frame (options_read fuel n h m DC nest_level)).
Proof.
  revert h m DC frame. induction n as [|n IH]; intros h m DC frame Hf Hacc; cbn.
  { split; cbn; [|done..]. by exists []. }
  pose proof (get_next_monotone DC) as Hm. destruct (QCBORDecode_GetNext DC) as [DC1 o].
  cbn in Hm. apply wp_bind.
  destruct (wp_elim _ _ (parse_option_ok fuel h m DC1 o nest_level ltac:(lia)))
    as [[[[h1 DC2] m1] ok] [Hrun Hpost]].
  rewrite Hrun. cbn. destruct Hpost as [Hle Heff Hty Hok Hoth]; cbn in *.
  destruct (heap_effect_accounts _ _ _ _ _ _ frame Heff Hacc) as (leak & Hleak & Hacc1).
  assert (∀ options, distinct_options m (o :: options) → leak = []) as Hnone.
  { intros options [_ Hnone]. destruct Hleak as [-> | ->]; [done|].
    by rewrite Hnone by left. }
  destruct ok; cbn; [|split; cbn; eauto].
  eapply wp_mono; [apply (IH h1 m1 DC2 (leak ++ frame)); [lia|done]|].
  intros r [(leak' & Hacc' & Hd) Hty' Hok']. split; [|congruence|eauto].
  exists (leak' ++ leak). rewrite <-(assoc_L (++)). split; [done|]. intros Hdis.
  rewrite (Hnone _ Hdis), Hd; [done|]. by eapply distinct_options_next.
Qed.

(** The options [parse_teep_message] reads on [cbor]; [block] is the block of
    the message. *)
Definition message_options (fuel : nat) h (cbor : useful_buf) : list qcbor_item :=
  let '(DC, _) := QCBORDecode_GetNext (QCBORDecode_Init cbor) in
  let '(DC, Item) := QCBORDecode_GetNext DC in
  match body_zero (val_int64 Item) with
  | None => []
  | Some body =>
      let h := (malloc h sizeof_teep_message).1 in
      let '(DC, options) := QCBORDecode_GetNext DC in
      options_read fuel (val_uCount options) h (Message None body) DC (uNextNestLevel options)
  end.

Lemma body_zero_ok n body :
  body_zero n = Some body →
  body_ok body ∧ blocks (array_blocks body) = [] ∧ m_type (Message None body) = n ∧
  ∀ label, option_block body label = None.
Proof.
  unfold body_zero. intros Hb.
  repeat (case_match; bool_facts; simplify_eq);
    (split_and!; [cbn; split_and?; by left|done|done|]);
    intros label; cbn; by repeat case_match.
Qed.

Lemma parse_tail_ok m DC :
  let '(DC', m', ok) := parse_tail m DC in
  array_blocks (m_body m') = array_blocks (m_body m) ∧ m_type m' = m_type m ∧
  (body_ok (m_body m) → body_ok (m_body m')).
Proof.
  unfold parse_tail. destruct m as [t [[]|[]| |[]|[]]]; cbn; try done;
    destruct (QCBORDecode_GetNext DC); cbn; case_bool_decide; cbn; auto.
Qed.

(** What [parse_teep_message] returns, with the blocks it loses. *)
Definition message_post h (leak : list nat) (r : heap * option (nat * teep_message)) : Prop :=
  match r.2 with
  | None => accounts r.1 [] (leak ++ h_live h)
  | Some (block, m) =>
      accounts r.1 (Some block :: array_blocks (m_body m)) (leak ++ h_live h) ∧
      body_ok (m_body m) ∧
      m_type m ∈ [TEEP_QUERY_REQUEST; TEEP_QUERY_RESPONSE; TEEP_UPDATE; TEEP_SUCCESS; TEEP_ERROR]
  end.

Lemma message_err h leak h1 block m :
  accounts h1 (array_blocks (m_body m)) (leak ++ block :: h_live h) →
  wp (h ← free_parsed_teep_message h1 (Some (block, m)); Done (h, None : option (nat * teep_message)))
    (message_post h leak).
Proof.
  intros Hacc. apply wp_bind. eapply wp_mono.
  - apply (free_message _ _ _ (leak ++ h_live h)). eapply accounts_perm; [done|].
    rewrite blocks_cons. cbn. solve_Permutation.
  - done.
Qed.
End messages.
