(* ===== verification/TeepMessageTheorems.v ===== *)
(** * TeepMessageTheorems: correctness of the TEEP message parser

    Memory safety and well-formedness of what [parse_teep_message] returns,
    absence of leaks when no option is repeated, the effect of options that do
    not apply to a type of message, the contents of the arrays, and two
    behaviours of the source that its author did not intend: an option that
    occurs twice loses a block, and [TEEP_OPTION_HAVE_BINARY] is always an error.
    The witnesses run the parser on a decoder that yields a list of items. *)

From S2P Require Import Prelude TeepMessage TeepMessageFacts.

Local Open Scope Z_scope.

(** ** A decoder for the witnesses *)

Definition no_item : qcbor_item :=
  QItem QCBOR_TYPE_NONE QCBOR_TYPE_NONE 0 0 0 None 0 0.

(** A string longer than any object is dropped. *)
Definition clip (b : useful_buf) : useful_buf :=
  match b with
  | Some bytes => if Z.of_nat (length bytes) <=? PTRDIFF_MAX then b else None
  | None => None
  end.

Definition clip_item (i : qcbor_item) : qcbor_item :=
  QItem (uDataType i) (uLabelType i) (uNestingLevel i) (uNextNestLevel i) (val_int64 i)
    (clip (val_string i)) (val_uCount i) (label_int64 i).

Lemma clip_object b bytes : clip b = Some bytes → Z.of_nat (length bytes) <= PTRDIFF_MAX.
Proof. destruct b as [b|]; [|done]. cbn. case_match; [|done]. intros [= <-]. by bool_facts. Qed.

(** The items of a script, one after the other, then errors. *)
Definition script_qcbor (script : list qcbor_item) : qcbor := {|
  decode_context := list qcbor_item;
  QCBORDecode_Init := fun _ => script;
  QCBORDecode_GetNext := fun DC =>
    match DC with [] => ([], no_item) | Item :: DC => (DC, clip_item Item) end;
  QCBORDecode_Finish := fun DC => bool_decide (DC = []);
  UsefulInputBuf_Tell := fun DC => Z.of_nat (length script - length DC);
  InBuf_UB := fun _ => Some [];
  UsefulBuf_Head := fun b n => take (Z.to_nat n) <$> b;
  UsefulBuf_Tail := fun b n => drop (Z.to_nat n) <$> b;
  QCBOR_Int64ToUInt32 := fun z => if (0 <=? z) && (z <? u32_modulus) then Some z else None
|}.

#[export] Instance script_laws script : @qcbor_laws (script_qcbor script).
Proof.
  refine (Build_qcbor_laws (script_qcbor script) (@length qcbor_item) _ _ _ _); cbn; [..|done];
    intros [|Item DC]; cbn; try (done || lia). intros bytes. apply clip_object.
Defined.

Definition always_malloc : allocator := fun _ _ => true.

Definition int_item (v : Z) : qcbor_item := QItem QCBOR_TYPE_INT64 QCBOR_TYPE_NONE 0 0 v None 0 0.
Definition array_item (label : Z) (n : nat) : qcbor_item :=
  QItem QCBOR_TYPE_ARRAY QCBOR_TYPE_INT64 2 3 0 None n label.
Definition map_item (n : nat) : qcbor_item := QItem QCBOR_TYPE_MAP QCBOR_TYPE_NONE 1 2 0 None n 0.
Definition option_item (label v : Z) : qcbor_item :=
  QItem QCBOR_TYPE_INT64 QCBOR_TYPE_INT64 3 3 v None 0 label.

(** A query request with two versions and a challenge-free map, then its items. *)
Definition request_script : list qcbor_item :=
  [array_item 0 3; int_item TEEP_QUERY_REQUEST; map_item 1; array_item TEEP_OPTION_VERSIONS 2;
   int_item 0; int_item 7; int_item TEEP_DATA_TRUSTED_COMPONENTS].

(** The same with the option given twice. *)
Definition repeated_script : list qcbor_item :=
  [array_item 0 3; int_item TEEP_QUERY_REQUEST; map_item 2; array_item TEEP_OPTION_VERSIONS 1;
   int_item 0; array_item TEEP_OPTION_VERSIONS 1; int_item 7; int_item 2].

Definition empty_heap : heap := Heap 0 [].

Lemma empty_heap_wf : heap_wf empty_heap.
Proof. split; [constructor|]. cbn. intros b Hb. by apply not_elem_of_nil in Hb. Qed.

Section parse.
Context `{Ha : allocator, Hq : qcbor, !qcbor_laws}.

(** Everything [parse_teep_message] guarantees. *)
Lemma parse_teep_message_ok fuel h cbor :
  (remaining (QCBORDecode_Init cbor) < fuel)%nat → heap_wf h →
  wp (parse_teep_message fuel h cbor) (fun r =>
    ∃ leak, message_post h leak r ∧
            (NoDup (label_int64 <$> message_options fuel h cbor) → leak = [])).
Proof.
  intros Hf Hwf. unfold parse_teep_message, message_options.
  pose proof (get_next_monotone (QCBORDecode_Init cbor)) as Hm1.
  destruct (QCBORDecode_GetNext (QCBORDecode_Init cbor)) as [DC1 Item1]. cbn in Hm1.
  assert (accounts h [] ([] ++ h_live h)) as Hacc by done.
  case_match; [by exists []|].
  pose proof (get_next_monotone DC1) as Hm2.
  destruct (QCBORDecode_GetNext DC1) as [DC2 Item2]. cbn in Hm2.
  case_match; [by exists []|].
  destruct (body_zero (val_int64 Item2)) as [body|] eqn:Hbody; [|by exists []].
  destruct (body_zero_ok _ _ Hbody) as (Hok & Hbs & Hty & Hslots).
  pose proof (accounts_malloc _ sizeof_teep_message _ _ Hacc) as Hacc1.
  destruct (malloc h sizeof_teep_message) as [h1 [block|]]; cbn [fst snd] in *; [|by exists []].
  unfold parse_options. pose proof (get_next_monotone DC2) as Hm3.
  destruct (QCBORDecode_GetNext DC2) as [DC3 options]. cbn in Hm3.
  set (m0 := Message None body) in *.
  assert (accounts h1 (array_blocks (m_body m0)) ([] ++ block :: h_live h)) as Hacc2.
  { eapply accounts_perm; [done|]. cbn [m_body m0]. rewrite Hbs. done. }
  case_match.
  { cbn [mbind outcome_bind negb]. eapply wp_mono; [by apply (message_err h [])|]. by exists []. }
  apply wp_bind.
  eapply wp_mono; [apply (parse_options_loop_ok _ _ _ _ _ _ (block :: h_live h)); [lia|done]|].
  intros [[[h2 DC4] m1] ok] [(leak & Hacc3 & Hleak) Hty1 Hok1]. cbn in *.
  assert (∀ r, message_post h leak r → ∃ leak, message_post h leak r ∧
    (NoDup (label_int64 <$> options_read fuel (val_uCount options) h1 m0 DC3 (uNextNestLevel options))
     → leak = [])) as Hdone.
  { intros r Hr. exists leak. split; [done|]. intros Hnd. apply Hleak. by split. }
  destruct ok; cbn [negb]; [|eapply wp_mono; [by apply (message_err h leak)|exact Hdone]].
  pose proof (parse_tail_ok m1 DC4) as Htail.
  destruct (parse_tail m1 DC4) as [[DC5 m2] ok]. destruct Htail as (Hbs2 & Hty2 & Hok2).
  rewrite <-Hbs2 in Hacc3.
  destruct ok; cbn [negb]; [|eapply wp_mono; [by apply (message_err h leak)|exact Hdone]].
  case_match; [eapply wp_mono; [by apply (message_err h leak)|exact Hdone]|].
  apply Hdone. split; [|split; [auto|]].
  - eapply accounts_perm; [done|]. rewrite blocks_cons. cbn. solve_Permutation.
  - rewrite Hty2, Hty1. unfold body_zero in Hbody. subst m0. rewrite Hty.
    repeat (case_match; bool_facts; simplify_eq); rewrite !elem_of_cons; tauto.
Qed.

(** C16: For every buffer, every behaviour of the QCBOR decoder and every pattern
    of failing allocations, [parse_teep_message] terminates without undefined
    behaviour: no loop runs out of fuel, and no block is freed twice.  A message
    it returns has one of the five types; each of its arrays is absent or has its
    own live block, the announced number of elements and 32-bit values; its
    blocks are live and distinct.  When it fails, it leaves no block of the
    message behind other than those lost to repeated options. *)
Theorem teep_parse_safe fuel h cbor :
  (remaining (QCBORDecode_Init cbor) < fuel)%nat → heap_wf h →
  wp (parse_teep_message fuel h cbor) (fun r => ∃ leak, message_post h leak r).
Proof.
  intros Hf Hwf. eapply wp_mono; [by apply parse_teep_message_ok|]. intros r (leak & Hr & _). eauto.
Qed.

(** C19: When no option occurs twice, parsing a message and freeing it restores
    the live blocks of the heap, whether parsing succeeds or fails half way. *)
Theorem teep_parse_no_leak fuel h cbor :
  (remaining (QCBORDecode_Init cbor) < fuel)%nat → heap_wf h →
  NoDup (label_int64 <$> message_options fuel h cbor) →
  wp (r ← parse_teep_message fuel h cbor; free_parsed_teep_message r.1 r.2)
     (fun h' => heap_wf h' ∧ h_live h' ≡ₚ h_live h).
Proof.
  intros Hf Hwf Hnd. apply wp_bind.
  eapply wp_mono; [by apply parse_teep_message_ok|].
  intros [h' [[block m]|]] (leak & Hpost & Hleak); rewrite Hleak in Hpost by done.
  - destruct Hpost as (Hacc & _). eapply wp_mono; [by apply free_message|]. done.
  - exact Hpost.
Qed.

(** An array option that is given again loses the block of the first: after
    [parse_option] it is still live, and [free_parsed_teep_message] cannot free
    it because no member of the message refers to it. *)
Theorem teep_repeated_option_leaks fuel h m DC option nest_level frame block :
  (remaining DC < fuel)%nat →
  accounts h (array_blocks (m_body m)) frame →
  uLabelType option = QCBOR_TYPE_INT64 → uDataType option = QCBOR_TYPE_ARRAY →
  option_block (m_body m) (label_int64 option) = Some block →
  wp (parse_option fuel h m DC option nest_level) (fun '(h', _, m', _) =>
    block ∈ h_live h' ∧ Some block ∉ array_blocks (m_body m')).
Proof.
  intros Hf Hacc Hl Ht Hob. eapply wp_mono; [by apply parse_option_ok|].
  intros [[[h' DC'] m'] ok] [_ Heff _ _ _]. cbn in Heff. rewrite Hob in Heff.
  unfold array_option, is_array in Heff. rewrite !bool_decide_true in Heff by done.
  by eapply heap_effect_leak.
Qed.

(** An option that its message type does not have is skipped: the message and
    the heap do not change, and the decoder consumes items until the first one
    after which it is back at the level of the options; it fails only if the
    decoder does first. *)
Theorem teep_inapplicable_option_skipped fuel h m DC option nest_level :
  (remaining DC < fuel)%nat →
  uLabelType option = QCBOR_TYPE_INT64 →
  applicable (m_body m) (label_int64 option) = false →
  wp (parse_option fuel h m DC option nest_level) (fun '(h', DC', m', ok) =>
    h' = h ∧ m' = m ∧
    ∃ items, next_items (length items) DC = (items, DC') ∧
      let levels := uNextNestLevel <$> option :: items in
      (∀ level, level ∈ removelast levels → level ≠ nest_level) ∧
      (if ok then list.last levels = Some nest_level
       else ∃ Item, list.last items = Some Item ∧ uDataType Item = QCBOR_TYPE_NONE)).
Proof.
  intros Hf Hl Happ. rewrite parse_option_skip by done.
  eapply wp_mono; [by apply skip_option_items|].
  by intros [[[h' DC'] m'] ok].
Qed.

(** An array of integers is accepted exactly if the allocation succeeds and
    the announced number of items follows, all integers of 32 bits; an array of
    strings if they are all strings of the kind asked for.  The elements are then
    the values of the items in their order, and the decoder is just after them. *)
Theorem teep_arrays_correct h DC option p pb binary h' block :
  uDataType option = QCBOR_TYPE_ARRAY →
  malloc h (Z.of_nat (val_uCount option) * 4) = (h', Some block) →
  malloc h (Z.of_nat (val_uCount option) * 16) = (h', Some block) →
  let n := val_uCount option in
  let '(items, DC') := next_items n DC in
  (if forallb uint32_item items
   then parse_uint32_array h p DC option =
        (h', DC', Array true (Some block) (val_int64 <$> items) n, true)
   else (parse_uint32_array h p DC option).2 = false) ∧
  (if forallb (buffer_item binary) items
   then parse_buffer_array h pb DC option binary =
        (h', DC', Array true (Some block) (val_string <$> items) n, true)
   else (parse_buffer_array h pb DC option binary).2 = false).
Proof.
  intros Ht Hm4 Hm16 n. subst n.
  pose proof (uint32_elems_spec (val_uCount option) DC []) as Hu.
  pose proof (buffer_elems_spec binary (val_uCount option) DC []) as Hb.
  unfold fill_spec in *. destruct (next_items _ DC) as [items DC'].
  unfold parse_uint32_array, parse_buffer_array, allocate_array.
  rewrite bool_decide_true, Hm4, Hm16 by done. cbn [negb].
  split.
  - destruct (forallb uint32_item items); [by rewrite Hu|].
    destruct (uint32_elems _ _ _) as [[? ?] ?]; cbn in *; by subst.
  - destruct (forallb (buffer_item binary) items); [by rewrite Hb|].
    destruct (buffer_elems _ _ _ _) as [[? ?] ?]; cbn in *; by subst.
Qed.

(** [TEEP_OPTION_HAVE_BINARY] is rejected in every list of components, also in
    the requested ones, where the source reads its value first; so the member is
    never set in a list that was parsed. *)
Theorem teep_have_binary_rejected :
  (∀ requested p DC Item, label_int64 Item.1 = TEEP_OPTION_HAVE_BINARY →
     (tc_info_field requested p DC Item).2 = false) ∧
  ∀ h p DC option requested,
    let '(_, _, p', ok) := parse_tc_info_array h p DC option requested in
    ok = true → ∀ c, c ∈ arr_elems p' → have_binary c = uint32_zero.
Proof.
  split.
  - intros requested p DC Item Hl. unfold tc_info_field. rewrite Hl. cbn.
    destruct requested; [|done]. by destruct (parse_uint32_option _ _).
  - intros h p DC option requested.
    pose proof (parse_tc_info_array_post h p DC option requested) as Hpost.
    destruct (parse_tc_info_array _ _ _ _ _) as [[[h' DC'] p'] ok].
    destruct Hpost as (_ & _ & Hok). intros Hok' c Hc.
    destruct (Hok Hok') as [->|(_ & _ & _ & Hall)]; [by apply not_elem_of_nil in Hc|].
    rewrite list.Forall_forall in Hall. by apply Hall.
Qed.
End parse.

(** ** Witnesses *)

#[local] Existing Instance always_malloc.

Definition request_message : teep_message :=
  Message None (BodyQueryRequest
    (QueryRequest array_zero array_zero None (Array true (Some 1%nat) [0; 7] 2) None 2)).

Lemma teep_parse_safe_witness :
  let _ := script_qcbor request_script in
  parse_teep_message 8 empty_heap (Some []) = Done (Heap 2 [1%nat; 0%nat], Some (0%nat, request_message)) ∧
  wp (parse_teep_message 8 empty_heap (Some [])) (fun r => ∃ leak, message_post empty_heap leak r).
Proof.
  intros q. split; [by vm_compute|].
  apply (@teep_parse_safe _ q (script_laws request_script) 8 empty_heap (Some [])).
  - cbn. lia.
  - apply empty_heap_wf.
Defined.

Lemma teep_parse_no_leak_witness :
  let _ := script_qcbor request_script in
  wp (r ← parse_teep_message 8 empty_heap (Some []); free_parsed_teep_message r.1 r.2)
     (fun h' => heap_wf h' ∧ h_live h' ≡ₚ []).
Proof.
  intros q.
  apply (@teep_parse_no_leak _ q (script_laws request_script) 8 empty_heap (Some [])).
  - cbn. lia.
  - apply empty_heap_wf.
  - vm_compute. repeat constructor. by intros ?%elem_of_nil.
Defined.

(** A message with a list of versions, and the option that gives it again. *)
Definition message_with_versions : teep_message :=
  Message None (BodyQueryRequest
    (QueryRequest array_zero array_zero None (Array true (Some 0%nat) [0] 1) None 0)).

Lemma one_block_accounts : accounts (Heap 1 [0%nat]) [None; None; Some 0%nat] [].
Proof.
  split; [split; cbn|done].
  - repeat constructor. by intros ?%elem_of_nil.
  - intros b ->%list_elem_of_singleton. lia.
Qed.

Lemma teep_repeated_option_leaks_witness :
  let _ := script_qcbor [int_item 7] in
  wp (parse_option 2 (Heap 1 [0%nat]) message_with_versions [int_item 7]
        (array_item TEEP_OPTION_VERSIONS 1) 2)
    (fun '(h', _, m', _) => 0%nat ∈ h_live h' ∧ Some 0%nat ∉ array_blocks (m_body m')).
Proof.
  intros q.
  apply (@teep_repeated_option_leaks _ q (script_laws [int_item 7]) 2 _ message_with_versions
           [int_item 7] (array_item TEEP_OPTION_VERSIONS 1) 2 [] 0%nat).
  - cbn. lia.
  - apply one_block_accounts.
  - done.
  - done.
  - done.
Defined.

(** An array of one integer under an option that requests do not have. *)
Definition skipped_items : list qcbor_item :=
  [QItem QCBOR_TYPE_INT64 QCBOR_TYPE_NONE 3 2 5 None 0 0; int_item 2].

Lemma teep_inapplicable_option_skipped_witness :
  let _ := script_qcbor skipped_items in
  wp (parse_option 3 empty_heap request_message skipped_items (array_item TEEP_OPTION_EXT_LIST 1) 2)
    (fun '(h', DC', m', ok) =>
       h' = empty_heap ∧ m' = request_message ∧
       ∃ items, next_items (length items) skipped_items = (items, DC') ∧
         let levels := uNextNestLevel <$> array_item TEEP_OPTION_EXT_LIST 1 :: items in
         (∀ level, level ∈ removelast levels → level ≠ 2) ∧
         (if ok then list.last levels = Some 2
          else ∃ Item, list.last items = Some Item ∧ uDataType Item = QCBOR_TYPE_NONE)).
Proof.
  intros q.
  apply (@teep_inapplicable_option_skipped _ q (script_laws skipped_items) 3 empty_heap
           request_message skipped_items (array_item TEEP_OPTION_EXT_LIST 1) 2).
  - cbn. lia.
  - done.
  - by vm_compute.
Defined.

Lemma teep_arrays_correct_witness :
  let _ := script_qcbor [int_item 7; int_item 8] in
  parse_uint32_array empty_heap array_zero [int_item 7; int_item 8] (array_item 3 2) =
    (Heap 1 [0%nat], [], Array true (Some 0%nat) [7; 8] 2, true).
Proof.
  intros q.
  apply (@teep_arrays_correct _ q (script_laws [int_item 7; int_item 8]) empty_heap
           [int_item 7; int_item 8] (array_item 3 2) array_zero array_zero true
           (Heap 1 [0%nat]) 0%nat); done.
Defined.

Lemma teep_have_binary_rejected_witness :
  let _ := script_qcbor [] in
  (tc_info_field true tc_info_zero [] (option_item TEEP_OPTION_HAVE_BINARY 1, 0)).2 = false.
Proof.
  intros q.
  apply (proj1 (@teep_have_binary_rejected _ q (script_laws []))). done.
Defined.
