(* ===== verification/TeepEncoder.v ===== *)
(** * TeepEncoder: building TEEP messages ([lib/teep/libteep.c])

    The encoder passes everything on to QCBOR, which is not part of the
    repository: an encoder is the buffer it was opened with and the calls made
    so far, and the class [qcbor_encoder] gives what [QCBOREncode_Finish] makes
    of them: the contents of the buffer and the length of the message, or no
    length when it reports an error. *)

From S2P Require Import Prelude TeepMessage.

Local Open Scope Z_scope.

(** The calls of QCBOR the code makes. *)
Inductive encode_op :=
  | OpenArray
  | CloseArray
  | OpenMap
  | CloseMap
  | OpenArrayInMapN (label : Z)
  | AddBytesToMapN (label : Z) (bytes : list byte)
  | AddInt64 (n : Z)
  | AddUInt64 (n : Z)
  | AddSZString (s : list byte).

Class qcbor_encoder := QCBOREncode_Finish : list byte → list encode_op → list byte * option Z.

(** The buffer keeps its size and the message fits. *)
Class qcbor_encoder_laws `{qcbor_encoder} := {
  encoder_buffer : ∀ buf ops, length (QCBOREncode_Finish buf ops).1 = length buf;
  encoder_length : ∀ buf ops n, (QCBOREncode_Finish buf ops).2 = Some n →
    0 <= n <= Z.of_nat (length buf)
}.

Record teep_message_encoder := Encoder { enc_buffer : list byte; enc_ops : list encode_op }.

Definition add (e : teep_message_encoder) (op : encode_op) : teep_message_encoder :=
  Encoder (enc_buffer e) (enc_ops e ++ [op]).

Definition teep_message_encoder_init (buffer : list byte) : teep_message_encoder :=
  add (Encoder buffer []) OpenArray.

Definition teep_message_encoder_add_header (e : teep_message_encoder) (type : Z) :=
  add e (AddInt64 type).
Definition teep_message_encoder_open_options (e : teep_message_encoder) := add e OpenMap.
Definition teep_message_encoder_close_options (e : teep_message_encoder) := add e CloseMap.

Definition teep_message_encoder_add_token (e : teep_message_encoder) (token : useful_buf) :=
  match token with
  | Some bytes => add e (AddBytesToMapN TEEP_OPTION_TOKEN bytes)
  | None => e
  end.

Definition teep_message_encoder_open_tc_list (e : teep_message_encoder) :=
  add e (OpenArrayInMapN TEEP_OPTION_TC_LIST).
Definition teep_message_encoder_add_tc_to_tc_list (e : teep_message_encoder) (ta : list byte) :=
  add e (AddSZString ta).
Definition teep_message_encoder_close_tc_list (e : teep_message_encoder) := add e CloseArray.

Definition teep_message_encoder_open_requested_tc_list (e : teep_message_encoder) :=
  add e (OpenArrayInMapN TEEP_OPTION_REQUESTED_TC_LIST).
Definition teep_message_encoder_add_tc_to_requested_tc_list (e : teep_message_encoder)
    (ta : list byte) :=
  let e := add e OpenMap in
  let e := add e (OpenArrayInMapN TEEP_OPTION_COMPONENT_ID) in
  let e := add e (AddSZString ta) in
  let e := add e CloseArray in
  add e CloseMap.
Definition teep_message_encoder_close_requested_tc_list (e : teep_message_encoder) :=
  add e CloseArray.

Definition teep_message_encoder_open_unneeded_tc_list (e : teep_message_encoder) :=
  add e (OpenArrayInMapN TEEP_OPTION_UNNEEDED_TC_LIST).
Definition teep_message_encoder_add_tc_to_unneeded_tc_list (e : teep_message_encoder)
    (ta : list byte) :=
  let e := add e OpenArray in
  let e := add e (AddSZString ta) in
  add e CloseArray.
Definition teep_message_encoder_close_unneeded_tc_list (e : teep_message_encoder) :=
  add e CloseArray.

Definition teep_message_encoder_add_err_code (e : teep_message_encoder) (err_code : Z) :=
  add e (AddUInt64 (to_u64 err_code)).

Definition teep_message_encoder_finish `{qcbor_encoder} (e : teep_message_encoder)
    : list byte * option Z :=
  let e := add e CloseArray in QCBOREncode_Finish (enc_buffer e) (enc_ops e).
