(* ===== verification/Tools.v ===== *)
(** * Tools: the string functions of [teep-agent-ta/tools.c]

    The Keystone and SGX builds have no C library and define their own [strncpy]
    and [strstr].  A C string is a list of bytes that contains a NUL; a buffer is
    a list of bytes, and reading or writing outside of it is undefined. *)

From S2P Require Import Prelude.

(** The contents of a C string: the bytes before the first NUL. *)
Fixpoint cstr (p : list byte) : option (list byte) :=
  match p with
  | [] => None
  | c :: p => if bool_decide (c = x00) then Some [] else cons c <$> cstr p
  end.

(** [p[i]] and [p[i] = c]. *)
Definition get (p : list byte) (i : nat) : outcome byte :=
  match p !! i with Some c => Done c | None => Ub end.
Definition put (p : list byte) (i : nat) (c : byte) : outcome (list byte) :=
  if bool_decide (i < length p) then Done (<[i := c]> p) else Ub.

(** The loop [while (i++ != n && ( *d++ = *s++))]; [i] is its value before the
    test, which is the number of bytes copied. *)
Fixpoint strncpy_loop (fuel : nat) (dst src : list byte) (n i : nat) : outcome (list byte) :=
  match fuel with
  | O => NoFuel
  | S fuel =>
      if bool_decide (i = n) then Done dst
      else
        c ← get src i;
        dst ← put dst i c;
        if bool_decide (c = x00) then Done dst else strncpy_loop fuel dst src n (S i)
  end.

Definition strncpy (dst src : list byte) (n : nat) : outcome (list byte) :=
  dst ← strncpy_loop (S n) dst src n 0;
  put dst n x00.

(** The inner loop of [local_strstr]: how many bytes of [x] (from [p]) and [y]
    (from [q]) agree before the end of either. *)
Fixpoint strstr_compare (fuel : nat) (x y : list byte) (p q : nat) : outcome (nat * nat) :=
  match fuel with
  | O => NoFuel
  | S fuel =>
      a ← get x p;
      if bool_decide (a = x00) then Done (p, q)
      else
        b ← get y q;
        if bool_decide (b = x00) then Done (p, q)
        else if bool_decide (a ≠ b) then Done (p, q)
        else strstr_compare fuel x y (S p) (S q)
  end.

(** The outer loop, from position [i] of [x]. *)
Fixpoint strstr_loop (fuel : nat) (x y : list byte) (i : nat) : outcome (option nat) :=
  match fuel with
  | O => NoFuel
  | S fuel' =>
      a ← get x i;
      if bool_decide (a = x00) then Done None
      else
        '(p, q) ← strstr_compare fuel x y i 0;
        b ← get y q;
        if bool_decide (b = x00) then Done (Some i)
        else
          a ← get x p;
          if bool_decide (a = x00) then Done None else strstr_loop fuel' x y (S i)
  end.

(** [local_strstr]: the offset of the first occurrence in [x]. *)
Definition local_strstr (fuel : nat) (x y : list byte) : outcome (option nat) :=
  b ← get y 0;
  if bool_decide (b = x00) then Done (Some 0%nat) else strstr_loop fuel x y 0.

Definition strstr (fuel : nat) (haystack needle : list byte) : outcome (option nat) :=
  local_strstr fuel haystack needle.

(** The other [strstr] of the file, which [USE_SAFESTRSTR] would enable: copies in
    two static buffers. *)
Definition STRBUFSIZE : nat := 256.

Definition safe_strstr (fuel : nat) (haystack needle : list byte) : outcome (option nat) :=
  buf ← strncpy (replicate STRBUFSIZE x00) haystack STRBUFSIZE;
  find_buf ← strncpy (replicate STRBUFSIZE x00) needle STRBUFSIZE;
  local_strstr fuel buf find_buf.
