(* ===== verification/ToolsTheorems.v ===== *)
(** * ToolsTheorems: correctness of the string functions

    [strncpy] copies and terminates a
    string but needs one byte more than its bound; [strstr] finds the first
    occurrence. *)

From S2P Require Import Prelude Tools.

Lemma cstr_spec p s : cstr p = Some s ↔ (¬ x00 ∈ s) ∧ ∃ rest, p = s ++ x00 :: rest.
Proof.
  revert s. induction p as [|c p IH]; intros s; cbn.
  { split; [done|]. intros [_ [rest Hp]]. by destruct s. }
  case_bool_decide as Hc; [subst c; split|].
  - intros [= <-]. split; [by intros ?%elem_of_nil|]. by exists p.
  - intros [Hs [rest Hp]]. destruct s as [|c s]; [done|]. cbn in Hp. injection Hp as <- _.
    destruct Hs. left.
  - rewrite fmap_Some. split.
    + intros (t & Ht%IH & ->). destruct Ht as [Hs [rest ->]].
      split; [|by exists rest]. intros [?|?]%elem_of_cons; congruence.
    + intros [Hs [rest Hp]]. destruct s as [|c' s]; cbn in Hp; injection Hp as ? ?; [congruence|].
      subst c'. exists s. split; [|done]. apply IH.
      apply not_elem_of_cons in Hs as [_ Hs]. split; [done|]. by exists rest.
Qed.

Lemma cstr_lookup p s i :
  cstr p = Some s → i < length s → p !! i = s !! i ∧ s !! i ≠ Some x00.
Proof.
  intros [Hs [rest ->]]%cstr_spec Hi. split; [by rewrite lookup_app_l|].
  intros Hl. by apply list_elem_of_lookup_2 in Hl.
Qed.

Lemma cstr_nul p s : cstr p = Some s → p !! length s = Some x00.
Proof. intros [_ [rest ->]]%cstr_spec. by rewrite lookup_app_r, Nat.sub_diag. Qed.

(** Every position up to the terminator is readable, and only the terminator is
    NUL. *)
Lemma cstr_get p s i :
  cstr p = Some s → i ≤ length s →
  ∃ c, get p i = Done c ∧ (c = x00 ↔ i = length s) ∧ (i < length s → s !! i = Some c).
Proof.
  intros Hp Hi. unfold get. destruct (decide (i = length s)) as [->|Hne].
  - rewrite (cstr_nul _ _ Hp). exists x00. split; [done|]. split; [done|lia].
  - destruct (cstr_lookup _ _ i Hp) as [-> Hnz]; [lia|].
    destruct (lookup_lt_is_Some_2 s i) as [c Hc]; [lia|]. rewrite Hc in *. exists c.
    split; [done|]. split; [|done]. split; [congruence|done].
Qed.

Lemma cstr_intro p s :
  take (length s) p = s → x00 ∉ s → p !! length s = Some x00 → cstr p = Some s.
Proof.
  intros Ht Hs Hn. apply cstr_spec. split; [done|]. exists (drop (S (length s)) p).
  by rewrite <-(take_drop_middle p (length s) x00) at 1; [rewrite Ht|].
Qed.

(** ** [strncpy] *)

Lemma take_insert_snoc (l : list byte) i c s :
  take i l = take i s → i < length l → s !! i = Some c →
  take (S i) (<[i := c]> l) = take (S i) s.
Proof.
  intros Ht Hi Hs. rewrite (take_S_r _ _ c), (take_S_r s _ c) by (rewrite ?list_lookup_insert_eq; done).
  by rewrite take_insert_ge, Ht by lia.
Qed.

Lemma put_cases p i c : put p i c = Ub ∨ put p i c = Done (<[i := c]> p).
Proof. unfold put. case_bool_decide; auto. Qed.

(** Whatever the sizes, the loop stops and keeps the size of the buffer. *)
Lemma strncpy_loop_total fuel dst src n i :
  i ≤ n → n - i < fuel →
  match strncpy_loop fuel dst src n i with
  | Done d => length d = length dst
  | Ub => True
  | NoFuel => False
  end.
Proof.
  revert dst i. induction fuel as [|fuel IH]; intros dst i Hi Hf; [lia|]. cbn.
  case_bool_decide; [done|]. unfold get. destruct (src !! i) as [c|]; cbn; [|done].
  destruct (put_cases dst i c) as [-> | ->]; cbn; [done|].
  case_bool_decide; [by rewrite length_insert|].
  specialize (IH (<[i := c]> dst) (S i)). rewrite length_insert in IH. apply IH; lia.
Qed.

Lemma strncpy_loop_ok fuel dst src n i s :
  cstr src = Some s → i ≤ n → i ≤ length s → n < length dst → n - i < fuel →
  take i dst = take i s →
  wp (strncpy_loop fuel dst src n i) (fun d =>
    length d = length dst ∧ take (min n (length s)) d = take n s ∧
    (length s < n → d !! length s = Some x00)).
Proof.
  intros Hsrc. revert dst i. induction fuel as [|fuel IH]; intros dst i Hin His Hn Hf Ht; [lia|].
  cbn. case_bool_decide as Hi; [subst i|].
  { split; [done|]. rewrite Nat.min_l by done. split; [done|lia]. }
  destruct (cstr_get src s i Hsrc His) as (c & Hg & Hc & Hcs). rewrite Hg. cbn.
  unfold put. rewrite (bool_decide_true (i < length dst)) by lia. cbn. case_bool_decide as Hnul.
  - apply Hc in Hnul as Hi'. subst i c. cbn. rewrite length_insert. split; [done|].
    rewrite Nat.min_r by lia. rewrite take_insert_ge by lia. split; [|intros _].
    + rewrite Ht, !take_ge by lia. done.
    + by rewrite list_lookup_insert_eq by lia.
  - assert (i < length s) as Hlt. { destruct (decide (i = length s)); [tauto|lia]. }
    eapply wp_mono; [apply IH|].
    1-5: rewrite ?length_insert; try lia.
    + apply take_insert_snoc; [done|lia|auto].
    + intros d. rewrite length_insert. done.
Qed.

(** The terminator needs a byte more than [n]. *)
Lemma strncpy_full dst src n : length dst = n → strncpy dst src n = Ub.
Proof.
  intros Hd. unfold strncpy. pose proof (strncpy_loop_total (S n) dst src n 0) as Hloop.
  destruct (strncpy_loop _ _ _ _ _) as [| |d]; cbn; [done|lia|].
  specialize (Hloop ltac:(lia) ltac:(lia)). unfold put. by rewrite bool_decide_false by lia.
Qed.

(** The disabled [strstr] writes past its first buffer whatever it is given. *)
Lemma safe_strstr_overflows fuel haystack needle : safe_strstr fuel haystack needle = Ub.
Proof.
  unfold safe_strstr. rewrite (strncpy_full (replicate STRBUFSIZE x00) haystack STRBUFSIZE); [reflexivity|].
  apply length_replicate.
Qed.

(** [strncpy] into a buffer of more than [n] bytes terminates within it, keeps
    its size and leaves the first [n] characters of the source there, always
    terminated.  With a buffer of exactly [n] bytes it writes one byte past its
    end, which is how the disabled [strstr] of the same file calls it. *)
Theorem strncpy_correct dst src n s :
  cstr src = Some s →
  if bool_decide (n < length dst)
  then wp (strncpy dst src n) (fun d => length d = length dst ∧ cstr d = Some (take n s))
  else length dst = n → strncpy dst src n = Ub.
Proof.
  intros Hsrc. case_bool_decide as Hn.
  - unfold strncpy. apply wp_bind. eapply wp_mono.
    { apply (strncpy_loop_ok _ _ _ _ _ s); auto; lia. }
    intros d (Hlen & Ht & Hz). unfold put. rewrite bool_decide_true by lia. cbn.
    rewrite length_insert. split; [done|].
    apply cstr_spec in Hsrc as [Hs _].
    assert (length (take n s) = min n (length s)) as Hl by apply length_take.
    apply cstr_intro; rewrite ?Hl.
    + by rewrite take_insert_ge by lia.
    + intros Hin. apply Hs. by apply elem_of_take in Hin as (? & ?%list_elem_of_lookup_2 & _).
    + destruct (decide (length s < n)).
      * rewrite Nat.min_r, list_lookup_insert_ne by lia. auto.
      * rewrite Nat.min_l, list_lookup_insert_eq by lia. done.
  - by apply strncpy_full.
Qed.

(** ** [strstr] *)

Lemma strstr_compare_ok fuel x y s t p q :
  cstr x = Some s → cstr y = Some t → p ≤ length s → q ≤ length t → length t - q < fuel →
  ∃ k, strstr_compare fuel x y p q = Done (p + k, q + k) ∧
    p + k ≤ length s ∧ q + k ≤ length t ∧
    take k (drop p s) = take k (drop q t) ∧
    (p + k = length s ∨ q + k = length t ∨ s !! (p + k) ≠ t !! (q + k)).
Proof.
  intros Hx Hy. revert p q. induction fuel as [|fuel IH]; intros p q Hp Hq Hf; [lia|]. cbn.
  destruct (cstr_get x s p Hx Hp) as (a & -> & Ha & Has). cbn.
  assert (∀ P : Prop, P → ∃ k, Done (p, q) = Done (p + k, q + k) ∧ k = 0 ∧ P) as Hzero.
  { intros P HP. exists 0. by rewrite !Nat.add_0_r. }
  case_bool_decide as Hanul.
  { exists 0. rewrite !Nat.add_0_r. split_and!; [done..|]. left. by apply Ha. }
  destruct (cstr_get y t q Hy Hq) as (b & -> & Hb & Hbt). cbn.
  case_bool_decide as Hbnul.
  { exists 0. rewrite !Nat.add_0_r. split_and!; [done..|]. right. left. by apply Hb. }
  assert (p < length s) as Hps. { destruct (decide (p = length s)); [tauto|lia]. }
  assert (q < length t) as Hqt. { destruct (decide (q = length t)); [tauto|lia]. }
  case_bool_decide as Hab.
  { exists 0. rewrite !Nat.add_0_r. split_and!; [done..|]. right. right.
    rewrite Has, Hbt by done. congruence. }
  subst b.
  destruct (IH (S p) (S q)) as (k & -> & Hpk & Hqk & Htk & Hend); [lia..|].
  exists (S k). split_and!; [f_equal; f_equal; lia|lia|lia| |].
  - rewrite (drop_S _ a _ (Has Hps)), (drop_S _ a _ (Hbt Hqt)). cbn. by f_equal.
  - by replace (p + S k) with (S p + k) by lia; replace (q + S k) with (S q + k) by lia.
Qed.

(** [t] occurs in [s] at [i]. *)
Definition occurs (t s : list byte) (i : nat) : Prop := t `prefix_of` drop i s.

Lemma occurs_compare s t i k :
  i + k ≤ length s → k ≤ length t → take k (drop i s) = take k t →
  (i + k = length s ∨ k = length t ∨ s !! (i + k) ≠ t !! k) →
  occurs t s i ↔ k = length t.
Proof.
  intros Hik Hk Ht Hend. split.
  - intros [rest Hrest]. destruct (decide (k = length t)) as [|Hne]; [done|exfalso].
    destruct Hend as [Hend|[Hend|Hend]]; [|done|].
    + apply (f_equal length) in Hrest. rewrite length_drop, length_app in Hrest. lia.
    + apply Hend. rewrite <-lookup_drop, Hrest, lookup_app_l by lia. done.
  - intros ->. rewrite firstn_all in Ht. exists (drop (length t) (drop i s)).
    rewrite <-Ht at 1. by rewrite take_drop.
Qed.

(** The result of a search in [s] from position [i]. *)
Definition first_occurrence (t s : list byte) (i : nat) (r : option nat) : Prop :=
  match r with
  | Some j => i ≤ j ∧ occurs t s j ∧ ∀ k, i ≤ k < j → ¬ occurs t s k
  | None => ∀ k, i ≤ k → ¬ occurs t s k
  end.

Lemma strstr_loop_ok fuel x y s t i :
  cstr x = Some s → cstr y = Some t → t ≠ [] → i ≤ length s →
  length s - i + length t < fuel →
  wp (strstr_loop fuel x y i) (first_occurrence t s i).
Proof.
  intros Hx Hy Hne. revert i. induction fuel as [|fuel IH]; intros i Hi Hf; [lia|].
  cbn [strstr_loop]. destruct (cstr_get x s i Hx Hi) as (a & -> & Ha & _). cbn [mbind outcome_bind].
  assert (0 < length t) as Hlt by (destruct t; cbn; [done|lia]).
  assert (∀ k, length s < k + length t → ¬ occurs t s k) as Hlong.
  { intros k Hk [rest Hrest]. apply (f_equal length) in Hrest.
    rewrite length_drop, length_app in Hrest. lia. }
  case_bool_decide as Hnul; [cbn; intros k Hk; apply Hlong; apply Ha in Hnul; lia|].
  destruct (strstr_compare_ok (S fuel) x y s t i 0 Hx Hy) as (k & -> & Hik & Hk & Ht & Hend);
    [lia..|]. cbn [mbind outcome_bind]. rewrite drop_0 in Ht. cbn in Hk, Hend.
  pose proof (occurs_compare s t i k Hik Hk Ht Hend) as Hocc.
  destruct (cstr_get y t k Hy Hk) as (b & Hb & Hbn & _). cbn [Nat.add]. rewrite Hb.
  cbn [mbind outcome_bind]. case_bool_decide as Hbnul.
  { cbn. split; [done|]. split; [apply Hocc; tauto|lia]. }
  destruct (cstr_get x s (i + k) Hx Hik) as (c & -> & Hc & _). cbn [mbind outcome_bind].
  assert (k ≠ length t) as Hkt by tauto.
  case_bool_decide as Hcnul.
  { apply Hc in Hcnul. cbn. intros j Hj. destruct (decide (j = i)) as [->|]; [tauto|].
    apply Hlong. lia. }
  assert (i < length s). { destruct (decide (i = length s)); [tauto|lia]. }
  eapply wp_mono; [apply (IH (S i)); lia|]. intros [j|]; cbn.
  - intros (Hj & Ho & Hno). split; [lia|]. split; [done|]. intros k' Hk'.
    destruct (decide (k' = i)) as [->|]; [tauto|]. apply Hno. lia.
  - intros Hno k' Hk'. destruct (decide (k' = i)) as [->|]; [tauto|]. apply Hno. lia.
Qed.

(** [strstr] terminates within both strings and returns the offset of the
    first occurrence of the needle, or nothing exactly if there is none. *)
Theorem strstr_correct fuel haystack needle s t :
  cstr haystack = Some s → cstr needle = Some t → length s + length t < fuel →
  wp (strstr fuel haystack needle) (first_occurrence t s 0).
Proof.
  intros Hx Hy Hf. unfold strstr, local_strstr.
  destruct (cstr_get needle t 0 Hy) as (b & -> & Hb & _); [lia|]. cbn [mbind outcome_bind].
  case_bool_decide as Hnul.
  - apply Hb in Hnul. destruct t; [|done]. cbn. split; [lia|]. split; [by eexists|lia].
  - apply strstr_loop_ok; [done|done| |lia|lia]. intros ->. apply Hnul, Hb. done.
Qed.

Definition abc : list byte := [x61; x62; x63; x00].

Lemma strncpy_correct_witness :
  (if bool_decide (2 < length [x01; x01; x01; x01])
   then wp (strncpy [x01; x01; x01; x01] abc 2) (fun d =>
          length d = 4 ∧ cstr d = Some [x61; x62])
   else length [x01; x01; x01; x01] = 2 → strncpy [x01; x01; x01; x01] abc 2 = Ub) ∧
  strncpy [x01; x01; x01; x01] abc 2 = Done [x61; x62; x00; x01].
Proof.
  split; [|by vm_compute].
  exact (strncpy_correct [x01; x01; x01; x01] abc 2 [x61; x62; x63] eq_refl).
Defined.

Lemma strstr_correct_witness :
  wp (strstr 7 abc [x62; x63; x00]) (first_occurrence [x62; x63] [x61; x62; x63] 0) ∧
  strstr 7 abc [x62; x63; x00] = Done (Some 1).
Proof.
  split; [|by vm_compute].
  apply (strstr_correct 7 abc [x62; x63; x00] [x61; x62; x63] [x62; x63] eq_refl eq_refl).
  cbn. lia.
Defined.
