(* ===== verification/Agent.v ===== *)
(** * Agent: the TEEP agent ([teep-agent-ta/teep-agent-ta.c])

    The trusted application is driven by commands of the broker: set an option,
    ask for the next task, report that a task is done.  It keeps a state per
    session and the envelopes of the last update, which all sessions share.

    - [heap] is the heap of TeepMessage; the session's token and the stored
      envelopes are pointers into it, a block number with the bytes written
      there.  A pointer whose block was freed keeps its number.
    - The parts of [struct teep_agent_session] the callbacks of the SUIT runner
      touch are [agent_user], with the trace of the components handed to
      [store_component], whose result the callers ignore.  A callback that runs
      into undefined behaviour sets [crashed], which the caller of the runner
      turns into [Ub].
    - [strncpy] is the one of the platform. *)

From Stdlib Require Import Strings.String.
From S2P Require Import Prelude Tcbor SuitTypes SuitParser SuitAuth SuitContext SuitRunner.
From S2P Require Import TeepMessage TeepEncoder Tools.

Local Open Scope Z_scope.

(** ** Constants *)

Definition TEE_SUCCESS : Z := 0.
Definition TEE_ERROR_BAD_FORMAT : Z := 4294901765.
Definition TEE_ERROR_BAD_PARAMETERS : Z := 4294901766.
Definition TEE_ERROR_BAD_STATE : Z := 4294901767.
Definition TEE_ERROR_NOT_IMPLEMENTED : Z := 4294901769.
Definition TEE_ERROR_OUT_OF_MEMORY : Z := 4294901772.

Definition TEE_PARAM_TYPE_NONE : Z := 0.
Definition TEE_PARAM_TYPE_VALUE_INPUT : Z := 1.
Definition TEE_PARAM_TYPE_VALUE_OUTPUT : Z := 2.
Definition TEE_PARAM_TYPE_MEMREF_INPUT : Z := 5.
Definition TEE_PARAM_TYPE_MEMREF_OUTPUT : Z := 6.
Definition TEE_PARAM_TYPES (t0 t1 t2 t3 : Z) : Z :=
  Z.lor t0 (Z.lor (Z.shiftl t1 4) (Z.lor (Z.shiftl t2 8) (Z.shiftl t3 12))).

Definition TEE_PARAM_TYPE_GET (t i : Z) : Z := Z.land (Z.shiftr t (i * 4)) 15.

Definition TEEP_AGENT_BROKER_TASK_DONE : Z := 1.
Definition TEEP_AGENT_QUERY_NEXT_BROKER_TASK : Z := 2.
Definition TEEP_AGENT_SET_DEV_OPTION : Z := 3.

Definition TEEP_MAX_MESSAGE_LEN : nat := 2048.
Definition TEEP_MAX_URI_LEN : nat := 512.

Inductive broker_command := BROKER_HTTP_POST | BROKER_HTTP_GET | BROKER_FINISH.

#[export] Instance broker_command_eq_dec : EqDecision broker_command.
Proof. solve_decision. Defined.

Definition broker_command_value (c : broker_command) : Z :=
  match c with BROKER_HTTP_POST => 0 | BROKER_HTTP_GET => 1 | BROKER_FINISH => 2 end.

Definition AGENT_OPTION_SET_TAM_URI : Z := 0.
Definition AGENT_OPTION_SET_CURRENT_TA_LIST : Z := 1.

(** The characters the code names. *)
Definition chr_comma : byte := x2c.
Definition chr_plus : byte := x2b.
Definition chr_minus : byte := x2d.

Inductive agent_state :=
  | AGENT_INIT
  | AGENT_POSTING_INITIAL_REQUEST
  | AGENT_POSTING_QUERY_RESPONSE
  | AGENT_POSTING_SUCCESS
  | AGENT_POSTING_ERROR
  | AGENT_INIT_RUNNER
  | AGENT_RUN_SUIT_RUNNER
  | AGENT_FETCH_COMPONENT
  | AGENT_FINISH.

#[export] Instance agent_state_eq_dec : EqDecision agent_state.
Proof. solve_decision. Defined.

Definition tc_singer_pubkey : list byte := bytes_of_string "-----BEGIN PUBLIC KEY-----
MFkwEwYHKoZIzj0CAQYIKoZIzj0DAQcDQgAExMJmSeV+ZMSbccfu7+o/Gsw+IhTc
r9tM9MRNd+pnVh4mHrMozWjWaWFkMdpOEHZpSKLToh1UsIYXgf+PoPtiMw==
-----END PUBLIC KEY-----
"%string ++ [x00].

(** ** State *)

(** [struct component_path]; the strings without their NUL. *)
Record component_path := ComponentPath {
  device : list byte;
  storage : list byte;
  uuid : list byte;
  filename : list byte
}.

Record broker_task := BrokerTask {
  t_command : broker_command;
  t_uri : list byte;
  post_data : list byte;
  post_data_len : Z
}.

Record teep_manifest_request := ManifestRequest {
  requested : bool;
  unneeded : bool;
  id : list byte
}.

(** A pointer to bytes the agent owns. *)
Definition owned_buf : Type := option (nat * list byte).

Record agent_user := AgentUser {
  fetch_uri : tcbor_range;
  fetch_component_path : component_path;
  installed : list (component_path * list byte);
  crashed : bool
}.

Record teep_agent_session := Session {
  state : agent_state;
  tam_uri : list byte;
  on_going_task : bool;
  task_buffer : broker_task;
  token : owned_buf;
  n_requests : nat;
  requests : list teep_manifest_request;
  data_item_requested : Z;
  s_context : suit_context;
  s_runner : suit_runner unit;
  s_user : agent_user
}.

Definition with_state (s : teep_agent_session) (x : agent_state) := Session x
  (tam_uri s) (on_going_task s) (task_buffer s) (token s) (n_requests s) (requests s)
  (data_item_requested s) (s_context s) (s_runner s) (s_user s).
Definition with_tam_uri (s : teep_agent_session) (x : list byte) := Session (state s)
  x (on_going_task s) (task_buffer s) (token s) (n_requests s) (requests s)
  (data_item_requested s) (s_context s) (s_runner s) (s_user s).
Definition with_task (s : teep_agent_session) (on : bool) (x : broker_task) := Session (state s)
  (tam_uri s) on x (token s) (n_requests s) (requests s)
  (data_item_requested s) (s_context s) (s_runner s) (s_user s).
Definition with_query (s : teep_agent_session) (t : owned_buf) (items : Z) := Session (state s)
  (tam_uri s) (on_going_task s) (task_buffer s) t (n_requests s) (requests s)
  items (s_context s) (s_runner s) (s_user s).
Definition with_requests (s : teep_agent_session) (n : nat) (l : list teep_manifest_request) :=
  Session (state s) (tam_uri s) (on_going_task s) (task_buffer s) (token s) n l
  (data_item_requested s) (s_context s) (s_runner s) (s_user s).
Definition with_context (s : teep_agent_session) (x : suit_context) := Session (state s)
  (tam_uri s) (on_going_task s) (task_buffer s) (token s) (n_requests s) (requests s)
  (data_item_requested s) x (s_runner s) (s_user s).
Definition with_runner (s : teep_agent_session) (r : suit_runner unit) (u : agent_user) :=
  Session (state s) (tam_uri s) (on_going_task s) (task_buffer s) (token s) (n_requests s)
  (requests s) (data_item_requested s) (s_context s) r u.

(** The members [teep_agent_session_create] sets; the others keep what the block
    contained.  The trace of installed components is empty. *)
Definition session_init (garbage : teep_agent_session) : teep_agent_session := Session
  AGENT_INIT (tam_uri garbage) false (task_buffer garbage) None 0 (requests garbage)
  (data_item_requested garbage) suit_context_init (s_runner garbage)
  (AgentUser (fetch_uri (s_user garbage)) (fetch_component_path (s_user garbage)) [] false).

(** [sizeof_session] depends on the platform. *)
Definition teep_agent_session_create `{allocator} (sizeof_session : Z) (h : heap)
    (garbage : teep_agent_session) : heap * option (nat * teep_agent_session) :=
  let '(h, block) := malloc h sizeof_session in
  match block with
  | None => (h, None)
  | Some b => (h, Some (b, session_init garbage))
  end.

Definition teep_agent_session_destroy (h : heap) (session : option (nat * teep_agent_session))
    : outcome heap :=
  match session with
  | None => Done h
  | Some (b, s) => h ← free h (fst <$> token s); free h (Some b)
  end.

(** ** Platform *)

Inductive platform := PLAT_PC | PLAT_OPTEE | PLAT_KEYSTONE | PLAT_SGX.

(** The characters of [src] before its end, at most [n]. *)
Fixpoint string_prefix (n : nat) (src : list byte) : outcome (list byte) :=
  match n with
  | O => Done []
  | S n =>
      match src with
      | [] => Ub
      | c :: src => if bool_decide (c = x00) then Done [] else s ← string_prefix n src; Done (c :: s)
      end
  end.

(** [strncpy] of the C library: pads with NUL up to [n] bytes. *)
Definition libc_strncpy (dst src : list byte) (n : nat) : outcome (list byte) :=
  s ← string_prefix n src;
  if bool_decide (n ≤ length dst)%nat
  then Done (s ++ replicate (n - length s) x00 ++ drop n dst)
  else Ub.

Definition platform_strncpy (p : platform) : list byte → list byte → nat → outcome (list byte) :=
  match p with
  | PLAT_KEYSTONE | PLAT_SGX => strncpy
  | PLAT_PC | PLAT_OPTEE => libc_strncpy
  end.

(** ** The options of the developer *)

(** One entry of the list of components: up to the comma or the end. *)
Fixpoint ta_name (value : list byte) : list byte * list byte :=
  match value with
  | [] => ([], [])
  | c :: value =>
      if bool_decide (c = chr_comma) then ([], value)
      else let '(name, rest) := ta_name value in (c :: name, rest)
  end.

(** [id] holds the first 127 characters, then NULs. *)
Definition request_id (name : list byte) : list byte :=
  take 127 name ++ replicate (128 - length (take 127 name)) x00.

Definition ta_entry (value : list byte) : teep_manifest_request * list byte :=
  let '(req, unn, value) :=
    match value with
    | c :: rest =>
        if bool_decide (c = chr_plus) then (true, false, rest)
        else if bool_decide (c = chr_minus) then (false, true, rest)
        else (false, false, value)
    | [] => (false, false, value)
    end in
  let '(name, rest) := ta_name value in (ManifestRequest req unn (request_id name), rest).

Fixpoint ta_entries (n : nat) (value : list byte) : list teep_manifest_request :=
  match n with
  | O => []
  | S n => let '(e, rest) := ta_entry value in e :: ta_entries n rest
  end.

Definition count_commas (value : list byte) : nat := length (filter (fun c => c = chr_comma) value).

(** [value] is a C string. *)
Definition set_dev_option (p : platform) (session : teep_agent_session) (option : Z)
    (value : list byte) : outcome (teep_agent_session * Z) :=
  if negb (bool_decide (state session = AGENT_INIT)) then Done (session, TEE_ERROR_BAD_STATE)
  else if option =? AGENT_OPTION_SET_TAM_URI then
    match cstr value with
    | None => Ub
    | Some v =>
        if bool_decide (TEEP_MAX_URI_LEN < length v + 1)%nat
        then Done (session, TEE_ERROR_BAD_PARAMETERS)
        else
          uri ← platform_strncpy p (tam_uri session) value (TEEP_MAX_URI_LEN - 1);
          Done (with_tam_uri session uri, TEE_SUCCESS)
    end
  else if option =? AGENT_OPTION_SET_CURRENT_TA_LIST then
    match cstr value with
    | None => Ub
    | Some v =>
        if bool_decide (v = []) then Done (session, TEE_SUCCESS)
        else
          let n := (1 + count_commas v)%nat in
          if bool_decide (16 < n)%nat then Done (session, TEE_ERROR_BAD_PARAMETERS)
          else Done (with_requests session n (ta_entries n v ++ drop n (requests session)), TEE_SUCCESS)
    end
  else Done (session, TEE_ERROR_BAD_PARAMETERS).

(** ** Components *)

(** [memcmp(bstr.begin, literal, bstr.end - bstr.begin) == 0]; the literal has its
    NUL. *)
Definition memcmp_literal (bstr : tcbor_range) (literal : list byte) : outcome bool :=
  let n := range_len bstr in
  if Z.of_nat (S (length literal)) <? n then Ub
  else
    bytes ← range_load bstr;
    Done (bool_decide (bytes = take (Z.to_nat n) (literal ++ [x00]))).

Definition hex_digit (n : Z) : byte := to_byte (if n <? 10 then 48 + n else 87 + n).

(** [snprintf(p, 3, "%2.2x", b)]. *)
Definition hex_byte (b : byte) : list byte := [hex_digit (u8 b / 16); hex_digit (u8 b mod 16)].

(** The loop over the bytes of the identifier, from index [i]. *)
Fixpoint uuid_string (i : nat) (uuid : list byte) : list byte :=
  match uuid with
  | [] => []
  | b :: uuid =>
      hex_byte b ++ (if bool_decide (i ∈ [3; 5; 7; 9]%nat) then [chr_minus] else []) ++
      uuid_string (S i) uuid
  end.

Definition str_device : list byte := bytes_of_string "TEEP-Device"%string.
Definition str_storage : list byte := bytes_of_string "SecureFS"%string.
Definition str_ta : list byte := bytes_of_string "ta"%string.
Definition str_suffix : list byte := bytes_of_string ".ta"%string.

(** The path is filled in also when the function fails half way. *)
Definition parse_component_id (component : suit_component) (dst : component_path)
    : outcome (component_path * bool) :=
  let ctx := tcbor_toplevel (id_cbor component) in
  try ctx, array := tcbor_read_array ctx otherwise Done (dst, false) ;;
  try array, bstr := tcbor_read_bstr array otherwise Done (dst, false) ;;
  same ← memcmp_literal bstr str_device;
  if negb same then Done (dst, false)
  else
  let dst := ComponentPath str_device (storage dst) (uuid dst) (filename dst) in
  try array, bstr := tcbor_read_bstr array otherwise Done (dst, false) ;;
  same ← memcmp_literal bstr str_storage;
  if negb same then Done (dst, false)
  else
  let dst := ComponentPath (device dst) str_storage (uuid dst) (filename dst) in
  try array, bstr := tcbor_read_bstr array otherwise Done (dst, false) ;;
  if negb (range_len bstr =? 16) then Done (dst, false)
  else
  bytes ← range_load bstr;
  let dst := ComponentPath (device dst) (storage dst) bytes (filename dst) in
  try array, bstr := tcbor_read_bstr array otherwise Done (dst, false) ;;
  same ← memcmp_literal bstr str_ta;
  if negb same then Done (dst, false)
  else
  let dst := ComponentPath (device dst) (storage dst) (uuid dst)
               (uuid_string 0 (uuid dst) ++ str_suffix) in
  try ctx, _u := tcbor_close ctx array otherwise Done (dst, false) ;;
  Done (dst, true).

(** ** The callbacks of the SUIT runner *)

Definition user_crash (u : agent_user) : agent_user :=
  AgentUser (fetch_uri u) (fetch_component_path u) (installed u) true.

(** [store_component]: the file name and the image reach the trace. *)
Definition store_component (u : agent_user) (path : component_path) (image : list byte)
    : agent_user :=
  AgentUser (fetch_uri u) (fetch_component_path u) (installed u ++ [(path, image)]) (crashed u).

(** [target->component]. *)
Definition target_component (r : suit_runner unit) (target : suit_target) : option suit_component :=
  m ← pc_manifest (program_counter r);
  components (common m) !! Z.to_nat (object_index (target_object target)).

Definition blank_path : component_path := ComponentPath [] [] [] [].

Definition store (r : suit_runner unit) (u : agent_user) (target : suit_target)
    (body : tcbor_range) : suit_runner unit * agent_user * bool :=
  if is_component (target_object target) then
    match target_component r target with
    | None => (r, user_crash u, false)
    | Some c =>
        match parse_component_id c blank_path with
        | Done (path, true) =>
            match range_load body with
            | Done image => (r, store_component u path image, true)
            | _ => (r, user_crash u, false)
            end
        | Done (_, false) => (r, u, false)
        | _ => (r, user_crash u, false)
        end
    end
  else (r, u, true).

Definition fetch_and_store (r : suit_runner unit) (u : agent_user) (target : suit_target)
    (uri : tcbor_range) : suit_runner unit * agent_user * bool :=
  if is_component (target_object target) then
    match target_component r target with
    | None => (r, user_crash u, false)
    | Some c =>
        match parse_component_id c (fetch_component_path u) with
        | Done (path, ok) =>
            if ok : bool
            then (suit_runner_suspend r (Some tt), AgentUser uri path (installed u) (crashed u), true)
            else (r, AgentUser (fetch_uri u) path (installed u) (crashed u), false)
        | _ => (r, user_crash u, false)
        end
    end
  else (r, u, false).

(** [fetch_complete] only writes to the log. *)
Definition fetch_complete (r : suit_runner unit) (u : agent_user) : suit_runner unit * agent_user :=
  (r, u).

#[export] Instance agent_callbacks : suit_callbacks := {|
  SuitRunner.user := agent_user;
  resume_code := unit;
  cb_store := store;
  cb_fetch_and_store := fetch_and_store;
  cb_resume := fun _ => fetch_complete
|}.

(** ** Messages of the TAM *)

(** The state all sessions share. *)
Record agent_globals := Globals { g_heap : heap; suit_manifests : list owned_buf }.

Definition teep_error (s : teep_agent_session) : teep_agent_session :=
  with_state s AGENT_POSTING_ERROR.

(** [tcbor_range_t { ptr, ptr + len }]. *)
Definition range_of (b : useful_buf) : tcbor_range :=
  match b with None => None | Some bytes => Some (Span bytes 0 (Z.of_nat (length bytes))) end.

Definition buf_bytes (b : useful_buf) : list byte := default [] b.

Section messages.
Context `{allocator, qcbor, qcbor_encoder, crypto_api}.
Variable p : platform.
Variable slot_addr : target_slot → Z.
Variable fuel : nat.

Definition store_bstr (h : heap) (ptr : owned_buf) (buf : list byte)
    : outcome (heap * owned_buf * bool) :=
  h ← (if bool_decide (ptr = None) then Done h else free h (fst <$> ptr));
  let '(h, q) := malloc h (Z.of_nat (length buf)) in
  match q with
  | None => Done (h, ptr, false)
  | Some q => Done (h, Some (q, buf), true)
  end.

Definition store_envelope (g : agent_globals) (index : nat) (envelope : useful_buf)
    : outcome (agent_globals * bool) :=
  if bool_decide (index < 2)%nat then
    ok ← suit_authenticate_envelope (range_of envelope) tc_singer_pubkey;
    if negb ok then Done (g, false)
    else
      match suit_manifests g !! index with
      | None => Ub
      | Some ptr =>
          '(h, ptr, ok) ← store_bstr (g_heap g) ptr (buf_bytes envelope);
          Done (Globals h (<[index := ptr]> (suit_manifests g)), ok)
      end
  else Done (g, false).

Definition store_suit_envelope (g : agent_globals) (index : nat) (envelope : useful_buf) :=
  store_envelope g index envelope.

(** The first loop of the update, [n] iterations from [i]. *)
Fixpoint store_envelopes (g : agent_globals) (array : list useful_buf) (i n : nat)
    : outcome (agent_globals * bool) :=
  match n with
  | O => Done (g, true)
  | S n =>
      match array !! i with
      | None => Ub
      | Some envelope =>
          '(g, ok) ← store_suit_envelope g i envelope;
          if (ok : bool) then store_envelopes g array (S i) n else Done (g, false)
      end
  end.

(** The second loop: the envelope at [len - i - 1] for [i] from [len - n]. *)
Fixpoint add_envelopes (g : agent_globals) (c : suit_context) (n : nat)
    : outcome (suit_context * bool) :=
  match n with
  | O => Done (c, true)
  | S n =>
      match suit_manifests g !! n with
      | None => Ub
      | Some e =>
          '(c, ok) ← suit_context_add_envelope c (range_of (snd <$> e));
          if (ok : bool) then add_envelopes g c n else Done (c, false)
      end
  end.

Definition handle_update (g : agent_globals) (s : teep_agent_session)
    (manifest_list : teep_array useful_buf) : outcome (agent_globals * teep_agent_session) :=
  if negb (bool_decide (state s = AGENT_POSTING_QUERY_RESPONSE)) then Done (g, teep_error s)
  else
    '(g, ok) ← store_envelopes g (arr_elems manifest_list) 0 (arr_len manifest_list);
    if negb ok then Done (g, s)
    else
      '(c, ok) ← add_envelopes g (s_context s) (arr_len manifest_list);
      let s := with_context s c in
      if negb ok then Done (g, teep_error s) else Done (g, with_state s AGENT_INIT_RUNNER).

(** The copy of the token: [UsefulBuf_Copy] writes through the unchecked result
    of [malloc]. *)
Definition handle_query_request (g : agent_globals) (s : teep_agent_session)
    (m_token : useful_buf) (items : Z) : outcome (agent_globals * teep_agent_session) :=
  if negb (bool_decide (state s = AGENT_POSTING_INITIAL_REQUEST)) then Done (g, teep_error s)
  else
    let s := with_state s AGENT_POSTING_QUERY_RESPONSE in
    let bytes := buf_bytes m_token in
    let '(h, buf) := malloc (g_heap g) (Z.of_nat (length bytes)) in
    let g := Globals h (suit_manifests g) in
    match buf with
    | Some b => Done (g, with_query s (Some (b, bytes)) items)
    | None => if bool_decide (bytes = []) then Done (g, with_query s None items) else Ub
    end.

Definition handle_message (g : agent_globals) (s : teep_agent_session) (m : teep_message)
    : outcome (agent_globals * teep_agent_session) :=
  match m_body m with
  | BodyQueryResponse _ | BodySuccess _ | BodyError _ => Done (g, teep_error s)
  | BodyQueryRequest q => handle_query_request g s (m_token m) (rq_data_item_requested q)
  | BodyUpdate manifest_list => handle_update g s manifest_list
  end.

Definition handle_tam_message (g : agent_globals) (s : teep_agent_session) (buffer : list byte)
    : outcome (agent_globals * teep_agent_session * Z) :=
  if bool_decide (buffer = []) then Done (g, with_state s AGENT_FINISH, TEE_SUCCESS)
  else if bool_decide (state s = AGENT_POSTING_ERROR)
  then Done (g, with_state s AGENT_FINISH, TEE_ERROR_BAD_FORMAT)
  else
    '(h, r) ← parse_teep_message fuel (g_heap g) (Some buffer);
    let g := Globals h (suit_manifests g) in
    match r with
    | None => Done (g, teep_error s, TEE_ERROR_BAD_FORMAT)
    | Some (block, m) =>
        '(g, s) ← handle_message g s m;
        h ← free_parsed_teep_message (g_heap g) (Some (block, m));
        Done (Globals h (suit_manifests g), s, TEE_SUCCESS)
    end.

Definition handle_component_download (s : teep_agent_session) (buffer : list byte)
    : teep_agent_session * Z :=
  if negb (bool_decide (state s = AGENT_FETCH_COMPONENT)) then (teep_error s, TEE_ERROR_BAD_STATE)
  else
    let u := store_component (s_user s) (fetch_component_path (s_user s)) buffer in
    let '(r, u) := suit_runner_resume (s_runner s, u) in
    (with_state (with_runner s r u) AGENT_RUN_SUIT_RUNNER, TEE_SUCCESS).

Definition broker_task_done (g : agent_globals) (s : teep_agent_session) (buffer : list byte)
    : outcome (agent_globals * teep_agent_session * Z) :=
  if negb (on_going_task s) then Done (g, s, TEE_ERROR_BAD_STATE)
  else
    let finish (s : teep_agent_session) := with_task s false (task_buffer s) in
    match t_command (task_buffer s) with
    | BROKER_FINISH => Done (g, s, TEE_ERROR_BAD_STATE)
    | BROKER_HTTP_POST =>
        '(g, s, ret) ← handle_tam_message g s buffer; Done (g, finish s, ret)
    | BROKER_HTTP_GET =>
        let '(s, ret) := handle_component_download s buffer in Done (g, finish s, ret)
    end.

End messages.

(** ** Messages of the agent *)

Section build.
Context `{qcbor_encoder}.

(** [for (i = 0; i < n_requests; i++) if (select(m)) add(&enc, m->id);] *)
Fixpoint add_requests (select : teep_manifest_request → bool)
    (add_tc : teep_message_encoder → list byte → teep_message_encoder)
    (enc : teep_message_encoder) (l : list teep_manifest_request) : outcome teep_message_encoder :=
  match l with
  | [] => Done enc
  | m :: l =>
      if select m then
        match cstr (id m) with
        | None => Ub
        | Some name => add_requests select add_tc (add_tc enc name) l
        end
      else add_requests select add_tc enc l
  end.

Definition session_requests (s : teep_agent_session) : list teep_manifest_request :=
  take (n_requests s) (requests s).

Definition add_components (s : teep_agent_session) (enc : teep_message_encoder)
    : outcome teep_message_encoder :=
  let l := session_requests s in
  let enc := teep_message_encoder_open_tc_list enc in
  enc ← add_requests (fun m => negb (requested m) && negb (unneeded m))
          teep_message_encoder_add_tc_to_tc_list enc l;
  let enc := teep_message_encoder_close_tc_list enc in
  let enc := teep_message_encoder_open_requested_tc_list enc in
  enc ← add_requests requested teep_message_encoder_add_tc_to_requested_tc_list enc l;
  let enc := teep_message_encoder_close_requested_tc_list enc in
  let enc := teep_message_encoder_open_unneeded_tc_list enc in
  enc ← add_requests unneeded teep_message_encoder_add_tc_to_unneeded_tc_list enc l;
  Done (teep_message_encoder_close_unneeded_tc_list enc).

Definition session_token (s : teep_agent_session) : useful_buf := snd <$> token s.

(** The calls that build a query response, without the final one. *)
Definition query_response_encoder (s : teep_agent_session) (dst : list byte)
    : outcome teep_message_encoder :=
  let enc := teep_message_encoder_init dst in
  let enc := teep_message_encoder_add_header enc TEEP_QUERY_RESPONSE in
  let enc := teep_message_encoder_open_options enc in
  let enc := teep_message_encoder_add_token enc (session_token s) in
  let items := data_item_requested s in
  enc ← (if negb (Z.land items TEEP_DATA_ATTESTATION =? 0) then Done enc
         else if negb (Z.land items TEEP_DATA_TRUSTED_COMPONENTS =? 0) then add_components s enc
         else Done enc);
  Done (teep_message_encoder_close_options enc).

Definition success_encoder (s : teep_agent_session) (dst : list byte) : teep_message_encoder :=
  let enc := teep_message_encoder_init dst in
  let enc := teep_message_encoder_add_header enc TEEP_SUCCESS in
  let enc := teep_message_encoder_open_options enc in
  let enc := teep_message_encoder_add_token enc (session_token s) in
  teep_message_encoder_close_options enc.

Definition error_encoder (s : teep_agent_session) (dst : list byte) : teep_message_encoder :=
  let enc := teep_message_encoder_init dst in
  let enc := teep_message_encoder_add_header enc TEEP_ERROR in
  let enc := teep_message_encoder_open_options enc in
  let enc := teep_message_encoder_add_token enc (session_token s) in
  let enc := teep_message_encoder_close_options enc in
  teep_message_encoder_add_err_code enc 42.

(** The buffer, its length (unchanged on an error) and the success flag. *)
Definition finish_message (enc : teep_message_encoder) (dst_len : Z) : list byte * Z * bool :=
  match teep_message_encoder_finish enc with
  | (dst, Some len) => (dst, len, true)
  | (dst, None) => (dst, dst_len, false)
  end.

Definition build_query_response (s : teep_agent_session) (dst : list byte) (dst_len : Z)
    : outcome (list byte * Z * bool) :=
  enc ← query_response_encoder s dst; Done (finish_message enc dst_len).

Definition build_success (s : teep_agent_session) (dst : list byte) (dst_len : Z) :=
  finish_message (success_encoder s dst) dst_len.

Definition build_error (s : teep_agent_session) (dst : list byte) (dst_len : Z) :=
  finish_message (error_encoder s dst) dst_len.

(** ** The next task of the broker *)

Variable p : platform.
Variable slot_addr : target_slot → Z.
(** The fuel of the SUIT runner. *)
Variable fuel : nat.

(** A message built in the buffer of the task, whatever the result. *)
Definition post_task (task : broker_task) (uri : list byte) (built : list byte * Z * bool)
    : broker_task :=
  BrokerTask BROKER_HTTP_POST uri built.1.1 built.1.2.

(** One iteration of [while (!session->on_going_task)]. *)
Definition next_task_step (s : teep_agent_session) : outcome teep_agent_session :=
  let task := task_buffer s in
  let copy_uri := platform_strncpy p (t_uri task) (tam_uri s) (TEEP_MAX_URI_LEN - 1) in
  let len := Z.of_nat TEEP_MAX_MESSAGE_LEN in
  match state s with
  | AGENT_INIT => Done (with_state s AGENT_POSTING_INITIAL_REQUEST)
  | AGENT_POSTING_INITIAL_REQUEST =>
      uri ← copy_uri;
      Done (with_task s true (BrokerTask BROKER_HTTP_POST uri (post_data task) 0))
  | AGENT_POSTING_QUERY_RESPONSE =>
      uri ← copy_uri;
      built ← build_query_response s (post_data task) len;
      Done (with_task s true (post_task task uri built))
  | AGENT_POSTING_SUCCESS =>
      uri ← copy_uri;
      Done (with_task s true (post_task task uri (build_success s (post_data task) len)))
  | AGENT_POSTING_ERROR =>
      uri ← copy_uri;
      Done (with_task s true (post_task task uri (build_error s (post_data task) len)))
  | AGENT_INIT_RUNNER =>
      r ← suit_runner_init (s_context s) SUIT_COMMAND_SEQUENCE_INSTALL;
      Done (with_state (with_runner s r (s_user s)) AGENT_RUN_SUIT_RUNNER)
  | AGENT_RUN_SUIT_RUNNER =>
      '(r, u) ← suit_runner_run slot_addr fuel (s_runner s, s_user s);
      if crashed u then Ub
      else
        let s := with_runner s r u in
        Done (if suit_runner_finished r then with_state s AGENT_POSTING_SUCCESS
              else if suit_runner_suspended r then with_state s AGENT_FETCH_COMPONENT
              else teep_error s)
  | AGENT_FETCH_COMPONENT =>
      let uri := fetch_uri (s_user s) in
      if Z.of_nat TEEP_MAX_URI_LEN <? range_len uri then Ub
      else
        bytes ← range_load uri;
        Done (with_task s true (BrokerTask BROKER_HTTP_GET
          (bytes ++ replicate (TEEP_MAX_URI_LEN - length bytes) x00) (post_data task) 0))
  | AGENT_FINISH =>
      uri ← put (t_uri task) 0 x00;
      Done (with_task s true (BrokerTask BROKER_FINISH uri (post_data task) 0))
  end.

Fixpoint query_next_broker_task (loop_fuel : nat) (s : teep_agent_session)
    : outcome teep_agent_session :=
  match loop_fuel with
  | O => NoFuel
  | S loop_fuel =>
      if on_going_task s then Done s
      else s ← next_task_step s; query_next_broker_task loop_fuel s
  end.

End build.

(** ** Commands *)

(** The union [TEE_Param], as its type says. *)
Inductive TEE_Param :=
  | ParamNone
  | ParamValue (a b : Z)
  | ParamMemref (buffer : list byte) (size : Z).

Definition copyout_param (param : TEE_Param) (bytes : list byte) : outcome (TEE_Param * bool) :=
  match param with
  | ParamMemref buffer size =>
      if size <? Z.of_nat (length bytes) then Done (param, false)
      else if bool_decide (length bytes ≤ length buffer)%nat
      then Done (ParamMemref (bytes ++ drop (length bytes) buffer) (Z.of_nat (length bytes)), true)
      else Ub
  | _ => Ub
  end.

Section commands.
Context `{allocator, qcbor, qcbor_encoder, crypto_api}.
Variable p : platform.
Variable slot_addr : target_slot → Z.
Variable fuel : nat.

Definition handle_TEEP_AGENT_SET_DEV_OPTION (s : teep_agent_session) (param_types : Z)
    (params : list TEE_Param) : outcome (teep_agent_session * Z) :=
  if negb (param_types =? TEE_PARAM_TYPES TEE_PARAM_TYPE_VALUE_INPUT TEE_PARAM_TYPE_MEMREF_INPUT
             TEE_PARAM_TYPE_NONE TEE_PARAM_TYPE_NONE)
  then Done (s, TEE_ERROR_BAD_PARAMETERS)
  else
    match params with
    | ParamValue option _ :: ParamMemref value len :: _ =>
        if len =? 0 then Ub
        else
          c ← load value (len - 1);
          if negb (c =? 0) then Done (s, TEE_ERROR_BAD_PARAMETERS)
          else set_dev_option p s option value
    | _ => Ub
    end.

Definition handle_TEEP_AGENT_BROKER_TASK_DONE (g : agent_globals) (s : teep_agent_session)
    (param_types : Z) (params : list TEE_Param) : outcome (agent_globals * teep_agent_session * Z) :=
  if negb (param_types =? TEE_PARAM_TYPES TEE_PARAM_TYPE_MEMREF_INPUT TEE_PARAM_TYPE_NONE
             TEE_PARAM_TYPE_NONE TEE_PARAM_TYPE_NONE)
  then Done (g, s, TEE_ERROR_BAD_PARAMETERS)
  else
    match params with
    | ParamMemref buffer size :: _ =>
        bytes ← load_bytes buffer 0 size; broker_task_done fuel g s bytes
    | _ => Ub
    end.

Definition handle_TEEP_AGENT_QUERY_NEXT_BROKER_TASK (s : teep_agent_session) (param_types : Z)
    (params : list TEE_Param) : outcome (teep_agent_session * list TEE_Param * Z) :=
  if negb (param_types =? TEE_PARAM_TYPES TEE_PARAM_TYPE_VALUE_OUTPUT TEE_PARAM_TYPE_MEMREF_OUTPUT
             TEE_PARAM_TYPE_MEMREF_OUTPUT TEE_PARAM_TYPE_NONE)
  then Done (s, params, TEE_ERROR_BAD_PARAMETERS)
  else
    match params with
    | ParamValue _ b :: p1 :: p2 :: rest =>
        s ← query_next_broker_task p slot_addr fuel 4 s;
        let task := task_buffer s in
        let p0 := ParamValue (broker_command_value (t_command task)) b in
        match cstr (t_uri task) with
        | None => Ub
        | Some uri =>
            '(p1, ok) ← copyout_param p1 (uri ++ [x00]);
            if negb ok then Done (s, p0 :: p1 :: p2 :: rest, TEE_ERROR_BAD_PARAMETERS)
            else
              bytes ← load_bytes (post_data task) 0 (post_data_len task);
              '(p2, ok) ← copyout_param p2 bytes;
              if negb ok then Done (s, p0 :: p1 :: p2 :: rest, TEE_ERROR_BAD_PARAMETERS)
              else Done (s, p0 :: p1 :: p2 :: rest, TEE_SUCCESS)
        end
    | _ => Ub
    end.

Definition TA_OpenSessionEntryPoint (sizeof_session : Z) (h : heap) (param_types : Z)
    (garbage : teep_agent_session) : heap * option (nat * teep_agent_session) * Z :=
  if negb (param_types =? TEE_PARAM_TYPES TEE_PARAM_TYPE_NONE TEE_PARAM_TYPE_NONE
             TEE_PARAM_TYPE_NONE TEE_PARAM_TYPE_NONE)
  then (h, None, TEE_ERROR_BAD_PARAMETERS)
  else
    match teep_agent_session_create sizeof_session h garbage with
    | (h, None) => (h, None, TEE_ERROR_OUT_OF_MEMORY)
    | (h, Some session) => (h, Some session, TEE_SUCCESS)
    end.

Definition TA_CloseSessionEntryPoint (h : heap) (sess_ctx : option (nat * teep_agent_session))
    : outcome heap :=
  teep_agent_session_destroy h sess_ctx.

Definition TA_InvokeCommandEntryPoint (g : agent_globals) (s : teep_agent_session) (cmd_id : Z)
    (param_types : Z) (params : list TEE_Param)
    : outcome (agent_globals * teep_agent_session * list TEE_Param * Z) :=
  if cmd_id =? TEEP_AGENT_SET_DEV_OPTION then
    '(s, ret) ← handle_TEEP_AGENT_SET_DEV_OPTION s param_types params; Done (g, s, params, ret)
  else if cmd_id =? TEEP_AGENT_BROKER_TASK_DONE then
    '(g, s, ret) ← handle_TEEP_AGENT_BROKER_TASK_DONE g s param_types params;
    Done (g, s, params, ret)
  else if cmd_id =? TEEP_AGENT_QUERY_NEXT_BROKER_TASK then
    '(s, params, ret) ← handle_TEEP_AGENT_QUERY_NEXT_BROKER_TASK s param_types params;
    Done (g, s, params, ret)
  else Done (g, s, params, TEE_ERROR_NOT_IMPLEMENTED).

End commands.
