(* ===== verification/AgentFacts.v ===== *)
(** * AgentFacts: invariants of the agent

    [authenticated_context] says where the manifests of a session come from,
    [task_ok] relates the task the broker works on to the state, and [rank]
    orders the states by the progress of the protocol.  Each operation is shown
    to respect them; AgentTheorems combines the operations. *)

From S2P Require Import Prelude Tcbor SuitTypes SuitParser SuitAuth SuitContext SuitRunner.
From S2P Require Import TeepMessage TeepEncoder Tools Agent.

Local Open Scope Z_scope.

(** ** Where manifests come from *)

Section authenticated.
Context `{Hal : allocator, Hqc : qcbor, Hcr : crypto_api}.

Definition authenticated (bytes : list byte) : Prop :=
  suit_authenticate_envelope (range_of (Some bytes)) tc_singer_pubkey = Done true.

Definition authenticated_manifest (m : suit_manifest) : Prop :=
  ∃ bytes slot, authenticated bytes ∧
    suit_envelope_get_manifest (range_of (Some bytes)) slot = Done (m, Some tt).

(** Every manifest of the context was read from an authenticated envelope. *)
Definition authenticated_context (c : suit_context) : Prop :=
  ∀ i m, (i < n_manifest c)%nat → manifests c !! i = Some m → authenticated_manifest m.

Lemma authenticate_null : suit_authenticate_envelope None tc_singer_pubkey = Done false.
Proof. reflexivity. Qed.

(** The envelopes from index [i] on, below [n], are authenticated. *)
Definition authenticated_store (g : agent_globals) (i n : nat) : Prop :=
  ∀ k, (i ≤ k < n)%nat → ∃ b bytes, suit_manifests g !! k = Some (Some (b, bytes)) ∧ authenticated bytes.

Lemma store_envelope_ok g index envelope g' :
  store_envelope g index envelope = Done (g', true) →
  (∃ b bytes, suit_manifests g' !! index = Some (Some (b, bytes)) ∧ authenticated bytes) ∧
  ∀ k, k ≠ index → suit_manifests g' !! k = suit_manifests g !! k.
Proof.
  unfold store_envelope. case_bool_decide; [|done].
  destruct (suit_authenticate_envelope _ _) as [| |ok] eqn:Hauth; [done..|]. cbn [mbind outcome_bind].
  destruct ok; [|done]. cbn [negb].
  destruct (suit_manifests g !! index) as [ptr|] eqn:Hptr; [|done].
  unfold store_bstr.
  destruct (if bool_decide (ptr = None) then _ else _) as [| |h1]; [done..|]. cbn [mbind outcome_bind].
  destruct (malloc h1 _) as [h2 [q|]]; cbn [mbind outcome_bind]; [|done].
  intros [= <-]. cbn. split.
  - exists q, (buf_bytes envelope). split.
    + apply list_lookup_insert_eq. by eapply lookup_lt_Some.
    + destruct envelope as [bytes|]; [done|]. cbn [range_of] in Hauth. by rewrite authenticate_null in Hauth.
  - intros k Hk. by apply list_lookup_insert_ne.
Qed.

Lemma store_envelopes_ok l n g i g' :
  store_envelopes g l i n = Done (g', true) →
  authenticated_store g' i (i + n) ∧
  ∀ k, (k < i)%nat → suit_manifests g' !! k = suit_manifests g !! k.
Proof.
  revert g i. induction n as [|n IH]; intros g i; cbn.
  { intros [= <-]. split; [|done]. intros k Hk. lia. }
  destruct (l !! i) as [e|]; [|done]. unfold store_suit_envelope.
  destruct (store_envelope g i e) as [| |[g1 ok]] eqn:He; [done..|]. cbn [mbind outcome_bind].
  destruct ok; [|done]. intros [Hst Hlow]%IH.
  apply store_envelope_ok in He as [(b & bytes & Hb & Hbytes) Hoth]. split.
  - intros k Hk. destruct (decide (k = i)) as [->|].
    + exists b, bytes. split; [|done]. rewrite Hlow by lia. done.
    + apply Hst. lia.
  - intros k Hk. rewrite Hlow, Hoth by lia. done.
Qed.

Lemma add_envelope_authenticated c bytes c' ok :
  authenticated bytes → authenticated_context c →
  suit_context_add_envelope c (range_of (Some bytes)) = Done (c', ok) →
  authenticated_context c'.
Proof.
  intros Hb Hc. unfold suit_context_add_envelope. case_match; [by intros [= <- <-]|].
  destruct (manifests c !! n_manifest c) as [slot|] eqn:Hslot; [|done].
  intros [(m & [] & Hm & [= <- <-])|(m & Hm & [= <- <-])]%or_else_done_inv;
    intros i m' Hi Hl; cbn in Hi, Hl.
  - destruct (decide (i = n_manifest c)) as [->|].
    + rewrite list_lookup_insert_eq in Hl by (by eapply lookup_lt_Some).
      injection Hl as <-. by exists bytes, slot.
    + rewrite list_lookup_insert_ne in Hl by done. apply (Hc i); [lia|done].
  - rewrite list_lookup_insert_ne in Hl by lia. by apply (Hc i).
Qed.

Lemma add_envelopes_authenticated g n c c' ok :
  authenticated_store g 0 n → authenticated_context c →
  add_envelopes g c n = Done (c', ok) → authenticated_context c'.
Proof.
  revert c. induction n as [|n IH]; intros c Hst Hc; cbn; [by intros [= <- <-]|].
  destruct (Hst n) as (b & bytes & Hl & Hb); [lia|]. rewrite Hl. cbn [fmap option_fmap option_map snd].
  destruct (suit_context_add_envelope c _) as [| |[c1 ok1]] eqn:Hadd; [done..|].
  cbn [mbind outcome_bind]. apply add_envelope_authenticated in Hadd; [|done..].
  destruct ok1; [|by intros [= <- <-]]. apply IH; [|done].
  intros k Hk. apply Hst. lia.
Qed.

Lemma handle_update_authenticated g s l g' s' :
  authenticated_context (s_context s) →
  handle_update g s l = Done (g', s') → authenticated_context (s_context s').
Proof.
  intros Hc. unfold handle_update. case_match; [by intros [= <- <-]|].
  destruct (store_envelopes g _ 0 _) as [| |[g1 ok]] eqn:Hst; [done..|]. cbn [mbind outcome_bind].
  destruct ok; cbn [negb]; [|by intros [= <- <-]].
  apply store_envelopes_ok in Hst as [Hst _]. cbn [Nat.add] in Hst.
  destruct (add_envelopes g1 _ _) as [| |[c ok]] eqn:Hadd; [done..|]. cbn [mbind outcome_bind].
  apply add_envelopes_authenticated in Hadd; [|done..].
  by destruct ok; cbn [negb]; intros [= <- <-].
Qed.
End authenticated.

(** ** The runner stays with its manifest *)

Section manifest.

(** All continuations of the runner belong to manifest [m]. *)
Definition only_manifest (m : option suit_manifest) (r : suit_runner unit) : Prop :=
  pc_manifest (program_counter r) = m ∧ ∀ c, c ∈ stack r → pc_manifest c = m.

Definition keeps_manifest (m : option suit_manifest) (o : outcome (runner_state * bool)) : Prop :=
  may o (fun p => only_manifest m p.1.1).

(** The continuations do not change. *)
Definition same_control (r r' : suit_runner unit) : Prop :=
  program_counter r' = program_counter r ∧ stack r' = stack r.

Lemma same_control_manifest m r r' : same_control r r' → only_manifest m r → only_manifest m r'.
Proof. intros [Hp Hs] [Hm Hst]. unfold only_manifest. by rewrite Hp, Hs. Qed.

Lemma set_parameter_control r t k v ov : same_control r (set_parameter r t k v ov).1.
Proof. unfold set_parameter, alloc_binder. by repeat case_match; simplify_eq. Qed.

Lemma set_parameters_loop_control fuel map r t ov :
  may (set_parameters_loop fuel map r t ov) (fun p => same_control r p.1).
Proof.
  revert map r. induction fuel as [|fuel IH]; intros map r; cbn; case_match; try done.
  destruct (tcbor_read_uint map) as [| |[? [key|]]]; cbn; try done.
  destruct (tcbor_read_subobject _) as [| |[? [value|]]]; cbn; try done.
  pose proof (set_parameter_control r t key value ov) as [Hp Hs].
  destruct (set_parameter r t key value ov) as [r' []]; [|done]. cbn in Hp, Hs.
  eapply may_mono; [apply IH|]. intros p [? ?]. split; congruence.
Qed.

Lemma fetch_and_store_control r (u : agent_user) t uri : same_control r (fetch_and_store r u t uri).1.1.
Proof. unfold fetch_and_store. by repeat case_match. Qed.

Lemma store_control r (u : agent_user) t body : same_control r (store r u t body).1.1.
Proof. unfold store. by repeat case_match. Qed.

Lemma directive_fetch_control (s : runner_state) t c param :
  may (directive_fetch s t c param) (fun p => same_control s.1 p.1.1).
Proof.
  unfold directive_fetch. cbn [parse_rep_policy negb].
  destruct (suit_runner_get_parameter _ _ _) as [uri_cbor|]; [|done].
  destruct (tcbor_read_tstr _) as [| |[? [[u|]|]]]; cbn [or_else]; try done.
  case_match; [done|]. destruct (load _ _) as [| |c']; cbn [mbind outcome_bind]; try done.
  destruct (c' =? 35).
  - destruct (pc_manifest _) as [m|]; [|done].
    destruct (suit_envelope_get_field_by_name _ _) as [| |[binary|]]; cbn [mbind outcome_bind]; try done.
    pose proof (store_control s.1 s.2 t binary). cbn [cb_store agent_callbacks].
    by destruct (store s.1 s.2 t binary) as [[r' u'] b].
  - pose proof (fetch_and_store_control s.1 s.2 t (Some u)). cbn [cb_fetch_and_store agent_callbacks].
    by destruct (fetch_and_store s.1 s.2 t (Some u)) as [[r' u'] b].
Qed.

Lemma handler_control command b h (s : runner_state) t c param :
  find_handler command b = Some h →
  may (h_handler h s t c param) (fun p => same_control s.1 p.1.1).
Proof.
  unfold find_handler, command_handlers. cbn [find_handler_in]. intros Hh.
  repeat (case_match; [simplify_eq; cbn; try done|]);
    try (injection Hh as <-); try done; try apply directive_fetch_control; simplify_eq; cbn; try done.
  all: unfold directive_set_parameters; destruct (tcbor_read_map _) as [| |[? [map|]]]; cbn [or_else];
    try done; pose proof (set_parameters_loop_control (context_fuel map) map s.1 (target_addr t)
      (c =? SUIT_DIRECTIVE_OVERRIDE_PARAMETERS)) as Hl;
    destruct (set_parameters_loop _ _ _ _ _) as [| |[r' [map'|]]]; cbn [or_else]; try done;
    by destruct (tcbor_close _ _) as [| |[? [[]|]]].
Qed.
End manifest.

Section run_manifest.
Variable slot_addr : target_slot → Z.
Variable m : option suit_manifest.
Implicit Types s : runner_state.

Lemma err_keeps s : only_manifest m s.1 → keeps_manifest m (err s).
Proof. done. Qed.

Lemma call_handler_keeps command b h s slot o c param k :
  find_handler command b = Some h → only_manifest m s.1 →
  (∀ s', only_manifest m s'.1 → keeps_manifest m (k s')) →
  keeps_manifest m (call_handler slot_addr h s slot o c param k).
Proof.
  intros Hh Hs Hk. unfold call_handler, keeps_manifest. apply may_bind.
  eapply may_mono; [by eapply handler_control|]. intros [s' ok] Hsame. cbn in Hsame.
  pose proof (same_control_manifest m _ _ Hsame Hs). destruct ok; [by apply Hk|done].
Qed.

Lemma with_next_keeps s n : only_manifest m s.1 → only_manifest m (with_next s.1 n).
Proof. by intros [??]. Qed.

Lemma push_keeps (r r' : suit_runner unit) b :
  only_manifest m r → push_program_counter r = (r', b) →
  only_manifest m r' ∧
  ∀ n, only_manifest m (with_program_counter r' (Continuation (pc_manifest (program_counter r')) n)).
Proof.
  intros [Hm Hst]. unfold push_program_counter. case_match; intros [= <- <-]; [done|].
  assert (∀ c, c ∈ stack r ++ [program_counter r] → pc_manifest c = m).
  { intros c [Hc|Hc%list_elem_of_singleton]%elem_of_app; [auto|by subst]. }
  done.
Qed.

Lemma run_selected_keeps command b h s c param :
  find_handler command b = Some h → only_manifest m s.1 →
  keeps_manifest m (run_selected slot_addr s h c param).
Proof.
  intros Hh Hs. unfold run_selected. case_match; [done|].
  destruct (push_program_counter s.1) as [r' b'] eqn:Hp.
  apply push_keeps in Hp as [H1 H2]; [|done].
  destruct (tcbor_read_bool _) as [| |[? [[]|]]]; cbn [or_else]; try done.
  { destruct b'; cbn; [apply H2|done]. }
  destruct (tcbor_read_uint _) as [| |[? [i|]]]; cbn [or_else]; try done.
  - destruct (get_object _ _ _) as [| |[o|]]; cbn [mbind outcome_bind]; try done.
    eapply call_handler_keeps; [done|done|]. done.
  - destruct (tcbor_read_array _) as [| |[? [a|]]]; cbn [or_else]; try done.
    destruct b'; cbn; [apply H2|done].
Qed.

Lemma run_sequence_command_keeps s ctx b put :
  only_manifest m s.1 → keeps_manifest m (run_sequence_command slot_addr s ctx b put).
Proof.
  intros Hs. unfold run_sequence_command.
  destruct (tcbor_read_uint ctx) as [| |[? [command|]]]; cbn [or_else]; try done.
  destruct (tcbor_read_subobject _) as [| |[? [param|]]]; cbn [or_else]; try done.
  case_match; [done|]. case_match; [done|].
  destruct (find_handler command b) as [h|] eqn:Hh; [|done].
  by eapply run_selected_keeps.
Qed.

Lemma run_command_step_keeps s command param comp sel :
  only_manifest m s.1 → keeps_manifest m (run_command_step slot_addr s command param comp sel).
Proof.
  intros Hs. unfold run_command_step, call_found.
  destruct sel as [index|array].
  - destruct (get_object _ _ _) as [| |[o|]]; cbn [mbind outcome_bind]; try done.
    destruct (find_handler command false) as [h|] eqn:Hh; [|done].
    eapply call_handler_keeps; [done|done|]. intros s' Hs'. by repeat (case_match; try done).
  - case_match; [done|].
    destruct (tcbor_read_uint _) as [| |[? [index|]]]; cbn [or_else]; try done.
    destruct (get_object _ _ _) as [| |[o|]]; cbn [mbind outcome_bind]; try done.
    destruct (find_handler command false) as [h|] eqn:Hh; [|done].
    by eapply call_handler_keeps.
Qed.

Lemma pop_keeps (r r' : suit_runner unit) b :
  only_manifest m r → pop_program_counter r = (r', b) → only_manifest m r'.
Proof.
  intros [Hm Hst]. unfold pop_program_counter. cbn zeta.
  destruct (stack r !! pred (length (stack r))) as [pc|] eqn:Hl; intros [= <- <-]; [|done].
  split; cbn.
  - apply Hst. by eapply list_elem_of_lookup_2.
  - intros c Hc. apply Hst. by apply elem_of_take in Hc as (? & ?%list_elem_of_lookup_2 & _).
Qed.

Lemma after_step_keeps o : keeps_manifest m o → keeps_manifest m (after_step o).
Proof.
  unfold after_step, keeps_manifest. intros Ho. apply may_bind. eapply may_mono; [exact Ho|].
  intros [s pop] Hs. cbn in Hs |- *. case_match; [done|]. destruct pop; [|done].
  lazymatch goal with
  | |- context [@pop_program_counter ?c ?x] => destruct (@pop_program_counter c x) as [r' b'] eqn:Hp
  end.
  apply pop_keeps in Hp; [|done].
  by destruct b'.
Qed.

Lemma run_iteration_keeps s :
  only_manifest m s.1 → keeps_manifest m (run_iteration slot_addr s).
Proof.
  intros Hs. unfold run_iteration. case_match; [done|].
  destruct (pc_next _); try done; apply after_step_keeps.
  - unfold run_sequence_step. repeat (case_match; [by apply run_sequence_command_keeps|]). done.
  - by apply run_command_step_keeps.
  - done.
Qed.

Lemma run_keeps fuel s :
  only_manifest m s.1 → may (suit_runner_run slot_addr fuel s) (fun s' => only_manifest m s'.1).
Proof.
  unfold suit_runner_run. case_match; [done|]. clear H. revert s.
  induction fuel as [|fuel IH]; intros s Hs; cbn [run_loop]; [done|].
  apply may_bind. eapply may_mono; [by apply run_iteration_keeps|].
  intros [s' c] Hs'. destruct c; [by apply IH|done].
Qed.

Lemma resume_keeps s : only_manifest m s.1 → only_manifest m (suit_runner_resume s).1.
Proof. unfold suit_runner_resume. by repeat case_match. Qed.
End run_manifest.

Lemma runner_init_manifest c r :
  suit_runner_init (code := unit) c SUIT_COMMAND_SEQUENCE_INSTALL = Done r →
  ∃ m, suit_context_get_root_manifest c = Done m ∧ only_manifest m r.
Proof.
  unfold suit_runner_init, call_dependency, call_command_sequence.
  destruct (suit_context_get_root_manifest c) as [| |[m|]]; cbn [mbind outcome_bind]; try done.
  intros Hr. exists (Some m). split; [done|]. revert Hr.
  assert (∀ c' : suit_continuation, c' ∈ [Continuation (Some m) SUIT_NEXT_EXIT] → pc_manifest c' = Some m)
    as Hexit by by intros c' ->%list_elem_of_singleton.
  destruct (get_command_sequence_body _ _) as [| |[body|]]; cbn [mbind outcome_bind]; try done.
  - destruct (tcbor_read_array _) as [| |[? [t|]]]; cbn [or_else mbind outcome_bind]; try done;
      [|intros [= <-]; split; [done|]; by intros ? ?%elem_of_nil].
    destruct (tcbor_read_array _) as [| |[? [a|]]]; cbn; try done;
      intros [= <-]; (split; [done|]); cbn; [done|]; by intros ? ?%elem_of_nil.
  - intros [= <-]; split; [done|]; by intros ? ?%elem_of_nil.
Qed.

(** ** The invariant of a session *)

(** Progress of the protocol; running the SUIT runner and fetching for it
    alternate. *)
Definition rank (st : agent_state) : nat :=
  match st with
  | AGENT_INIT => 0
  | AGENT_POSTING_INITIAL_REQUEST => 1
  | AGENT_POSTING_QUERY_RESPONSE => 2
  | AGENT_INIT_RUNNER => 3
  | AGENT_RUN_SUIT_RUNNER | AGENT_FETCH_COMPONENT => 4
  | AGENT_POSTING_SUCCESS => 5
  | AGENT_POSTING_ERROR => 6
  | AGENT_FINISH => 7
  end.

(** The states in which a task with this command is given out. *)
Definition task_state (c : broker_command) (st : agent_state) : Prop :=
  match c, st with
  | BROKER_HTTP_POST, (AGENT_POSTING_INITIAL_REQUEST | AGENT_POSTING_QUERY_RESPONSE |
                       AGENT_POSTING_SUCCESS | AGENT_POSTING_ERROR) => True
  | BROKER_HTTP_GET, AGENT_FETCH_COMPONENT => True
  | BROKER_FINISH, AGENT_FINISH => True
  | _, _ => False
  end.

Definition runner_active (st : agent_state) : bool :=
  match st with AGENT_RUN_SUIT_RUNNER | AGENT_FETCH_COMPONENT => true | _ => false end.

Section session.
Context `{Hal : allocator, Hqc : qcbor, Hqe : qcbor_encoder, Hcr : crypto_api}.

(** The manifest a runner works on, if any, is authenticated. *)
Definition authenticated_runner (r : suit_runner unit) : Prop :=
  ∃ m, only_manifest m r ∧ ∀ m', m = Some m' → authenticated_manifest m'.

Record session_inv (s : teep_agent_session) : Prop := {
  inv_context : authenticated_context (s_context s);
  inv_runner : runner_active (state s) = true → authenticated_runner (s_runner s);
  inv_task : on_going_task s = true → task_state (t_command (task_buffer s)) (state s)
}.

(** What an operation does to a session. *)
Definition session_next (s s' : teep_agent_session) : Prop :=
  session_inv s' ∧ (rank (state s) ≤ rank (state s'))%nat.

Lemma session_init_inv garbage : session_inv (session_init garbage).
Proof. split; cbn; [|done|done]. intros i m Hi. cbn in Hi. lia. Qed.

Lemma session_next_refl s : session_inv s → session_next s s.
Proof. by split. Qed.

Lemma session_next_trans s1 s2 s3 : session_next s1 s2 → session_next s2 s3 → session_next s1 s3.
Proof. intros [_ ?] [? ?]. split; [done|lia]. Qed.

Lemma set_dev_option_next p s o v :
  session_inv s → may (set_dev_option p s o v) (fun r => session_next s r.1).
Proof.
  intros Hs. unfold set_dev_option. pose proof (session_next_refl s Hs).
  assert (∀ s', state s' = state s → s_context s' = s_context s → s_runner s' = s_runner s →
    on_going_task s' = on_going_task s → task_buffer s' = task_buffer s → session_next s s') as Hsame.
  { intros s' Hst Hc Hr Ho Ht. destruct Hs as [H1 H2 H3]. split; [|by rewrite Hst].
    split; rewrite ?Hst, ?Hc, ?Hr, ?Ho, ?Ht; done. }
  case_match; [done|]. destruct (cstr v) as [v'|]; [|by repeat case_match].
  case_match; [case_match; [done|]; destruct (platform_strncpy _ _ _ _); cbn; try done;
    by apply Hsame|].
  case_match; [|done]. case_match; [done|]. cbn zeta. case_match; [done|]. by apply Hsame.
Qed.

(** An operation that ends the task: the state may change within the protocol. *)
Lemma session_next_state s st :
  session_inv s → (rank (state s) ≤ rank st)%nat → runner_active st = false →
  on_going_task s = false → session_next s (with_state s st).
Proof.
  intros [H1 H2 H3] Hr Ha Ho. split; [|done]. split; cbn; [done|by rewrite Ha|by rewrite Ho].
Qed.
End session.

Section commands.
Context `{Hal : allocator, Hqc : qcbor, Hqe : qcbor_encoder, Hcr : crypto_api}.
Variable p : platform.
Variable slot_addr : target_slot → Z.
Variable fuel : nat.

(** The invariant while a task is being completed. *)
Definition session_mid (st : agent_state) (s : teep_agent_session) : Prop :=
  authenticated_context (s_context s) ∧
  (runner_active (state s) = true → authenticated_runner (s_runner s)) ∧
  (rank st ≤ rank (state s))%nat.

Lemma mid_finish s s' :
  session_mid (state s) s' → session_next s (with_task s' false (task_buffer s')).
Proof. by intros (? & ? & ?). Qed.

Lemma mid_error s :
  session_inv s → (rank (state s) ≤ 6)%nat → session_mid (state s) (teep_error s).
Proof. by intros [? ? ?]. Qed.

Lemma handle_message_mid g s m :
  session_inv s → (rank (state s) ≤ 6)%nat →
  may (handle_message g s m) (fun r => session_mid (state s) r.2).
Proof.
  intros Hs Hr. pose proof (mid_error s Hs Hr) as Herr.
  destruct Hs as [Hc Hrun Htask].
  unfold handle_message. destruct (m_body m) as [q|q|l|q|q]; try done.
  - unfold handle_query_request. case_match; [done|]. bool_facts. apply bool_decide_eq_true in H.
    destruct (malloc _ _) as [h [b|]]; [|case_match; [|done]]; cbn; unfold session_mid; cbn;
      rewrite H; (split_and!; [done|done|cbn; lia]).
  - destruct (handle_update g s l) as [| |[g' s']] eqn:Hu; cbn; try done.
    pose proof (handle_update_authenticated _ _ _ _ _ Hc Hu) as Hc'. revert Hu.
    unfold handle_update. case_match; [by intros [= <- <-]|]. bool_facts.
    apply bool_decide_eq_true in H.
    destruct (store_envelopes _ _ _ _) as [| |[g1 []]]; cbn [mbind outcome_bind negb]; try done;
      [|by intros [= <- <-]].
    destruct (add_envelopes _ _ _) as [| |[c []]]; cbn [mbind outcome_bind negb]; try done;
      intros [= <- <-]; unfold session_mid; cbn in *; rewrite H; (split_and!; [done|done|cbn; lia]).
Qed.

Lemma handle_tam_message_mid g s buffer :
  session_inv s → (rank (state s) ≤ 6)%nat →
  may (handle_tam_message fuel g s buffer) (fun r => session_mid (state s) r.1.2).
Proof.
  intros Hs Hr. unfold handle_tam_message.
  assert (session_mid (state s) (with_state s AGENT_FINISH)) as Hfin.
  { destruct Hs. split_and!; [done|done|cbn; lia]. }
  case_match; [done|]. case_match; [done|].
  apply may_bind. destruct (parse_teep_message _ _ _) as [| |[h [[block m]|]]]; cbn [may]; try done.
  - apply may_bind. eapply may_mono; [by apply handle_message_mid|].
    intros [g' s'] Hmid. apply may_bind. by destruct (free_parsed_teep_message _ _).
  - by apply mid_error.
Qed.

Lemma resume_authenticated r (u : agent_user) :
  authenticated_runner r → authenticated_runner (suit_runner_resume (r, u)).1.
Proof. intros (m & Hm & Ha). exists m. split; [|done]. by apply resume_keeps. Qed.

Lemma broker_task_done_next g s buffer :
  session_inv s → may (broker_task_done fuel g s buffer) (fun r => session_next s r.1.2).
Proof.
  intros Hs. unfold broker_task_done. destruct (on_going_task s) eqn:Hon; cbn [negb];
    [|by apply session_next_refl].
  pose proof (inv_task s Hs Hon) as Htask.
  destruct (t_command (task_buffer s)) eqn:Hcmd; [| |by apply session_next_refl].
  - apply may_bind. eapply may_mono; [apply handle_tam_message_mid; [done|]|].
    { by destruct (state s); cbn in *; try lia. }
    intros [[g' s'] ret]. apply mid_finish.
  - destruct (state s) eqn:Hst; try done.
    unfold handle_component_download. rewrite Hst. cbn [bool_decide negb].
    rewrite bool_decide_true by done. cbn [negb].
    destruct (suit_runner_resume _) as [r u] eqn:Hres. cbn.
    apply (mid_finish s (with_state (with_runner s r u) AGENT_RUN_SUIT_RUNNER)).
    destruct Hs as [Hc Hrun _]. rewrite Hst in *. split_and!; [done| |done]. intros _.
    pose proof (resume_authenticated _ (store_component (s_user s) (fetch_component_path (s_user s)) buffer)
      (Hrun eq_refl)) as Hauth.
    by rewrite Hres in Hauth.
Qed.

Lemma next_task_step_next s :
  session_inv s → on_going_task s = false →
  may (next_task_step p slot_addr fuel s) (fun s' => session_next s s').
Proof.
  intros Hs Hon. unfold next_task_step. pose proof Hs as [Hc Hrun _].
  assert (∀ uri built, task_state BROKER_HTTP_POST (state s) → runner_active (state s) = false →
    session_next s (with_task s true (post_task (task_buffer s) uri built))) as Hpost.
  { intros uri built Ht Ha. split; [|done]. split; cbn; [done|by rewrite Ha|done]. }
  assert (∀ task, task_state (t_command task) (state s) → session_next s (with_task s true task)) as Htask.
  { intros task Ht. split; [|done]. by split. }
  destruct (state s) eqn:Hst.
  - apply session_next_state; rewrite ?Hst; cbn; auto.
  - apply may_bind. destruct (platform_strncpy _ _ _ _); cbn; try done. by apply Htask.
  - apply may_bind. destruct (platform_strncpy _ _ _ _); cbn [may]; try done. apply may_bind.
    destruct (build_query_response _ _ _); cbn [may]; try done. by apply Hpost.
  - apply may_bind. destruct (platform_strncpy _ _ _ _); cbn [may]; try done. by apply Hpost.
  - apply may_bind. destruct (platform_strncpy _ _ _ _); cbn [may]; try done. by apply Hpost.
  - apply may_bind. destruct (suit_runner_init _ _) as [| |r] eqn:Hr; cbn [may]; try done.
    apply runner_init_manifest in Hr as (m & Hroot & Hm).
    split; [|cbn; rewrite Hst; cbn; lia]. split; cbn; [done| |by rewrite Hon]. intros _. exists m.
    split; [done|]. intros m' ->. revert Hroot. unfold suit_context_get_root_manifest.
    case_match eqn:Hn; [done|]. apply Nat.eqb_neq in Hn.
    destruct (manifests (s_context s) !! 0%nat) eqn:H0; [|done]. intros [= ->].
    apply (Hc 0%nat); [lia|done].
  - specialize (Hrun eq_refl) as (m & Hm & Ha).
    apply may_bind. pose proof (run_keeps slot_addr m fuel (s_runner s, s_user s) Hm) as Hk.
    destruct (suit_runner_run _ _ _) as [| |[r u]]; cbn [may] in *; try done.
    destruct (crashed u); [done|].
    assert (∀ st, (4 ≤ rank st)%nat → session_next s (with_state (with_runner s r u) st)) as Hnext.
    { intros st Hle. split; [|cbn; rewrite Hst; done].
      split; cbn; [done| |by rewrite Hon]. intros _. by exists m. }
    unfold teep_error. case_match; [|case_match]; cbn [may]; apply Hnext; cbn; lia.
  - case_match; [done|]. apply may_bind. destruct (range_load _); cbn [may]; try done. by apply Htask.
  - apply may_bind. destruct (put _ _ _); cbn [may]; try done. by apply Htask.
Qed.

Lemma query_next_broker_task_next n s :
  session_inv s → may (query_next_broker_task p slot_addr fuel n s) (fun s' => session_next s s').
Proof.
  revert s. induction n as [|n IH]; intros s Hs; cbn [query_next_broker_task]; [done|].
  destruct (on_going_task s) eqn:Hon; [by apply session_next_refl|].
  apply may_bind. eapply may_mono; [by apply next_task_step_next|].
  intros s' Hs'. eapply may_mono; [apply IH, Hs'|]. intros s''. by apply session_next_trans.
Qed.

Lemma invoke_next g s cmd types params :
  session_inv s →
  may (TA_InvokeCommandEntryPoint p slot_addr fuel g s cmd types params)
      (fun r => session_next s r.1.1.2).
Proof.
  intros Hs. pose proof (session_next_refl s Hs) as Hrefl.
  unfold TA_InvokeCommandEntryPoint. case_match; [|case_match; [|case_match; [|done]]].
  - apply may_bind. unfold handle_TEEP_AGENT_SET_DEV_OPTION. case_match; [done|].
    destruct params as [|[|o b|] [|[| |value len] params]]; try done. case_match; [done|].
    destruct (load _ _) as [| |c]; cbn [mbind outcome_bind may]; try done. case_match; [done|].
    eapply may_mono; [by apply set_dev_option_next|]. by intros [s' ret].
  - apply may_bind. unfold handle_TEEP_AGENT_BROKER_TASK_DONE. case_match; [done|].
    destruct params as [|[| |buffer size] params]; try done.
    destruct (load_bytes _ _ _) as [| |bytes]; cbn [mbind outcome_bind may]; try done.
    eapply may_mono; [by apply broker_task_done_next|]. by intros [[g' s'] ret].
  - apply may_bind. unfold handle_TEEP_AGENT_QUERY_NEXT_BROKER_TASK. case_match; [done|].
    destruct params as [|[|a b|] [|p1 [|p2 params]]]; try done.
    apply may_bind. eapply may_mono; [by apply query_next_broker_task_next|].
    intros s' Hs'. destruct (cstr _) as [uri|]; [|done].
    destruct (copyout_param p1 _) as [| |[p1' []]]; cbn [mbind outcome_bind negb may]; try done.
    destruct (load_bytes _ _ _) as [| |bytes]; cbn [mbind outcome_bind may]; try done.
    by destruct (copyout_param p2 _) as [| |[p2' []]].
Qed.
End commands.
