(* ===== verification/AgentTheorems.v ===== *)
(** * AgentTheorems: correctness of the TEEP agent

    The states of a session that commands of the broker can reach, in any order
    and with any contents of the shared state: what a session executes is
    authenticated, and the protocol only moves forward.  Then the task given to
    the broker in every state, the requests the agent sends, and the defects of
    an empty update and of the storage of envelopes. *)

From S2P Require Import Prelude Tcbor SuitTypes SuitParser SuitAuth SuitContext SuitRunner.
From S2P Require Import TeepMessage TeepEncoder Tools ToolsTheorems Agent AgentFacts.
From S2P Require Import TeepMessageFacts TeepMessageTheorems SuitTheorems.

Local Open Scope Z_scope.

(** ** Sessions *)

Section reachable.
Context `{Hal : allocator, Hqc : qcbor, Hqe : qcbor_encoder, Hcr : crypto_api}.

(** The sessions reached by commands that return, on any platform, whatever the
    heap and the stored envelopes are. *)
Inductive session_reaches : teep_agent_session → Prop :=
  | reaches_open garbage : session_reaches (session_init garbage)
  | reaches_invoke p slot_addr fuel g s cmd_id param_types params g' s' params' ret :
      session_reaches s →
      TA_InvokeCommandEntryPoint p slot_addr fuel g s cmd_id param_types params =
        Done (g', s', params', ret) →
      session_reaches s'.

Lemma session_reaches_inv s : session_reaches s → session_inv s.
Proof.
  induction 1 as [garbage|p slot_addr fuel g s cmd types params g' s' params' ret _ IH Hrun].
  - apply session_init_inv.
  - pose proof (invoke_next p slot_addr fuel g s cmd types params IH) as H.
    rewrite Hrun in H. apply H.
Qed.

(** C1: In every session the broker can reach, each manifest of the SUIT context
    was read from an envelope that [suit_authenticate_envelope] accepted with the
    built-in key; and while the runner is active, every continuation it holds
    belongs to such a manifest. *)
Theorem agent_runs_authenticated_manifests s :
  session_reaches s →
  (∀ i m, (i < n_manifest (s_context s))%nat → manifests (s_context s) !! i = Some m →
     ∃ bytes slot,
       suit_authenticate_envelope (range_of (Some bytes)) tc_singer_pubkey = Done true ∧
       suit_envelope_get_manifest (range_of (Some bytes)) slot = Done (m, Some tt)) ∧
  (state s = AGENT_RUN_SUIT_RUNNER ∨ state s = AGENT_FETCH_COMPONENT →
   ∀ c m, c ∈ program_counter (s_runner s) :: stack (s_runner s) → pc_manifest c = Some m →
     ∃ bytes slot,
       suit_authenticate_envelope (range_of (Some bytes)) tc_singer_pubkey = Done true ∧
       suit_envelope_get_manifest (range_of (Some bytes)) slot = Done (m, Some tt)).
Proof.
  intros Hs%session_reaches_inv. destruct Hs as [Hc Hrun _]. split; [exact Hc|].
  intros Hst c m Hin Hm.
  assert (runner_active (state s) = true) as (m' & [Hpc Hstack] & Ha)%Hrun.
  { by destruct Hst as [-> | ->]. }
  apply Ha. rewrite <-Hm. apply elem_of_cons in Hin as [->|Hin]; [done|]. symmetry. by apply Hstack.
Qed.

(** Every command that returns moves the session forward in the order init,
    initial request, query response, start of the runner, runner and fetch,
    success, error, finish; and a task given to the broker is always one of the
    state the session is in. *)
Theorem agent_protocol_order p slot_addr fuel g s cmd_id param_types params g' s' params' ret :
  session_reaches s →
  TA_InvokeCommandEntryPoint p slot_addr fuel g s cmd_id param_types params =
    Done (g', s', params', ret) →
  (rank (state s) ≤ rank (state s'))%nat ∧
  (on_going_task s' = true → task_state (t_command (task_buffer s')) (state s')).
Proof.
  intros Hs%session_reaches_inv Hrun.
  pose proof (invoke_next p slot_addr fuel g s cmd_id param_types params Hs) as H.
  rewrite Hrun in H. destruct H as [Hinv Hrank]. split; [done|]. apply Hinv.
Qed.
End reachable.

(** ** Storing envelopes *)

Section envelopes.
Context `{Hal : allocator, Hqc : qcbor, Hqe : qcbor_encoder, Hcr : crypto_api}.

(** [store_bstr] replaces the block of the pointer when the allocation
    succeeds.  When it fails, the old block is already freed but the pointer
    still refers to it, so that storing again frees it twice. *)
Theorem store_bstr_correct h b old buf frame :
  accounts h [Some b] frame →
  let h1 := Heap (h_next h) (filter (fun x => x ≠ b) (h_live h)) in
  let '(h2, q) := malloc h1 (Z.of_nat (length buf)) in
  match q with
  | Some q =>
      store_bstr h (Some (b, old)) buf = Done (h2, Some (q, buf), true) ∧
      accounts h2 [Some q] frame
  | None =>
      store_bstr h (Some (b, old)) buf = Done (h2, Some (b, old), false) ∧
      accounts h2 [] frame ∧ ∀ buf', store_bstr h2 (Some (b, old)) buf' = Ub
  end.
Proof.
  intros Hacc. cbn zeta. pose proof (free_owned h (Some b) [] frame Hacc) as Hfree.
  cbn in Hfree. destruct (bool_decide (b ∈ h_live h)) eqn:Hin; [|done]. cbn in Hfree.
  set (h1 := Heap _ _) in *.
  assert (∀ (r : outcome heap), r = Done h1 → free h (Some b) = r) as Hf.
  { intros r ->. cbn. by rewrite Hin. }
  pose proof (accounts_malloc h1 (Z.of_nat (length buf)) [] frame Hfree) as Hm.
  destruct (malloc h1 _) as [h2 q] eqn:Hmal. cbn in Hm.
  assert (∀ (r : heap * option nat), r = (h2, q) →
    store_bstr h (Some (b, old)) buf =
    match q with None => Done (h2, Some (b, old), false) | Some q => Done (h2, Some (q, buf), true) end)
    as Hstore.
  { intros _ _. unfold store_bstr. rewrite bool_decide_false by done.
    change (fst <$> Some (b, old)) with (Some b). rewrite (Hf (Done h1) eq_refl).
    cbn [mbind outcome_bind]. by rewrite Hmal. }
  specialize (Hstore _ eq_refl). destruct q as [q|]; [done|]. split; [done|].
  assert (accounts h2 [] frame) as Hacc2.
  { eapply accounts_perm; [done|]. done. }
  split; [done|]. intros buf'. unfold store_bstr. rewrite bool_decide_false by done. cbn.
  rewrite bool_decide_false; [done|]. destruct Hacc2 as [_ Hl]. cbn in Hl. rewrite Hl.
  destruct Hacc as [[Hnd _] Hl0]. rewrite Hl0 in Hnd. cbn in Hnd.
  by apply list.NoDup_cons in Hnd as [? _].
Qed.

(** An update without manifests is accepted: the session goes on to start the
    runner with no manifest, and asking for the next task dereferences the null
    pointer that [suit_runner_init] was given. *)
Theorem agent_empty_update_crashes p slot_addr fuel g s l :
  state s = AGENT_POSTING_QUERY_RESPONSE → n_manifest (s_context s) = 0%nat →
  on_going_task s = false → arr_len l = 0%nat →
  ∃ s', handle_update g s l = Done (g, s') ∧
    state s' = AGENT_INIT_RUNNER ∧
    ∀ n, query_next_broker_task p slot_addr fuel (S n) s' = Ub.
Proof.
  intros Hst Hn Hon Hl. exists (with_state (with_context s (s_context s)) AGENT_INIT_RUNNER).
  unfold handle_update. rewrite bool_decide_true, Hl by done. split; [done|]. split; [done|].
  intros n. cbn [query_next_broker_task]. unfold next_task_step. cbn [on_going_task with_state with_context].
  rewrite Hon. cbn [state with_state s_context with_context].
  unfold suit_runner_init, suit_context_get_root_manifest. by rewrite Hn.
Qed.

End envelopes.

(** ** Witnesses *)

(** Functions in place of the libraries: every allocation succeeds, no message is
    decoded, encoding leaves the buffer alone, and no key is accepted. *)
Definition no_qcbor : qcbor := script_qcbor [].
Definition null_encoder : qcbor_encoder := fun buf _ => (buf, Some 0).
Definition no_crypto : crypto_api := {|
  CBOR_TAG_COSE_SIGN1 := 18;
  pk_key := unit;
  md_context := unit;
  pk_parse_public_key := fun _ => None;
  t_cose_sign1_verify_detached := fun _ _ _ => false;
  md_sha256_available := false;
  md_setup := None;
  md_starts := fun _ => None;
  md_update := fun _ _ => None;
  md_finish := fun _ => None;
  md_get_size := 32
|}.
#[local] Existing Instances always_malloc no_qcbor null_encoder no_crypto.

Definition zero_session : teep_agent_session :=
  Session AGENT_FINISH (replicate TEEP_MAX_URI_LEN x00) false
    (BrokerTask BROKER_FINISH (replicate TEEP_MAX_URI_LEN x00) (replicate TEEP_MAX_MESSAGE_LEN x00) 0)
    None 0 (replicate 16 (ManifestRequest false false (replicate 128 x00))) 0
    suit_context_init
    (Runner SUIT_COMMAND_SEQUENCE_INSTALL None None [] (Continuation None SUIT_NEXT_EXIT) [] false false None)
    (AgentUser None blank_path [] false).

Definition zero_globals : agent_globals := Globals empty_heap [None; None].

Definition task_params : list TEE_Param :=
  [ParamValue 0 0; ParamMemref [x01; x01] 2; ParamMemref [] 0; ParamNone].
Definition query_types : Z := TEE_PARAM_TYPES TEE_PARAM_TYPE_VALUE_OUTPUT
  TEE_PARAM_TYPE_MEMREF_OUTPUT TEE_PARAM_TYPE_MEMREF_OUTPUT TEE_PARAM_TYPE_NONE.

(** After the first question for a task. *)
Definition first_session : teep_agent_session :=
  with_task (with_state (session_init zero_session) AGENT_POSTING_INITIAL_REQUEST) true
    (BrokerTask BROKER_HTTP_POST (replicate TEEP_MAX_URI_LEN x00)
      (replicate TEEP_MAX_MESSAGE_LEN x00) 0).

Lemma first_task :
  TA_InvokeCommandEntryPoint PLAT_PC (fun _ => 0) 0 zero_globals (session_init zero_session)
    TEEP_AGENT_QUERY_NEXT_BROKER_TASK query_types task_params =
  Done (zero_globals, first_session,
    [ParamValue 0 0; ParamMemref [x00; x01] 1; ParamMemref [] 0; ParamNone], TEE_SUCCESS).
Proof. by vm_compute. Qed.

(** A session through the whole protocol: the toy cryptography of SuitTheorems, a
    decoder that answers the buffer [01] with a query request and any other with
    an update of one manifest signed with the built-in key. *)
Definition string_item (v : list byte) : qcbor_item :=
  QItem QCBOR_TYPE_BYTE_STRING QCBOR_TYPE_NONE 3 3 0 (Some v) 0 0.

Definition update_script : list qcbor_item :=
  [array_item 0 2; int_item TEEP_UPDATE; map_item 1; array_item TEEP_OPTION_MANIFEST_LIST 1;
   string_item (sample_envelope tc_singer_pubkey)].

Definition tam_qcbor : qcbor := {|
  decode_context := list qcbor_item;
  QCBORDecode_Init := fun b =>
    if bool_decide (b = Some [x01]) then request_script else update_script;
  QCBORDecode_GetNext := fun DC =>
    match DC with [] => ([], no_item) | Item :: DC => (DC, clip_item Item) end;
  QCBORDecode_Finish := fun DC => bool_decide (DC = []);
  UsefulInputBuf_Tell := fun DC => 0;
  InBuf_UB := fun _ => Some [];
  UsefulBuf_Head := fun b n => take (Z.to_nat n) <$> b;
  UsefulBuf_Tail := fun b n => drop (Z.to_nat n) <$> b;
  QCBOR_Int64ToUInt32 := fun z => if (0 <=? z) && (z <? u32_modulus) then Some z else None
|}.

Definition done_types : Z := TEE_PARAM_TYPES TEE_PARAM_TYPE_MEMREF_INPUT TEE_PARAM_TYPE_NONE
  TEE_PARAM_TYPE_NONE TEE_PARAM_TYPE_NONE.

Definition reply_params (c : byte) : list TEE_Param :=
  [ParamMemref [c] 1; ParamNone; ParamNone; ParamNone].

Definition ask_params : list TEE_Param :=
  [ParamValue 0 0; ParamMemref (replicate 512 x00) 512; ParamMemref (replicate 2048 x00) 2048; ParamNone].

(** The commands of the broker, one after the other. *)
Definition protocol_step (c : agent_globals * teep_agent_session) (cmd types : Z)
    (params : list TEE_Param) : agent_globals * teep_agent_session :=
  match @TA_InvokeCommandEntryPoint always_malloc tam_qcbor null_encoder toy_crypto PLAT_PC
          (fun _ => 0) 10 c.1 c.2 cmd types params with
  | Done r => r.1.1
  | _ => c
  end.

Definition protocol_run : agent_globals * teep_agent_session :=
  let ask c := protocol_step c TEEP_AGENT_QUERY_NEXT_BROKER_TASK query_types ask_params in
  let reply b c := protocol_step c TEEP_AGENT_BROKER_TASK_DONE done_types (reply_params b) in
  reply x03 (ask (reply x01 (ask (zero_globals, session_init zero_session)))).

Lemma protocol_step_reaches c cmd types params :
  @session_reaches always_malloc tam_qcbor null_encoder toy_crypto c.2 →
  @session_reaches always_malloc tam_qcbor null_encoder toy_crypto (protocol_step c cmd types params).2.
Proof.
  intros Hc. unfold protocol_step.
  destruct (TA_InvokeCommandEntryPoint _ _ _ _ _ _ _ _) as [| |[[[g' s'] params'] ret]] eqn:Hrun;
    [done..|].
  by eapply (@reaches_invoke always_malloc tam_qcbor null_encoder toy_crypto).
Qed.

Lemma agent_runs_authenticated_manifests_witness :
  state protocol_run.2 = AGENT_INIT_RUNNER ∧ n_manifest (s_context protocol_run.2) = 1%nat ∧
  ∃ m bytes slot, manifests (s_context protocol_run.2) !! 0%nat = Some m ∧
    @suit_authenticate_envelope toy_crypto (range_of (Some bytes)) tc_singer_pubkey = Done true ∧
    suit_envelope_get_manifest (range_of (Some bytes)) slot = Done (m, Some tt).
Proof.
  assert (n_manifest (s_context protocol_run.2) = 1%nat) as Hn by (vm_compute; reflexivity).
  assert (is_Some (manifests (s_context protocol_run.2) !! 0%nat)) as [m Hm] by (vm_compute; eauto).
  split; [vm_compute; reflexivity|]. split; [exact Hn|].
  destruct (@agent_runs_authenticated_manifests always_malloc tam_qcbor null_encoder toy_crypto
    protocol_run.2 ltac:(repeat apply protocol_step_reaches; apply reaches_open)) as [H _].
  destruct (H 0%nat m) as (bytes & slot & Ha & Hb); [rewrite Hn; lia|exact Hm|].
  exists m, bytes, slot. auto.
Defined.

Lemma agent_protocol_order_witness :
  (rank AGENT_INIT ≤ rank (state first_session))%nat ∧
  (on_going_task first_session = true →
   task_state (t_command (task_buffer first_session)) (state first_session)).
Proof.
  apply (agent_protocol_order PLAT_PC (fun _ => 0) 0 zero_globals (session_init zero_session)
    TEEP_AGENT_QUERY_NEXT_BROKER_TASK query_types task_params zero_globals first_session
    [ParamValue 0 0; ParamMemref [x00; x01] 1; ParamMemref [] 0; ParamNone] TEE_SUCCESS).
  - apply reaches_open.
  - exact first_task.
Defined.

(** An allocator without memory: the second allocation frees the block again. *)
Definition never_malloc : allocator := fun _ _ => false.

Lemma store_bstr_correct_witness :
  @store_bstr never_malloc (Heap 1 [0%nat]) (Some (0%nat, [x01])) [x02] =
    Done (Heap 2 [], Some (0%nat, [x01]), false) ∧
  @store_bstr never_malloc (Heap 2 []) (Some (0%nat, [x01])) [x02] = Ub.
Proof.
  assert (accounts (Heap 1 [0%nat]) [Some 0%nat] []) as Hacc.
  { split; [split; cbn|done].
    - repeat constructor. by intros ?%elem_of_nil.
    - intros b ->%list_elem_of_singleton. lia. }
  destruct (@store_bstr_correct never_malloc (Heap 1 [0%nat]) 0%nat [x01] [x02] [] Hacc)
    as (H1 & _ & H2).
  split; [exact H1|]. apply H2.
Defined.

(** A session that waits for an update. *)
Definition waiting_session : teep_agent_session :=
  with_state (session_init zero_session) AGENT_POSTING_QUERY_RESPONSE.

Lemma agent_empty_update_crashes_witness :
  ∃ s', handle_update zero_globals waiting_session array_zero = Done (zero_globals, s') ∧
    state s' = AGENT_INIT_RUNNER ∧
    ∀ n, query_next_broker_task PLAT_PC (fun _ => 0) 0 (S n) s' = Ub.
Proof. by apply agent_empty_update_crashes. Defined.
