(* ===== verification/AgentIdTheorems.v ===== *)
(** * AgentIdTheorems: component identifiers

    [parse_component_id] turns the identifier of a component into the name of the
    file the component is installed in: which identifiers it accepts, and what
    names come out. *)

From Stdlib Require Import Strings.String.
From S2P Require Import Prelude Tcbor TcborFacts CborSpec CborTree SuitTypes SuitAuth.
From S2P Require Import SuitAuthFacts Agent.

Local Open Scope Z_scope.

(** ** File names *)

(** The characters of file names: hexadecimal digits and the dash. *)
Definition name_char (c : byte) : bool :=
  (48 <=? u8 c) && (u8 c <=? 57) || (97 <=? u8 c) && (u8 c <=? 102) || (u8 c =? 45).

Lemma hex_digit_u8 n : 0 <= n < 16 → u8 (hex_digit n) = if n <? 10 then 48 + n else 87 + n.
Proof.
  intros Hn. unfold hex_digit. rewrite u8_to_byte, Z.mod_small; [done|].
  destruct (Z.ltb_spec n 10); lia.
Qed.

Lemma hex_digit_inj n1 n2 : 0 <= n1 < 16 → 0 <= n2 < 16 → hex_digit n1 = hex_digit n2 → n1 = n2.
Proof.
  intros H1 H2 H%(f_equal u8). rewrite !hex_digit_u8 in H by done.
  destruct (Z.ltb_spec n1 10), (Z.ltb_spec n2 10); lia.
Qed.

Lemma hex_digit_char n : 0 <= n < 16 → name_char (hex_digit n) = true.
Proof.
  intros Hn. unfold name_char. rewrite hex_digit_u8 by done.
  destruct (Z.ltb_spec n 10); repeat case_match; lia.
Qed.

Lemma nibbles b : 0 <= u8 b / 16 < 16 ∧ 0 <= u8 b mod 16 < 16.
Proof.
  pose proof (u8_range b). split; [|by apply Z.mod_pos_bound].
  split; [apply Z.div_pos; lia|]. apply Z.div_lt_upper_bound; lia.
Qed.

Lemma hex_byte_inj b1 b2 : hex_byte b1 = hex_byte b2 → b1 = b2.
Proof.
  unfold hex_byte. intros [= Hd Hm]. destruct (nibbles b1), (nibbles b2).
  apply hex_digit_inj in Hd, Hm; try done. apply u8_inj.
  rewrite (Z.div_mod (u8 b1) 16), (Z.div_mod (u8 b2) 16) by done. lia.
Qed.

Lemma uuid_string_chars i u : forallb name_char (uuid_string i u) = true.
Proof.
  revert i. induction u as [|b u IH]; intros i; [done|]. cbn [uuid_string].
  destruct (nibbles b). rewrite !forallb_app, IH. cbn [hex_byte forallb].
  rewrite !hex_digit_char by done. by case_bool_decide.
Qed.

Lemma uuid_string_inj i u1 u2 :
  length u1 = length u2 → uuid_string i u1 = uuid_string i u2 → u1 = u2.
Proof.
  revert i u2. induction u1 as [|b1 u1 IH]; intros i [|b2 u2] Hl; try done.
  cbn [uuid_string]. intros H. injection Hl as Hl.
  apply app_inj_1 in H as [Hb H]; [|done]. apply app_inv_head in H.
  f_equal; [by apply hex_byte_inj|by eapply IH].
Qed.

Lemma uuid_string_length u : length u = 16%nat → length (uuid_string 0 u) = 36%nat.
Proof.
  intros Hu. do 16 (destruct u as [|? u]; [done|]). destruct u; [|done].
  cbn [uuid_string]. rewrite !length_app. by vm_compute.
Qed.

(** ** Acceptance *)

(** C32: Whatever the identifier, a path that is accepted names the file after the
    16 bytes of the identifier alone: 36 characters, all hexadecimal digits or
    dashes, before the suffix [.ta] (so it fits the buffer and names no other
    directory); and different bytes give different names. *)
Theorem component_filename c dst :
  may (parse_component_id c dst) (fun '(path, ok) =>
    ok = true →
    length (uuid path) = 16%nat ∧
    filename path = uuid_string 0 (uuid path) ++ str_suffix ∧
    length (filename path) = 39%nat ∧ forallb name_char (take 36 (filename path)) = true ∧
    ∀ u, length u = 16%nat → uuid_string 0 u ++ str_suffix = filename path → u = uuid path).
Proof.
  unfold parse_component_id.
  destruct (tcbor_read_array _) as [| |[? [array|]]]; cbn [or_else may]; try done.
  destruct (tcbor_read_bstr _) as [| |[? [d|]]]; cbn [or_else may]; try done.
  destruct (memcmp_literal d _) as [| |[]]; cbn [mbind outcome_bind negb may]; try done.
  destruct (tcbor_read_bstr _) as [| |[? [st|]]]; cbn [or_else may]; try done.
  destruct (memcmp_literal st _) as [| |[]]; cbn [mbind outcome_bind negb may]; try done.
  destruct (tcbor_read_bstr _) as [| |[? [u|]]]; cbn [or_else may]; try done.
  destruct (Z.eqb_spec (range_len u) 16) as [Hu|]; cbn [negb may]; [|done].
  destruct (range_load u) as [| |bytes] eqn:Hload; cbn [mbind outcome_bind may]; try done.
  apply range_load_length in Hload.
  destruct (tcbor_read_bstr _) as [| |[? [ta|]]]; cbn [or_else may]; try done.
  destruct (memcmp_literal ta _) as [| |[]]; cbn [mbind outcome_bind negb may]; try done.
  destruct (tcbor_close _ _) as [| |[? [[]|]]]; cbn [or_else may]; try done.
  intros _. cbn [uuid filename]. assert (length bytes = 16%nat) as Hb by lia.
  pose proof (uuid_string_length bytes Hb) as Hl. split_and!; [done|done| | |].
  - rewrite length_app, Hl. by vm_compute.
  - rewrite take_app_le, take_ge by lia. apply uuid_string_chars.
  - intros u' Hu' Heq. apply app_inv_tail in Heq. apply (uuid_string_inj 0); [congruence|done].
Qed.

(** A string of the identifier is compared only over its own length. *)
Definition literal_prefix (literal bytes : list byte) : bool :=
  bool_decide (bytes = take (length bytes) (literal ++ [x00])).

Lemma memcmp_literal_at s literal bytes :
  span_ok s → span_bytes s = bytes →
  memcmp_literal (Some s) literal =
  if bool_decide (length bytes ≤ S (length literal))%nat then Done (literal_prefix literal bytes) else Ub.
Proof.
  intros Hs Hb. unfold memcmp_literal. pose proof (span_bytes_length s Hs) as Hl. rewrite Hb in Hl.
  rewrite range_load_spec, <-Hl by done. cbn [range_bytes mbind outcome_bind]. rewrite Hb, Nat2Z.id.
  destruct (Z.ltb_spec (Z.of_nat (S (length literal))) (Z.of_nat (length bytes)));
    [rewrite bool_decide_false by lia|rewrite (bool_decide_true (_ ≤ _)%nat) by lia]; done.
Qed.

(** C31: What [parse_component_id] makes of a well-formed identifier with four byte
    strings.  The constant parts are only compared over the length the sender
    chose, so every prefix of [TEEP-Device], [SecureFS] and [ta] is accepted, even
    the empty string, and the path is the same for all of them; the third part
    must have 16 bytes.  A part longer than the constant (with its NUL) makes
    [memcmp] read past the constant. *)
Theorem parse_component_id_correct s a a1 a2 a3 a4 d st u t rest dst :
  span_ok s →
  cbor_wf (CArray a [CString 2 a1 d; CString 2 a2 st; CString 2 a3 u; CString 2 a4 t]) = true →
  span_bytes s =
    encode (CArray a [CString 2 a1 d; CString 2 a2 st; CString 2 a3 u; CString 2 a4 t]) ++ rest →
  (length st ≤ 9)%nat → (length t ≤ 3)%nat →
  if bool_decide (length d ≤ 12)%nat
  then
    if literal_prefix str_device d && literal_prefix str_storage st && (length u =? 16)%nat &&
       literal_prefix str_ta t
    then parse_component_id (Component (Some s)) dst =
           Done (ComponentPath str_device str_storage u (uuid_string 0 u ++ str_suffix), true)
    else ∃ path, parse_component_id (Component (Some s)) dst = Done (path, false)
  else parse_component_id (Component (Some s)) dst = Ub.
Proof.
  intros Hs Hwf Hb Hst Ht. unfold parse_component_id. cbn [id_cbor].
  pose proof (at_toplevel s _ _ Hs Hwf Hb) as Hc.
  pose proof (at_read_array _ _ _ _ Hc) as Ha. cbn [item_array reads] in Ha.
  destruct Ha as (c1&arr&->&Harr&Hp). cbn [or_else].
  pose proof (at_read_bstr _ _ _ _ Harr) as H1. cbn [item_string Z.eqb Pos.eqb reads] in H1.
  destruct H1 as (b1&?&->&Hb1&ds&->&Hds&Hdsb). cbn [or_else].
  rewrite (memcmp_literal_at ds str_device d Hds Hdsb). change (S (length str_device)) with 12%nat.
  case_bool_decide; [|done]. cbn [mbind outcome_bind].
  destruct (literal_prefix str_device d); cbn [negb andb]; [|by eexists].
  pose proof (at_read_bstr _ _ _ _ Hb1) as H2. cbn [item_string Z.eqb Pos.eqb reads] in H2.
  destruct H2 as (b2&?&->&Hb2&ss&->&Hss&Hssb). cbn [or_else].
  rewrite (memcmp_literal_at ss str_storage st Hss Hssb), bool_decide_true by done.
  cbn [mbind outcome_bind]. destruct (literal_prefix str_storage st); cbn [negb andb]; [|by eexists].
  pose proof (at_read_bstr _ _ _ _ Hb2) as H3. cbn [item_string Z.eqb Pos.eqb reads] in H3.
  destruct H3 as (b3&?&->&Hb3&us&->&Hus&Husb). cbn [or_else].
  pose proof (span_bytes_length us Hus) as Hul. rewrite Husb in Hul. rewrite <-Hul.
  destruct (Nat.eqb_spec (length u) 16); destruct (Z.eqb_spec (Z.of_nat (length u)) 16); try lia;
    cbn [negb andb]; [|by eexists].
  rewrite range_load_spec by done. cbn [range_bytes mbind outcome_bind]. rewrite Husb.
  pose proof (at_read_bstr _ _ _ _ Hb3) as H4. cbn [item_string Z.eqb Pos.eqb reads] in H4.
  destruct H4 as (b4&?&->&Hb4&ts&->&Hts&Htsb). cbn [or_else].
  rewrite (memcmp_literal_at ts str_ta t Hts Htsb), bool_decide_true by done.
  cbn [mbind outcome_bind]. destruct (literal_prefix str_ta t); cbn [negb]; [|by eexists].
  destruct (at_close _ _ _ _ _ Hp Hb4) as (c2&->&_). done.
Qed.

(** ** Witnesses *)

(** An identifier whose constant parts are all empty. *)
Definition empty_parts_id : cbor :=
  CArray 4 [CString 2 0 []; CString 2 0 []; CString 2 16 (replicate 16 x07); CString 2 0 []].

Definition empty_parts_span : tcbor_span :=
  Span (encode empty_parts_id) 0 (Z.of_nat (length (encode empty_parts_id))).

Lemma parse_component_id_correct_witness :
  parse_component_id (Component (Some empty_parts_span)) blank_path =
    Done (ComponentPath str_device str_storage (replicate 16 x07)
            (bytes_of_string "07070707-0707-0707-0707-070707070707.ta"%string), true).
Proof.
  apply (parse_component_id_correct empty_parts_span 4 0 0 16 0 [] [] (replicate 16 x07) [] []
           blank_path).
  - by vm_compute.
  - by vm_compute.
  - by vm_compute.
  - cbn. lia.
  - cbn. lia.
Defined.
