(* ===== verification/Rng.v ===== *)
(** * Rng: random numbers ([lib/suit/lib/teerng.c])

    The source of random numbers Mbed TLS is given, on each platform.  The
    generators of OP-TEE and SGX are the class [entropy_api]. *)

From S2P Require Import Prelude Agent.

Local Open Scope Z_scope.

Class entropy_api := {
  entropy : Type;
  (** As many bytes as asked for. *)
  TEE_GenerateRandom : entropy → nat → entropy * list byte;
  (** The same, or an error. *)
  sgx_read_rand : entropy → nat → entropy * option (list byte);
  MBEDTLS_ERR_CTR_DRBG_ENTROPY_SOURCE_FAILED : Z
}.

Class entropy_laws `{entropy_api} := {
  TEE_GenerateRandom_length : ∀ e n, length (TEE_GenerateRandom e n).2 = n;
  sgx_read_rand_length : ∀ e n bytes, (sgx_read_rand e n).2 = Some bytes → length bytes = n;
  entropy_error : MBEDTLS_ERR_CTR_DRBG_ENTROPY_SOURCE_FAILED ≠ 0
}.

Section rng.
Context `{entropy_api}.

(** [memset(output, 42, len)]. *)
Definition constant_bytes (len : nat) : list byte := replicate len x2a.

(** The generator, the buffer and the result. *)
Definition teerng_read (p : platform) (e : entropy) (output : list byte) (len : nat) : entropy * list byte * Z :=
  match p with
  | PLAT_OPTEE => let '(e, bytes) := TEE_GenerateRandom e len in (e, write_at output 0 bytes, 0)
  | PLAT_KEYSTONE | PLAT_PC => (e, write_at output 0 (constant_bytes len), 0)
  | PLAT_SGX =>
      match sgx_read_rand e len with
      | (e, None) => (e, output, MBEDTLS_ERR_CTR_DRBG_ENTROPY_SOURCE_FAILED)
      | (e, Some bytes) => (e, write_at output 0 bytes, 0)
      end
  end.

Context `{!entropy_laws}.

(** The call stays in the buffer, writes exactly the bytes asked for if it succeeds
    and nothing otherwise; it can only fail on SGX. *)
Lemma teerng_read_spec p e output len :
  (len ≤ length output)%nat →
  let '(e', output', ret) := teerng_read p e output len in
  length output' = length output ∧
  (if ret =? 0 then ∃ bytes, length bytes = len ∧ output' = bytes ++ drop len output
   else p = PLAT_SGX ∧ output' = output).
Proof.
  intros Hl.
  assert (∀ bytes, length bytes = len → length (write_at output 0 bytes) = length output ∧
    ∃ bytes', length bytes' = len ∧ write_at output 0 bytes = bytes' ++ drop len output) as Hw.
  { intros bytes Hb. split; [apply write_at_length; lia|]. exists bytes. split; [done|].
    unfold write_at. by rewrite Hb. }
  destruct p; cbn.
  - apply Hw, length_replicate.
  - pose proof (TEE_GenerateRandom_length e len). destruct (TEE_GenerateRandom e len). by apply Hw.
  - apply Hw, length_replicate.
  - pose proof (sgx_read_rand_length e len) as Hr. destruct (sgx_read_rand e len) as [e' [bytes|]]; cbn.
    + apply Hw. by apply Hr.
    + pose proof entropy_error. by destruct (Z.eqb_spec MBEDTLS_ERR_CTR_DRBG_ENTROPY_SOURCE_FAILED 0).
Qed.

(** On PC and Keystone the numbers are not random: the bytes do not depend on
    anything. *)
Lemma teerng_read_predictable p e e' output len :
  p = PLAT_PC ∨ p = PLAT_KEYSTONE → (teerng_read p e output len).1.2 = (teerng_read p e' output len).1.2.
Proof. by intros [-> | ->]. Qed.
End rng.
