(* ===== verification/AgentTaskTheorems.v ===== *)
(** * AgentTaskTheorems: options, tasks and messages of the agent

    What setting the options does, that the next task is always found and what it
    is, and that the messages the agent builds are well nested and say what the
    options asked for. *)

From S2P Require Import Prelude Tcbor SuitTypes SuitAuth SuitContext SuitRunner.
From S2P Require Import TeepMessage TeepEncoder Tools ToolsTheorems Agent.

(** ** Copying strings *)

Lemma string_prefix_cstr n src u : cstr src = Some u → string_prefix n src = Done (take n u).
Proof.
  revert n u. induction src as [|c src IH]; intros n u; cbn; [done|].
  case_bool_decide as Hc.
  - intros [= <-]. destruct n; [done|]. cbn. by rewrite bool_decide_true.
  - rewrite fmap_Some. intros (v & Hv & ->). destruct n; [done|]. cbn.
    rewrite bool_decide_false by done. by rewrite (IH n v Hv).
Qed.

Lemma libc_strncpy_ok dst src n u :
  cstr src = Some u → (n ≤ length dst)%nat →
  libc_strncpy dst src n = Done (take n u ++ replicate (n - length (take n u)) x00 ++ drop n dst).
Proof.
  intros Hu Hn. unfold libc_strncpy. rewrite (string_prefix_cstr _ _ _ Hu). cbn.
  by rewrite bool_decide_true.
Qed.

(** Every platform copies within a buffer of [n + 1] bytes and leaves at most [n]
    characters; all but the C library terminate them. *)
Lemma platform_strncpy_ok p dst src n u :
  cstr src = Some u → length dst = S n →
  wp (platform_strncpy p dst src n) (fun d =>
    length d = S n ∧ take (min n (length u)) d = take n u ∧
    (length u < n ∨ p = PLAT_KEYSTONE ∨ p = PLAT_SGX → cstr d = Some (take n u)) ∧
    (n ≤ length u → p = PLAT_PC ∨ p = PLAT_OPTEE → d = take n u ++ drop n dst)).
Proof.
  intros Hu Hn.
  assert (p = PLAT_KEYSTONE ∨ p = PLAT_SGX ∨ p = PLAT_PC ∨ p = PLAT_OPTEE) as Hp by (destruct p; auto).
  assert (platform_strncpy p = strncpy ∧ (p = PLAT_KEYSTONE ∨ p = PLAT_SGX) ∨
          platform_strncpy p = libc_strncpy ∧ (p = PLAT_PC ∨ p = PLAT_OPTEE)) as [[-> Hk]|[-> Hk]].
  { destruct p; auto. }
  - pose proof (strncpy_correct dst src n u Hu) as Hs. rewrite bool_decide_true in Hs by lia.
    eapply wp_mono; [exact Hs|]. intros d [Hl Hd]. split_and!; [lia| |done|].
    + pose proof Hd as [_ [rest ->]]%cstr_spec. rewrite take_app_le by (rewrite length_take; lia).
      rewrite take_ge; [done|]. rewrite length_take. lia.
    + intros _ [-> | ->]; by destruct Hk.
  - rewrite (libc_strncpy_ok _ _ _ _ Hu) by lia. cbn. pose proof (length_take u n) as Hlt.
    split_and!.
    + rewrite !length_app, length_replicate, length_drop. lia.
    + rewrite take_app_le by lia. rewrite take_ge by lia. done.
    + intros [Hlen|[-> | ->]]; [|by destruct Hk..].
      apply cstr_spec. apply cstr_spec in Hu as [Hz _]. rewrite take_ge in * by lia. split; [done|].
      replace (n - length u) with (S (n - length u - 1)) by lia. cbn. eauto.
    + intros Hle _. replace (n - length (take n u)) with 0 by lia. done.
Qed.

(** ** Options *)

(** Setting the URI of the TAM is possible only before the first task, and
    stays within the buffer on every platform.  A URI of 512 characters or more
    is refused; a shorter one is stored and can be read back, except that on
    platforms with a C library one of exactly 511 characters gets no terminator:
    the last byte is the one the session was created with. *)
Theorem set_tam_uri_correct p s value u :
  cstr value = Some u → length (tam_uri s) = TEEP_MAX_URI_LEN →
  if negb (bool_decide (state s = AGENT_INIT))
  then set_dev_option p s AGENT_OPTION_SET_TAM_URI value = Done (s, TEE_ERROR_BAD_STATE)
  else if bool_decide (512 ≤ length u)
  then set_dev_option p s AGENT_OPTION_SET_TAM_URI value = Done (s, TEE_ERROR_BAD_PARAMETERS)
  else ∃ uri,
    set_dev_option p s AGENT_OPTION_SET_TAM_URI value = Done (with_tam_uri s uri, TEE_SUCCESS) ∧
    length uri = TEEP_MAX_URI_LEN ∧
    (length u < 511 ∨ p = PLAT_KEYSTONE ∨ p = PLAT_SGX → cstr uri = Some u) ∧
    (length u = 511 → p = PLAT_PC ∨ p = PLAT_OPTEE → uri = u ++ drop 511 (tam_uri s)).
Proof.
  intros Hu Hl. unfold set_dev_option.
  destruct (negb (bool_decide (state s = AGENT_INIT))); [done|]. rewrite Z.eqb_refl, Hu.
  change TEEP_MAX_URI_LEN with 512 in *. destruct (decide (512 ≤ length u)).
  - by rewrite !bool_decide_true by lia.
  - rewrite !bool_decide_false by lia. change (512 - 1) with 511.
    destruct (wp_elim _ _ (platform_strncpy_ok p (tam_uri s) value 511 u Hu Hl))
      as (uri & -> & Hlen & _ & Hterm & Hlibc). cbn [mbind outcome_bind].
    rewrite take_ge in Hterm, Hlibc by lia. exists uri. split_and!; auto.
    intros Hex. apply Hlibc. lia.
Qed.

(** The list of components as the developer writes it: an optional mark and a
    name per entry. *)
Record ta_item := TaItem { ta_requested : bool; ta_unneeded : bool; ta_id : list byte }.

Definition print_ta (e : ta_item) : list byte :=
  (if ta_requested e then [chr_plus] else if ta_unneeded e then [chr_minus] else []) ++ ta_id e.

Fixpoint print_ta_list (l : list ta_item) : list byte :=
  match l with
  | [] => []
  | [e] => print_ta e
  | e :: l => print_ta e ++ chr_comma :: print_ta_list l
  end.

(** A mark at most, names of at most 127 characters without NUL or comma, and no
    unmarked name that begins like a mark. *)
Definition ta_item_ok (e : ta_item) : Prop :=
  (ta_requested e = true → ta_unneeded e = false) ∧ length (ta_id e) ≤ 127 ∧
  (x00 ∉ ta_id e) ∧ (chr_comma ∉ ta_id e) ∧
  (ta_requested e = false → ta_unneeded e = false →
   ∀ c, head (ta_id e) = Some c → c ≠ chr_plus ∧ c ≠ chr_minus).

Definition ta_request (e : ta_item) : teep_manifest_request :=
  ManifestRequest (ta_requested e) (ta_unneeded e)
    (ta_id e ++ replicate (128 - length (ta_id e)) x00).

Lemma ta_name_comma name rest : chr_comma ∉ name → ta_name (name ++ chr_comma :: rest) = (name, rest).
Proof.
  induction name as [|c name IH]; intros Hc; cbn; [done|].
  apply not_elem_of_cons in Hc as [Hc1 Hc2]. rewrite bool_decide_false by congruence.
  by rewrite IH.
Qed.

Lemma ta_name_end name : chr_comma ∉ name → ta_name name = (name, []).
Proof.
  induction name as [|c name IH]; intros Hc; cbn; [done|].
  apply not_elem_of_cons in Hc as [Hc1 Hc2]. rewrite bool_decide_false by congruence.
  by rewrite IH.
Qed.

Lemma ta_entry_print e rest tail :
  ta_item_ok e → ta_name (ta_id e ++ tail) = (ta_id e, rest) → (tail = [] ∨ head tail = Some chr_comma) →
  ta_entry (print_ta e ++ tail) = (ta_request e, rest).
Proof.
  intros (Hboth & Hlen & _ & _ & Hmark) Hname Htail. unfold ta_entry, print_ta, ta_request, request_id.
  destruct (ta_requested e) eqn:Hr; cbn [app].
  { rewrite bool_decide_true by done. rewrite Hname, take_ge, (Hboth eq_refl) by lia. done. }
  destruct (ta_unneeded e) eqn:Hu; cbn [app].
  { rewrite bool_decide_false, bool_decide_true by done. rewrite Hname, take_ge by lia. done. }
  specialize (Hmark eq_refl eq_refl).
  destruct (ta_id e ++ tail) as [|c l] eqn:Hl; [by rewrite Hname, take_ge by lia|].
  assert (c ≠ chr_plus ∧ c ≠ chr_minus) as [Hc1 Hc2].
  { destruct (ta_id e) as [|c' l']; cbn in Hl.
    - subst tail. destruct Htail as [|[= ->]]; done.
    - injection Hl as -> _. by apply Hmark. }
  rewrite !bool_decide_false by done. by rewrite Hname, take_ge by lia.
Qed.

Lemma ta_entries_print l : Forall ta_item_ok l → ta_entries (length l) (print_ta_list l) = ta_request <$> l.
Proof.
  induction l as [|e l IH]; intros Hl; [done|]. apply list.Forall_cons in Hl as [He Hl].
  pose proof He as (_ & _ & _ & Hcomma & _).
  destruct l as [|e' l].
  - cbn [length ta_entries print_ta_list fmap list_fmap].
    rewrite <-(app_nil_r (print_ta e)), (ta_entry_print e [] []); auto.
    by rewrite app_nil_r, ta_name_end.
  - change (print_ta_list (e :: e' :: l)) with (print_ta e ++ chr_comma :: print_ta_list (e' :: l)).
    cbn [length ta_entries]. rewrite (ta_entry_print e (print_ta_list (e' :: l))); auto.
    + rewrite fmap_cons. f_equal. by apply IH.
    + by apply ta_name_comma.
Qed.

Lemma count_commas_app l1 l2 : count_commas (l1 ++ l2) = count_commas l1 + count_commas l2.
Proof. unfold count_commas. by rewrite list.filter_app, length_app. Qed.

Lemma count_commas_none l : chr_comma ∉ l → count_commas l = 0.
Proof.
  unfold count_commas. induction l as [|c l IH]; [done|]. intros [Hc Hl]%not_elem_of_cons.
  rewrite filter_cons_False by congruence. exact (IH Hl).
Qed.

Lemma print_ta_commas e : ta_item_ok e → count_commas (print_ta e) = 0.
Proof.
  intros (_ & _ & _ & Hc & _). unfold print_ta. rewrite count_commas_app, (count_commas_none (ta_id e) Hc).
  by destruct (ta_requested e), (ta_unneeded e).
Qed.

Lemma count_commas_print l : Forall ta_item_ok l → l ≠ [] → 1 + count_commas (print_ta_list l) = length l.
Proof.
  induction l as [|e l IH]; intros Hl Hne; [done|]. apply list.Forall_cons in Hl as [He Hl].
  destruct l as [|e' l]; [change (print_ta_list [e]) with (print_ta e); by rewrite print_ta_commas|].
  change (print_ta_list (e :: e' :: l)) with (print_ta e ++ chr_comma :: print_ta_list (e' :: l)).
  rewrite count_commas_app, print_ta_commas by done.
  rewrite (count_commas_app [chr_comma] (print_ta_list (e' :: l)) : count_commas (chr_comma :: _) = _).
  change (count_commas [chr_comma]) with 1. specialize (IH Hl ltac:(done)). cbn [length] in *. lia.
Qed.

(** Setting the list of components reads back exactly what was written: up to
    16 entries, each with its name and mark; a longer list is refused and the
    empty string changes nothing. *)
Theorem set_ta_list_correct p s value l :
  Forall ta_item_ok l → l ≠ [] → cstr value = Some (print_ta_list l) → state s = AGENT_INIT →
  set_dev_option p s AGENT_OPTION_SET_CURRENT_TA_LIST value =
  if bool_decide (print_ta_list l = []) then Done (s, TEE_SUCCESS)
  else if bool_decide (16 < length l) then Done (s, TEE_ERROR_BAD_PARAMETERS)
  else Done (with_requests s (length l) ((ta_request <$> l) ++ drop (length l) (requests s)), TEE_SUCCESS).
Proof.
  intros Hl Hne Hv Hst. unfold set_dev_option. rewrite (bool_decide_true (state s = _)) by done.
  cbn [negb]. change (AGENT_OPTION_SET_CURRENT_TA_LIST =? AGENT_OPTION_SET_TAM_URI)%Z with false.
  rewrite Z.eqb_refl, Hv. cbn zeta. case_bool_decide; [done|].
  rewrite (count_commas_print l Hl Hne), (ta_entries_print l Hl). done.
Qed.

(** ** Messages *)

Inductive container := InArray | InMap.

#[export] Instance container_eq_dec : EqDecision container.
Proof. solve_decision. Defined.

(** The containers open after [op], innermost first; [None] when [op] is not
    allowed: labelled items belong to maps, other items to arrays. *)
Definition nest_op (st : list container) (op : encode_op) : option (list container) :=
  match op, st with
  | OpenArray, (InArray :: _ | []) => Some (InArray :: st)
  | OpenMap, (InArray :: _ | []) => Some (InMap :: st)
  | OpenArrayInMapN _, InMap :: _ => Some (InArray :: st)
  | CloseArray, InArray :: st => Some st
  | CloseMap, InMap :: st => Some st
  | AddBytesToMapN _ _, InMap :: _ => Some st
  | (AddInt64 _ | AddUInt64 _ | AddSZString _), InArray :: _ => Some st
  | _, _ => None
  end.

Fixpoint nest (st : list container) (ops : list encode_op) : option (list container) :=
  match ops with
  | [] => Some st
  | op :: ops => st' ← nest_op st op; nest st' ops
  end.

Definition well_nested (ops : list encode_op) : Prop := nest [] ops = Some [].

Lemma nest_app st st' ops1 ops2 :
  nest st ops1 = Some st' → nest st (ops1 ++ ops2) = nest st' ops2.
Proof.
  revert st. induction ops1 as [|op ops1 IH]; intros st; cbn; [by intros [= ->]|].
  destruct (nest_op st op); cbn; [apply IH|done].
Qed.

(** A sequence of groups, each of which leaves the open containers alone. *)
Lemma nest_concat {A} (f : A → list encode_op) st l :
  (∀ a, nest st (f a) = Some st) → nest st (concat (f <$> l)) = Some st.
Proof.
  intros Hf. induction l as [|a l IH]; [done|]. cbn [fmap list_fmap concat].
  by rewrite (nest_app _ st).
Qed.

Definition token_ops (t : useful_buf) : list encode_op :=
  match t with Some bytes => [AddBytesToMapN TEEP_OPTION_TOKEN bytes] | None => [] end.

Definition requested_ops (name : list byte) : list encode_op :=
  [OpenMap; OpenArrayInMapN TEEP_OPTION_COMPONENT_ID; AddSZString name; CloseArray; CloseMap].
Definition unneeded_ops (name : list byte) : list encode_op :=
  [OpenArray; AddSZString name; CloseArray].

(** The three lists: the names without mark, the requested and the unneeded. *)
Definition component_ops (current wanted unwanted : list (list byte)) : list encode_op :=
  OpenArrayInMapN TEEP_OPTION_TC_LIST :: concat ((fun n => [AddSZString n]) <$> current) ++
  CloseArray :: OpenArrayInMapN TEEP_OPTION_REQUESTED_TC_LIST :: concat (requested_ops <$> wanted) ++
  CloseArray :: OpenArrayInMapN TEEP_OPTION_UNNEEDED_TC_LIST :: concat (unneeded_ops <$> unwanted) ++
  [CloseArray].

Lemma nest_component_ops current wanted unwanted st :
  nest (InMap :: st) (component_ops current wanted unwanted) = Some (InMap :: st).
Proof.
  unfold component_ops. cbn [nest nest_op mbind option_bind].
  rewrite (nest_app _ (InArray :: InMap :: st)) by by apply nest_concat.
  cbn [nest nest_op mbind option_bind].
  rewrite (nest_app _ (InArray :: InMap :: st)) by by apply nest_concat.
  cbn [nest nest_op mbind option_bind].
  by rewrite (nest_app _ (InArray :: InMap :: st)) by by apply nest_concat.
Qed.

Lemma ta_request_id e : ta_item_ok e → cstr (id (ta_request e)) = Some (ta_id e).
Proof.
  intros (_ & Hl & Hz & _). apply cstr_spec. split; [done|]. unfold ta_request. cbn [id].
  replace (128 - length (ta_id e)) with (S (127 - length (ta_id e))) by lia. by eexists.
Qed.

(** The loop over the requests adds the group of each selected entry. *)
Lemma add_requests_ok select add_tc f l enc :
  (∀ enc name, add_tc enc name = Encoder (enc_buffer enc) (enc_ops enc ++ f name)) →
  Forall ta_item_ok l →
  add_requests select add_tc enc (ta_request <$> l) =
  Done (Encoder (enc_buffer enc)
    (enc_ops enc ++ concat (f <$> (ta_id <$> filter (fun e => select (ta_request e) = true) l)))).
Proof.
  intros Hadd. revert enc. induction l as [|e l IH]; intros enc Hl.
  { cbn. rewrite app_nil_r. by destruct enc. }
  apply list.Forall_cons in Hl as [He Hl]. cbn [fmap list_fmap add_requests].
  destruct (select (ta_request e)) eqn:Hs.
  - rewrite (ta_request_id e He), (IH _ Hl), Hadd, filter_cons_True by done.
    cbn [enc_buffer enc_ops fmap list_fmap concat]. by rewrite <-(assoc_L (++)).
  - by rewrite (IH _ Hl), filter_cons_False by congruence.
Qed.

Lemma land_pow2 n k : (0 <= k)%Z → negb (Z.land n (2 ^ k) =? 0)%Z = Z.testbit n k.
Proof.
  intros Hk. assert (Z.land n (2 ^ k) = if Z.testbit n k then 2 ^ k else 0)%Z as ->.
  { apply Z.bits_inj'. intros i Hi. rewrite Z.land_spec. destruct (decide (i = k)) as [->|Hne].
    - rewrite Z.pow2_bits_true, andb_true_r by done. destruct (Z.testbit n k) eqn:Hb; [|by rewrite Z.bits_0].
      by rewrite Z.pow2_bits_true.
    - rewrite Z.pow2_bits_false, andb_false_r by done.
      destruct (Z.testbit n k); [by rewrite Z.pow2_bits_false|by rewrite Z.bits_0]. }
  destruct (Z.testbit n k); [|done]. apply negb_true_iff, Z.eqb_neq.
  pose proof (Z.pow_pos_nonneg 2 k). lia.
Qed.

Lemma add_token_ops enc t :
  enc_ops (teep_message_encoder_add_token enc t) = enc_ops enc ++ token_ops t ∧
  enc_buffer (teep_message_encoder_add_token enc t) = enc_buffer enc.
Proof. destruct t; cbn; [done|]. by rewrite app_nil_r. Qed.

Lemma nest_token_ops t st : nest (InMap :: st) (token_ops t) = Some (InMap :: st).
Proof. by destruct t. Qed.

Lemma add_requested_ops enc name :
  teep_message_encoder_add_tc_to_requested_tc_list enc name =
  Encoder (enc_buffer enc) (enc_ops enc ++ requested_ops name).
Proof.
  unfold teep_message_encoder_add_tc_to_requested_tc_list, add. cbn. by rewrite <-!(assoc_L (++)).
Qed.

Lemma add_unneeded_ops enc name :
  teep_message_encoder_add_tc_to_unneeded_tc_list enc name =
  Encoder (enc_buffer enc) (enc_ops enc ++ unneeded_ops name).
Proof.
  unfold teep_message_encoder_add_tc_to_unneeded_tc_list, add. cbn. by rewrite <-!(assoc_L (++)).
Qed.

Lemma add_components_ok s enc l :
  Forall ta_item_ok l → session_requests s = ta_request <$> l →
  add_components s enc = Done (Encoder (enc_buffer enc) (enc_ops enc ++ component_ops
    (ta_id <$> filter (fun e => negb (ta_requested e) && negb (ta_unneeded e) = true) l)
    (ta_id <$> filter (fun e => ta_requested e = true) l)
    (ta_id <$> filter (fun e => ta_unneeded e = true) l))).
Proof.
  intros Hl Hs. unfold add_components. rewrite Hs. cbn zeta.
  rewrite (add_requests_ok _ _ (fun n => [AddSZString n])) by done. cbn [mbind outcome_bind].
  rewrite (add_requests_ok _ _ requested_ops) by (done || apply add_requested_ops).
  cbn [mbind outcome_bind].
  rewrite (add_requests_ok _ _ unneeded_ops) by (done || apply add_unneeded_ops).
  cbn [mbind outcome_bind]. unfold teep_message_encoder_close_unneeded_tc_list, add.
  cbn [enc_ops enc_buffer]. do 2 f_equal. cbn. by rewrite <-!(assoc_L (++)).
Qed.

(** A message with header, token and the items [ops] in its options. *)
Lemma nest_message type t ops tail :
  nest [InMap; InArray] ops = Some [InMap; InArray] → nest [InArray] tail = Some [InArray] →
  well_nested (([OpenArray; AddInt64 type; OpenMap] ++ token_ops t ++ ops ++ CloseMap :: tail) ++
               [CloseArray]).
Proof.
  intros Hops Htail. unfold well_nested. rewrite <-!(assoc_L (++)). cbn [app nest nest_op mbind option_bind].
  rewrite (nest_app _ [InMap; InArray]) by apply nest_token_ops.
  rewrite (nest_app _ [InMap; InArray]) by done. cbn [app nest nest_op mbind option_bind].
  by rewrite (nest_app _ [InArray]).
Qed.

(** C37: The query response of a session with the components [l] has the type, the
    token if there is one, and, if the TAM asked for trusted components and not
    for attestation, every component exactly in the list its mark says; it and the
    other messages of the agent are well nested. *)
Theorem agent_messages_correct s dst l :
  Forall ta_item_ok l → session_requests s = ta_request <$> l →
  (∃ enc, query_response_encoder s dst = Done enc ∧ enc_buffer enc = dst ∧
    enc_ops enc =
      [OpenArray; AddInt64 TEEP_QUERY_RESPONSE; OpenMap] ++ token_ops (session_token s) ++
      (if Z.testbit (data_item_requested s) 0 then []
       else if Z.testbit (data_item_requested s) 1 then
         component_ops
           (ta_id <$> filter (fun e => negb (ta_requested e) && negb (ta_unneeded e) = true) l)
           (ta_id <$> filter (fun e => ta_requested e = true) l)
           (ta_id <$> filter (fun e => ta_unneeded e = true) l)
       else []) ++ [CloseMap] ∧
    well_nested (enc_ops enc ++ [CloseArray])) ∧
  enc_ops (success_encoder s dst) =
    [OpenArray; AddInt64 TEEP_SUCCESS; OpenMap] ++ token_ops (session_token s) ++ [CloseMap] ∧
  well_nested (enc_ops (success_encoder s dst) ++ [CloseArray]) ∧
  enc_ops (error_encoder s dst) =
    [OpenArray; AddInt64 TEEP_ERROR; OpenMap] ++ token_ops (session_token s) ++
    [CloseMap; AddUInt64 42] ∧
  well_nested (enc_ops (error_encoder s dst) ++ [CloseArray]).
Proof.
  intros Hl Hs. split; [|split_and!].
  - unfold query_response_encoder. cbn zeta.
    set (enc0 := teep_message_encoder_add_token _ _).
    pose proof (add_token_ops (teep_message_encoder_open_options (teep_message_encoder_add_header
      (teep_message_encoder_init dst) TEEP_QUERY_RESPONSE)) (session_token s)) as [Hops Hbuf].
    fold enc0 in Hops, Hbuf. cbn in Hops, Hbuf.
    change TEEP_DATA_ATTESTATION with (2 ^ 0)%Z. change TEEP_DATA_TRUSTED_COMPONENTS with (2 ^ 1)%Z.
    rewrite !land_pow2 by done. pose proof (nest_message TEEP_QUERY_RESPONSE (session_token s)) as Hnest.
    destruct (Z.testbit _ 0); [|destruct (Z.testbit _ 1)];
      rewrite ?(add_components_ok s enc0 l Hl Hs); cbn [mbind outcome_bind]; eexists;
      (split; [done|]); cbn [teep_message_encoder_close_options add enc_buffer enc_ops];
      (split; [exact Hbuf|]); rewrite Hops.
    + split; [done|]. by apply (Hnest [] []).
    + rewrite <-!(assoc_L (++)). split; [done|].
      pose proof (Hnest (component_ops
        (ta_id <$> filter (fun e => negb (ta_requested e) && negb (ta_unneeded e) = true) l)
        (ta_id <$> filter (fun e => ta_requested e = true) l)
        (ta_id <$> filter (fun e => ta_unneeded e = true) l)) []) as Hn.
      rewrite <-!(assoc_L (++)) in Hn. apply Hn; [apply nest_component_ops|done].
    + split; [done|]. by apply (Hnest [] []).
  - unfold success_encoder. by destruct (session_token s).
  - pose proof (nest_message TEEP_SUCCESS (session_token s) [] []) as Hn. unfold success_encoder.
    by destruct (session_token s); apply Hn.
  - unfold error_encoder. by destruct (session_token s).
  - pose proof (nest_message TEEP_ERROR (session_token s) [] [AddUInt64 42]) as Hn.
    unfold error_encoder. by destruct (session_token s); apply Hn.
Qed.

(** ** The next task *)

Section tasks.
Context `{Hqe : qcbor_encoder, !qcbor_encoder_laws}.
Variable p : platform.
Variable slot_addr : target_slot → Z.
Variable fuel : nat.

(** The buffers of a session as [struct teep_agent_session] declares them, and
    options that were set. *)
Record session_buffers (s : teep_agent_session) (uri : list byte) : Prop := {
  buf_tam_uri : cstr (tam_uri s) = Some uri;
  buf_uri : length (t_uri (task_buffer s)) = TEEP_MAX_URI_LEN;
  buf_post_data : length (post_data (task_buffer s)) = TEEP_MAX_MESSAGE_LEN;
  buf_requests : Forall (fun r => is_Some (cstr (id r))) (session_requests s)
}.

(** Names that are terminated can be added to a message. *)
Lemma add_requests_done select add_tc enc l :
  (∀ enc name, enc_buffer (add_tc enc name) = enc_buffer enc) →
  Forall (fun r => is_Some (cstr (id r))) l →
  wp (add_requests select add_tc enc l) (fun enc' => enc_buffer enc' = enc_buffer enc).
Proof.
  intros Hadd. revert enc. induction l as [|r l IH]; intros enc Hl; [done|].
  apply list.Forall_cons in Hl as [[name Hn] Hl]. cbn [add_requests].
  destruct (select r); [|by apply IH]. rewrite Hn.
  eapply wp_mono; [by apply IH|]. intros enc' ->. apply Hadd.
Qed.

Lemma query_response_done s dst :
  Forall (fun r => is_Some (cstr (id r))) (session_requests s) →
  wp (query_response_encoder s dst) (fun enc => enc_buffer enc = dst).
Proof.
  intros Hl. unfold query_response_encoder. cbn zeta.
  assert (enc_buffer (teep_message_encoder_add_token (teep_message_encoder_open_options
    (teep_message_encoder_add_header (teep_message_encoder_init dst) TEEP_QUERY_RESPONSE))
    (session_token s)) = dst) as Hb by by destruct (session_token s).
  set (enc0 := teep_message_encoder_add_token _ _) in *. apply wp_bind.
  apply (wp_mono _ (fun enc => enc_buffer enc = dst)); [|by intros enc <-].
  repeat case_match; try done. unfold add_components. cbn zeta.
  apply wp_bind. eapply wp_mono; [by apply add_requests_done|]. intros enc1 Hb1.
  apply wp_bind. eapply wp_mono; [by apply add_requests_done|]. intros enc2 Hb2.
  apply wp_bind. eapply wp_mono; [by apply add_requests_done|]. intros enc3 Hb3.
  cbn in *. congruence.
Qed.

(** What the runner does for the next task. *)
Definition runner_result (s : teep_agent_session) : outcome (suit_runner unit * agent_user) :=
  match state s with
  | AGENT_INIT_RUNNER =>
      r ← suit_runner_init (s_context s) SUIT_COMMAND_SEQUENCE_INSTALL;
      suit_runner_run slot_addr fuel (r, s_user s)
  | AGENT_RUN_SUIT_RUNNER => suit_runner_run slot_addr fuel (s_runner s, s_user s)
  | _ => Done (s_runner s, s_user s)
  end.

Definition next_state (s : teep_agent_session) (r : suit_runner unit) : agent_state :=
  match state s with
  | AGENT_INIT => AGENT_POSTING_INITIAL_REQUEST
  | AGENT_INIT_RUNNER | AGENT_RUN_SUIT_RUNNER =>
      if suit_runner_finished r then AGENT_POSTING_SUCCESS
      else if suit_runner_suspended r then AGENT_FETCH_COMPONENT
      else AGENT_POSTING_ERROR
  | st => st
  end.

Definition task_command (st : agent_state) : broker_command :=
  match st with
  | AGENT_FETCH_COMPONENT => BROKER_HTTP_GET
  | AGENT_FINISH => BROKER_FINISH
  | _ => BROKER_HTTP_POST
  end.

(** The message of the task of a session in state [st]: what was built, complete
    or not. *)
Definition task_message (st : agent_state) (s : teep_agent_session) : Prop :=
  let max := Z.of_nat TEEP_MAX_MESSAGE_LEN in
  let holds built := ∃ ok, built = (post_data (task_buffer s), post_data_len (task_buffer s), ok) in
  match st with
  | AGENT_POSTING_QUERY_RESPONSE => ∃ buf built, build_query_response s buf max = Done built ∧ holds built
  | AGENT_POSTING_SUCCESS => ∃ buf, holds (build_success s buf max)
  | AGENT_POSTING_ERROR => ∃ buf, holds (build_error s buf max)
  | _ => post_data_len (task_buffer s) = 0%Z
  end.

(** The task for state [st]: its command, its URI and bounds of its buffers. *)
Record task_given (uri : list byte) (st : agent_state) (r : suit_runner unit) (u : agent_user)
    (s : teep_agent_session) : Prop := {
  given_on : on_going_task s = true;
  given_runner : s_runner s = r;
  given_user : s_user s = u;
  given_state : state s = st;
  given_command : t_command (task_buffer s) = task_command st;
  given_uri : length (t_uri (task_buffer s)) = TEEP_MAX_URI_LEN;
  given_data : length (post_data (task_buffer s)) = TEEP_MAX_MESSAGE_LEN ∧
    (0 <= post_data_len (task_buffer s) <= Z.of_nat TEEP_MAX_MESSAGE_LEN)%Z;
  given_contents :
    match task_command st with
    | BROKER_HTTP_POST => length uri < 511 → cstr (t_uri (task_buffer s)) = Some uri
    | BROKER_HTTP_GET => ∃ bytes, range_load (fetch_uri u) = Done bytes ∧
        t_uri (task_buffer s) = bytes ++ replicate (TEEP_MAX_URI_LEN - length bytes) x00
    | BROKER_FINISH => cstr (t_uri (task_buffer s)) = Some []
    end;
  given_message : task_message st s
}.

(** The URI to fetch fits the buffer of the task. *)
Definition fetch_uri_ok (u : agent_user) : Prop :=
  (range_len (fetch_uri u) <= Z.of_nat TEEP_MAX_URI_LEN)%Z ∧
  ∃ bytes, range_load (fetch_uri u) = Done bytes ∧ Z.of_nat (length bytes) = range_len (fetch_uri u).

Lemma finish_message_bounds enc dst_len :
  length (enc_buffer enc) = TEEP_MAX_MESSAGE_LEN → dst_len = Z.of_nat TEEP_MAX_MESSAGE_LEN →
  length (finish_message enc dst_len).1.1 = TEEP_MAX_MESSAGE_LEN ∧
  (0 <= (finish_message enc dst_len).1.2 <= Z.of_nat TEEP_MAX_MESSAGE_LEN)%Z.
Proof.
  intros Hl ->. unfold finish_message, teep_message_encoder_finish. cbn [add enc_buffer enc_ops].
  pose proof (encoder_buffer (enc_buffer enc) (enc_ops enc ++ [CloseArray])) as Hb.
  pose proof (encoder_length (enc_buffer enc) (enc_ops enc ++ [CloseArray])) as Hn.
  destruct (QCBOREncode_Finish _ _) as [dst [n|]]; cbn in *; (split; [congruence|]); [|lia].
  specialize (Hn n eq_refl). lia.
Qed.

Lemma surjective_triple {A B C} (x : A * B * C) : x = (x.1.1, x.1.2, x.2).
Proof. by destruct x as [[a b] c]. Qed.

(** A posted message, whatever it is. *)
Lemma post_given uri s buf built st :
  length buf = TEEP_MAX_URI_LEN ∧ (length uri < 511 → cstr buf = Some uri) →
  length built.1.1 = TEEP_MAX_MESSAGE_LEN ∧
    (0 <= built.1.2 <= Z.of_nat TEEP_MAX_MESSAGE_LEN)%Z →
  state s = st → task_command st = BROKER_HTTP_POST →
  task_message st (with_task s true (post_task (task_buffer s) buf built)) →
  task_given uri st (s_runner s) (s_user s) (with_task s true (post_task (task_buffer s) buf built)).
Proof. intros [? ?] [? ?] ? Hc Hm. split; cbn -[task_message]; rewrite ?Hc; done. Qed.

Lemma copy_uri_ok s uri :
  session_buffers s uri →
  wp (platform_strncpy p (t_uri (task_buffer s)) (tam_uri s) (TEEP_MAX_URI_LEN - 1)) (fun buf =>
    length buf = TEEP_MAX_URI_LEN ∧ (length uri < 511 → cstr buf = Some uri)).
Proof.
  intros [Hu Hl _ _]. change (TEEP_MAX_URI_LEN - 1) with 511.
  eapply wp_mono; [by apply (platform_strncpy_ok p _ _ 511 uri Hu Hl)|].
  intros buf (Hlen & _ & Hterm & _). split; [done|]. intros Hlt.
  rewrite Hterm, take_ge by (auto || lia). done.
Qed.

(** One step in a state that gives out a task. *)
Lemma task_step s uri :
  session_buffers s uri → (state s = AGENT_FETCH_COMPONENT → fetch_uri_ok (s_user s)) →
  match state s with
  | AGENT_INIT | AGENT_INIT_RUNNER | AGENT_RUN_SUIT_RUNNER => True
  | st => wp (next_task_step p slot_addr fuel s) (task_given uri st (s_runner s) (s_user s))
  end.
Proof.
  intros Hb Hfetch. pose proof (copy_uri_ok s uri Hb) as Hcopy. pose proof Hb as [_ Hu Hd Hreq].
  destruct (wp_elim _ _ (query_response_done s (post_data (task_buffer s)) Hreq)) as (enc & Henc & Hbuf).
  unfold next_task_step. destruct (state s) eqn:Hst; try done.
  - apply wp_bind. eapply wp_mono; [exact Hcopy|]. intros buf Hcp.
    apply (post_given uri s buf (post_data (task_buffer s), 0%Z, true)); [done|by split|done..].
  - apply wp_bind. eapply wp_mono; [exact Hcopy|]. intros buf Hcp. unfold build_query_response.
    rewrite Henc. cbn [mbind outcome_bind wp].
    apply post_given; [done|apply finish_message_bounds; congruence|done|done|].
    exists (post_data (task_buffer s)). eexists. unfold build_query_response.
    change (query_response_encoder (with_task _ _ _)) with (query_response_encoder s).
    rewrite Henc. split; [done|]. eexists. apply surjective_triple.
  - apply wp_bind. eapply wp_mono; [exact Hcopy|]. intros buf Hcp. cbn [wp].
    apply post_given; [done|apply finish_message_bounds; [|done]|done|done|].
    + unfold success_encoder. by destruct (session_token s).
    + exists (post_data (task_buffer s)). eexists. apply surjective_triple.
  - apply wp_bind. eapply wp_mono; [exact Hcopy|]. intros buf Hcp. cbn [wp].
    apply post_given; [done|apply finish_message_bounds; [|done]|done|done|].
    + unfold error_encoder. by destruct (session_token s).
    + exists (post_data (task_buffer s)). eexists. apply surjective_triple.
  - destruct (Hfetch eq_refl) as (Hle & bytes & Hload & Hlen).
    destruct (Z.ltb_spec (Z.of_nat TEEP_MAX_URI_LEN) (range_len (fetch_uri (s_user s)))); [lia|].
    rewrite Hload. cbn [mbind outcome_bind wp]. split; cbn; try done.
    + rewrite length_app, length_replicate. change TEEP_MAX_URI_LEN with 512 in *. lia.
    + by exists bytes.
  - unfold put. rewrite bool_decide_true by (rewrite Hu; change TEEP_MAX_URI_LEN with 512; lia).
    cbn [mbind outcome_bind wp]. split; cbn; try done.
    + by rewrite length_insert.
    + destruct (t_uri (task_buffer s)) as [|c l']; [done|]. cbn. by rewrite bool_decide_true.
Qed.

Lemma task_given_query n s uri :
  session_buffers s uri → on_going_task s = false →
  (state s = AGENT_FETCH_COMPONENT → fetch_uri_ok (s_user s)) →
  match state s with AGENT_INIT | AGENT_INIT_RUNNER | AGENT_RUN_SUIT_RUNNER => False | _ => True end →
  wp (query_next_broker_task p slot_addr fuel (S (S n)) s) (task_given uri (state s) (s_runner s) (s_user s)).
Proof.
  intros Hb Hon Hf Hst. cbn [query_next_broker_task]. rewrite Hon. apply wp_bind.
  apply (wp_mono _ (task_given uri (state s) (s_runner s) (s_user s)));
    [|intros s' Hs'; rewrite (given_on _ _ _ _ _ Hs'); exact Hs'].
  pose proof (task_step s uri Hb Hf) as Ht. by destruct (state s).
Qed.

Lemma query_step n s :
  on_going_task s = false →
  query_next_broker_task p slot_addr fuel (S n) s =
  next_task_step p slot_addr fuel s ≫= query_next_broker_task p slot_addr fuel n.
Proof. intros Hon. cbn [query_next_broker_task]. by rewrite Hon. Qed.

(** A session always finds its next task within four rounds of its loop, if
    the runner, where it runs, returns without a crash and asks for a URI that
    fits.  In every state the task is the right one: the state it is given in and
    its command, the URI of the TAM for messages and the URI asked for otherwise,
    and lengths within the buffers of the task. *)
Lemma next_task_run s uri r u :
  session_buffers s uri → on_going_task s = false →
  runner_result s = Done (r, u) → crashed u = false →
  (next_state s r = AGENT_FETCH_COMPONENT → fetch_uri_ok u) →
  wp (query_next_broker_task p slot_addr fuel 4 s) (task_given uri (next_state s r) r u).
Proof.
  intros Hb Hon Hrun Hcr Hf.
  assert (∀ s' n, session_buffers s' uri → on_going_task s' = false →
    state s' = next_state s r → s_runner s' = r → s_user s' = u →
    match state s' with AGENT_INIT | AGENT_INIT_RUNNER | AGENT_RUN_SUIT_RUNNER => False | _ => True end →
    wp (query_next_broker_task p slot_addr fuel (S (S n)) s') (task_given uri (next_state s r) r u))
    as Hgiven.
  { intros s' n Hb' Hon' Hst' <- <- Hcase. rewrite <-Hst' in *. by apply task_given_query. }
  assert (∀ st, session_buffers (with_state (with_runner s r u) st) uri) as Hbr by by destruct Hb.
  unfold runner_result in Hrun. rewrite query_step by done.
  assert (∀ s' n, session_buffers s' uri → on_going_task s' = false →
    s' = with_state (with_runner s' r u)
           (if suit_runner_finished r then AGENT_POSTING_SUCCESS
            else if suit_runner_suspended r then AGENT_FETCH_COMPONENT else AGENT_POSTING_ERROR) →
    state s = AGENT_INIT_RUNNER ∨ state s = AGENT_RUN_SUIT_RUNNER →
    wp (query_next_broker_task p slot_addr fuel (S (S n)) s') (task_given uri (next_state s r) r u))
    as Hran.
  { intros s' n Hb' Hon' Hs' Hst. rewrite Hs'. rewrite Hs' in Hb'. apply Hgiven; try done.
    - unfold next_state. by destruct Hst as [-> | ->].
    - cbn. by repeat case_match. }
  destruct (state s) eqn:Hst.
  1: { unfold next_task_step. rewrite Hst. cbn [mbind outcome_bind]. injection Hrun as <- <-.
    apply Hgiven; try done; [by destruct Hb|]. unfold next_state. by rewrite Hst. }
  5: { unfold next_task_step. rewrite Hst.
    destruct (suit_runner_init _ _) as [| |r0]; [done..|]. cbn [mbind outcome_bind] in *.
    rewrite query_step by done. unfold next_task_step.
    cbn [state with_state with_runner s_runner s_user].
    match goal with |- context [@suit_runner_run ?c ?a ?f ?x] =>
      change (@suit_runner_run c a f x = Done (r, u)) in Hrun end.
    rewrite Hrun. cbn [mbind outcome_bind].
    rewrite Hcr. cbn [mbind outcome_bind].
    apply Hran; [destruct (suit_runner_finished r), (suit_runner_suspended r); apply Hbr|
      |by destruct (suit_runner_finished r), (suit_runner_suspended r)|auto].
    by destruct (suit_runner_finished r), (suit_runner_suspended r). }
  5: { unfold next_task_step. rewrite Hst, Hrun. cbn [mbind outcome_bind]. rewrite Hcr.
    cbn [mbind outcome_bind].
    apply Hran; [destruct (suit_runner_finished r), (suit_runner_suspended r); apply Hbr|
      |by destruct (suit_runner_finished r), (suit_runner_suspended r)|auto].
    by destruct (suit_runner_finished r), (suit_runner_suspended r). }
  all: injection Hrun as <- <-; rewrite <-query_step by done; apply Hgiven; try done;
    try (by rewrite Hst); unfold next_state; by rewrite Hst.
Qed.
End tasks.

(** ** Witnesses *)

(** A session as it is created, with every byte it does not set zero. *)
Definition blank_session : teep_agent_session := session_init
  (Session AGENT_FINISH (replicate TEEP_MAX_URI_LEN x00) false
    (BrokerTask BROKER_FINISH (replicate TEEP_MAX_URI_LEN x00) (replicate TEEP_MAX_MESSAGE_LEN x00) 0)
    None 0 (replicate 16 (ManifestRequest false false (replicate 128 x00))) 0
    suit_context_init
    (Runner SUIT_COMMAND_SEQUENCE_INSTALL None None [] (Continuation None SUIT_NEXT_EXIT) [] false false None)
    (AgentUser None blank_path [] false)).

Definition example_items : list ta_item :=
  [TaItem false false [x61]; TaItem true false [x62; x63]; TaItem false true []].

(** [a,+bc,-] and its NUL. *)
Definition example_list : list byte := [x61; x2c; x2b; x62; x63; x2c; x2d; x00].

Lemma example_items_ok : Forall ta_item_ok example_items.
Proof.
  apply list.Forall_forall. intros e He.
  assert (∀ l : list byte, Forall (fun c => c ≠ x00 ∧ c ≠ chr_comma) l → (x00 ∉ l) ∧ chr_comma ∉ l) as Hl.
  { intros l Hall. rewrite list.Forall_forall in Hall. split; intros H; by destruct (Hall _ H). }
  assert ((x00 ∉ ta_id e) ∧ chr_comma ∉ ta_id e) as [Hz Hc].
  { apply Hl. repeat (apply elem_of_cons in He as [->|He]); [by repeat constructor..|].
    by apply elem_of_nil in He. }
  repeat (apply elem_of_cons in He as [->|He]); [..|by apply elem_of_nil in He];
    (split_and!; [done|cbn; lia|done|done|]); cbn; try done.
  by intros _ _ c [= <-].
Qed.

Lemma set_tam_uri_correct_witness :
  set_dev_option PLAT_PC blank_session AGENT_OPTION_SET_TAM_URI abc =
    Done (with_tam_uri blank_session ([x61; x62; x63] ++ replicate 509 x00), TEE_SUCCESS) ∧
  ∃ uri, set_dev_option PLAT_PC blank_session AGENT_OPTION_SET_TAM_URI abc =
           Done (with_tam_uri blank_session uri, TEE_SUCCESS) ∧
    length uri = TEEP_MAX_URI_LEN ∧
    (3 < 511 ∨ PLAT_PC = PLAT_KEYSTONE ∨ PLAT_PC = PLAT_SGX → cstr uri = Some [x61; x62; x63]) ∧
    (3 = 511 → PLAT_PC = PLAT_PC ∨ PLAT_PC = PLAT_OPTEE →
     uri = [x61; x62; x63] ++ drop 511 (tam_uri blank_session)).
Proof.
  split; [by vm_compute|].
  exact (set_tam_uri_correct PLAT_PC blank_session abc [x61; x62; x63] eq_refl eq_refl).
Defined.

Lemma set_ta_list_correct_witness :
  set_dev_option PLAT_PC blank_session AGENT_OPTION_SET_CURRENT_TA_LIST example_list =
    Done (with_requests blank_session 3
            ((ta_request <$> example_items) ++ drop 3 (requests blank_session)), TEE_SUCCESS).
Proof.
  apply (set_ta_list_correct PLAT_PC blank_session example_list example_items).
  - apply example_items_ok.
  - done.
  - by vm_compute.
  - done.
Defined.

(** The session after the list of components was set. *)
Definition listed_session : teep_agent_session :=
  with_requests (with_query blank_session None TEEP_DATA_TRUSTED_COMPONENTS) 3
    ((ta_request <$> example_items) ++ drop 3 (requests blank_session)).

Lemma agent_messages_correct_witness :
  ∃ enc, query_response_encoder listed_session [] = Done enc ∧
    well_nested (enc_ops enc ++ [CloseArray]).
Proof.
  destruct (agent_messages_correct listed_session [] example_items example_items_ok eq_refl)
    as [(enc & Henc & _ & _ & Hn) _].
  by exists enc.
Defined.

(** An encoder that fills the buffer with nothing. *)
Definition empty_encoder : qcbor_encoder := fun buf _ => (buf, Some 0%Z).

Lemma empty_encoder_laws : @qcbor_encoder_laws empty_encoder.
Proof.
  split.
  - done.
  - intros buf ops n H. injection H as <-. lia.
Qed.

