(* ===== verification/AgentSafety.v ===== *)
(** * AgentSafety: every command of the broker returns

    The callbacks of the agent keep the runner's interface, [session_safe] is the
    invariant of a session between two commands (the shapes of its buffers, the
    manifests it holds and the runner), and opening a session establishes it.
    AgentCommands uses it for every command. *)

From S2P Require Import Prelude Tcbor TcborFacts SuitTypes SuitParser SuitParserFacts.
From S2P Require Import SuitAuth SuitAuthFacts SuitContext SuitContextFacts.
From S2P Require Import SuitRunner SuitRunnerFacts SuitRunnerTheorems.
From S2P Require Import TeepMessage TeepMessageFacts TeepMessageTheorems TeepEncoder.
From S2P Require Import Tools ToolsTheorems Agent AgentFacts AgentTaskTheorems.

Local Open Scope Z_scope.

(** ** Identifiers of components *)

(** No part of the identifier is longer than the constant it is compared with. *)
Definition id_fits (c : suit_component) : bool :=
  match parse_component_id c blank_path with Ub => false | _ => true end.

Definition ids_fit (m : suit_manifest) : bool := forallb id_fits (components (common m)).

Definition same_result (o1 o2 : outcome (component_path * bool)) : Prop :=
  match o1, o2 with
  | Ub, Ub => True
  | NoFuel, NoFuel => True
  | Done (_, b1), Done (_, b2) => b1 = b2
  | _, _ => False
  end.

(** What is left in the path does not matter for the outcome. *)
Lemma parse_component_id_dst c d1 d2 :
  same_result (parse_component_id c d1) (parse_component_id c d2).
Proof.
  unfold parse_component_id.
  repeat first
    [ done
    | match goal with
      | |- context [or_else ?m _ _] => destruct m as [| |[? [?|]]]; cbn [or_else same_result]
      | |- context [mbind _ ?m] => destruct m as [| |?]; cbn [mbind outcome_bind same_result]
      end
    | case_match ].
Qed.

Lemma memcmp_literal_fuel r l : range_ok r → memcmp_literal r l ≠ NoFuel.
Proof.
  intros Hr. unfold memcmp_literal. case_match; [done|]. by rewrite range_load_spec.
Qed.

Lemma parse_component_id_fuel c dst : range_ok (id_cbor c) → parse_component_id c dst ≠ NoFuel.
Proof.
  intros Hr H. assert (may (parse_component_id c dst) (fun _ => True)) by by rewrite H. revert H.
  unfold parse_component_id.
  destruct (wp_elim _ _ (read_array_child _ (toplevel_ok _ Hr))) as ([c1 [a|]]&->&Ha); [|done].
  destruct Ha as (H1&_&Ha&Hs&_). cbn [or_else]. assert (ctx_ok a) as Hok by eauto with c_ok.
  assert (range_suffix (c_r a) (c_r c1)) as Hsuf by done.
  assert (∀ x, ctx_ok x → range_suffix (c_r x) (c_r c1) →
    wp (tcbor_read_bstr x) (fun '(x', o) =>
      match o with Some r => ctx_ok x' ∧ range_suffix (c_r x') (c_r c1) ∧ range_ok r
                 | None => True end)) as Hread.
  { intros x Hx Hxs. eapply wp_mono; [by apply read_bstr_inner|]. intros [x' [r|]]; [|done].
    intros (Hadv&_&Hin). pose proof (advanced_suffix _ _ Hadv). split_and!; eauto with c_ok. }
  destruct (wp_elim _ _ (Hread _ Hok Hsuf)) as ([x1 [r1|]]&->&Ha1); [|done].
  destruct Ha1 as (Hx1&Hs1&Hr1). cbn [or_else].
  pose proof (memcmp_literal_fuel r1 str_device Hr1) as Hn1.
  destruct (memcmp_literal r1 _) as [| |[]]; cbn [mbind outcome_bind negb]; try done.
  destruct (wp_elim _ _ (Hread _ Hx1 Hs1)) as ([x2 [r2|]]&->&Ha2); [|done].
  destruct Ha2 as (Hx2&Hs2&Hr2). cbn [or_else].
  pose proof (memcmp_literal_fuel r2 str_storage Hr2) as Hn2.
  destruct (memcmp_literal r2 _) as [| |[]]; cbn [mbind outcome_bind negb]; try done.
  destruct (wp_elim _ _ (Hread _ Hx2 Hs2)) as ([x3 [r3|]]&->&Ha3); [|done].
  destruct Ha3 as (Hx3&Hs3&Hr3). cbn [or_else]. case_match; [done|].
  rewrite range_load_spec by done. cbn [mbind outcome_bind].
  destruct (wp_elim _ _ (Hread _ Hx3 Hs3)) as ([x4 [r4|]]&->&Ha4); [|done].
  destruct Ha4 as (Hx4&Hs4&Hr4). cbn [or_else].
  pose proof (memcmp_literal_fuel r4 str_ta Hr4) as Hn4.
  destruct (memcmp_literal r4 _) as [| |[]]; cbn [mbind outcome_bind negb]; try done.
  destruct (wp_elim _ _ (close_advanced _ _ _ H1 Hx4 Hs4)) as ([x5 [[]|]]&->&_); done.
Qed.

Lemma parse_component_id_fits c dst :
  range_ok (id_cbor c) → id_fits c = true → ∃ path b, parse_component_id c dst = Done (path, b).
Proof.
  intros Hr Hf. unfold id_fits in Hf. pose proof (parse_component_id_dst c dst blank_path) as Hs.
  pose proof (parse_component_id_fuel c dst Hr).
  destruct (parse_component_id c dst) as [| |[path b]]; [|done|eauto].
  by destruct (parse_component_id c blank_path) as [| |[? ?]].
Qed.

(** ** The callbacks *)

(** While the runner is suspended the agent has the URI to fetch; it has not run
    into undefined behaviour if the identifiers fit. *)
Definition agent_user_ok (m : suit_manifest) (susp : bool) (u : agent_user) : Prop :=
  (susp = true → range_ok (fetch_uri u)) ∧ (ids_fit m = true → crashed u = false).

Lemma target_component_spec m (r : suit_runner unit) t :
  slot_ok m → pc_manifest (program_counter r) = Some m → object_ok m (target_object t) →
  is_component (target_object t) = true →
  ∃ c, target_component r t = Some c ∧ range_ok (id_cbor c) ∧ (ids_fit m = true → id_fits c = true).
Proof.
  intros ((_&_&Hall&_)&_) Hm [H0 Hlt] Hc. unfold target_component. rewrite Hm. cbn [mbind option_bind].
  rewrite Hc in Hlt. unfold n_components in Hlt.
  destruct (lookup_lt_is_Some_2 (components (common m)) (Z.to_nat (object_index (target_object t))))
    as [c Hl]; [lia|].
  exists c. split; [done|]. split; [by apply (Forall_lookup_1 _ _ _ _ Hall) in Hl|].
  intros Hf. unfold ids_fit in Hf. rewrite forallb_forall in Hf. apply Hf.
  apply list_elem_of_In. by eapply list_elem_of_lookup_2.
Qed.

Lemma store_user_ok m r u t b :
  slot_ok m → pc_manifest (program_counter r) = Some m → object_ok m (target_object t) →
  range_ok b → agent_user_ok m (suspended r) u →
  agent_user_ok m (suspended (store r u t b).1.1) (store r u t b).1.2.
Proof.
  intros Hm Hpc Ho Hb Hu. unfold store. destruct (is_component (target_object t)) eqn:Hc; [|done].
  destruct (target_component_spec m r t Hm Hpc Ho Hc) as (c&->&Hid&Hf).
  destruct Hu as [Hu1 Hu2]. pose proof (parse_component_id_fuel c blank_path Hid).
  destruct (parse_component_id c blank_path) as [| |[path []]] eqn:He; [|done| |done].
  - split; [done|]. intros Hfit. apply Hf in Hfit. unfold id_fits in Hfit. by rewrite He in Hfit.
  - by rewrite range_load_spec.
Qed.

Lemma fetch_user_ok m r u t b :
  slot_ok m → pc_manifest (program_counter r) = Some m → object_ok m (target_object t) →
  range_ok b → agent_user_ok m (suspended r) u →
  agent_user_ok m (suspended (fetch_and_store r u t b).1.1) (fetch_and_store r u t b).1.2.
Proof.
  intros Hm Hpc Ho Hb Hu. unfold fetch_and_store.
  destruct (is_component (target_object t)) eqn:Hc; [|done].
  destruct (target_component_spec m r t Hm Hpc Ho Hc) as (c&->&Hid&Hf).
  destruct Hu as [Hu1 Hu2]. pose proof (parse_component_id_fuel c (fetch_component_path u) Hid).
  destruct (parse_component_id c _) as [| |[path []]] eqn:He; [|done|by split|by split].
  split; [done|]. intros Hfit.
  destruct (parse_component_id_fits c (fetch_component_path u) Hid (Hf Hfit)) as (?&?&?). congruence.
Qed.

#[export] Instance agent_laws : callbacks_laws.
Proof.
  refine (Build_callbacks_laws _ agent_user_ok _ _ _ store_user_ok fetch_user_ok _).
  - intros r u t b. cbn. unfold store. by repeat case_match.
  - intros r u t b. cbn. unfold fetch_and_store. by repeat case_match.
  - done.
  - done.
Defined.

(** ** The invariant of a session *)

(** The arrays of [struct teep_agent_session] as it declares them. *)
Record session_wf (s : teep_agent_session) : Prop := {
  wf_tam_uri : length (tam_uri s) = TEEP_MAX_URI_LEN;
  wf_uri : length (t_uri (task_buffer s)) = TEEP_MAX_URI_LEN;
  wf_data : length (post_data (task_buffer s)) = TEEP_MAX_MESSAGE_LEN;
  wf_data_len : on_going_task s = true →
    0 <= post_data_len (task_buffer s) <= Z.of_nat TEEP_MAX_MESSAGE_LEN;
  wf_requests : length (requests s) = 16%nat ∧ (n_requests s ≤ 16)%nat;
  wf_names : Forall (fun r => is_Some (cstr (id r))) (session_requests s)
}.

(** The runner of a session that uses it: it works on the root manifest of the
    context, and fetching is what suspended it. *)
Definition runner_safe (s : teep_agent_session) : Prop :=
  ∃ m, root (s_context s) = Some m ∧ runner_ok m (s_runner s) ∧
       agent_user_ok m (suspended (s_runner s)) (s_user s) ∧
       (state s = AGENT_FETCH_COMPONENT → suspended (s_runner s) = true).

Record session_safe (s : teep_agent_session) : Prop := {
  safe_wf : session_wf s;
  safe_context : context_ok (s_context s);
  safe_crashed : crashed (s_user s) = false;
  safe_task : on_going_task s = true → task_state (t_command (task_buffer s)) (state s);
  safe_runner : runner_active (state s) = true → runner_safe s
}.

(** What [malloc] leaves in a session: arrays of their size. *)
Definition garbage_ok (s : teep_agent_session) : Prop :=
  length (tam_uri s) = TEEP_MAX_URI_LEN ∧ length (t_uri (task_buffer s)) = TEEP_MAX_URI_LEN ∧
  length (post_data (task_buffer s)) = TEEP_MAX_MESSAGE_LEN ∧ length (requests s) = 16%nat.

Lemma session_init_safe garbage : garbage_ok garbage → session_safe (session_init garbage).
Proof.
  intros (?&?&?&?). split; cbn; try done; [|apply context_init_ok].
  split; cbn; try done. split; [done|lia].
Qed.

(** A change of the state to one that does not use the runner. *)
Lemma with_state_safe s st :
  session_safe s → on_going_task s = false → runner_active st = false →
  session_safe (with_state s st).
Proof.
  intros [Hwf ? ? ? ?] Hon Ha. split; cbn; try done; [by destruct Hwf|by rewrite Hon|by rewrite Ha].
Qed.

Lemma with_task_safe s on task :
  session_safe s → length (t_uri task) = TEEP_MAX_URI_LEN →
  length (post_data task) = TEEP_MAX_MESSAGE_LEN →
  (on = true → 0 <= post_data_len task <= Z.of_nat TEEP_MAX_MESSAGE_LEN ∧
               task_state (t_command task) (state s)) →
  session_safe (with_task s on task).
Proof.
  intros [[] ? ? ? ?] Hu Hd Ht. split; cbn; try done; [split; cbn; try done|]; by intros [??]%Ht.
Qed.

(** ** Options *)

Lemma cstr_replicate l n : is_Some (cstr (l ++ replicate (S n) x00)).
Proof.
  induction l as [|c l IH]; cbn; [by eexists|]. case_bool_decide; [by eexists|].
  destruct IH as [x Hx]. cbn in Hx. rewrite Hx. by eexists.
Qed.

Lemma request_id_cstr name : is_Some (cstr (request_id name)).
Proof.
  unfold request_id. assert (128 - length (take 127 name) = S (127 - length (take 127 name)))%nat as ->.
  { rewrite length_take. lia. }
  apply cstr_replicate.
Qed.

Lemma ta_entries_ok n v :
  length (ta_entries n v) = n ∧ Forall (fun r => is_Some (cstr (id r))) (ta_entries n v).
Proof.
  revert v. induction n as [|n IH]; intros v; cbn; [done|].
  destruct (ta_entry v) as [e rest] eqn:He. destruct (IH rest) as [Hl Hf]. cbn. split; [lia|].
  constructor; [|done]. unfold ta_entry in He. repeat case_match; simplify_eq; cbn; apply request_id_cstr.
Qed.

Lemma set_dev_option_safe p s o v x :
  session_safe s → cstr v = Some x →
  wp (set_dev_option p s o v) (fun r => session_safe r.1 ∧ token r.1 = token s).
Proof.
  intros Hs Hv. unfold set_dev_option. case_match; [done|]. bool_facts. apply bool_decide_eq_true in H.
  pose proof Hs as [[Ht ? ? Hdl [? ?] ?] ? ? ? ?]. rewrite Hv.
  case_match; [|case_match; [|done]].
  - case_bool_decide; [done|]. change (TEEP_MAX_URI_LEN - 1)%nat with 511%nat.
    destruct (wp_elim _ _ (platform_strncpy_ok p (tam_uri s) v 511 x Hv Ht)) as (u&->&Hl&_).
    cbn. split; [|done]. split; cbn; try done.
  - case_bool_decide; [done|]. cbn zeta. generalize (1 + count_commas x)%nat as n. intros n.
    case_bool_decide; [done|]. destruct (ta_entries_ok n x) as [Hlen Hf].
    split; [|done]. split; cbn; try done. split; cbn; try done.
    + rewrite length_app, length_drop. split; lia.
    + unfold session_requests. cbn. rewrite take_app_le, take_ge by lia. done.
Qed.

(** ** The next task *)

Definition install_ready (c : suit_context) : bool :=
  match root c with
  | Some m => match sev_union (install m) with UBody _ => true | _ => false end
  | None => false
  end.

Lemma runner_init_safe c (r : suit_runner unit) :
  context_ok c → suit_runner_init c SUIT_COMMAND_SEQUENCE_INSTALL = Done r →
  ∃ m, root c = Some m ∧ runner_ok m r ∧ suspended r = false.
Proof.
  intros Hc Hr. destruct (root c) as [m|] eqn:Hroot.
  2: { destruct (suit_runner_init_outcome (code := unit) c SUIT_COMMAND_SEQUENCE_INSTALL Hc) as [Hnone _].
       by rewrite Hnone in Hr. }
  destruct (sev_union (install m)) as [body| |] eqn:Hsev.
  2-3: unfold suit_runner_init in Hr; rewrite (root_spec _ _ Hroot) in Hr; cbn in Hr;
    by rewrite Hsev in Hr.
  destruct (runner_init_spec (code := unit) c m body Hc Hroot Hsev) as (r'&Hr'&?&_&?&_).
  assert (r = r') as -> by congruence. by exists m.
Qed.

Lemma runner_init_ready c :
  context_ok c → install_ready c = true →
  ∃ r : suit_runner unit, suit_runner_init c SUIT_COMMAND_SEQUENCE_INSTALL = Done r.
Proof.
  intros Hc Hi. unfold install_ready in Hi. destruct (root c) as [m|] eqn:Hroot; [|done].
  destruct (sev_union (install m)) as [body| |] eqn:Hsev; [|done..].
  destruct (runner_init_spec (code := unit) c m body Hc Hroot Hsev) as (r&?&_). eauto.
Qed.

(** Copying keeps the length of the buffer. *)
Lemma put_length dst i c : may (put dst i c) (fun d => length d = length dst).
Proof. unfold put. case_bool_decide; [|done]. cbn. by rewrite length_insert. Qed.

Lemma strncpy_loop_length fuel dst src n i :
  may (strncpy_loop fuel dst src n i) (fun d => length d = length dst).
Proof.
  revert dst i. induction fuel as [|fuel IH]; intros dst i; cbn; [done|]. case_bool_decide; [done|].
  apply may_bind. destruct (get src i) as [| |c]; cbn [may]; try done.
  apply may_bind. eapply may_mono; [apply put_length|]. intros d Hd. case_bool_decide; [done|].
  eapply may_mono; [apply IH|]. by intros d' ->.
Qed.

Lemma string_prefix_length n src : may (string_prefix n src) (fun s => (length s ≤ n)%nat).
Proof.
  revert src. induction n as [|n IH]; intros [|c src]; cbn; try done. case_bool_decide; cbn; [lia|].
  apply may_bind. eapply may_mono; [apply IH|]. cbn. lia.
Qed.

Lemma platform_strncpy_length p dst src n l :
  length dst = l → may (platform_strncpy p dst src n) (fun d => length d = l).
Proof.
  intros <-. assert (may (strncpy dst src n) (fun d => length d = length dst)) as Hown.
  { unfold strncpy. apply may_bind. eapply may_mono; [apply strncpy_loop_length|]. intros d <-.
    apply put_length. }
  assert (may (libc_strncpy dst src n) (fun d => length d = length dst)) as Hlibc.
  { unfold libc_strncpy. apply may_bind. eapply may_mono; [apply string_prefix_length|]. intros s Hs.
    case_bool_decide; cbn; [|done]. rewrite !length_app, length_replicate, length_drop. cbn in Hs. lia. }
  by destruct p.
Qed.

Section tasks.
Context `{Hqe : qcbor_encoder, !qcbor_encoder_laws}.
Variable p : platform.
Variable slot_addr : target_slot → Z.
Variable fuel : nat.
Hypothesis Hfuel : runner_fuel < Z.of_nat fuel.

Lemma run_total m (r : suit_runner unit) (u : agent_user) :
  runner_ok m r → wp (suit_runner_run slot_addr fuel (r, u)) (run_post m (r, u)).
Proof.
  intros Hok. apply runner_run_spec; [done|]. pose proof (runner_measure_bound m r Hok). cbn in *. lia.
Qed.

(** The state after a run that did not crash. *)
Lemma run_state_safe s m r u :
  session_safe s → on_going_task s = false → root (s_context s) = Some m →
  agent_user_ok m (suspended (s_runner s)) (s_user s) →
  run_post m (s_runner s, s_user s) (r, u) → crashed u = false →
  session_safe (if suit_runner_finished r then with_state (with_runner s r u) AGENT_POSTING_SUCCESS
                else if suit_runner_suspended r then with_state (with_runner s r u) AGENT_FETCH_COMPONENT
                else teep_error (with_runner s r u)).
Proof.
  intros [[] ? ? ? ?] Hon Hroot Hu (Hok&Hst&Hk&_) Hcr. apply Hk in Hu.
  assert (session_wf (with_runner s r u)) as Hwf by by split.
  destruct (suit_runner_finished r); [|destruct (suit_runner_suspended r) eqn:Hsus]; unfold teep_error;
    (split; cbn; [by destruct Hwf|done|done|by rewrite Hon|]); try done.
  intros _. exists m. split; [done|]. split; [done|]. split; [exact Hu|]. intros _. cbn.
  by apply andb_prop in Hsus as [_ ?].
Qed.

Lemma next_task_step_safe s :
  session_safe s → on_going_task s = false → may (next_task_step p slot_addr fuel s) session_safe.
Proof.
  intros Hs Hon. pose proof Hs as [[Ht Hu Hd Hdl Hreq Hn] Hc Hcr Htask Hrun]. unfold next_task_step.
  assert (∀ uri built, length uri = TEEP_MAX_URI_LEN → length built.1.1 = TEEP_MAX_MESSAGE_LEN ∧
    0 <= built.1.2 <= Z.of_nat TEEP_MAX_MESSAGE_LEN → task_state BROKER_HTTP_POST (state s) →
    session_safe (with_task s true (post_task (task_buffer s) uri built))) as Hpost.
  { intros uri built ? [? ?] ?. by apply with_task_safe. }
  assert (may (platform_strncpy p (t_uri (task_buffer s)) (tam_uri s) (TEEP_MAX_URI_LEN - 1))
    (fun uri => length uri = TEEP_MAX_URI_LEN)) as Hcopy by apply platform_strncpy_length, Hu.
  assert (∀ enc, enc_buffer enc = post_data (task_buffer s) →
    length (finish_message enc (Z.of_nat TEEP_MAX_MESSAGE_LEN)).1.1 = TEEP_MAX_MESSAGE_LEN ∧
    0 <= (finish_message enc (Z.of_nat TEEP_MAX_MESSAGE_LEN)).1.2 <= Z.of_nat TEEP_MAX_MESSAGE_LEN) as Hfin.
  { intros enc He. apply finish_message_bounds; congruence. }
  destruct (state s) eqn:Hst.
  - cbn. by apply with_state_safe.
  - apply may_bind. eapply may_mono; [exact Hcopy|]. intros uri Hl. apply with_task_safe; try done.
    intros _. rewrite Hst. cbn. lia.
  - apply may_bind. eapply may_mono; [exact Hcopy|]. intros uri Hl. apply may_bind.
    unfold build_query_response.
    destruct (wp_elim _ _ (query_response_done s (post_data (task_buffer s)) Hn)) as (enc&->&He).
    cbn [mbind outcome_bind may]. apply Hpost; [done|by apply Hfin|done].
  - apply may_bind. eapply may_mono; [exact Hcopy|]. intros uri Hl. apply Hpost; [done| |done].
    apply Hfin. unfold success_encoder. by destruct (session_token s).
  - apply may_bind. eapply may_mono; [exact Hcopy|]. intros uri Hl. apply Hpost; [done| |done].
    apply Hfin. unfold error_encoder. by destruct (session_token s).
  - apply may_bind. destruct (suit_runner_init _ _) as [| |r] eqn:Hr; cbn [may]; try done.
    destruct (runner_init_safe _ _ Hc Hr) as (m&Hroot&Hok&Hsus).
    split; cbn; [by split|done|done|by rewrite Hon|]. intros _. exists m.
    split; [done|]. split; [done|]. split; [|done]. cbn. rewrite Hsus. by split.
  - destruct (Hrun eq_refl) as (m&Hroot&Hok&Hus&_).
    apply may_bind. destruct (wp_elim _ _ (run_total m _ (s_user s) Hok)) as ([r u]&->&Hpr).
    cbn [may]. destruct (crashed u) eqn:Hcr'; [done|]. cbn [may].
    by apply (run_state_safe s m).
  - case_match; [done|]. apply may_bind. destruct (range_load _) as [| |bytes] eqn:Hload; cbn [may]; try done.
    bool_facts. apply range_load_length in Hload. apply with_task_safe; try done; cbn.
    + rewrite length_app, length_replicate. change TEEP_MAX_URI_LEN with 512%nat in *. lia.
    + intros _. by rewrite Hst.
  - apply may_bind. unfold put. case_bool_decide; cbn [may]; [|done].
    apply with_task_safe; try done; cbn; [by rewrite length_insert|]. intros _. by rewrite Hst.
Qed.
End tasks.

(** What the runner of a session needs: a root manifest whose install member is
    not severed, and identifiers that fit. *)
Definition runner_ready (s : teep_agent_session) : Prop :=
  state s = AGENT_INIT_RUNNER → install_ready (s_context s) = true.

Definition ids_ready (s : teep_agent_session) : bool :=
  match root (s_context s) with Some m => ids_fit m | None => true end.

(** The URI the session has been asked to fetch. *)
Definition uri_fits (u : agent_user) : Prop := range_len (fetch_uri u) < Z.of_nat TEEP_MAX_URI_LEN.

Section next_task.
Context `{Hqe : qcbor_encoder, !qcbor_encoder_laws}.
Variable p : platform.
Variable slot_addr : target_slot → Z.
Variable fuel : nat.
Hypothesis Hfuel : runner_fuel < Z.of_nat fuel.

Lemma ids_ready_fit s m : root (s_context s) = Some m → ids_ready s = true → ids_fit m = true.
Proof. unfold ids_ready. by intros ->. Qed.

Lemma next_fetch_suspended s (r : suit_runner unit) :
  next_state s r = AGENT_FETCH_COMPONENT → state s ≠ AGENT_FETCH_COMPONENT → suspended r = true.
Proof.
  unfold next_state, suit_runner_suspended. intros Hn Hne.
  destruct (state s); try done; (destruct (suit_runner_finished r); [done|]);
    destruct (has_error r), (suspended r); done.
Qed.

(** The runner, where it runs, returns without a crash; if it asks for a
    component, the URI is a range in a manifest. *)
Lemma runner_result_safe s :
  session_safe s → runner_ready s → ids_ready s = true →
  ∃ r u, runner_result slot_addr fuel s = Done (r, u) ∧ crashed u = false ∧
    (next_state s r = AGENT_FETCH_COMPONENT → range_ok (fetch_uri u)).
Proof.
  intros [_ Hc Hcr _ Hrun] Hready Hids.
  assert (∀ m r, root (s_context s) = Some m → runner_ok m r → agent_user_ok m (suspended r) (s_user s) →
    ∃ r' u, suit_runner_run slot_addr fuel (r, s_user s) = Done (r', u) ∧ crashed u = false ∧
      (suspended r' = true → range_ok (fetch_uri u))) as Hgo.
  { intros m r Hroot Hok Hu.
    destruct (wp_elim _ _ (run_total slot_addr fuel Hfuel m r (s_user s) Hok)) as ([r' u]&Hr&_&_&Hk&_).
    destruct (Hk Hu) as [Hu1 Hu2]. exists r', u. split; [exact Hr|]. split; [|exact Hu1].
    apply Hu2. by apply (ids_ready_fit s). }
  pose proof (next_fetch_suspended s) as Hnext.
  unfold runner_result, runner_ready in *. destruct (state s) eqn:Hst.
  1-5, 9: exists (s_runner s), (s_user s); split; [done|]; split; [done|];
    unfold next_state; rewrite Hst; done.
  - destruct (runner_init_ready _ Hc (Hready eq_refl)) as [r Hr].
    destruct (runner_init_safe _ _ Hc Hr) as (m&Hroot&Hok&Hsus).
    match goal with |- context [@suit_runner_init ?c ?a ?b] =>
      change (@suit_runner_init c a b = Done r) in Hr end.
    rewrite Hr. cbn [mbind outcome_bind].
    assert (agent_user_ok m (suspended r) (s_user s)) as Hu by (split; congruence).
    destruct (Hgo m r Hroot Hok Hu) as (r'&u&Hr'&?&?).
    exists r', u. split; [exact Hr'|]. split; [done|]. intros Hf. by eauto.
  - destruct (Hrun eq_refl) as (m&Hroot&Hok&Hus&_).
    destruct (Hgo m _ Hroot Hok Hus) as (r'&u&Hr'&?&?).
    exists r', u. split; [exact Hr'|]. split; [done|]. intros Hf. by eauto.
  - destruct (Hrun eq_refl) as (m&Hroot&Hok&[Hus _]&Hsus).
    exists (s_runner s), (s_user s). auto.
Qed.

(** In every state a session can be in, asking for the next task returns: the
    runner is run to its next stop, at most four rounds are needed, and the task
    is the one of the state: its command, the URI of the TAM for messages and the
    URI asked for otherwise, lengths within the buffers.  This needs a TAM URI
    that was set, an install member that is not severed, identifiers of
    components no longer than the constants, and a URI that fits. *)
Lemma next_task_total s uri :
  session_safe s → on_going_task s = false → cstr (tam_uri s) = Some uri →
  runner_ready s → ids_ready s = true →
  ∃ r u, runner_result slot_addr fuel s = Done (r, u) ∧ crashed u = false ∧
    ((next_state s r = AGENT_FETCH_COMPONENT → range_len (fetch_uri u) <= Z.of_nat TEEP_MAX_URI_LEN) →
     wp (query_next_broker_task p slot_addr fuel 4 s) (task_given uri (next_state s r) r u)).
Proof.
  intros Hs Hon Huri Hready Hids.
  destruct (runner_result_safe s Hs Hready Hids) as (r&u&Hr&Hcr&Hf).
  exists r, u. split; [done|]. split; [done|]. intros Hlen.
  destruct Hs as [[] _ _ _ _]. apply next_task_run; try done.
  intros Hst. split; [auto|]. specialize (Hf Hst).
  exists (range_bytes (fetch_uri u)). split; [by apply range_load_spec|]. by apply range_bytes_length.
Qed.
End next_task.

(** ** Witness *)

(** Fuel for every run; it is never computed. *)
Definition enough_fuel : nat := Z.to_nat (runner_fuel + 1).

Lemma enough_fuel_ok : runner_fuel < Z.of_nat enough_fuel.
Proof.
  unfold enough_fuel. rewrite Z2Nat.id; [lia|]. unfold runner_fuel, command_weight, PTRDIFF_MAX. lia.
Qed.

Lemma blank_session_safe : session_safe blank_session.
Proof. by apply session_init_safe. Qed.
