(* ===== verification/AgentCommands.v ===== *)
(** * AgentCommands: the commands of the broker, with the heap

    [instance_safe] extends the invariant of a session to the heap: the token of
    the session and the stored envelopes own distinct live blocks.  Every command
    with parameters of the right types keeps it and returns, when allocations
    succeed and the conditions of [command_ready] hold. *)

From S2P Require Import Prelude Tcbor TcborFacts SuitTypes SuitParser SuitParserFacts.
From S2P Require Import SuitAuth SuitAuthFacts SuitContext SuitContextFacts.
From S2P Require Import SuitRunner SuitRunnerFacts SuitRunnerTheorems.
From S2P Require Import TeepMessage TeepMessageFacts TeepMessageTheorems TeepEncoder.
From S2P Require Import Tools Agent AgentFacts AgentTaskTheorems AgentSafety.

Local Open Scope Z_scope.

(** ** The stored envelopes *)

Definition owned_ok (o : owned_buf) : Prop := buffer_ok (snd <$> o).

Definition stored_blocks (g : agent_globals) : list (option nat) :=
  (fun o : owned_buf => fst <$> o) <$> suit_manifests g.

(** The two slots hold objects; their blocks and those of [l] are live. *)
Record store_safe (g : agent_globals) (l : list (option nat)) (frame : list nat) : Prop := {
  store_slots : length (suit_manifests g) = 2%nat;
  store_owned : Forall owned_ok (suit_manifests g);
  store_accounts : accounts (g_heap g) (stored_blocks g ++ l) frame
}.

Lemma buffer_range_ok b : buffer_ok b → range_ok (range_of b).
Proof. destruct b as [bytes|]; [|done]. cbn. intros Hb. split; cbn; lia. Qed.

Section store.
Context `{Hal : allocator, Hcr : crypto_api, !crypto_laws}.

Lemma free_next h o : may (free h o) (fun h' => h_next h' = h_next h).
Proof. unfold free. destruct o as [b|]; cbn; [|done]. by case_bool_decide. Qed.

(** An object is replaced if there is memory for the new one. *)
Lemma store_bstr_spec h ptr buf l frame :
  accounts h ((fst <$> ptr) :: l) frame →
  wp (store_bstr h ptr buf) (fun '(h', ptr', ok) =>
    ok = malloc_succeeds (h_next h) (Z.of_nat (length buf)) ∧ h_next h' = S (h_next h) ∧
    (ok = true → ∃ q, ptr' = Some (q, buf) ∧ accounts h' (Some q :: l) frame)).
Proof.
  intros Hacc. unfold store_bstr.
  assert (wp (if bool_decide (ptr = None) then Done h else free h (fst <$> ptr))
    (fun h' => accounts h' l frame ∧ h_next h' = h_next h)) as Hfree.
  { case_bool_decide as Hp; [subst ptr; by split|]. apply wp_and; [by apply free_owned|apply free_next]. }
  apply wp_bind. eapply wp_mono; [exact Hfree|]. intros h1 [Hacc1 <-].
  pose proof (accounts_malloc h1 (Z.of_nat (length buf)) l frame Hacc1) as Hacc2. unfold malloc in *.
  destruct (malloc_succeeds _ _); cbn in *; split_and!; try done. intros _. by exists (h_next h1).
Qed.

(** The envelope [e] is stored as number [index] of an update: there is a slot for
    it, it is authenticated with the built-in key, and there is memory; [next] is the
    number of the first allocation of the update. *)
Definition envelope_stored (next index : nat) (e : useful_buf) : Prop :=
  (index < 2)%nat ∧ suit_authenticate_envelope (range_of e) tc_singer_pubkey = Done true ∧
  malloc_succeeds (next + index) (Z.of_nat (length (buf_bytes e))) = true.

Lemma store_envelope_spec next g index e l frame :
  store_safe g l frame → buffer_ok e → h_next (g_heap g) = (next + index)%nat →
  wp (store_envelope g index e) (fun '(g', ok) =>
    (ok = true ↔ envelope_stored next index e) ∧
    (malloc_succeeds (next + index) (Z.of_nat (length (buf_bytes e))) = true → store_safe g' l frame) ∧
    (ok = true → h_next (g_heap g') = (next + S index)%nat ∧
       (∃ b, suit_manifests g' !! index = Some (Some (b, buf_bytes e))) ∧
       ∀ k, k ≠ index → suit_manifests g' !! k = suit_manifests g !! k)).
Proof.
  intros Hg He Hnext. pose proof Hg as [Hlen Hown Hacc]. unfold store_envelope, envelope_stored.
  case_bool_decide as Hi; [|by split; [split; [done|intros [? _]; done]|]].
  destruct (wp_elim _ _ (authenticate_spec (range_of e) tc_singer_pubkey (buffer_range_ok e He))) as (ok&Hauth&_).
  rewrite Hauth. cbn [mbind outcome_bind].
  destruct ok; cbn [negb]; [|by split; [split; [done|intros (_&?&_); done]|]].
  destruct (lookup_lt_is_Some_2 (suit_manifests g) index) as [ptr Hptr]; [unfold owned_buf in *; lia|].
  rewrite Hptr. destruct (list_elem_of_split_length _ _ _ Hptr) as (l1&l2&Hm&Hl1).
  assert (buffer_ok (Some (buf_bytes e))) as Hbuf.
  { destruct e as [bytes|]; [done|]. cbn. unfold PTRDIFF_MAX. lia. }
  unfold stored_blocks in Hacc. rewrite Hm, fmap_app, fmap_cons in Hacc.
  set (others := ((fun o : owned_buf => fst <$> o) <$> l1) ++ ((fun o : owned_buf => fst <$> o) <$> l2) ++ l).
  apply wp_bind. eapply wp_mono; [apply (store_bstr_spec _ ptr _ others frame)|].
  { eapply accounts_perm; [exact Hacc|]. unfold others. rewrite !blocks_app, !blocks_cons, !blocks_app.
    solve_Permutation. }
  rewrite Hnext. intros [[h' ptr'] ok] (->&Hnext'&Hok). split; [|split].
  - split; [by intros|by intros (_&_&?)].
  - intros Hmal. destruct (Hok Hmal) as (q&->&Hacc'). split; cbn [suit_manifests g_heap].
    + by rewrite length_insert.
    + by apply Forall_insert.
    + eapply accounts_perm; [exact Hacc'|]. unfold stored_blocks. cbn [suit_manifests].
      rewrite Hm, Hl1, insert_app_r_alt, Nat.sub_diag by lia.
      change (<[0%nat:=Some (q, buf_bytes e)]> (ptr :: l2)) with (Some (q, buf_bytes e) :: l2).
      unfold others. rewrite fmap_app, fmap_cons, !blocks_app, !blocks_cons.
      rewrite !blocks_app. solve_Permutation.
  - intros Hmal. destruct (Hok Hmal) as (q&->&_). cbn. split; [lia|]. split.
    + exists q. apply list_lookup_insert_eq. unfold owned_buf in *. lia.
    + intros k Hk. by rewrite list_lookup_insert_ne.
Qed.

Lemma store_envelopes_spec next n g elems i l frame :
  store_safe g l frame → Forall buffer_ok elems → (i + n = length elems)%nat →
  h_next (g_heap g) = (next + i)%nat →
  wp (store_envelopes g elems i n) (fun '(g', ok) =>
    if ok : bool then
      store_safe g' l frame ∧ (∀ k, (k < i)%nat → suit_manifests g' !! k = suit_manifests g !! k) ∧
      ∀ k e, (i ≤ k)%nat → elems !! k = Some e →
        envelope_stored next k e ∧ ∃ b, suit_manifests g' !! k = Some (Some (b, buf_bytes e))
    else ∃ k e, elems !! k = Some e ∧ ¬ envelope_stored next k e ∧
      (malloc_succeeds (next + k) (Z.of_nat (length (buf_bytes e))) = true → store_safe g' l frame)).
Proof.
  revert g i. induction n as [|n IH]; intros g i Hg Hall Hlen Hnext; cbn.
  { split; [done|]. split; [done|]. intros k e Hk He%lookup_lt_Some. lia. }
  destruct (lookup_lt_is_Some_2 elems i) as [e He]; [lia|]. rewrite He.
  unfold store_suit_envelope. apply wp_bind.
  eapply wp_mono; [apply (store_envelope_spec next g i e l frame); try done; by eapply Forall_lookup_1|].
  intros [g1 ok] (Hok&Hsafe&Hstored). destruct ok.
  - destruct (proj1 Hok eq_refl) as (Hi&Hauth&Hmal), (Hstored eq_refl) as (Hnext1&Hb&Hother).
    eapply wp_mono; [apply (IH g1 (S i)); try done; [by apply Hsafe|lia]|].
    intros [g' ok] H'. destruct ok; [|done]. destruct H' as (Hg'&Hlow&Hhigh).
    split; [done|]. split; [intros k Hk; rewrite Hlow, Hother by lia; done|].
    intros k x Hk Hx. destruct (decide (k = i)) as [->|]; [|by apply Hhigh; [lia|]].
    rewrite He in Hx. injection Hx as <-. split; [by split_and!|]. rewrite Hlow by lia. done.
  - exists i, e. split; [done|]. split; [by rewrite <-Hok|done].
Qed.

(** Every allocation succeeds. *)
Hypothesis Hmem : ∀ n z, malloc_succeeds n z = true.

Lemma malloc_some h z : ∃ h' q, malloc h z = (h', Some q).
Proof. unfold malloc. rewrite Hmem. eauto. Qed.

Lemma store_envelopes_safe g elems l frame :
  store_safe g l frame → Forall buffer_ok elems →
  wp (store_envelopes g elems 0 (length elems)) (fun r =>
    store_safe r.1 l frame ∧ (r.2 = true → (length elems ≤ 2)%nat)).
Proof.
  intros Hg Hall. eapply wp_mono; [by apply (store_envelopes_spec (h_next (g_heap g)) _ g elems 0 l frame)|].
  intros [g' []]; cbn.
  - intros (Hg'&_&Hstored). split; [done|]. intros _. destruct (decide (length elems ≤ 2)%nat) as [|Hl]; [done|].
    destruct (lookup_lt_is_Some_2 elems 2) as [e He]; [lia|].
    destruct (Hstored 2%nat e ltac:(lia) He) as [[? _] _]. lia.
  - intros (k&e&_&_&Hg'). split; [by apply Hg'|done].
Qed.

Lemma add_envelopes_safe g c n :
  Forall owned_ok (suit_manifests g) → (n ≤ length (suit_manifests g))%nat → context_ok c →
  wp (add_envelopes g c n) (fun r => context_ok r.1).
Proof.
  intros Hown. revert c. induction n as [|n IH]; intros c Hn Hc; cbn [add_envelopes]; [done|].
  destruct (suit_manifests g !! n) as [o|] eqn:Ho.
  2: { apply lookup_ge_None in Ho. unfold owned_buf in *. lia. }
  apply wp_bind. eapply wp_mono; [apply add_envelope_spec; [done|]|].
  { apply buffer_range_ok. by apply (Forall_lookup_1 _ _ _ _ Hown) in Ho. }
  intros [c' ok] [Hc' _]. destruct ok; [|done]. apply IH; [lia|done].
Qed.
End store.

(** ** The answers of the broker *)

(** The task of a session is done. *)
Definition finish (s : teep_agent_session) : teep_agent_session := with_task s false (task_buffer s).

(** Besides the blocks of [frame] the instance owns its stored envelopes, the
    token of the session, and what it has lost. *)
Definition instance_safe (frame : list nat) (g : agent_globals) (s : teep_agent_session) : Prop :=
  session_safe s ∧ ∃ leak, store_safe g [fst <$> token s] (leak ++ frame).

(** While an answer is handled; [l]: the blocks of the message. *)
Definition instance_mid (frame : list nat) (l : list (option nat)) (g : agent_globals)
    (s : teep_agent_session) : Prop :=
  session_safe (finish s) ∧ ∃ leak, store_safe g ((fst <$> token s) :: l) (leak ++ frame).

Lemma session_safe_finish s : session_safe s → session_safe (finish s).
Proof. intros [[] ? ? ? ?]. split; cbn; try done. Qed.

(** What an answer may do to a session between two tasks. *)
Lemma finish_state s st :
  session_safe (finish s) → runner_active st = false → session_safe (finish (with_state s st)).
Proof. intros Hs Ha. by apply (with_state_safe (finish s) st). Qed.

Lemma finish_context s c : session_safe (finish s) → context_ok c → runner_active (state s) = false →
  session_safe (finish (with_context s c)).
Proof.
  intros [[] ? ? ? ?] Hc Ha. split; cbn in *; try done. by rewrite Ha.
Qed.

Lemma finish_query s t items : session_safe (finish s) → session_safe (finish (with_query s t items)).
Proof. intros [[] ? ? ? ?]. split; cbn in *; try done. Qed.

Section answers.
Context `{Hal : allocator, Hcr : crypto_api, !crypto_laws, Hqc : qcbor, !qcbor_laws}.
Hypothesis Hmem : ∀ n z, malloc_succeeds n z = true.
Variable fuel : nat.
Variable frame : list nat.

Lemma handle_query_request_safe l g s m_token items :
  instance_mid frame l g s →
  wp (handle_query_request g s m_token items) (fun r => instance_mid frame l r.1 r.2).
Proof.
  intros [Hs [leak [Hlen Hown Hacc]]]. unfold handle_query_request. case_match.
  { split; [by apply finish_state|]. by exists leak. }
  destruct (malloc_some Hmem (g_heap g) (Z.of_nat (length (buf_bytes m_token)))) as (h'&q&Hm).
  pose proof (accounts_malloc (g_heap g) (Z.of_nat (length (buf_bytes m_token))) _ _ Hacc) as Hacc'.
  rewrite Hm in *. cbn in *. split; [by apply finish_query, finish_state|].
  exists (option_list (fst <$> token s) ++ leak). split; [done|done|]. cbn.
  eapply accounts_perm; [exact Hacc'|]. rewrite !blocks_cons, !blocks_app, !blocks_cons. cbn.
  solve_Permutation.
Qed.

Lemma handle_update_safe l g s ml :
  instance_mid frame l g s → array_ok buffer_ok ml →
  wp (handle_update g s ml) (fun r => instance_mid frame l r.1 r.2).
Proof.
  intros [Hs [leak Hst]] Hml. unfold handle_update. case_bool_decide as Hpost; cbn [negb].
  2: { split; [by apply finish_state|]. by exists leak. }
  assert (length (arr_elems ml) = arr_len ml ∧ Forall buffer_ok (arr_elems ml)) as [Hl Hall].
  { destruct Hml as [->|(_&_&?&?)]; [|done]. split; [done|constructor]. }
  apply wp_bind. rewrite <-Hl. eapply wp_mono; [by apply store_envelopes_safe|].
  intros [g1 ok] [Hst1 Hn]. cbn in Hst1, Hn. destruct ok; cbn [negb]; [|by split; [|exists leak]].
  pose proof Hst1 as [Hlen Hown _].
  apply wp_bind. eapply wp_mono; [apply add_envelopes_safe; [done| |by apply Hs]|].
  { specialize (Hn eq_refl). lia. }
  intros [c ok] Hc. cbn in Hc.
  destruct ok; cbn [negb]; (split; [|by exists leak]); apply finish_state; try done;
    apply finish_context; try done; by rewrite Hpost.
Qed.

Lemma handle_message_safe l g s m :
  instance_mid frame l g s → body_ok (m_body m) →
  wp (handle_message g s m) (fun r => instance_mid frame l r.1 r.2).
Proof.
  intros Hs Hm. assert (instance_mid frame l g (teep_error s)) as Herr.
  { destruct Hs as [Hs ?]. split; [by apply finish_state|done]. }
  unfold handle_message. destruct (m_body m) as [q|q|ml|q|q]; try done.
  - by apply handle_query_request_safe.
  - by apply handle_update_safe.
Qed.

Lemma handle_tam_message_safe g s buffer :
  instance_mid frame [] g s → (remaining (QCBORDecode_Init (Some buffer)) < fuel)%nat →
  wp (handle_tam_message fuel g s buffer) (fun r => instance_mid frame [] r.1.1 r.1.2).
Proof.
  intros Hs Hf. assert (∀ st, runner_active st = false → instance_mid frame [] g (with_state s st)) as Hst.
  { intros st Ha. destruct Hs as [Hs ?]. split; [by apply finish_state|done]. }
  unfold handle_tam_message. case_match; [by apply Hst|]. case_match; [by apply Hst|].
  destruct Hs as [Hs [leak0 [Hlen Hown Hacc]]]. apply wp_bind.
  eapply wp_mono; [apply parse_teep_message_ok; [done|apply Hacc]|].
  intros [h [[block m]|]] (leak&Hpost&_).
  - destruct Hpost as (Hacc'&Hbody&_). cbn [fst snd] in *.
    assert (instance_mid frame (Some block :: array_blocks (m_body m)) (Globals h (suit_manifests g)) s) as Hmid.
    { split; [done|]. exists (leak ++ leak0). split; [done|done|]. cbn [g_heap].
      eapply accounts_perm; [exact Hacc'|]. destruct Hacc as [_ Hlive]. rewrite Hlive.
      change (stored_blocks (Globals h (suit_manifests g))) with (stored_blocks g).
      rewrite !blocks_app, !blocks_cons. cbn. solve_Permutation. }
    apply wp_bind. eapply wp_mono; [by apply handle_message_safe|].
    intros [g' s'] [Hs' [leak' [Hlen' Hown' Hacc2]]]. cbn [fst snd] in *.
    apply wp_bind. eapply wp_mono.
    { apply (free_message _ _ _ (blocks (stored_blocks g' ++ [fst <$> token s']) ++ leak' ++ frame)).
      eapply accounts_perm; [exact Hacc2|]. rewrite !blocks_app, !blocks_cons. cbn. solve_Permutation. }
    intros h' Hacc3. split; [done|]. exists leak'. split; [done|done|].
    eapply accounts_perm; [exact Hacc3|]. done.
  - cbn [fst snd] in *. split; [by apply finish_state|]. exists (leak ++ leak0). split; [done|done|].
    eapply accounts_perm; [exact Hpost|]. destruct Hacc as [_ Hlive]. rewrite Hlive.
    change (stored_blocks (Globals h (suit_manifests g))) with (stored_blocks g). cbn.
    solve_Permutation.
Qed.
End answers.

(** ** Commands *)

(** A parameter as its type says; the size of a memory reference is at most that
    of its buffer. *)
Definition param_has_type (ty : Z) (x : TEE_Param) : bool :=
  match x with
  | ParamNone => ty =? 0
  | ParamValue _ _ => (1 <=? ty) && (ty <=? 3)
  | ParamMemref buffer size =>
      (5 <=? ty) && (ty <=? 7) && (0 <=? size) && (size <=? Z.of_nat (length buffer))
  end.

Definition params_typed (types : Z) (params : list TEE_Param) : bool :=
  match params with
  | [a; b; c; d] =>
      param_has_type (TEE_PARAM_TYPE_GET types 0) a && param_has_type (TEE_PARAM_TYPE_GET types 1) b &&
      param_has_type (TEE_PARAM_TYPE_GET types 2) c && param_has_type (TEE_PARAM_TYPE_GET types 3) d
  | _ => false
  end.

(** What a command may do to a parameter: its member of the union and its buffer
    stay, and a size stays within the buffer. *)
Definition param_like (x y : TEE_Param) : Prop :=
  match x, y with
  | ParamNone, ParamNone => True
  | ParamValue _ _, ParamValue _ _ => True
  | ParamMemref b _, ParamMemref b' size' =>
      length b' = length b ∧ 0 <= size' <= Z.of_nat (length b')
  | _, _ => False
  end.

Lemma param_like_refl ty x : param_has_type ty x = true → param_like x x.
Proof. destruct x; cbn; intros; bool_facts; (lia || done). Qed.

Lemma typed_value ty x : param_has_type ty x = true → ty = 1 ∨ ty = 2 → ∃ a b, x = ParamValue a b.
Proof. destruct x; cbn; intros H Hty; [|by do 2 eexists|]; bool_facts; lia. Qed.

Lemma typed_memref ty x : param_has_type ty x = true → ty = 5 ∨ ty = 6 →
  ∃ buffer size, x = ParamMemref buffer size ∧ 0 <= size <= Z.of_nat (length buffer).
Proof.
  destruct x as [|a b|buffer size]; cbn; intros H Hty; bool_facts; try lia. by do 2 eexists.
Qed.

(** A string that ends in NUL is a C string. *)
Lemma cstr_elem value : x00 ∈ value → is_Some (cstr value).
Proof.
  induction value as [|x value IH]; [by intros ?%elem_of_nil|]. intros Hb. cbn.
  case_bool_decide; [by eexists|]. apply elem_of_cons in Hb as [Hb|Hb]; [congruence|].
  destruct (IH Hb) as [y Hy]. rewrite Hy. by eexists.
Qed.

Lemma last_nul value p : load value p = Done 0 → is_Some (cstr value).
Proof.
  unfold load. intros Hl. destruct (p <? 0); [done|]. destruct (value !! _) as [b|] eqn:Hb; [|done].
  injection Hl as Hb0. assert (b = x00) as -> by by apply u8_inj.
  by eapply cstr_elem, list_elem_of_lookup_2.
Qed.

Lemma range_bytes_load b n :
  0 <= n <= Z.of_nat (length b) → load_bytes b 0 n = Done (take (Z.to_nat n) b).
Proof.
  intros Hn. unfold load_bytes. assert ((0 <=? 0) && (0 <=? n) && (0 + n <=? Z.of_nat (length b)) = true) as ->.
  { rewrite !andb_true_iff, !Z.leb_le. lia. }
  done.
Qed.

(** The session has a URI of the TAM that fits, and what the next run of the
    runner needs. *)
Definition query_ready (slot_addr : target_slot → Z) (fuel : nat) (s : teep_agent_session) : Prop :=
  if on_going_task s then is_Some (cstr (t_uri (task_buffer s)))
  else (∃ uri, cstr (tam_uri s) = Some uri ∧ (length uri < 511)%nat) ∧
       runner_ready s ∧ ids_ready s = true ∧
       ∀ r u, runner_result slot_addr fuel s = Done (r, u) → next_state s r = AGENT_FETCH_COMPONENT →
         uri_fits u.

Definition query_types : Z := TEE_PARAM_TYPES TEE_PARAM_TYPE_VALUE_OUTPUT
  TEE_PARAM_TYPE_MEMREF_OUTPUT TEE_PARAM_TYPE_MEMREF_OUTPUT TEE_PARAM_TYPE_NONE.

Section commands.
Context `{Hal : allocator, Hcr : crypto_api, !crypto_laws, Hqc : qcbor, !qcbor_laws}.
Context `{Hqe : qcbor_encoder, !qcbor_encoder_laws}.
Variable p : platform.
Variable slot_addr : target_slot → Z.
Variable fuel : nat.

(** What the source relies on for each command. *)
Definition command_ready (s : teep_agent_session) (cmd : Z) (params : list TEE_Param) : Prop :=
  if cmd =? TEEP_AGENT_SET_DEV_OPTION then
    match params with _ :: ParamMemref _ size :: _ => size ≠ 0 | _ => True end
  else if cmd =? TEEP_AGENT_BROKER_TASK_DONE then
    match params with
    | ParamMemref buffer size :: _ =>
        (remaining (QCBORDecode_Init (Some (take (Z.to_nat size) buffer))) < fuel)%nat
    | _ => True
    end
  else if cmd =? TEEP_AGENT_QUERY_NEXT_BROKER_TASK then query_ready slot_addr fuel s
  else True.

Hypothesis Hmem : ∀ n z, malloc_succeeds n z = true.
Hypothesis Hfuel : runner_fuel < Z.of_nat fuel.
Variable frame : list nat.

(** Resuming calls back into nothing that changes the agent's state. *)
Lemma agent_resume (r : suit_runner unit) (u : agent_user) :
  ∃ r', suit_runner_resume (r, u) = (r', u) ∧ (suspended r' = true → suspended r = true).
Proof. unfold suit_runner_resume. repeat case_match; cbn in *; by eexists. Qed.

Lemma resume_safe s path image :
  session_safe s → state s = AGENT_FETCH_COMPONENT →
  let '(r, u) := suit_runner_resume (s_runner s, store_component (s_user s) path image) in
  session_safe (finish (with_state (with_runner s r u) AGENT_RUN_SUIT_RUNNER)).
Proof.
  intros [[] ? ? ? Hrun] Hst. rewrite Hst in Hrun. destruct (Hrun eq_refl) as (m&Hroot&Hok&[Hu1 Hu2]&_).
  pose proof (resume_ok m (s_runner s, store_component (s_user s) path image) Hok) as Hok'.
  assert (∀ r u, runner_ok m r → (suspended r = true → suspended (s_runner s) = true) →
    fetch_uri u = fetch_uri (s_user s) → crashed u = crashed (s_user s) →
    session_safe (finish (with_state (with_runner s r u) AGENT_RUN_SUIT_RUNNER))) as Hdone.
  { intros r u Hr Hsus Hf Hcra. split; cbn; try done; [congruence|]. intros _. exists m.
    split; [done|]. split; [done|]. split; [|done]. split; cbn; [rewrite Hf; auto|congruence]. }
  destruct (agent_resume (s_runner s) (store_component (s_user s) path image)) as (r'&Hr&Hs').
  rewrite Hr in *. by apply Hdone.
Qed.

Lemma broker_task_done_safe g s buffer :
  instance_safe frame g s → (remaining (QCBORDecode_Init (Some buffer)) < fuel)%nat →
  wp (broker_task_done fuel g s buffer) (fun r => instance_safe frame r.1.1 r.1.2).
Proof.
  intros [Hs Hst] Hf. unfold broker_task_done. destruct (on_going_task s) eqn:Hon; cbn [negb]; [|by split].
  pose proof (safe_task _ Hs Hon) as Htask.
  destruct (t_command (task_buffer s)) eqn:Hcmd; [| |by split].
  - apply wp_bind. eapply wp_mono; [apply handle_tam_message_safe; try done|].
    { split; [by apply session_safe_finish|done]. }
    by intros [[g' s'] ret].
  - destruct (state s) eqn:Hstate; try done.
    unfold handle_component_download. rewrite Hstate, bool_decide_true by done. cbn [negb].
    pose proof (resume_safe s (fetch_component_path (s_user s)) buffer Hs Hstate) as Hres.
    destruct (suit_runner_resume _) as [r u]. by split.
Qed.

Lemma query_safe n s :
  session_safe s → may (query_next_broker_task p slot_addr fuel n s) session_safe.
Proof.
  revert s. induction n as [|n IH]; intros s Hs; cbn [query_next_broker_task]; [done|].
  destruct (on_going_task s) eqn:Hon; [done|]. apply may_bind.
  eapply may_mono; [by apply next_task_step_safe|]. exact IH.
Qed.

(** What asking for a task leaves alone. *)
Definition session_kept (s s' : teep_agent_session) : Prop :=
  token s' = token s ∧ tam_uri s' = tam_uri s ∧ s_context s' = s_context s.

Lemma next_task_step_kept s : may (next_task_step p slot_addr fuel s) (session_kept s).
Proof.
  unfold next_task_step. destruct (state s); [done| | | | | | | |];
    try (apply may_bind; destruct (platform_strncpy _ _ _ _); cbn [may]; done).
  - apply may_bind. destruct (platform_strncpy _ _ _ _); cbn [may]; try done. apply may_bind.
    by destruct (build_query_response _ _ _).
  - apply may_bind. by destruct (suit_runner_init _ _).
  - apply may_bind. destruct (suit_runner_run _ _ _) as [| |[r u]]; cbn [may]; try done.
    by repeat case_match.
  - case_match; [done|]. apply may_bind. by destruct (range_load _).
  - apply may_bind. by destruct (put _ _ _).
Qed.

Lemma query_kept n s : may (query_next_broker_task p slot_addr fuel n s) (session_kept s).
Proof.
  revert s. induction n as [|n IH]; intros s; cbn [query_next_broker_task]; [done|].
  destruct (on_going_task s); [done|]. apply may_bind.
  eapply may_mono; [apply next_task_step_kept|]. intros s' (?&?&?). eapply may_mono; [apply IH|].
  intros s'' (?&?&?). split_and!; congruence.
Qed.

Lemma task_given_uri uri st r u s :
  task_given uri st r u s → (length uri < 511)%nat → (st = AGENT_FETCH_COMPONENT → uri_fits u) →
  is_Some (cstr (t_uri (task_buffer s))).
Proof.
  intros [_ _ _ _ _ _ _ Hc _] Hlen Hf. destruct st; cbn in Hc; try (rewrite (Hc Hlen); by eexists);
    [|rewrite Hc; by eexists].
  destruct Hc as (bytes&Hl&->). apply range_load_length in Hl. specialize (Hf eq_refl).
  unfold uri_fits in Hf. change TEEP_MAX_URI_LEN with 512%nat in *.
  replace (512 - length bytes)%nat with (S (511 - length bytes)) by lia.
  apply cstr_replicate.
Qed.

(** A new task. *)
Lemma query_fresh s :
  session_safe s → on_going_task s = false → query_ready slot_addr fuel s →
  ∃ uri r u, cstr (tam_uri s) = Some uri ∧ (length uri < 511)%nat ∧
    runner_result slot_addr fuel s = Done (r, u) ∧
    wp (query_next_broker_task p slot_addr fuel 4 s) (fun s' =>
      session_safe s' ∧ session_kept s s' ∧ task_given uri (next_state s r) r u s' ∧
      is_Some (cstr (t_uri (task_buffer s')))).
Proof.
  intros Hs Hon Hready. unfold query_ready in Hready. rewrite Hon in Hready.
  destruct Hready as ((uri&Huri&Hlen)&Hr&Hids&Hfits).
  destruct (next_task_total p slot_addr fuel Hfuel s uri Hs Hon Huri Hr Hids) as (r&u&Hrun&_&Hwp).
  exists uri, r, u. split; [done|]. split; [done|]. split; [done|].
  eapply wp_mono; [apply wp_and; [apply Hwp|apply may_and; [by apply query_safe|apply query_kept]]|].
  { intros Hst. exact (Z.lt_le_incl _ _ (Hfits r u Hrun Hst)). }
  cbn. intros s' [Hg [Hs' ?]]. split; [done|]. split; [done|]. split; [done|].
  eapply task_given_uri; [done|done|]. eauto.
Qed.

(** The next task, with everything that is copied out of it. *)
Lemma query_total s :
  session_safe s → query_ready slot_addr fuel s →
  wp (query_next_broker_task p slot_addr fuel 4 s) (fun s' =>
    session_safe s' ∧ token s' = token s ∧ on_going_task s' = true ∧
    is_Some (cstr (t_uri (task_buffer s')))).
Proof.
  intros Hs Hready. destruct (on_going_task s) eqn:Hon.
  { unfold query_ready in Hready. cbn [query_next_broker_task]. rewrite Hon in *. done. }
  destruct (query_fresh s Hs Hon Hready) as (uri&r&u&_&_&_&Hwp).
  eapply wp_mono; [exact Hwp|]. intros s' (?&?&Hg&?). split_and!; try done; [by match goal with H : session_kept _ _ |- _ => apply H end|by eapply given_on].
Qed.

Definition overwrite (bytes old : list byte) : list byte := bytes ++ drop (length bytes) old.

Lemma copyout_like ty x bytes :
  param_has_type ty x = true → ty = 6 →
  wp (copyout_param x bytes) (fun '(x', _) => param_like x x').
Proof.
  intros Hx ->. destruct (typed_memref 6 x Hx) as (buffer&size&->&Hsize); [by right|].
  unfold copyout_param. destruct (Z.ltb_spec size (Z.of_nat (length bytes))); [cbn; lia|].
  rewrite bool_decide_true by lia. cbn. rewrite length_app, length_drop. lia.
Qed.

Lemma typed_inv types params :
  params_typed types params = true → ∃ a b c d, params = [a; b; c; d] ∧
    param_has_type (TEE_PARAM_TYPE_GET types 0) a = true ∧
    param_has_type (TEE_PARAM_TYPE_GET types 1) b = true ∧
    param_has_type (TEE_PARAM_TYPE_GET types 2) c = true ∧
    param_has_type (TEE_PARAM_TYPE_GET types 3) d = true.
Proof.
  destruct params as [|a [|b [|c [|d [|? ?]]]]]; try done. cbn. intros Ht. bool_facts.
  by exists a, b, c, d.
Qed.

Lemma params_like_refl types params :
  params_typed types params = true → Forall2 param_like params params.
Proof.
  intros (a&b&c&d&->&Ha&Hb&Hc&Hd)%typed_inv. repeat (constructor; [by eapply param_like_refl|]).
  constructor.
Qed.

(** Every command whose parameters have the types it declares returns and
    leaves a well-formed instance: the buffers of the session, the manifests, the
    runner, and the blocks the session owns, and parameters of the same types.
    This holds in every state, for any contents of the parameters and any answer
    of the broker, if allocations succeed and [command_ready] holds. *)
Lemma command_total g s cmd types params :
  instance_safe frame g s → params_typed types params = true → command_ready s cmd params →
  wp (TA_InvokeCommandEntryPoint p slot_addr fuel g s cmd types params) (fun r =>
    instance_safe frame r.1.1.1 r.1.1.2 ∧ Forall2 param_like params r.1.2).
Proof.
  intros Hi Ht Hready. pose proof (params_like_refl _ _ Ht) as Hlike. pose proof Ht as (a&b&c&d&->&Ha&Hb&Hc&Hd)%typed_inv.
  unfold TA_InvokeCommandEntryPoint, command_ready in *. pose proof Hi as [Hs Hst].
  destruct (cmd =? TEEP_AGENT_SET_DEV_OPTION); [|destruct (cmd =? TEEP_AGENT_BROKER_TASK_DONE);
    [|destruct (cmd =? TEEP_AGENT_QUERY_NEXT_BROKER_TASK); [|done]]]; apply wp_bind.
  - unfold handle_TEEP_AGENT_SET_DEV_OPTION.
    destruct (Z.eqb_spec types (TEE_PARAM_TYPES TEE_PARAM_TYPE_VALUE_INPUT TEE_PARAM_TYPE_MEMREF_INPUT
      TEE_PARAM_TYPE_NONE TEE_PARAM_TYPE_NONE)) as [->|]; cbn [negb]; [|done].
    destruct (typed_value _ _ Ha) as (o&?&->); [by left|].
    destruct (typed_memref _ _ Hb) as (value&size&->&Hsize); [by left|].
    destruct (Z.eqb_spec size 0); [done|].
    destruct (lookup_lt_is_Some_2 value (Z.to_nat (size - 1))) as [last Hx]; [lia|].
    assert (load value (size - 1) = Done (u8 last)) as Hl.
    { unfold load. destruct (Z.ltb_spec (size - 1) 0); [lia|]. by rewrite Hx. }
    rewrite Hl. cbn [mbind outcome_bind]. destruct (Z.eqb_spec (u8 last) 0) as [Hx0|]; cbn [negb]; [|done].
    rewrite Hx0 in Hl. destruct (last_nul _ _ Hl) as [v Hv].
    eapply wp_mono; [apply (set_dev_option_safe p s o value v Hs Hv)|].
    intros [s' ret] [Hs' Htok]. split; [|done]. split; [done|]. cbn in *. by rewrite Htok.
  - unfold handle_TEEP_AGENT_BROKER_TASK_DONE.
    destruct (Z.eqb_spec types (TEE_PARAM_TYPES TEE_PARAM_TYPE_MEMREF_INPUT TEE_PARAM_TYPE_NONE
      TEE_PARAM_TYPE_NONE TEE_PARAM_TYPE_NONE)) as [->|]; cbn [negb]; [|done].
    destruct (typed_memref _ _ Ha) as (buffer&size&->&Hsize); [by left|].
    rewrite range_bytes_load by done. cbn [mbind outcome_bind].
    eapply wp_mono; [by apply broker_task_done_safe|]. by intros [[g' s'] ret].
  - unfold handle_TEEP_AGENT_QUERY_NEXT_BROKER_TASK.
    destruct (Z.eqb_spec types (TEE_PARAM_TYPES TEE_PARAM_TYPE_VALUE_OUTPUT TEE_PARAM_TYPE_MEMREF_OUTPUT
      TEE_PARAM_TYPE_MEMREF_OUTPUT TEE_PARAM_TYPE_NONE)) as [->|]; cbn [negb]; [|done].
    destruct (typed_value _ _ Ha) as (a0&b0&->); [by right|].
    apply wp_bind. eapply wp_mono; [by apply query_total|]. intros s' (Hs'&Htok&Hon&[uri Huri]).
    assert (instance_safe frame g s') as Hi' by (split; [done|by rewrite Htok]).
    rewrite Huri. apply wp_bind. eapply wp_mono; [by apply (copyout_like _ b _ Hb)|]. intros [b' okb] Hb'.
    assert (∀ c', param_like c c' → Forall2 param_like [ParamValue a0 b0; b; c; d]
      [ParamValue (broker_command_value (t_command (task_buffer s'))) b0; b'; c'; d]) as Hty.
    { intros c' Hc'. repeat (constructor; [done|]). constructor; [by eapply param_like_refl|constructor]. }
    destruct okb; cbn [negb]; [|split; [done|by eapply Hty, param_like_refl]].
    rewrite range_bytes_load.
    2: { destruct Hs' as [[? ? Hd' Hl' ? ?] _ _ _ _]. rewrite Hd'. auto. }
    cbn [mbind outcome_bind]. apply wp_bind. eapply wp_mono; [by apply (copyout_like _ c _ Hc)|].
    intros [c' okc] Hc'. destruct okc; cbn [negb]; (split; [done|by apply Hty]).
Qed.

(** ** The answer to the question for a task *)

Lemma copyout_ok buffer size bytes :
  0 <= size <= Z.of_nat (length buffer) →
  copyout_param (ParamMemref buffer size) bytes =
  Done (if size <? Z.of_nat (length bytes) then (ParamMemref buffer size, false)
        else (ParamMemref (overwrite bytes buffer) (Z.of_nat (length bytes)), true)).
Proof.
  intros Hs. unfold copyout_param. destruct (Z.ltb_spec size (Z.of_nat (length bytes))); [done|].
  by rewrite bool_decide_true by lia.
Qed.

Definition task_bytes (s : teep_agent_session) : list byte :=
  take (Z.to_nat (post_data_len (task_buffer s))) (post_data (task_buffer s)).

(** The parameters and the result for the task of session [s] at [uri]. *)
Definition query_answer (s : teep_agent_session) (uri : list byte) (b : Z) (buf1 : list byte) (n1 : Z)
    (buf2 : list byte) (n2 : Z) : list TEE_Param * Z :=
  let command := ParamValue (broker_command_value (t_command (task_buffer s))) b in
  let copied bytes buf := ParamMemref (overwrite bytes buf) (Z.of_nat (length bytes)) in
  if n1 <? Z.of_nat (length (uri ++ [x00])) then
    ([command; ParamMemref buf1 n1; ParamMemref buf2 n2; ParamNone], TEE_ERROR_BAD_PARAMETERS)
  else if n2 <? Z.of_nat (length (task_bytes s)) then
    ([command; copied (uri ++ [x00]) buf1; ParamMemref buf2 n2; ParamNone], TEE_ERROR_BAD_PARAMETERS)
  else ([command; copied (uri ++ [x00]) buf1; copied (task_bytes s) buf2; ParamNone], TEE_SUCCESS).

Lemma query_handler_ok s s' uri a b buf1 n1 buf2 n2 :
  query_next_broker_task p slot_addr fuel 4 s = Done s' →
  session_wf s' → on_going_task s' = true → cstr (t_uri (task_buffer s')) = Some uri →
  0 <= n1 <= Z.of_nat (length buf1) → 0 <= n2 <= Z.of_nat (length buf2) →
  handle_TEEP_AGENT_QUERY_NEXT_BROKER_TASK p slot_addr fuel s query_types
    [ParamValue a b; ParamMemref buf1 n1; ParamMemref buf2 n2; ParamNone] =
  Done (s', (query_answer s' uri b buf1 n1 buf2 n2).1, (query_answer s' uri b buf1 n1 buf2 n2).2).
Proof.
  intros Hq [_ _ Hd Hl _ _] Hon Huri Hn1 Hn2. unfold handle_TEEP_AGENT_QUERY_NEXT_BROKER_TASK, query_answer.
  rewrite Z.eqb_refl. cbn [negb]. rewrite Hq. cbn [mbind outcome_bind]. rewrite Huri, copyout_ok by done.
  cbn [mbind outcome_bind]. destruct (n1 <? _); cbn [negb]; [done|].
  rewrite range_bytes_load by (rewrite Hd; auto). cbn [mbind outcome_bind].
  fold (task_bytes s'). rewrite copyout_ok by done. cbn [mbind outcome_bind]. by destruct (n2 <? _).
Qed.

(** C14: The question for the next task, in every state of a session: a task that
    is going on is given again, otherwise the next one is found, with a command
    of the state the session is then in.  The command is always handed out; the
    URI with its terminator and then the message only if they fit the buffers of
    the caller, which are not written otherwise. *)
Theorem agent_query_outcome s a b buf1 n1 buf2 n2 :
  session_safe s → query_ready slot_addr fuel s →
  0 <= n1 <= Z.of_nat (length buf1) → 0 <= n2 <= Z.of_nat (length buf2) →
  wp (handle_TEEP_AGENT_QUERY_NEXT_BROKER_TASK p slot_addr fuel s query_types
        [ParamValue a b; ParamMemref buf1 n1; ParamMemref buf2 n2; ParamNone])
     (fun '(s', params, ret) =>
        session_safe s' ∧ (on_going_task s = true → s' = s) ∧
        task_state (t_command (task_buffer s')) (state s') ∧
        ∃ uri, cstr (t_uri (task_buffer s')) = Some uri ∧
          (params, ret) = query_answer s' uri b buf1 n1 buf2 n2).
Proof.
  intros Hs Hready Hn1 Hn2.
  assert (on_going_task s = true → query_next_broker_task p slot_addr fuel 4 s = Done s) as Hagain.
  { intros Hon. cbn [query_next_broker_task]. by rewrite Hon. }
  destruct (wp_elim _ _ (query_total s Hs Hready)) as (s'&Hq&Hs'&_&Hon'&[uri Huri]).
  rewrite (query_handler_ok s s' uri) by (done || apply Hs').
  split; [done|]. split; [intros Hon%Hagain; congruence|]. split; [by apply Hs'|].
  exists uri. split; [done|]. by rewrite <-surjective_pairing.
Qed.
End commands.

(** ** A new session *)

(** Opening a session in a heap with nothing but the envelopes. *)
Lemma open_session_safe `{allocator} size g frame garbage h b s :
  garbage_ok garbage → store_safe g [] frame →
  teep_agent_session_create size (g_heap g) garbage = (h, Some (b, s)) →
  instance_safe (b :: frame) (Globals h (suit_manifests g)) s.
Proof.
  intros Hg [Hlen Hown Hacc]. unfold teep_agent_session_create.
  pose proof (accounts_malloc (g_heap g) size _ _ Hacc) as Hacc'.
  destruct (malloc (g_heap g) size) as [h' [b'|]]; intros [= -> -> <-].
  split; [by apply session_init_safe|]. exists []. split; [done|done|].
  eapply accounts_perm; [exact Hacc'|]. rewrite app_nil_r, blocks_cons, blocks_app. cbn.
  rewrite app_nil_r. change (stored_blocks (Globals h (suit_manifests g))) with (stored_blocks g).
  solve_Permutation.
Qed.

(** ** Witness *)

(** A session that was just created is asked to post to the URI that is set, the
    empty one, into a buffer of two bytes. *)
Lemma agent_query_outcome_witness :
  let _ := empty_encoder in
  ∃ s' ret params,
    @handle_TEEP_AGENT_QUERY_NEXT_BROKER_TASK empty_encoder PLAT_PC (fun _ => 0) enough_fuel blank_session
      query_types [ParamValue 9 7; ParamMemref [x01; x02] 2; ParamMemref [] 0; ParamNone] =
      Done (s', params, ret) ∧ session_safe s' ∧
    ∃ uri, cstr (t_uri (task_buffer s')) = Some uri ∧ (params, ret) = query_answer s' uri 7 [x01; x02] 2 [] 0.
Proof.
  intros e.
  destruct (wp_elim _ _ (@agent_query_outcome e empty_encoder_laws PLAT_PC (fun _ => 0) enough_fuel
    enough_fuel_ok blank_session 9 7 [x01; x02] 2 [] 0 blank_session_safe
    ltac:(split; [exists []; split; [done|cbn; lia]|split; [done|split; [done|done]]])
    ltac:(cbn; lia) ltac:(cbn; lia))) as ([[s' params] ret] & Hr & Hs & _ & _ & Hout).
  exists s', ret, params. split; [exact Hr|]. split; [exact Hs|]. exact Hout.
Defined.
