(* ===== verification/AgentUpdate.v ===== *)
(** * AgentUpdate: the outcome of an update

    What [handle_message] does with an update message in every state: which
    envelopes are stored, which manifests are added to the SUIT context, and the
    state afterwards. *)

From S2P Require Import Prelude Tcbor TcborFacts SuitTypes SuitParser SuitParserFacts.
From S2P Require Import SuitAuth SuitAuthFacts SuitContext SuitContextFacts SuitTheorems SuitRunner.
From S2P Require Import TeepMessage TeepMessageFacts TeepMessageTheorems TeepEncoder.
From S2P Require Import Agent AgentFacts AgentTheorems AgentCommands.

Local Open Scope Z_scope.

(** Adding the manifests of some envelopes to a context, in order: the context that
    results, and whether all were added.  It stops at the first envelope without room
    for its manifest, or whose manifest cannot be parsed; what that left in its slot
    stays there. *)
Inductive context_adds : suit_context → list useful_buf → suit_context → bool → Prop :=
  | adds_all p : context_adds p [] p true
  | adds_no_room p e es :
      n_manifest p = SUIT_MANIFEST_MAX → context_adds p (e :: es) p false
  | adds_not_parsed p e es slot m :
      (n_manifest p < SUIT_MANIFEST_MAX)%nat → manifests p !! n_manifest p = Some slot →
      suit_envelope_get_manifest (range_of e) slot = Done (m, None) →
      context_adds p (e :: es) (SuitContext (n_manifest p) (<[n_manifest p := m]> (manifests p))) false
  | adds_parsed p e es slot m p' ok :
      (n_manifest p < SUIT_MANIFEST_MAX)%nat → manifests p !! n_manifest p = Some slot →
      suit_envelope_get_manifest (range_of e) slot = Done (m, Some tt) →
      context_adds (SuitContext (S (n_manifest p)) (<[n_manifest p := m]> (manifests p))) es p' ok →
      context_adds p (e :: es) p' ok.

(** Then every envelope has its manifest behind those that were there. *)
Lemma context_adds_count p es p' :
  context_adds p es p' true →
  n_manifest p' = (n_manifest p + length es)%nat ∧
  ∀ i, (i < n_manifest p)%nat → manifests p' !! i = manifests p !! i.
Proof.
  remember true as ok eqn:Hok. induction 1 as [| | |p e es slot m p' ok Hn Hs Hm _ IH]; try done.
  destruct (IH Hok) as [-> Hold]. cbn in *. split; [lia|]. intros i Hi.
  rewrite Hold, list_lookup_insert_ne by lia. done.
Qed.

Section update.
Context `{Hal : allocator, Hcr : crypto_api, !crypto_laws}.

(** The second loop adds the stored envelopes from the last to the first. *)
Lemma add_envelopes_spec g es : ∀ c,
  context_ok c → Forall buffer_ok es →
  (∀ k e, es !! k = Some e → is_Some e ∧ ∃ b, suit_manifests g !! k = Some (Some (b, buf_bytes e))) →
  wp (add_envelopes g c (length es)) (fun '(c', ok) => context_adds c (reverse es) c' ok).
Proof.
  induction es as [|e es IH] using rev_ind; intros c Hc Hes Hst; [constructor|].
  rewrite length_app, Nat.add_comm, reverse_snoc. cbn [length Nat.add add_envelopes].
  apply Forall_app in Hes as [Hes He]. apply Forall_inv in He.
  destruct (Hst (length es) e) as ([bytes ->]&b&Hb); [by apply list_lookup_middle|]. rewrite Hb.
  cbn [fmap option_fmap option_map snd]. change (buf_bytes (Some bytes)) with bytes.
  unfold suit_context_add_envelope. destruct (Nat.eqb_spec (n_manifest c) SUIT_MANIFEST_MAX) as [Hmax|Hmax].
  { by apply adds_no_room. }
  pose proof Hc as (Hlen&Hn&Hslots).
  destruct (lookup_lt_is_Some_2 (manifests c) (n_manifest c)) as [slot Hslot]; [lia|]. rewrite Hslot.
  destruct (wp_elim _ _ (get_manifest_safe (range_of (Some bytes)) slot (buffer_range_ok _ He)
    (Forall_lookup_1 _ _ _ _ Hslots Hslot))) as ([m o]&Hm&Hmok&_).
 rewrite Hm. destruct o as [[]|]; cbn [or_else mbind outcome_bind].
  - eapply wp_mono; [apply IH; [|done|]|].
    + split; cbn; [by rewrite length_insert|]. split; [lia|]. by apply Forall_insert.
    + intros k x Hk. apply Hst. by apply lookup_app_l_Some.
    + intros [c' ok] Hadds. eapply adds_parsed; try done. lia.
  - eapply adds_not_parsed; try done. lia.
Qed.

(** C36: The outcome of an update in every state, for any allocator.  In the state
    that waits for it: if every envelope can be stored (there are at most two, they
    are authenticated with the built-in key, and there is memory), all are stored,
    their manifests are added to the context from the last to the first, and the
    runner is started if all could be added, and otherwise it is an error; if some
    envelope cannot be stored, the session is as it was, without an error, so the
    query response is sent again.  In any other state it is an error and nothing is
    stored. *)
Theorem agent_update_outcome frame blocks g s l :
  store_safe g blocks frame → context_ok (s_context s) → array_ok buffer_ok l →
  let stored i e := envelope_stored (h_next (g_heap g)) i e in
  wp (handle_update g s l) (fun '(g', s') =>
    if bool_decide (state s = AGENT_POSTING_QUERY_RESPONSE) then
      (∀ i e, arr_elems l !! i = Some e → stored i e) ∧
      (∀ i e, arr_elems l !! i = Some e → ∃ b, suit_manifests g' !! i = Some (Some (b, buf_bytes e))) ∧
      (∃ c ok, context_adds (s_context s) (reverse (arr_elems l)) c ok ∧
         s' = with_state (with_context s c) (if ok then AGENT_INIT_RUNNER else AGENT_POSTING_ERROR)) ∨
      (∃ i e, arr_elems l !! i = Some e ∧ ¬ stored i e) ∧ s' = s
    else g' = g ∧ s' = with_state s AGENT_POSTING_ERROR).
Proof.
  intros Hg Hc Hl stored. unfold handle_update. case_bool_decide; cbn [negb]; [|done].
  assert (length (arr_elems l) = arr_len l ∧ Forall buffer_ok (arr_elems l)) as [<- Hall].
  { destruct Hl as [->|(_&_&?&?)]; [|done]. split; [done|constructor]. }
  apply wp_bind.
  eapply wp_mono; [by apply (store_envelopes_spec (h_next (g_heap g)) _ g (arr_elems l) 0 blocks frame)|].
  intros [g1 ok]. destruct ok; cbn [negb].
  2: { intros (i&e&He&Hnot&_). right. split; [by exists i, e|done]. }
  intros (_&_&Hst). apply wp_bind. eapply wp_mono; [apply (add_envelopes_spec g1 (arr_elems l)); [done..|]|].
  - intros k e He. destruct (Hst k e ltac:(lia) He) as [(_&Hauth&_) Hb]. split; [|done].
    destruct e as [bytes|]; [by eexists|]. cbn [range_of] in Hauth. by rewrite authenticate_null in Hauth.
  - intros [c ok] Hadds.
    destruct ok; cbn [negb wp]; left;
      (split; [intros i e He; by apply Hst; [lia|]|split; [intros i e He; by apply Hst; [lia|]|]]); eauto.
Qed.
End update.

(** ** Witness

    The session that waits for an update gets one that is signed with the built-in
    key, and one that is not. *)

#[local] Existing Instances always_malloc toy_crypto toy_laws.

Definition signed_update : teep_array useful_buf :=
  Array true (Some 0%nat) [Some (sample_envelope tc_singer_pubkey)] 1.
Definition rejected_update : teep_array useful_buf := Array true (Some 0%nat) [Some [xa0]] 1.

(** An update of one envelope of at most 4096 bytes. *)
Lemma one_envelope_ok bytes :
  Nat.leb (length bytes) 4096 = true →
  array_ok buffer_ok (Array true (Some 0%nat) [Some bytes] 1 : teep_array useful_buf).
Proof.
  intros Hl%Nat.leb_le. right. split; [done|]. split; [by eexists|]. split; [done|].
  repeat constructor. cbn. unfold PTRDIFF_MAX. lia.
Qed.

Lemma zero_store_safe : store_safe zero_globals [] [].
Proof.
  split; [done|by repeat constructor|]. split; [|done]. split; [constructor|]. by intros b Hb%elem_of_nil.
Qed.

Definition state_after (o : outcome (agent_globals * teep_agent_session)) : option agent_state :=
  match o with Done (_, s) => Some (state s) | _ => None end.

Lemma agent_update_outcome_witness :
  (∃ g c, handle_update zero_globals waiting_session signed_update =
     Done (g, with_state (with_context waiting_session c) AGENT_INIT_RUNNER) ∧
     context_adds (s_context waiting_session) [Some (sample_envelope tc_singer_pubkey)] c true) ∧
  ∃ g, handle_update zero_globals waiting_session rejected_update = Done (g, waiting_session).
Proof.
  assert (context_ok (s_context waiting_session)) as Hc by apply context_init_ok.
  split.
  - pose proof (agent_update_outcome [] [] zero_globals waiting_session signed_update zero_store_safe Hc
      (one_envelope_ok (sample_envelope tc_singer_pubkey) ltac:(by vm_compute))) as Ho.
    assert (state_after (handle_update zero_globals waiting_session signed_update) = Some AGENT_INIT_RUNNER) as Hst
      by by vm_compute.
    destruct (handle_update zero_globals waiting_session signed_update) as [| |[g s]]; [done..|].
    cbn in Ho, Hst. destruct Ho as [(_&_&c&ok&Hadds&->)|[_ ->]]; [|done].
    destruct ok; [|done]. by exists g, c.
  - pose proof (agent_update_outcome [] [] zero_globals waiting_session rejected_update zero_store_safe Hc
      (one_envelope_ok [xa0] ltac:(by vm_compute))) as Ho.
    destruct (handle_update zero_globals waiting_session rejected_update) as [| |[g s]]; [done..|].
    cbn in Ho. destruct Ho as [(Hst&_)|[_ ->]]; [|by exists g].
    destruct (Hst 0%nat (Some [xa0]) eq_refl) as (_&Hauth&_). by vm_compute in Hauth.
Defined.
