(* ===== verification/Store.v ===== *)
(** * Store: installation of components

    [ta-store.c]: [install_ta] writes the image of a component to a file, with the
    calls of each platform, or hands it to the secure storage of OP-TEE.  These
    calls are the class [store_api]; [store_laws] says what POSIX and OP-TEE promise
    of them. *)

From stdpp Require Import countable gmap.
From S2P Require Import Prelude Agent.

Local Open Scope Z_scope.

#[export] Instance byte_countable : Countable byte :=
  inj_countable Byte.to_N Byte.of_N Byte.of_to_N.

(** ** The calls of the platforms *)

Definition O_WRONLY : Z := 1.
Definition O_RDWR : Z := 2.
Definition O_CREAT : Z := 64.
Definition O_TRUNC : Z := 512.
Definition PTA_SECSTOR_TA_MGMT_BOOTSTRAP : Z := 0.

(** A file is named by a number; [None] is the null pointer of [fopen].  The
    generated calls of an SGX enclave return a status, and write their result
    through the first argument only if it is 0. *)
Class store_api := {
  files : Type;
  fopen_write : files → list byte → files * option Z;
  fwrite : files → Z → list byte → files * Z;
  fclose : files → Z → files * Z;
  ocall_open_file : files → list byte → Z → files * Z;
  ocall_write_file_full : files → Z → list byte → files * Z;
  ocall_close_file : files → Z → files;
  sgx_open_file : files → list byte → Z → files * Z * Z;
  sgx_write_file : files → Z → list byte → files * Z * Z;
  sgx_close_file : files → Z → files * Z * Z;
  TEE_OpenTASession : files → files * Z * Z;
  TEE_InvokeTACommand : files → Z → Z → list byte → files * Z;
  TEE_CloseTASession : files → Z → files
}.

Section install.
Context `{store_api}.

(** The result of [fclose] is not looked at. *)
Definition install_ta_pc (w : files) (filename image : list byte) : files * bool :=
  let '(w, fd) := fopen_write w filename in
  match fd with
  | None => (w, false)
  | Some fd =>
      let '(w, bytes) := fwrite w fd image in
      let ret := negb (bytes <? Z.of_nat (length image)) in
      ((fclose w fd).1, ret)
  end.

(** [n != image_len] compares a [size_t]. *)
Definition install_ta_keystone (w : files) (filename image : list byte) : files * bool :=
  let '(w, fd) := ocall_open_file w filename (Z.lor O_CREAT O_WRONLY) in
  if fd <? 0 then (w, false)
  else
    let '(w, n) := ocall_write_file_full w fd image in
    let ret := to_u64 n =? Z.of_nat (length image) in
    (ocall_close_file w fd, ret).

(** [garbage]: what [fd] holds before it is written. *)
Definition install_ta_sgx (garbage : Z) (w : files) (filename image : list byte) : files * bool :=
  let '(w, status, opened) := sgx_open_file w filename (Z.lor O_RDWR O_CREAT) in
  let fd := if status =? 0 then opened else garbage in
  let retval := to_int status in
  if retval <? 0 then (w, false)
  else
    let '(w, status, written) := sgx_write_file w fd image in
    let retval := if status =? 0 then written else retval in
    let ret := to_u64 retval =? Z.of_nat (length image) in
    let '(w, _, _) := sgx_close_file w fd in
    (w, ret).

Definition install_ta_optee (w : files) (image : list byte) : files * bool :=
  let '(w, res, sess) := TEE_OpenTASession w in
  if negb (res =? TEE_SUCCESS) then (w, false)
  else
    let '(w, res) := TEE_InvokeTACommand w sess PTA_SECSTOR_TA_MGMT_BOOTSTRAP image in
    (TEE_CloseTASession w sess, res =? TEE_SUCCESS).

Definition install_ta (p : platform) (garbage : Z) (w : files) (filename image : list byte) : files * bool :=
  match p with
  | PLAT_PC => install_ta_pc w filename image
  | PLAT_KEYSTONE => install_ta_keystone w filename image
  | PLAT_SGX => install_ta_sgx garbage w filename image
  | PLAT_OPTEE => install_ta_optee w image
  end.

(** [store_component] of [ta-store.c]; the one of Agent is its trace. *)
Definition store_file (p : platform) (garbage : Z) (w : files) (path : component_path) (image : list byte)
    : files * bool :=
  install_ta p garbage w (filename path) image.

(** The installations of a trace, one after the other; the agent does not look at
    the results. *)
Fixpoint store_all (p : platform) (garbage : Z) (w : files) (trace : list (component_path * list byte)) : files :=
  match trace with
  | [] => w
  | (path, image) :: trace => store_all p garbage (store_file p garbage w path image).1 trace
  end.
End install.

(** ** What the calls promise *)

(** The files by name, the name and position of the files that are open, the
    applications in the secure storage, and the open sessions of OP-TEE. *)
Record store_view := StoreView {
  sv_files : gmap (list byte) (list byte);
  sv_open : gmap Z (list byte * nat);
  sv_applications : list (list byte);
  sv_sessions : gset Z
}.

Definition with_files (v : store_view) (files : gmap (list byte) (list byte)) (open : gmap Z (list byte * nat)) :=
  StoreView files open (sv_applications v) (sv_sessions v).

(** A file is opened with the number [n], or none is and [n] is negative. *)
Definition file_opened (v v' : store_view) (name : list byte) (truncate : bool) (n : Z) : Prop :=
  n < 0 ∧ v' = v ∨
  0 <= n ∧ sv_open v !! n = None ∧
  v' = with_files v (<[name := if truncate then [] else default [] (sv_files v !! name)]> (sv_files v))
         (<[n := (name, 0%nat)]> (sv_open v)).

(** The first [n] bytes are written, none if [n] is negative. *)
Definition file_written (v v' : store_view) (fd : Z) (bytes : list byte) (n : Z) : Prop :=
  match sv_open v !! fd with
  | Some (name, pos) =>
      n < 0 ∧ v' = v ∨
      0 <= n <= Z.of_nat (length bytes) ∧
      v' = with_files v
             (<[name := write_at (default [] (sv_files v !! name)) pos (take (Z.to_nat n) bytes)]> (sv_files v))
             (<[fd := (name, (pos + Z.to_nat n)%nat)]> (sv_open v))
  | None => n < 0 ∧ v' = v
  end.

Definition file_closed (v v' : store_view) (fd : Z) : Prop :=
  v' = with_files v (sv_files v) (delete fd (sv_open v)).

(** A file whose last bytes could not be written when it was closed. *)
Definition file_spoilt (v v' : store_view) (fd : Z) : Prop :=
  match sv_open v !! fd with
  | Some (name, _) => ∃ contents, v' = with_files v (<[name := contents]> (sv_files v)) (delete fd (sv_open v))
  | None => True
  end.

Definition truncates (flags : Z) : bool := negb (Z.land flags O_TRUNC =? 0).
Definition is_int (n : Z) : Prop := INT_MIN <= n <= INT_MAX.

Class store_laws `{store_api} := {
  view : files → store_view;
  view_open : ∀ w n, n < 0 → sv_open (view w) !! n = None;
  fopen_law : ∀ w name, let '(w', fd) := fopen_write w name in
    file_opened (view w) (view w') name true (default (-1) fd) ∧ (∀ n, fd = Some n → 0 <= n);
  fwrite_law : ∀ w fd bytes, let '(w', n) := fwrite w fd bytes in
    is_Some (sv_open (view w) !! fd) → file_written (view w) (view w') fd bytes n;
  (** A file is written in full once it is closed without an error. *)
  fclose_law : ∀ w fd, let '(w', r) := fclose w fd in
    if r =? 0 then file_closed (view w) (view w') fd else file_spoilt (view w) (view w') fd;
  open_law : ∀ w name flags, let '(w', n) := ocall_open_file w name flags in
    file_opened (view w) (view w') name (truncates flags) n ∧ is_int n;
  write_law : ∀ w fd bytes, let '(w', n) := ocall_write_file_full w fd bytes in
    file_written (view w) (view w') fd bytes n ∧ is_int n;
  close_law : ∀ w fd, file_closed (view w) (view (ocall_close_file w fd)) fd;
  (** The generated calls of SGX: with a status of 0 the host has answered, with any
      other status it may have done what was asked, or nothing. *)
  sgx_open_law : ∀ w name flags, let '(w', status, n) := sgx_open_file w name flags in
    if status =? 0 then file_opened (view w) (view w') name (truncates flags) n ∧ is_int n
    else view w' = view w ∨ ∃ n, file_opened (view w) (view w') name (truncates flags) n;
  sgx_write_law : ∀ w fd bytes, let '(w', status, n) := sgx_write_file w fd bytes in
    if status =? 0 then file_written (view w) (view w') fd bytes n ∧ is_int n
    else view w' = view w ∨ ∃ n, file_written (view w) (view w') fd bytes n;
  sgx_close_law : ∀ w fd, let '(w', status, _) := sgx_close_file w fd in
    if status =? 0 then file_closed (view w) (view w') fd
    else view w' = view w ∨ file_closed (view w) (view w') fd;
  (** Sessions of the secure storage. *)
  session_law : ∀ w, let '(w', res, sess) := TEE_OpenTASession w in let v := view w in
    if res =? TEE_SUCCESS then
      (sess ∉ sv_sessions v) ∧
      view w' = StoreView (sv_files v) (sv_open v) (sv_applications v) ({[sess]} ∪ sv_sessions v)
    else view w' = v;
  bootstrap_law : ∀ w sess image, let v := view w in sess ∈ sv_sessions v →
    let '(w', res) := TEE_InvokeTACommand w sess PTA_SECSTOR_TA_MGMT_BOOTSTRAP image in
    view w' = StoreView (sv_files v) (sv_open v)
      (sv_applications v ++ (if res =? TEE_SUCCESS then [image] else [])) (sv_sessions v);
  session_closed_law : ∀ w sess, let v := view w in
    view (TEE_CloseTASession w sess) =
      StoreView (sv_files v) (sv_open v) (sv_applications v) (sv_sessions v ∖ {[sess]})
}.
