(* ===== verification/StoreTheorems.v ===== *)
(** * StoreTheorems: installation of components

    An installation leaves nothing open and touches one file; if it succeeds the
    image is in the file, on Keystone and SGX with what a longer file held behind
    it.  The code does not look at every result of its calls: what happens on PC if a
    file cannot be closed, and on SGX if a call does not come through to the host, is
    stated, too. *)

From stdpp Require Import countable gmap.
From S2P Require Import Prelude Agent Store.

Local Open Scope Z_scope.

(** ** Files *)

(** A file is opened, written and closed. *)
Lemma file_round v v1 v2 v3 name tr n image m :
  file_opened v v1 name tr n → 0 <= n → file_written v1 v2 n image m → file_closed v2 v3 n →
  m <= Z.of_nat (length image) ∧
  v3 = with_files v
    (<[name := write_at (if tr then [] else default [] (sv_files v !! name)) 0 (take (Z.to_nat m) image)]> (sv_files v))
    (sv_open v).
Proof.
  intros [[? _]|(_&Hn&->)] Hn0; [lia|]. unfold file_written, file_closed. cbn.
  rewrite lookup_insert_eq, lookup_insert_eq. cbn.
  intros [[Hm ->]|[Hm ->]] ->; cbn; rewrite ?insert_insert_eq, delete_insert_id by done; (split; [lia|]).
  - unfold with_files, write_at. cbn. destruct m; try lia. cbn. by rewrite take_0, drop_0.
  - done.
Qed.

(** A number of bytes of an [int] against the length of the image. *)
Lemma all_written n (image : list byte) :
  is_int n → Z.of_nat (length image) <= PTRDIFF_MAX → n <= Z.of_nat (length image) →
  (to_u64 n =? Z.of_nat (length image)) = true → take (Z.to_nat n) image = image.
Proof.
  unfold is_int, INT_MIN, INT_MAX, PTRDIFF_MAX. intros Hn Hl Hle Heq%Z.eqb_eq. apply take_ge.
  unfold to_u64, u64_modulus in Heq. destruct (Z.ltb_spec n 0).
  - rewrite <-(Z_mod_plus_full n 1), Z.mod_small in Heq by lia. lia.
  - rewrite Z.mod_small in Heq by lia. lia.
Qed.

(** ** The result of an installation *)

(** What the image is written over. *)
Definition base (p : platform) (old : option (list byte)) : list byte :=
  match p with PLAT_PC => [] | _ => default [] old end.

Definition image_stored (p : platform) (v v' : store_view) (name image : list byte) : Prop :=
  match p with
  | PLAT_OPTEE => sv_files v' = sv_files v ∧ sv_applications v' = sv_applications v ++ [image]
  | _ =>
      sv_files v' = <[name := write_at (base p (sv_files v !! name)) 0 image]> (sv_files v) ∧
      sv_applications v' = sv_applications v
  end.

(** The beginning of the image may have been written. *)
Definition image_refused (p : platform) (v v' : store_view) (name image : list byte) : Prop :=
  sv_applications v' = sv_applications v ∧
  (sv_files v' = sv_files v ∨
   p ≠ PLAT_OPTEE ∧ ∃ n, sv_files v' =
     <[name := write_at (base p (sv_files v !! name)) 0 (take n image)]> (sv_files v)).

Definition install_outcome (p : platform) (v v' : store_view) (name image : list byte) (ok : bool) : Prop :=
  sv_open v' = sv_open v ∧ sv_sessions v' = sv_sessions v ∧
  if ok then image_stored p v v' name image else image_refused p v v' name image.

Lemma unchanged_refused p v name image : install_outcome p v v name image false.
Proof. split; [done|]. split; [done|]. split; [done|by left]. Qed.

(** The last step of the three platforms with files. *)
Lemma written_outcome p v name image n ok :
  p ≠ PLAT_OPTEE → (ok = true → take n image = image) →
  install_outcome p v
    (with_files v (<[name := write_at (base p (sv_files v !! name)) 0 (take n image)]> (sv_files v)) (sv_open v))
    name image ok.
Proof.
  intros Hp Hok. split; [done|]. split; [done|]. destruct ok.
  - rewrite Hok by done. by destruct p.
  - split; [done|]. right. split; [done|]. by exists n.
Qed.

(** ** What a descriptor can touch

    The file [name], and what the number [fd] refers to. *)

Definition only_touches (fd : Z) (name : list byte) (v v' : store_view) : Prop :=
  sv_applications v' = sv_applications v ∧ sv_sessions v' = sv_sessions v ∧
  (∀ x, x ≠ name → (∀ pos, sv_open v !! fd ≠ Some (x, pos)) → sv_files v' !! x = sv_files v !! x) ∧
  (∀ n o, n ≠ fd → sv_open v !! n = Some o → sv_open v' !! n = Some o) ∧
  (∀ n x pos, sv_open v' !! n = Some (x, pos) → x = name ∨ ∃ pos', sv_open v !! n = Some (x, pos')).

Lemma touches_refl fd name v : only_touches fd name v v.
Proof. split; [done|]. split; [done|]. split; [done|]. split; [done|]. eauto. Qed.

Lemma touches_trans fd name v1 v2 v3 :
  only_touches fd name v1 v2 → only_touches fd name v2 v3 → only_touches fd name v1 v3.
Proof.
  intros (Ha&Hs&Hf&Ho&Hn) (Ha'&Hs'&Hf'&Ho'&Hn'). split; [congruence|]. split; [congruence|]. split; [|split].
  - intros x Hx Hfd. rewrite Hf'; [by apply Hf|done|]. intros pos Hpos. apply Hn in Hpos as [?|[pos' ?]]; [done|].
    by eapply Hfd.
  - eauto.
  - intros n x pos Hpos. apply Hn' in Hpos as [?|[pos' Hpos]]; eauto.
Qed.

Lemma touches_opened fd name tr n v v' : file_opened v v' name tr n → only_touches fd name v v'.
Proof.
  intros [[_ ->]|(_&Hn&->)]; [apply touches_refl|]. split; [done|]. split; [done|]. cbn. split; [|split].
  - intros x Hx _. by rewrite lookup_insert_ne.
  - intros k o _ Hk. rewrite lookup_insert_ne; [done|]. by intros <-; rewrite Hn in Hk.
  - intros k x pos. destruct (decide (n = k)) as [->|]; [rewrite lookup_insert_eq|rewrite lookup_insert_ne by done].
    + intros [= <- _]. by left.
    + eauto.
Qed.

Lemma touches_written fd name bytes n v v' : file_written v v' fd bytes n → only_touches fd name v v'.
Proof.
  unfold file_written. destruct (sv_open v !! fd) as [[x pos]|] eqn:Hfd.
  2: { intros [_ ->]. apply touches_refl. }
  intros [[_ ->]|[_ ->]]; [apply touches_refl|]. split; [done|]. split; [done|]. cbn. split; [|split].
  - intros y _ Hy. rewrite lookup_insert_ne; [done|]. intros ->. by eapply Hy.
  - intros k o Hk. by rewrite lookup_insert_ne.
  - intros k y pos'. destruct (decide (fd = k)) as [->|]; [rewrite lookup_insert_eq|rewrite lookup_insert_ne by done].
    + intros [= <- _]. eauto.
    + eauto.
Qed.

Lemma touches_closed fd name v v' : file_closed v v' fd → only_touches fd name v v'.
Proof.
  intros ->. split; [done|]. split; [done|]. cbn. split; [done|]. split.
  - intros k o Hk. by rewrite lookup_delete_ne.
  - intros k x pos [_ Hk]%lookup_delete_Some. eauto.
Qed.

(** A number that is not in use only leads to the file that is opened with it. *)
Lemma touches_fresh fd name v v' x :
  only_touches fd name v v' → sv_open v !! fd = None →
  (x ≠ name → sv_files v' !! x = sv_files v !! x) ∧
  (∀ n o, sv_open v !! n = Some o → sv_open v' !! n = Some o).
Proof.
  intros (_&_&Hf&Ho&_) Hfd. split.
  - intros Hx. apply Hf; [done|]. by rewrite Hfd.
  - intros n o Hn. apply Ho; [|done]. by intros ->; rewrite Hfd in Hn.
Qed.

(** ** Opening by number, as Keystone and SGX do *)

(** [view_open] of a view. *)
Definition numbers_ok (v : store_view) : Prop := ∀ n, n < 0 → sv_open v !! n = None.

(** A negative number of bytes is never the length of the image. *)
Lemma not_written m (image : list byte) :
  is_int m → Z.of_nat (length image) <= PTRDIFF_MAX → m < 0 → (to_u64 m =? Z.of_nat (length image)) = false.
Proof.
  unfold is_int, INT_MIN, PTRDIFF_MAX, to_u64, u64_modulus. intros Hm Hl Hneg. apply Z.eqb_neq.
  rewrite <-(Z_mod_plus_full m 1), Z.mod_small by lia. lia.
Qed.

Lemma install_number_correct p v v1 v2 v3 name image n m :
  p ≠ PLAT_OPTEE → p ≠ PLAT_PC → Z.of_nat (length image) <= PTRDIFF_MAX → numbers_ok v →
  file_opened v v1 name false n → file_written v1 v2 n image m → is_int m → file_closed v2 v3 n →
  install_outcome p v v3 name image (to_u64 m =? Z.of_nat (length image)).
Proof.
  intros Hp Hpc Hl Hneg Ho Hw Hm Hc. destruct (Z.ltb_spec n 0) as [Hn|Hn].
  - destruct Ho as [[_ ->]|[? _]]; [|lia]. unfold file_written in Hw. rewrite Hneg in Hw by done.
    destruct Hw as [Hm0 ->]. rewrite not_written by done. rewrite Hc. unfold with_files.
    rewrite delete_id by by apply Hneg. by destruct v; apply unchanged_refused.
  - destruct (file_round _ _ _ _ _ _ _ _ _ Ho Hn Hw Hc) as [Hle ->].
    replace (default [] (sv_files v !! name)) with (base p (sv_files v !! name)) by by destruct p.
    apply written_outcome; [done|]. by apply all_written.
Qed.

(** ** Calls that fail without a look at it *)

(** The file could not be closed: it may hold anything. *)
Definition flush_failed (v v' : store_view) (name : list byte) : Prop :=
  sv_open v' = sv_open v ∧ sv_sessions v' = sv_sessions v ∧ sv_applications v' = sv_applications v ∧
  ∃ contents, sv_files v' = <[name := contents]> (sv_files v).

(** Some call of SGX did not come through.  If it was the first, the number in use
    is [garbage]; and without an answer to the second, the length of the image is
    compared with the status of the first. *)
Definition calls_lost (garbage : Z) (statuses : Z * Z * Z) (v v' : store_view) (name image : list byte)
    (ok : bool) : Prop :=
  let '(opened, written, closed) := statuses in
  sv_applications v' = sv_applications v ∧ sv_sessions v' = sv_sessions v ∧
  (∀ x, x ≠ name → opened = 0 ∨ (∀ pos, sv_open v !! garbage ≠ Some (x, pos)) →
     sv_files v' !! x = sv_files v !! x) ∧
  (∀ n o, sv_open v !! n = Some o → opened = 0 ∨ n ≠ garbage → sv_open v' !! n = Some o) ∧
  (∀ n x pos, sv_open v' !! n = Some (x, pos) → x = name ∨ ∃ pos', sv_open v !! n = Some (x, pos')) ∧
  (written ≠ 0 → ok = bool_decide (to_int opened = Z.of_nat (length image))) ∧
  (written = 0 → opened = 0 →
     if ok then image_stored PLAT_SGX v v' name image else image_refused PLAT_SGX v v' name image) ∧
  (written = 0 → opened ≠ 0 → ok = true →
     ∃ x pos, sv_files v' !! x = Some (write_at (default [] (sv_files v !! x)) pos image)).

Section installs.
Context `{store_laws}.

(** The statuses of the three calls of [install_ta_sgx]. *)
Definition sgx_statuses (garbage : Z) (w : files) (name image : list byte) : Z * Z * Z :=
  let '(w, opened, n) := sgx_open_file w name (Z.lor O_RDWR O_CREAT) in
  let fd := if opened =? 0 then n else garbage in
  let '(w, written, _) := sgx_write_file w fd image in
  let '(_, closed, _) := sgx_close_file w fd in
  (opened, written, closed).

Definition all_zero (statuses : Z * Z * Z) : bool :=
  let '(opened, written, closed) := statuses in (opened =? 0) && (written =? 0) && (closed =? 0).

(** Whether the file is closed without an error on PC. *)
Definition pc_closes (w : files) (name image : list byte) : bool :=
  let '(w, fd) := fopen_write w name in
  match fd with
  | None => true
  | Some fd => (fclose (fwrite w fd image).1 fd).2 =? 0
  end.

Lemma install_pc_correct w name image :
  let '(w', ok) := install_ta_pc w name image in
  if pc_closes w name image then install_outcome PLAT_PC (view w) (view w') name image ok
  else flush_failed (view w) (view w') name.
Proof.
  unfold install_ta_pc, pc_closes. pose proof (fopen_law w name) as Hopen.
  destruct (fopen_write w name) as [w1 [fd|]]; destruct Hopen as [Ho Hn]; cbn in Ho.
  2: { destruct Ho as [[_ ->]|[? _]]; [apply unchanged_refused|lia]. }
  specialize (Hn fd eq_refl). pose proof (fwrite_law w1 fd image) as Hwrite.
  destruct (fwrite w1 fd image) as [w2 n]. pose proof (fclose_law w2 fd) as Hclose. cbn [fst].
  assert (is_Some (sv_open (view w1) !! fd)) as Hfd.
  { destruct Ho as [[? _]|(_&_&->)]; [lia|]. cbn. rewrite lookup_insert_eq. by eexists. }
  specialize (Hwrite Hfd). destruct (fclose w2 fd) as [w3 r]. cbn [fst snd]. destruct (r =? 0).
  - destruct (file_round _ _ _ _ _ _ _ _ _ Ho Hn Hwrite Hclose) as [Hle ->].
    apply (written_outcome PLAT_PC); [done|]. intros Hlt%negb_true_iff%Z.ltb_ge. apply take_ge. lia.
  - destruct Ho as [[? _]|(_&Hfresh&Hv1)]; [lia|]. unfold file_spoilt, file_written in *.
    rewrite Hv1 in Hwrite. cbn in Hwrite. rewrite lookup_insert_eq in Hwrite.
    destruct Hwrite as [[_ Hv2]|[_ Hv2]]; rewrite Hv2 in Hclose; cbn in Hclose; rewrite lookup_insert_eq in Hclose;
      destruct Hclose as [contents ->]; cbn; rewrite ?insert_insert_eq, delete_insert_id by done;
      (split; [done|]; split; [done|]; split; [done|]; by exists contents).
Qed.

Lemma install_keystone_correct w name image :
  Z.of_nat (length image) <= PTRDIFF_MAX →
  let '(w', ok) := install_ta_keystone w name image in
  install_outcome PLAT_KEYSTONE (view w) (view w') name image ok.
Proof.
  intros Hl. unfold install_ta_keystone. pose proof (open_law w name (Z.lor O_CREAT O_WRONLY)) as Hopen.
  destruct (ocall_open_file _ _ _) as [w1 fd]. destruct Hopen as [Ho _]. destruct (Z.ltb_spec fd 0).
  { destruct Ho as [[_ ->]|[? _]]; [apply unchanged_refused|lia]. }
  pose proof (write_law w1 fd image) as Hwrite. destruct (ocall_write_file_full _ _ _) as [w2 n].
  destruct Hwrite as [Hw Hn]. pose proof (view_open w).
  eapply install_number_correct; (done || apply close_law).
Qed.

(** *** SGX *)

(** What each call touches, whatever its status. *)
Lemma sgx_open_touches fd w name flags :
  truncates flags = false →
  let '(w', _, _) := sgx_open_file w name flags in only_touches fd name (view w) (view w').
Proof.
  intros _. pose proof (sgx_open_law w name flags) as Hlaw. destruct (sgx_open_file _ _ _) as [[w' st] n].
  destruct (st =? 0); [destruct Hlaw as [Ho _]; by eapply touches_opened|].
  destruct Hlaw as [->|[k Ho]]; [apply touches_refl|by eapply touches_opened].
Qed.

Lemma sgx_write_touches w fd name image :
  let '(w', _, _) := sgx_write_file w fd image in only_touches fd name (view w) (view w').
Proof.
  pose proof (sgx_write_law w fd image) as Hlaw. destruct (sgx_write_file _ _ _) as [[w' st] n].
  destruct (st =? 0); [destruct Hlaw as [Hw _]; by eapply touches_written|].
  destruct Hlaw as [->|[k Hw]]; [apply touches_refl|by eapply touches_written].
Qed.

Lemma sgx_close_touches w fd name :
  let '(w', _, _) := sgx_close_file w fd in
  only_touches fd name (view w) (view w') ∧ sv_files (view w') = sv_files (view w).
Proof.
  pose proof (sgx_close_law w fd) as Hlaw. destruct (sgx_close_file _ _) as [[w' st] n].
  destruct (st =? 0); [split; [by apply touches_closed|by rewrite Hlaw]|].
  destruct Hlaw as [->|Hc]; [by split; [apply touches_refl|]|]. split; [by apply touches_closed|by rewrite Hc].
Qed.

(** The image written with a number that comes from nowhere. *)
Lemma stray_written v v1 v2 fd name image m :
  Z.of_nat (length image) <= PTRDIFF_MAX → (v1 = v ∨ ∃ n, file_opened v v1 name false n) →
  file_written v1 v2 fd image m → is_int m → (to_u64 m =? Z.of_nat (length image)) = true →
  ∃ x pos, sv_files v2 !! x = Some (write_at (default [] (sv_files v !! x)) pos image).
Proof.
  intros Hl Ho Hw Hm Hok. unfold file_written in Hw. destruct (sv_open v1 !! fd) as [[x pos]|].
  2: { destruct Hw as [Hneg _]. by rewrite not_written in Hok. }
  destruct Hw as [[Hneg _]|[Hn ->]]; [by rewrite not_written in Hok|]. exists x, pos. cbn.
  rewrite lookup_insert_eq, (all_written m image) by (done || lia). do 2 f_equal.
  destruct Ho as [->|[n [[_ ->]|(_&_&->)]]]; [done..|]. cbn.
  destruct (decide (name = x)) as [->|]; [by rewrite lookup_insert_eq|by rewrite lookup_insert_ne].
Qed.

(** The part of [calls_lost] on what is touched. *)
Lemma lost_touches garbage s1 fd v v' name :
  only_touches fd name v v' → (s1 = 0 → sv_open v !! fd = None) → (s1 ≠ 0 → fd = garbage) →
  sv_applications v' = sv_applications v ∧ sv_sessions v' = sv_sessions v ∧
  (∀ x, x ≠ name → s1 = 0 ∨ (∀ pos, sv_open v !! garbage ≠ Some (x, pos)) → sv_files v' !! x = sv_files v !! x) ∧
  (∀ n o, sv_open v !! n = Some o → s1 = 0 ∨ n ≠ garbage → sv_open v' !! n = Some o) ∧
  (∀ n x pos, sv_open v' !! n = Some (x, pos) → x = name ∨ ∃ pos', sv_open v !! n = Some (x, pos')).
Proof.
  intros Ht Hfresh Hgarbage. pose proof Ht as (Ha&Hs&Hf&Ho&Hn).
  split; [done|]. split; [done|]. destruct (decide (s1 = 0)) as [Hz|Hz].
  - pose proof (fun x => touches_fresh fd name v v' x Ht (Hfresh Hz)) as Hx.
    split; [intros x Hne _; by apply Hx|]. split; [intros n o Hno _; by apply (Hx name)|done].
  - rewrite (Hgarbage Hz) in *. split; [intros x Hne [?|Hpos]; [done|by apply Hf]|].
    split; [intros n o Hno [?|Hne]; [done|by apply Ho]|done].
Qed.

(** Without an answer to the second call. *)
Lemma status_as_length status (image : list byte) :
  (to_int status <? 0) = false →
  (to_u64 (to_int status) =? Z.of_nat (length image)) = bool_decide (to_int status = Z.of_nat (length image)).
Proof.
  intros Hs%Z.ltb_ge. pose proof (to_int_range status) as Hr. unfold INT_MAX in Hr.
  rewrite to_u64_small by (unfold u64_modulus; lia). by case_bool_decide; rewrite ?Z.eqb_eq, ?Z.eqb_neq.
Qed.

Lemma install_sgx_correct garbage w name image :
  Z.of_nat (length image) <= PTRDIFF_MAX →
  let '(w', ok) := install_ta_sgx garbage w name image in
  let statuses := sgx_statuses garbage w name image in
  if all_zero statuses then install_outcome PLAT_SGX (view w) (view w') name image ok
  else calls_lost garbage statuses (view w) (view w') name image ok.
Proof.
  intros Hl. unfold install_ta_sgx, sgx_statuses.
  pose proof (sgx_open_law w name (Z.lor O_RDWR O_CREAT)) as Hopen.
  pose proof (fun fd => sgx_open_touches fd w name (Z.lor O_RDWR O_CREAT) eq_refl) as Ht1.
  destruct (sgx_open_file _ _ _) as [[w1 s1] n]. change (truncates (Z.lor O_RDWR O_CREAT)) with false in Hopen.
  set (fd := if s1 =? 0 then n else garbage).
  pose proof (sgx_write_law w1 fd image) as Hwrite. pose proof (sgx_write_touches w1 fd name image) as Ht2.
  destruct (sgx_write_file w1 fd image) as [[w2 s2] m].
  pose proof (sgx_close_law w2 fd) as Hclose. pose proof (sgx_close_touches w2 fd name) as Ht3.
  destruct (sgx_close_file w2 fd) as [[w3 s3] c]. destruct Ht3 as [Ht3 Hfiles]. specialize (Ht1 fd).
  pose proof (view_open w) as Hneg.
  assert (s1 = 0 → sv_open (view w) !! fd = None) as Hfresh.
  { intros Hz. unfold fd. rewrite Hz in *. cbn in Hopen |- *. destruct Hopen as [[[? _]|(_&?&_)] _]; [by apply Hneg|done]. }
  assert (s1 ≠ 0 → fd = garbage) as Hgarbage by by intros Hz%Z.eqb_neq; unfold fd; rewrite Hz.
  cbn [all_zero]. destruct (to_int s1 <? 0) eqn:Hint.
  { assert ((s1 =? 0) = false) as Hz by by apply Z.eqb_neq; intros ->. rewrite Hz. cbn [andb].
    pose proof (lost_touches garbage s1 fd _ _ name Ht1 Hfresh Hgarbage) as (?&?&?&?&?).
    apply Z.eqb_neq in Hz. apply Z.ltb_lt in Hint. split_and!; try done. intros _.
    by rewrite bool_decide_false by lia. }
  set (ok := to_u64 (if s2 =? 0 then m else to_int s1) =? Z.of_nat (length image)).
  destruct ((s1 =? 0) && (s2 =? 0) && (s3 =? 0)) eqn:Hz.
  { bool_facts. subst s1 s2 s3. destruct Hopen as [Ho _], Hwrite as [Hw Hm].
    by eapply install_number_correct. }
  pose proof (lost_touches garbage s1 fd _ _ name (touches_trans _ _ _ _ _ Ht1 (touches_trans _ _ _ _ _ Ht2 Ht3))
    Hfresh Hgarbage) as (Ha&?&?&?&?).
  split_and!; try done.
  - intros Hs2%Z.eqb_neq. unfold ok. rewrite Hs2. by apply status_as_length.
  - intros -> ->. destruct Hopen as [Ho _], Hwrite as [Hw Hm].
    pose proof (install_number_correct PLAT_SGX _ _ _ (with_files (view w2) (sv_files (view w2))
      (delete n (sv_open (view w2)))) name image n m ltac:(done) ltac:(done) Hl Hneg Ho Hw Hm eq_refl) as (_&_&Hi).
    change (to_u64 m =? Z.of_nat (length image)) with ok in Hi. cbn [image_stored image_refused] in *. unfold image_refused in *. cbn [sv_files sv_applications with_files] in Hi.
    rewrite Hfiles, Ha. clearbody ok. destruct ok; [by destruct Hi|]. by destruct Hi as [_ ?].
  - intros -> Hs1 Hok. cbn [Z.eqb] in Hwrite. destruct Hwrite as [Hw Hm]. rewrite Hfiles.
    apply Z.eqb_neq in Hs1. rewrite Hs1 in Hopen. by eapply stray_written.
Qed.

Lemma install_optee_correct w name image :
  let '(w', ok) := install_ta_optee w image in
  install_outcome PLAT_OPTEE (view w) (view w') name image ok.
Proof.
  unfold install_ta_optee. pose proof (session_law w) as Hs.
  destruct (TEE_OpenTASession w) as [[w1 res] sess]. cbn in Hs. destruct (res =? TEE_SUCCESS); cbn [negb].
  2: { rewrite Hs. apply unchanged_refused. }
  destruct Hs as [Hfresh Hs]. pose proof (bootstrap_law w1 sess image
    ltac:(rewrite Hs; apply elem_of_union_l; by apply elem_of_singleton)) as Hb.
  cbn in Hb. destruct (TEE_InvokeTACommand _ _ _ _) as [w2 r].
  assert (view (TEE_CloseTASession w2 sess) = StoreView (sv_files (view w)) (sv_open (view w))
    (sv_applications (view w) ++ (if r =? TEE_SUCCESS then [image] else [])) (sv_sessions (view w))) as ->.
  { rewrite session_closed_law, Hb, Hs. cbn. f_equal.
    by rewrite difference_union_distr_l_L, difference_diag_L, union_empty_l_L, difference_disjoint_L
      by by apply disjoint_singleton_r. }
  split; [done|]. split; [done|]. destruct (r =? TEE_SUCCESS); [done|]. split; [by rewrite app_nil_r|by left].
Qed.

(** Whether all calls that [install_ta] does not look at succeed. *)
Definition calls_succeed (p : platform) (garbage : Z) (w : files) (name image : list byte) : bool :=
  match p with
  | PLAT_PC => pc_closes w name image
  | PLAT_SGX => all_zero (sgx_statuses garbage w name image)
  | _ => true
  end.

(** What there is otherwise. *)
Definition install_damage (p : platform) (garbage : Z) (w : files) (name image : list byte)
    (v v' : store_view) (ok : bool) : Prop :=
  match p with
  | PLAT_PC => flush_failed v v' name
  | PLAT_SGX => calls_lost garbage (sgx_statuses garbage w name image) v v' name image ok
  | _ => False
  end.

Lemma install_ta_spec p garbage w name image :
  Z.of_nat (length image) <= PTRDIFF_MAX →
  let '(w', ok) := install_ta p garbage w name image in
  if calls_succeed p garbage w name image then install_outcome p (view w) (view w') name image ok
  else install_damage p garbage w name image (view w) (view w') ok.
Proof.
  intros Hl. destruct p; cbn [install_ta calls_succeed install_damage].
  - apply install_pc_correct.
  - apply install_optee_correct.
  - by apply install_keystone_correct.
  - by apply install_sgx_correct.
Qed.

(** In any case: an installation touches only its file, unless a file is open with
    the number that [fd] happens to hold on SGX. *)
Definition keeps (p : platform) (garbage : Z) (name : list byte) (v v' : store_view) : Prop :=
  (∀ x, x ≠ name → (p = PLAT_SGX → ∀ pos, sv_open v !! garbage ≠ Some (x, pos)) →
     sv_files v' !! x = sv_files v !! x) ∧
  (p ≠ PLAT_SGX → sv_open v' = sv_open v) ∧
  (∀ n o, sv_open v !! n = Some o → (p = PLAT_SGX → n ≠ garbage) → sv_open v' !! n = Some o) ∧
  (∀ n x pos, sv_open v' !! n = Some (x, pos) → x = name ∨ ∃ pos', sv_open v !! n = Some (x, pos')).

(** Nothing is left open, and only the file is written. *)
Lemma keeps_closed p garbage name v v' :
  sv_open v' = sv_open v → (∀ x, x ≠ name → sv_files v' !! x = sv_files v !! x) → keeps p garbage name v v'.
Proof. intros Ho Hf. unfold keeps. rewrite Ho. split_and!; eauto. Qed.

Lemma install_ta_keeps p garbage w name image :
  Z.of_nat (length image) <= PTRDIFF_MAX →
  keeps p garbage name (view w) (view (install_ta p garbage w name image).1).
Proof.
  intros Hl. pose proof (install_ta_spec p garbage w name image Hl) as Hi.
  destruct (install_ta p garbage w name image) as [w' ok]. cbn [fst]. destruct (calls_succeed _ _ _ _ _).
  - destruct Hi as (Ho&_&Hi). apply keeps_closed; [done|]. intros x Hx.
    destruct ok; [destruct p; destruct Hi as [-> _]|destruct Hi as [_ [->|[_ [n ->]]]]]; try done;
      by rewrite lookup_insert_ne.
  - destruct p; cbn [install_damage] in Hi; try done.
    + destruct Hi as (Ho&_&_&contents&Hf). apply keeps_closed; [done|]. intros x Hx.
      by rewrite Hf, lookup_insert_ne.
    + unfold calls_lost in Hi. destruct (sgx_statuses _ _ _ _) as [[s1 s2] s3].
      destruct Hi as (_&_&Hf&Ho&Hn&_). split_and!; [|done| |done].
      * intros x Hx Hg. apply Hf; [done|]. right. by apply Hg.
      * intros n o Hno Hg. apply Ho; [done|]. right. by apply Hg.
Qed.

(** Whatever the agent has handed to [store_component], files of other names are as
    they were. *)
Lemma store_all_keeps (named : list byte → Prop) p garbage trace : ∀ w,
  Forall (fun x => Z.of_nat (length x.2) <= PTRDIFF_MAX ∧ named (filename x.1)) trace →
  (p = PLAT_SGX → ∀ x pos, sv_open (view w) !! garbage = Some (x, pos) → named x) →
  let v := view w in let v' := view (store_all p garbage w trace) in
  (∀ x, ¬ named x → sv_files v' !! x = sv_files v !! x) ∧
  (p ≠ PLAT_SGX → sv_open v' = sv_open v) ∧
  (∀ n o, sv_open v !! n = Some o → (p = PLAT_SGX → n ≠ garbage) → sv_open v' !! n = Some o).
Proof.
  induction trace as [|[path image] trace IH]; intros w Hall Hg; [done|].
  apply list.Forall_cons in Hall as [[Hl Hname] Hall]. cbn [store_all fst snd] in *. unfold store_file.
  destruct (install_ta_keeps p garbage w (filename path) image Hl) as (Hf&Ho&Hp&Hn).
  set (w1 := (install_ta p garbage w (filename path) image).1) in *.
  destruct (IH w1 Hall) as (Hf'&Ho'&Hp').
  { intros Hsgx x pos [->|[pos' Hpos]]%Hn; [done|]. by eapply Hg. }
  split_and!.
  - intros x Hx. rewrite Hf' by done. apply Hf; [by intros ->|]. intros Hsgx pos Hpos. by eapply Hx, Hg.
  - intros Hsgx. by rewrite Ho', Ho.
  - intros n o Hno Hng. apply Hp'; [|done]. by apply Hp.
Qed.

(** C22: Installing components, on each platform and after any components that were
    installed before.  If the calls succeed whose results the code does not look at
    (closing the file on PC, and the three calls of SGX coming through to the host),
    nothing stays open and the result says whether the whole image was written: on PC
    the file then holds the image, OP-TEE has one more application, and on Keystone and
    SGX the image is written over the file that was there; a failed installation may
    leave the beginning of the image.  If not, the file may hold anything on PC; and on
    SGX an image may be written through the number that [fd] happened to hold, a file
    may stay open, and without an answer to the second call the result compares the
    length of the image with the status of the first.  In any case files that were not
    named are as they were, unless such a number is in use, and on the other platforms
    nothing stays open. *)
Theorem store_component_correct p garbage w trace path image :
  Forall (fun x => Z.of_nat (length x.2) <= PTRDIFF_MAX) (trace ++ [(path, image)]) →
  let w1 := store_all p garbage w trace in
  ((p = PLAT_SGX → sv_open (view w) !! garbage = None) →
   (∀ name, (∀ x, x ∈ trace → filename x.1 ≠ name) → sv_files (view w1) !! name = sv_files (view w) !! name) ∧
   sv_open (view w) ⊆ sv_open (view w1) ∧ (p ≠ PLAT_SGX → sv_open (view w1) = sv_open (view w))) ∧
  let '(w', ok) := store_file p garbage w1 path image in
  if calls_succeed p garbage w1 (filename path) image
  then install_outcome p (view w1) (view w') (filename path) image ok
  else install_damage p garbage w1 (filename path) image (view w1) (view w') ok.
Proof.
  intros [Hall Hl]%Forall_app. split; [|by apply install_ta_spec; apply Forall_inv in Hl]. intros Hg.
  destruct (store_all_keeps (fun name => ∃ x, x ∈ trace ∧ filename x.1 = name) p garbage trace w) as (Hf&Ho&Hp).
  - apply list.Forall_forall. intros x Hx. rewrite list.Forall_forall in Hall. split; [by apply Hall|eauto].
  - intros Hsgx x pos Hpos. by rewrite Hg in Hpos.
  - split_and!; [|apply map_subseteq_spec|done].
    + intros name Hname. apply Hf. intros (x&Hx&Heq). by apply (Hname x).
    + intros n o Hno. apply Hp; [done|]. intros Hsgx ->. by rewrite Hg in Hno.
Qed.
End installs.

(** ** Witness

    A store with one file open at a time, as number 3. *)

Definition small_files : Type := gmap (list byte) (list byte) * option (list byte * nat).

Definition small_open (w : small_files) (name : list byte) (truncate : bool) : small_files * Z :=
  match w.2 with
  | Some _ => (w, -1)
  | None => ((<[name := if truncate then [] else default [] (w.1 !! name)]> w.1, Some (name, 0%nat)), 3)
  end.

Definition small_write (w : small_files) (fd : Z) (bytes : list byte) : small_files * Z :=
  match w.2 with
  | Some (name, pos) =>
      if (fd =? 3) && (Z.of_nat (length bytes) <=? INT_MAX) then
        ((<[name := write_at (default [] (w.1 !! name)) pos bytes]> w.1,
          Some (name, (pos + length bytes)%nat)), Z.of_nat (length bytes))
      else (w, -1)
  | None => (w, -1)
  end.

Definition small_close (w : small_files) (fd : Z) : small_files := if fd =? 3 then (w.1, None) else w.

#[local] Instance small_store : store_api := {|
  files := small_files;
  fopen_write w name := let '(w, n) := small_open w name true in (w, if n <? 0 then None else Some n);
  fwrite := small_write;
  fclose w fd := (small_close w fd, 0);
  ocall_open_file w name flags := small_open w name (truncates flags);
  ocall_write_file_full := small_write;
  ocall_close_file := small_close;
  sgx_open_file w name flags := let '(w, n) := small_open w name (truncates flags) in (w, 0, n);
  sgx_write_file w fd bytes := let '(w, n) := small_write w fd bytes in (w, 0, n);
  sgx_close_file w fd := (small_close w fd, 0, 0);
  TEE_OpenTASession w := (w, 1, 0);
  TEE_InvokeTACommand w _ _ _ := (w, 1);
  TEE_CloseTASession w _ := w
|}.

Definition small_view (w : small_files) : store_view :=
  StoreView w.1 (match w.2 with Some x => {[3 := x]} | None => ∅ end) [] ∅.

Lemma small_opened w name truncate :
  let '(w', n) := small_open w name truncate in
  file_opened (small_view w) (small_view w') name truncate n ∧ is_int n.
Proof.
  unfold small_open. destruct w as [m [x|]]; cbn; (split; [|by unfold is_int, INT_MIN, INT_MAX; lia]).
  - by left.
  - right. split; [lia|]. by split.
Qed.

Lemma small_written w fd bytes :
  let '(w', n) := small_write w fd bytes in file_written (small_view w) (small_view w') fd bytes n ∧ is_int n.
Proof.
  assert (is_int (-1)) as Hneg by (unfold is_int, INT_MIN, INT_MAX; lia).
  unfold small_write, file_written. destruct w as [m [[name pos]|]]; cbn -[INT_MAX]; [|by split].
  destruct (Z.eqb_spec fd 3) as [->|Hfd]; cbn -[INT_MAX].
  - rewrite lookup_singleton_eq. destruct (Z.leb_spec (Z.of_nat (length bytes)) INT_MAX).
    + split; [|unfold is_int, INT_MIN; lia]. right. split; [lia|]. unfold small_view, with_files. cbn.
      by rewrite Nat2Z.id, take_ge, insert_singleton_eq.
    + split; [|done]. by left.
  - rewrite lookup_singleton_ne by done. by split.
Qed.

Lemma small_closed w fd : file_closed (small_view w) (small_view (small_close w fd)) fd.
Proof.
  unfold file_closed, small_close, small_view, with_files. destruct w as [m [x|]], (Z.eqb_spec fd 3) as [->|]; cbn.
  - by rewrite delete_singleton_eq.
  - by rewrite delete_singleton_ne.
  - by rewrite delete_empty.
  - by rewrite delete_empty.
Qed.

#[local] Instance small_laws : store_laws.
Proof.
  refine {| view := small_view : @files small_store → store_view |}.
  - intros [m [x|]] n Hn; cbn; [|done]. by apply lookup_singleton_ne; lia.
  - intros w name. pose proof (small_opened w name true) as Ho. cbn. destruct (small_open w name true) as [w' n].
    destruct Ho as [Ho _]. destruct (Z.ltb_spec n 0); cbn; (split; [|by intros ? [= <-]]); [|done].
    destruct Ho as [[_ Ho]|[? _]]; [by left|lia].
  - intros w fd bytes. pose proof (small_written w fd bytes) as Hw. cbn.
    destruct (small_write w fd bytes). by intros _; apply Hw.
  - intros w fd. apply small_closed.
  - intros w name flags. apply small_opened.
  - apply small_written.
  - apply small_closed.
  - intros w name flags. pose proof (small_opened w name (truncates flags)) as Ho. cbn.
    by destruct (small_open w name (truncates flags)).
  - intros w fd bytes. pose proof (small_written w fd bytes) as Hw. cbn. by destruct (small_write w fd bytes).
  - apply small_closed.
  - done.
  - cbn. intros w sess image Hs. by apply not_elem_of_empty in Hs.
  - intros w sess. cbn. assert (∅ ∖ {[sess]} =@{gset Z} ∅) as -> by by rewrite difference_disjoint_L by apply disjoint_empty_l. done.
Defined.

Definition small_path : component_path := ComponentPath [] [] [] [x61].

(** Three bytes over five: in the file of an enclave two old ones are left. *)
Lemma store_component_correct_witness :
  let w : small_files := (∅, None) in
  let w1 := store_all PLAT_KEYSTONE 0 w [(small_path, [x31; x32; x33; x34; x35])] in
  let '(w', ok) := store_file PLAT_KEYSTONE 0 w1 small_path [x41; x42; x43] in
  ok = true ∧ sv_files (view w') = {[ [x61] := [x41; x42; x43; x34; x35] ]} ∧
  install_outcome PLAT_KEYSTONE (view w1) (view w') [x61] [x41; x42; x43] true.
Proof.
  assert (Forall (fun x : component_path * list byte => Z.of_nat (length x.2) <= PTRDIFF_MAX)
    ([(small_path, [x31; x32; x33; x34; x35])] ++ [(small_path, [x41; x42; x43])])) as Hl.
  { repeat constructor; unfold PTRDIFF_MAX; cbn; lia. }
  split; [by vm_compute|]. split; [by vm_compute|].
  exact (proj2 (store_component_correct PLAT_KEYSTONE 0 ((∅, None) : small_files)
    [(small_path, [x31; x32; x33; x34; x35])] small_path [x41; x42; x43] Hl)).
Defined.
