(* ===== verification/TeeClient.v ===== *)
(** * TeeClient: the TEE client library of the PC build

    [teec-pc.c]: the functions of the TEE client interface the broker calls, which
    copy the parameters of a command into fresh blocks, call the entry points of
    the agent, and copy the results back.  The types and constants are those of
    [tee_client_api.h].  The other stubs of the file only print their name. *)

From S2P Require Import Prelude Tcbor SuitTypes SuitParser SuitAuth SuitContext SuitRunner.
From S2P Require Import TeepMessage TeepEncoder Tools Agent.

Local Open Scope Z_scope.

(** ** Types of parameters *)

Definition TEEC_NONE : Z := 0.
Definition TEEC_VALUE_INPUT : Z := 1.
Definition TEEC_VALUE_OUTPUT : Z := 2.
Definition TEEC_VALUE_INOUT : Z := 3.
Definition TEEC_MEMREF_TEMP_INPUT : Z := 5.
Definition TEEC_MEMREF_TEMP_OUTPUT : Z := 6.
Definition TEEC_MEMREF_TEMP_INOUT : Z := 7.

Definition TEE_PARAM_TYPE_VALUE_INOUT : Z := 3.
Definition TEE_PARAM_TYPE_MEMREF_INOUT : Z := 7.

Definition TEEC_PARAM_TYPES (p0 p1 p2 p3 : Z) : Z :=
  Z.lor p0 (Z.lor (Z.shiftl p1 4) (Z.lor (Z.shiftl p2 8) (Z.shiftl p3 12))).

Definition TEEC_PARAM_TYPE_GET (p i : Z) : Z := Z.land (Z.shiftr p (i * 4)) 15.

Definition TEEC_SUCCESS : Z := 0.

(** The union of a temporary memory reference and a value, [memset] to 0 or with
    the member that was assigned.  (The third member is for registered memory,
    which no code uses.)  The pointer of a reference is null or to some bytes. *)
Inductive TEEC_Parameter :=
  | ZeroParameter
  | TempMemoryReference (buffer : option (list byte)) (size : Z)
  | ValueParameter (a b : Z).

Record TEEC_Operation := Operation {
  paramTypes : Z;
  op_params : list TEEC_Parameter
}.

(** [op->params[i].value] and [op->params[i].tmpref]; reading the member that was
    not assigned is undefined. *)
Definition value_member (x : TEEC_Parameter) : outcome (Z * Z) :=
  match x with
  | ZeroParameter => Done (0, 0)
  | ValueParameter a b => Done (a, b)
  | TempMemoryReference _ _ => Ub
  end.

Definition tmpref_member (x : TEEC_Parameter) : outcome (option (list byte) * Z) :=
  match x with
  | ZeroParameter => Done (None, 0)
  | TempMemoryReference buffer size => Done (buffer, size)
  | ValueParameter _ _ => Ub
  end.

(** An assignment to [op->params[index]]. *)
Definition set_param (op : TEEC_Operation) (index : Z) (x : TEEC_Parameter) : TEEC_Operation :=
  Operation (paramTypes op) (<[Z.to_nat index := x]> (op_params op)).

(** ** Copying in *)

Definition param_type (t : Z) : Z :=
  if t =? TEEC_VALUE_INPUT then TEE_PARAM_TYPE_VALUE_INPUT
  else if t =? TEEC_VALUE_OUTPUT then TEE_PARAM_TYPE_VALUE_OUTPUT
  else if t =? TEEC_VALUE_INOUT then TEE_PARAM_TYPE_VALUE_INOUT
  else if t =? TEEC_MEMREF_TEMP_INPUT then TEE_PARAM_TYPE_MEMREF_INPUT
  else if t =? TEEC_MEMREF_TEMP_OUTPUT then TEE_PARAM_TYPE_MEMREF_OUTPUT
  else if t =? TEEC_MEMREF_TEMP_INOUT then TEE_PARAM_TYPE_MEMREF_INOUT
  else TEE_PARAM_TYPE_NONE.

Definition param_types (t : Z) : Z :=
  TEE_PARAM_TYPES (param_type (TEEC_PARAM_TYPE_GET t 0)) (param_type (TEEC_PARAM_TYPE_GET t 1))
    (param_type (TEEC_PARAM_TYPE_GET t 2)) (param_type (TEEC_PARAM_TYPE_GET t 3)).

(** The bytes at a pointer; a copy of no bytes touches nothing. *)
Definition copy_from (buffer : option (list byte)) (size : Z) : outcome (list byte) :=
  match buffer with
  | Some bytes => load_bytes bytes 0 size
  | None => if size =? 0 then Done [] else Ub
  end.

(** [memcpy] to a pointer. *)
Definition copy_to (buffer : option (list byte)) (bytes : list byte) : outcome (option (list byte)) :=
  match buffer with
  | Some old =>
      if bool_decide (length bytes ≤ length old)%nat
      then Done (Some (bytes ++ drop (length bytes) old)) else Ub
  | None => if bool_decide (bytes = []) then Done None else Ub
  end.

Definition is_value_input (ty : Z) : bool :=
  (ty =? TEE_PARAM_TYPE_VALUE_INPUT) || (ty =? TEE_PARAM_TYPE_VALUE_INOUT).
Definition is_value_output (ty : Z) : bool :=
  (ty =? TEE_PARAM_TYPE_VALUE_OUTPUT) || (ty =? TEE_PARAM_TYPE_VALUE_INOUT).
Definition is_memref_input (ty : Z) : bool :=
  (ty =? TEE_PARAM_TYPE_MEMREF_INPUT) || (ty =? TEE_PARAM_TYPE_MEMREF_INOUT).
Definition is_memref_output (ty : Z) : bool :=
  (ty =? TEE_PARAM_TYPE_MEMREF_OUTPUT) || (ty =? TEE_PARAM_TYPE_MEMREF_INOUT).

Section client.
Context `{allocator}.

(** A block of [size] bytes that is filled at once: without memory this writes
    through a null pointer, unless there is nothing to write. *)
Definition filled_block (h : heap) (size : Z) : outcome (heap * option nat) :=
  let '(h, block) := malloc h size in
  if bool_decide (block = None) && negb (size =? 0) then Ub else Done (h, block).

(** One round of the second loop; the block is the one [memref.buffer] points to. *)
Definition prepare_param (h : heap) (ty : Z) (x : TEEC_Parameter)
    : outcome (heap * TEE_Param * option nat) :=
  if is_value_input ty then
    '(a, b) ← value_member x; Done (h, ParamValue a b, None)
  else if is_memref_input ty then
    '(buffer, size) ← tmpref_member x;
    '(h, block) ← filled_block h size;
    bytes ← copy_from buffer size;
    Done (h, ParamMemref bytes (to_u32 size), block)
  else if ty =? TEE_PARAM_TYPE_MEMREF_OUTPUT then
    '(_, size) ← tmpref_member x;
    '(h, block) ← filled_block h (to_u32 size);
    Done (h, ParamMemref (replicate (Z.to_nat (to_u32 size)) x00) (to_u32 size), block)
  else if ty =? TEE_PARAM_TYPE_VALUE_OUTPUT then Done (h, ParamValue 0 0, None)
  else Done (h, ParamNone, None).

Fixpoint prepare_loop (h : heap) (types i : Z) (xs : list TEEC_Parameter)
    : outcome (heap * list TEE_Param * list (option nat)) :=
  match xs with
  | [] => Done (h, [], [])
  | x :: xs =>
      '(h, y, block) ← prepare_param h (TEE_PARAM_TYPE_GET types i) x;
      '(h, ys, l) ← prepare_loop h types (i + 1) xs;
      Done (h, y :: ys, block :: l)
  end.

Definition prepare_params (h : heap) (operation : TEEC_Operation)
    : outcome (heap * Z * list TEE_Param * list (option nat)) :=
  let types := param_types (paramTypes operation) in
  '(h, params, l) ← prepare_loop h types 0 (op_params operation);
  Done (h, types, params, l).

(** ** Copying out *)

Definition writeback_param (h : heap) (ty : Z) (x : TEEC_Parameter) (y : TEE_Param)
    (block : option nat) : outcome (heap * TEEC_Parameter) :=
  if is_value_output ty then
    match y with
    | ParamValue a b => Done (h, ValueParameter a b)
    | _ => Ub
    end
  else if is_memref_output ty then
    match y with
    | ParamMemref buffer size =>
        '(old, _) ← tmpref_member x;
        bytes ← load_bytes buffer 0 size;
        new ← copy_to old bytes;
        h ← free h block;
        Done (h, TempMemoryReference new size)
    | _ => Ub
    end
  else if ty =? TEE_PARAM_TYPE_MEMREF_INPUT then
    h ← free h block; Done (h, x)
  else Done (h, x).

Fixpoint writeback_loop (h : heap) (types i : Z) (xs : list TEEC_Parameter) (ys : list TEE_Param)
    (l : list (option nat)) : outcome (heap * list TEEC_Parameter) :=
  match xs, ys, l with
  | x :: xs, y :: ys, block :: l =>
      '(h, x) ← writeback_param h (TEE_PARAM_TYPE_GET types i) x y block;
      '(h, xs) ← writeback_loop h types (i + 1) xs ys l;
      Done (h, x :: xs)
  | _, _, _ => Done (h, xs)
  end.

Definition writeback_params (h : heap) (operation : TEEC_Operation) (types : Z)
    (params : list TEE_Param) (l : list (option nat)) : outcome (heap * TEEC_Operation) :=
  '(h, xs) ← writeback_loop h types 0 (op_params operation) params l;
  Done (h, Operation (paramTypes operation) xs).

(** ** Sessions and commands *)

(** The state of the library is the pointer [session_ctx], null at first; with
    it goes everything the agent keeps. *)
Record tee_client := Client {
  c_globals : agent_globals;
  session_ctx : option (nat * teep_agent_session)
}.

Definition TEEC_InitializeContext : Z := TEEC_SUCCESS.

Definition with_heap (g : agent_globals) (h : heap) : agent_globals :=
  Globals h (suit_manifests g).

Definition TEEC_OpenSession (sizeof_session : Z) (garbage : teep_agent_session) (c : tee_client)
    (operation : TEEC_Operation) : outcome (tee_client * TEEC_Operation * Z) :=
  '(h, types, params, l) ← prepare_params (g_heap (c_globals c)) operation;
  let '(h, session, r) := TA_OpenSessionEntryPoint sizeof_session h types garbage in
  let ctx := match session with Some _ => session | None => session_ctx c end in
  if r =? TEE_SUCCESS then
    '(h, operation) ← writeback_params h operation types params l;
    Done (Client (with_heap (c_globals c) h) ctx, operation, r)
  else Done (Client (with_heap (c_globals c) h) ctx, operation, r).

(** [session_ctx] is not reset. *)
Definition TEEC_CloseSession (c : tee_client) : outcome tee_client :=
  h ← TA_CloseSessionEntryPoint (g_heap (c_globals c)) (session_ctx c);
  Done (Client (with_heap (c_globals c) h) (session_ctx c)).

(** The session behind [session_ctx]: the agent reads it without a check. *)
Definition live_session (h : heap) (ctx : option (nat * teep_agent_session))
    : outcome (nat * teep_agent_session) :=
  match ctx with
  | Some (block, s) => if bool_decide (block ∈ h_live h) then Done (block, s) else Ub
  | None => Ub
  end.

Context `{qcbor, qcbor_encoder, crypto_api}.
Variable p : platform.
Variable slot_addr : target_slot → Z.
Variable fuel : nat.

Definition TEEC_InvokeCommand (c : tee_client) (commandID : Z) (operation : TEEC_Operation)
    : outcome (tee_client * TEEC_Operation * Z) :=
  '(h, types, params, l) ← prepare_params (g_heap (c_globals c)) operation;
  '(block, s) ← live_session h (session_ctx c);
  '(g, s, params, r) ← TA_InvokeCommandEntryPoint p slot_addr fuel (with_heap (c_globals c) h) s
                          commandID types params;
  if r =? TEE_SUCCESS then
    '(h, operation) ← writeback_params (g_heap g) operation types params l;
    Done (Client (with_heap g h) (Some (block, s)), operation, r)
  else Done (Client g (Some (block, s)), operation, r).

End client.

(** ** What the broker uses

    The functions of [tee_client_api.h] that the broker calls, in any build;
    [agent_of], for the specification only, is what the library and the agent keep.
    The operation that is passed to [TEEC_OpenSession] is not used again. *)

Definition zero_operation : TEEC_Operation :=
  Operation 0 [ZeroParameter; ZeroParameter; ZeroParameter; ZeroParameter].

Class client_api := {
  client_state : Type;
  agent_of : client_state → tee_client;
  tc_OpenSession : Z → teep_agent_session → client_state → TEEC_Operation → outcome (client_state * Z);
  tc_CloseSession : client_state → outcome client_state;
  tc_InvokeCommand : client_state → Z → TEEC_Operation → outcome (client_state * TEEC_Operation * Z)
}.

(** The PC build. *)
Definition pc_client `{allocator, qcbor, qcbor_encoder, crypto_api} (p : platform)
    (slot_addr : target_slot → Z) (fuel : nat) : client_api := {|
  client_state := tee_client;
  agent_of c := c;
  tc_OpenSession size garbage c op := '(c, _, r) ← TEEC_OpenSession size garbage c op; Done (c, r);
  tc_CloseSession := TEEC_CloseSession;
  tc_InvokeCommand := TEEC_InvokeCommand p slot_addr fuel
|}.
