(* ===== verification/TeeClientFacts.v ===== *)
(** * TeeClientFacts: what the client library hands over and brings back

    [given] and [returned] are the contents of a parameter on both ways; the loops
    over the parameters compute them and keep the books of the copies. *)

From S2P Require Import Prelude Tcbor TcborFacts SuitTypes SuitParser SuitParserFacts.
From S2P Require Import SuitAuth SuitAuthFacts SuitContext SuitContextFacts.
From S2P Require Import SuitRunner SuitRunnerFacts SuitRunnerTheorems.
From S2P Require Import TeepMessage TeepMessageFacts TeepMessageTheorems TeepEncoder.
From S2P Require Import Tools Agent AgentFacts AgentTaskTheorems AgentSafety AgentCommands TeeClient.

Local Open Scope Z_scope.

(** ** Types *)

Definition known_types : list Z := [0; 1; 2; 3; 5; 6; 7].

Lemma param_type_known t : param_type t ∈ known_types.
Proof. unfold param_type. repeat case_match; by apply (bool_decide_unpack _). Qed.

(** Case analysis on a known type. *)
Ltac known_type H :=
  repeat (apply elem_of_cons in H as [->|H]); [..|by apply elem_of_nil in H].

Lemma known_forall P : Forall P known_types → ∀ t, P (param_type t).
Proof. intros HP t. by apply (proj1 (list.Forall_forall _ _) HP), param_type_known. Qed.

Lemma get_types :
  Forall (fun a => Forall (fun b => Forall (fun c => Forall (fun d =>
    (fun i => TEE_PARAM_TYPE_GET (TEE_PARAM_TYPES a b c d) i) <$> [0; 1; 2; 3] = [a; b; c; d])
    known_types) known_types) known_types) known_types.
Proof. apply (bool_decide_unpack _). by vm_compute. Qed.

(** The types the agent reads are the converted types of the client. *)
Lemma get_param_types t :
  (fun i => TEE_PARAM_TYPE_GET (param_types t) i) <$> [0; 1; 2; 3] =
  (fun i => param_type (TEEC_PARAM_TYPE_GET t i)) <$> [0; 1; 2; 3].
Proof.
  exact (known_forall _ (known_forall _ (known_forall _ (known_forall _ get_types
    (TEEC_PARAM_TYPE_GET t 0)) (TEEC_PARAM_TYPE_GET t 1)) (TEEC_PARAM_TYPE_GET t 2))
    (TEEC_PARAM_TYPE_GET t 3)).
Qed.

(** ** Contents *)

Definition value_of (x : TEEC_Parameter) : Z * Z :=
  match x with ValueParameter a b => (a, b) | _ => (0, 0) end.

Definition buffer_of (x : TEEC_Parameter) : option (list byte) :=
  match x with TempMemoryReference buffer _ => buffer | _ => None end.

Definition size_of (x : TEEC_Parameter) : Z :=
  match x with TempMemoryReference _ size => size | _ => 0 end.

Definition is_memref (ty : Z) : bool := is_memref_input ty || is_memref_output ty.

(** What the agent gets. *)
Definition given (ty : Z) (x : TEEC_Parameter) : TEE_Param :=
  if is_value_input ty then ParamValue (value_of x).1 (value_of x).2
  else if is_memref_input ty
  then ParamMemref (take (Z.to_nat (size_of x)) (default [] (buffer_of x))) (size_of x)
  else if ty =? TEE_PARAM_TYPE_MEMREF_OUTPUT
  then ParamMemref (replicate (Z.to_nat (size_of x)) x00) (size_of x)
  else if ty =? TEE_PARAM_TYPE_VALUE_OUTPUT then ParamValue 0 0
  else ParamNone.

(** What the client finds after the agent left [y]. *)
Definition returned (ty : Z) (x : TEEC_Parameter) (y : TEE_Param) : TEEC_Parameter :=
  match y with
  | ParamValue a b => if is_value_output ty then ValueParameter a b else x
  | ParamMemref buffer size =>
      if is_memref_output ty
      then TempMemoryReference (overwrite (take (Z.to_nat size) buffer) <$> buffer_of x) size
      else x
  | ParamNone => x
  end.

(** The member that was assigned is the one of the type, and a reference is
    within its buffer and below 4 GB. *)
Definition client_param_ok (ty : Z) (x : TEEC_Parameter) : bool :=
  match x with
  | ZeroParameter => true
  | ValueParameter _ _ => negb (is_memref ty)
  | TempMemoryReference buffer size =>
      negb (is_value_input ty) && (0 <=? size) && (size <? u32_modulus) &&
      (size <=? Z.of_nat (length (default [] buffer)))
  end.

(** A parameter of the agent that goes back to [x]. *)
Definition fits_back (ty : Z) (x : TEEC_Parameter) (y : TEE_Param) (block : option nat) : Prop :=
  (if is_value_output ty then ∃ a b, y = ParamValue a b
   else if is_memref_output ty then
     tmpref_member x = Done (buffer_of x, size_of x) ∧
     ∃ buffer size, y = ParamMemref buffer size ∧ 0 <= size <= Z.of_nat (length buffer) ∧
       (Z.to_nat size ≤ length (default [] (buffer_of x)))%nat
   else True) ∧
  (is_memref ty = false → block = None).

Definition not_output (ty : Z) : Prop := is_value_output ty = false ∧ is_memref_output ty = false.

(** Inputs come back as they were. *)
Lemma returned_input ty x y : not_output ty → returned ty x y = x.
Proof. intros [Hv Hm]. unfold returned. rewrite Hv, Hm. by destruct y. Qed.

Lemma copy_from_ok buffer size :
  0 <= size <= Z.of_nat (length (default [] buffer)) →
  copy_from buffer size = Done (take (Z.to_nat size) (default [] buffer)).
Proof.
  intros Hs. destruct buffer as [bytes|]; cbn in *; [by apply range_bytes_load|].
  assert (size = 0) as -> by lia. done.
Qed.

Lemma copy_to_ok buffer bytes :
  (length bytes ≤ length (default [] buffer))%nat →
  copy_to buffer bytes = Done (overwrite bytes <$> buffer).
Proof.
  intros Hs. destruct buffer as [old|]; cbn in *; [by rewrite bool_decide_true|].
  destruct bytes; [done|cbn in Hs; lia].
Qed.

Lemma given_typed ty x : client_param_ok ty x = true → ty ∈ known_types → param_has_type ty (given ty x) = true.
Proof.
  intros Hx Hty. known_type Hty; cbn; try done;
    destruct x as [|buffer size|a b]; cbn in *; try done; bool_facts;
    rewrite ?length_take, ?length_replicate, !andb_true_iff, !Z.leb_le; lia.
Qed.

Lemma given_fits_back ty x y block :
  client_param_ok ty x = true → ty ∈ known_types → param_like (given ty x) y →
  (is_memref ty = false → block = None) → fits_back ty x y block.
Proof.
  intros Hx Hty Hlike Hb. split; [|done].
  known_type Hty; cbn in *; try done;
    destruct x as [|buffer size|a b], y as [|a' b'|buffer' size']; cbn in *; try done; try by eauto;
    bool_facts; destruct Hlike as [Hl Hs]; rewrite ?length_take, ?length_replicate in Hl;
    (split; [done|]); eexists _, _; (split; [done|]); lia.
Qed.

(** ** Copies *)

Definition ty_at (types i : Z) (k : nat) : Z := TEE_PARAM_TYPE_GET types (i + Z.of_nat k).

Lemma ty_at_S types i k : ty_at types i (S k) = ty_at types (i + 1) k.
Proof. unfold ty_at. f_equal. lia. Qed.

Section copies.
Context `{allocator}.
Hypothesis Hmem : ∀ n z, malloc_succeeds n z = true.

Lemma filled_block_spec h size l frame :
  accounts h l frame →
  wp (filled_block h size) (fun '(h', block) => is_Some block ∧ accounts h' (block :: l) frame).
Proof.
  intros Hacc. unfold filled_block.
  pose proof (accounts_malloc h size l frame Hacc) as Hacc'.
  destruct (malloc_some Hmem h size) as (h'&q&Hm). rewrite Hm in *. by split; [eexists|].
Qed.

Lemma tmpref_member_ok ty x :
  client_param_ok ty x = true → is_memref ty = true →
  tmpref_member x = Done (buffer_of x, size_of x) ∧ to_u32 (size_of x) = size_of x ∧
  0 <= size_of x <= Z.of_nat (length (default [] (buffer_of x))).
Proof.
  intros Hx Hty. destruct x as [|buffer size|a b]; cbn in *.
  - split; [done|]. split; [done|lia].
  - bool_facts. split; [done|]. split; [apply Z.mod_small; lia|lia].
  - by rewrite Hty in Hx.
Qed.

Lemma prepare_param_spec h ty x l frame :
  client_param_ok ty x = true → ty ∈ known_types → accounts h l frame →
  wp (prepare_param h ty x) (fun '(h', y, block) =>
    y = given ty x ∧ (is_Some block ↔ is_memref ty = true) ∧ accounts h' (block :: l) frame).
Proof.
  intros Hx Hty Hacc. unfold prepare_param, given.
  assert (accounts h (None :: l) frame) as Hnone by done.
  assert (is_memref ty = false → is_Some (@None nat) ↔ is_memref ty = true) as Hno.
  { intros ->. split; [by intros []|done]. }
  destruct (is_value_input ty) eqn:Hvi.
  { assert (is_memref ty = false) as Hm by by known_type Hty.
    destruct x as [|buffer size|a b]; cbn in Hx; [|by rewrite Hvi in Hx|]; (split; [done|]; auto). }
  destruct (is_memref_input ty) eqn:Hmi.
  { destruct (tmpref_member_ok ty x Hx) as (->&Hu&Hs); [unfold is_memref; by rewrite Hmi|].
    cbn [mbind outcome_bind]. apply wp_bind.
    eapply wp_mono; [by apply (filled_block_spec h (size_of x))|]. intros [h' block] [Hb Hacc'].
    rewrite copy_from_ok by done. cbn [mbind outcome_bind wp]. rewrite Hu.
    split; [done|]. split; [|done]. unfold is_memref. by rewrite Hmi. }
  destruct (Z.eqb_spec ty TEE_PARAM_TYPE_MEMREF_OUTPUT) as [->|].
  { destruct (tmpref_member_ok _ x Hx) as (->&Hu&Hs); [done|].
    cbn [mbind outcome_bind]. apply wp_bind.
    eapply wp_mono; [by apply filled_block_spec|]. intros [h' block] [Hb Hacc']. by rewrite Hu. }
  assert (is_memref ty = false) as Hm by by known_type Hty.
  case_match; (split; [done|]; auto).
Qed.

Definition params_given (types i : Z) (xs : list TEEC_Parameter) : list TEE_Param :=
  imap (fun k x => given (ty_at types i k) x) xs.

Definition params_returned (types i : Z) (xs : list TEEC_Parameter) (ys : list TEE_Param)
    : list TEEC_Parameter :=
  imap (fun k '(x, y) => returned (ty_at types i k) x y) (zip xs ys).

Definition params_ok (types i : Z) (xs : list TEEC_Parameter) : Prop :=
  ∀ k x, xs !! k = Some x → client_param_ok (ty_at types i k) x = true ∧ ty_at types i k ∈ known_types.

Lemma params_ok_cons types i x xs :
  params_ok types i (x :: xs) →
  (client_param_ok (ty_at types i 0) x = true ∧ ty_at types i 0 ∈ known_types) ∧
  params_ok types (i + 1) xs.
Proof.
  intros Hok. split; [by apply (Hok 0%nat)|]. intros k y Hy.
  specialize (Hok (S k) y Hy). by rewrite ty_at_S in Hok.
Qed.

Lemma params_given_cons types i x xs :
  params_given types i (x :: xs) = given (ty_at types i 0) x :: params_given types (i + 1) xs.
Proof.
  unfold params_given. cbn [imap]. f_equal. apply imap_ext. intros k y _. unfold compose.
  by rewrite ty_at_S.
Qed.

Lemma prepare_loop_spec types xs h i l frame :
  params_ok types i xs → accounts h l frame →
  wp (prepare_loop h types i xs) (fun '(h', ys, bs) =>
    ys = params_given types i xs ∧ accounts h' (bs ++ l) frame ∧
    length bs = length xs ∧
    ∀ k b, bs !! k = Some b → is_Some b ↔ is_memref (ty_at types i k) = true).
Proof.
  revert h i l. induction xs as [|x xs IH]; intros h i l Hok Hacc; [done|].
  apply params_ok_cons in Hok as [[Hx Hty] Hok]. cbn [prepare_loop]. apply wp_bind.
  replace (TEE_PARAM_TYPE_GET types i) with (ty_at types i 0) by (unfold ty_at; f_equal; lia).
  eapply wp_mono; [by apply prepare_param_spec|]. intros [[h1 y] b] (->&Hb&Hacc1).
  apply wp_bind. eapply wp_mono; [by apply IH|]. intros [[h2 ys] bs] (->&Hacc2&Hlen&Hbs).
  cbn [wp]. rewrite params_given_cons. split; [done|]. split.
  { eapply accounts_perm; [exact Hacc2|]. cbn [app]. rewrite blocks_cons, !blocks_app, blocks_cons.
    solve_Permutation. }
  split; [cbn; congruence|]. intros [|k] b' Hk; [by injection Hk as <-|].
  rewrite ty_at_S. by apply Hbs.
Qed.

(** ** Copies back *)

Lemma load_take buffer size :
  0 <= size <= Z.of_nat (length buffer) →
  load_bytes buffer 0 size = Done (take (Z.to_nat size) buffer).
Proof. apply range_bytes_load. Qed.

Lemma writeback_param_spec h ty x y b l frame :
  ty ∈ known_types → fits_back ty x y b → accounts h (b :: l) frame →
  wp (writeback_param h ty x y b) (fun '(h', x') => x' = returned ty x y ∧ accounts h' l frame).
Proof.
  intros Hty [Hf Hb] Hacc. unfold writeback_param, returned.
  assert (is_memref ty = false → accounts h l frame) as Hnone.
  { intros Hm. by rewrite (Hb Hm) in Hacc. }
  assert (∀ x' : TEEC_Parameter, wp (h' ← free h b; Done (h', x')) (fun '(h', r) =>
    r = x' ∧ accounts h' l frame)) as Hfree.
  { intros x'. apply wp_bind. eapply wp_mono; [by apply free_owned|]. done. }
  destruct (is_value_output ty) eqn:Hvo.
  { destruct Hf as (a&b'&->). split; [done|]. apply Hnone. by known_type Hty. }
  destruct (is_memref_output ty) eqn:Hmo.
  { destruct Hf as (->&buffer&size&->&Hs&Hfit). cbn [mbind outcome_bind].
    rewrite load_take by done. cbn [mbind outcome_bind].
    rewrite copy_to_ok by (rewrite length_take; lia). apply Hfree. }
  assert (∀ y, match y with ParamNone | _ => x end = x) as Hx by by intros [].
  destruct (Z.eqb_spec ty TEE_PARAM_TYPE_MEMREF_INPUT) as [->|].
  { destruct y; apply Hfree. }
  assert (is_memref ty = false) as Hm by by known_type Hty.
  destruct y; split; auto.
Qed.

Lemma params_returned_cons types i x xs y ys :
  params_returned types i (x :: xs) (y :: ys) =
  returned (ty_at types i 0) x y :: params_returned types (i + 1) xs ys.
Proof.
  unfold params_returned. cbn [zip zip_with imap]. f_equal. apply imap_ext. intros k [? ?] _.
  unfold compose. by rewrite ty_at_S.
Qed.

Definition params_fit (types i : Z) (xs : list TEEC_Parameter) (ys : list TEE_Param)
    (bs : list (option nat)) : Prop :=
  ∀ k x y b, xs !! k = Some x → ys !! k = Some y → bs !! k = Some b →
    ty_at types i k ∈ known_types ∧ fits_back (ty_at types i k) x y b.

Lemma writeback_loop_spec types xs ys bs h i l frame :
  length ys = length xs → length bs = length xs → params_fit types i xs ys bs →
  accounts h (bs ++ l) frame →
  wp (writeback_loop h types i xs ys bs) (fun '(h', xs') =>
    xs' = params_returned types i xs ys ∧ accounts h' l frame).
Proof.
  revert ys bs h i. induction xs as [|x xs IH]; intros [|y ys] [|b bs] h i Hys Hbs Hfit Hacc;
    try done. cbn [writeback_loop]. apply wp_bind.
  replace (TEE_PARAM_TYPE_GET types i) with (ty_at types i 0) by (unfold ty_at; f_equal; lia).
  destruct (Hfit 0%nat x y b eq_refl eq_refl eq_refl) as [Hty Hf].
  eapply wp_mono; [by apply writeback_param_spec|]. intros [h1 x'] (->&Hacc1).
  apply wp_bind. eapply wp_mono.
  { apply (IH ys bs h1 (i + 1)); [cbn in *; lia|cbn in *; lia| |done].
    intros k x0 y0 b0 ? ? ?. destruct (Hfit (S k) x0 y0 b0) as [? ?]; [done..|].
    by rewrite ty_at_S in *. }
  intros [h2 xs'] (->&Hacc2). cbn [wp]. by rewrite params_returned_cons.
Qed.
End copies.
