(* ===== verification/TeeClientTheorems.v ===== *)
(** * TeeClientTheorems: commands through the client library

    Copying the parameters of an operation in and out is a round trip that loses
    no memory; a command of the agent called through the library is total and
    keeps the agent well formed, but a command that fails loses the copies. *)

From S2P Require Import Prelude Tcbor TcborFacts SuitTypes SuitParser SuitParserFacts.
From S2P Require Import SuitAuth SuitAuthFacts SuitContext SuitContextFacts.
From S2P Require Import SuitRunner SuitRunnerFacts SuitRunnerTheorems.
From S2P Require Import TeepMessage TeepMessageFacts TeepMessageTheorems TeepEncoder.
From S2P Require Import Tools Agent AgentFacts AgentTaskTheorems AgentSafety AgentCommands.
From S2P Require Import SuitTheorems TeeClient TeeClientFacts.

Local Open Scope Z_scope.

(** ** Operations *)

(** The type of parameter [i] of an operation, as the agent sees it. *)
Definition op_type (op : TEEC_Operation) (i : Z) : Z := param_type (TEEC_PARAM_TYPE_GET (paramTypes op) i).

Definition operation_ok (op : TEEC_Operation) : bool :=
  match op_params op with
  | [a; b; c; d] =>
      client_param_ok (op_type op 0) a && client_param_ok (op_type op 1) b &&
      client_param_ok (op_type op 2) c && client_param_ok (op_type op 3) d
  | _ => false
  end.

(** The type of every parameter is one of the interface, so that the numbers of
    client and agent agree. *)
Definition known_op (op : TEEC_Operation) : bool := paramTypes op =? param_types (paramTypes op).

Definition given_params (op : TEEC_Operation) : list TEE_Param :=
  params_given (param_types (paramTypes op)) 0 (op_params op).

Definition returned_op (op : TEEC_Operation) (outs : list TEE_Param) : TEEC_Operation :=
  Operation (paramTypes op) (params_returned (param_types (paramTypes op)) 0 (op_params op) outs).

(** How many parameters are memory references. *)
Definition memrefs (op : TEEC_Operation) : nat :=
  length (filter (fun i => is_memref (op_type op i) = true) [0; 1; 2; 3]).

Lemma op_type_at op k :
  (k < 4)%nat → ty_at (param_types (paramTypes op)) 0 k = op_type op (Z.of_nat k).
Proof.
  intros Hk. unfold ty_at, op_type. pose proof (get_param_types (paramTypes op)) as Hg. cbn in Hg.
  injection Hg as H0 H1 H2 H3. destruct k as [|[|[|[|k]]]]; [exact H0|exact H1|exact H2|exact H3|lia].
Qed.

Lemma operation_inv op :
  operation_ok op = true → length (op_params op) = 4%nat ∧
  ∀ k x, op_params op !! k = Some x → client_param_ok (op_type op (Z.of_nat k)) x = true.
Proof.
  unfold operation_ok. destruct (op_params op) as [|a [|b [|c [|d [|? ?]]]]]; try done.
  intros Hok. bool_facts. split; [done|].
  intros [|[|[|[|k]]]] x; cbn; intros Hx; [injection Hx as <-..|]; done.
Qed.

Lemma operation_params_ok op :
  operation_ok op = true → params_ok (param_types (paramTypes op)) 0 (op_params op).
Proof.
  intros [Hl Hok]%operation_inv k x Hx. pose proof (lookup_lt_Some _ _ _ Hx).
  rewrite op_type_at by lia. split; [by apply Hok|]. apply param_type_known.
Qed.

(** The agent gets parameters of the types it is told. *)
Lemma given_params_typed op :
  operation_ok op = true → params_typed (param_types (paramTypes op)) (given_params op) = true.
Proof.
  intros Hok. pose proof (operation_params_ok op Hok) as Hp. unfold given_params.
  pose proof (operation_inv op Hok) as [Hl _].
  destruct (op_params op) as [|a [|b [|c [|d [|? ?]]]]] eqn:Hop; try done.
  change (params_given (param_types (paramTypes op)) 0 [a; b; c; d]) with
    [given (ty_at (param_types (paramTypes op)) 0 0) a; given (ty_at (param_types (paramTypes op)) 0 1) b;
     given (ty_at (param_types (paramTypes op)) 0 2) c; given (ty_at (param_types (paramTypes op)) 0 3) d].
  cbn [params_typed]. rewrite !andb_true_iff.
  destruct (Hp 0%nat a eq_refl), (Hp 1%nat b eq_refl), (Hp 2%nat c eq_refl), (Hp 3%nat d eq_refl).
  split_and!; by apply given_typed.
Qed.

(** The blocks of the copies: one for each memory reference. *)
Definition copies_of (op : TEEC_Operation) (bs : list (option nat)) : Prop :=
  length bs = 4%nat ∧ ∀ k b, bs !! k = Some b → is_Some b ↔ is_memref (op_type op (Z.of_nat k)) = true.

Lemma blocks_length bs (P : Z → bool) :
  (∀ k b, bs !! k = Some b → is_Some b ↔ P (Z.of_nat k) = true) →
  length (blocks bs) = length (filter (fun i => P i = true) (Z.of_nat <$> seq 0 (length bs))).
Proof.
  induction bs as [|b bs IH] using rev_ind; intros Hb; [done|].
  rewrite blocks_app, length_app, length_app, seq_app, fmap_app, list.filter_app, length_app.
  rewrite IH by (intros k b' Hk; apply Hb, lookup_app_l_Some, Hk). f_equal. cbn [length seq fmap list_fmap].
  specialize (Hb (length bs) b). rewrite list_lookup_middle in Hb by done. specialize (Hb eq_refl).
  rewrite Nat.add_0_l. cbn [list_fmap fmap]. rewrite filter_cons, filter_nil.
  case_decide as HP; destruct b; cbn; try done; [by apply Hb in HP as []|by destruct HP; apply Hb].
Qed.

Lemma copies_count op bs : copies_of op bs → length (blocks bs) = memrefs op.
Proof.
  intros [Hl Hb]. rewrite (blocks_length bs (fun i => is_memref (op_type op i)) Hb), Hl. done.
Qed.

Section client.
Context `{Hal : allocator}.
Hypothesis Hmem : ∀ n z, malloc_succeeds n z = true.

Lemma prepare_params_spec h op l frame :
  operation_ok op = true → accounts h l frame →
  wp (prepare_params h op) (fun '(h', types, params, bs) =>
    types = param_types (paramTypes op) ∧ params = given_params op ∧ copies_of op bs ∧
    accounts h' (bs ++ l) frame).
Proof.
  intros Hok Hacc. unfold prepare_params. apply wp_bind.
  eapply wp_mono; [apply prepare_loop_spec; [done|by apply operation_params_ok|done]|].
  intros [[h' params] bs] (->&Hacc'&Hl&Hb). split; [done|]. split; [done|]. split; [|done].
  apply operation_inv in Hok as [Hlen _]. split; [congruence|]. intros k b Hk.
  pose proof (lookup_lt_Some _ _ _ Hk). rewrite <-op_type_at by lia. by apply Hb.
Qed.

Lemma given_params_length op : length (given_params op) = length (op_params op).
Proof. apply length_imap. Qed.

Lemma writeback_params_spec h op outs bs l frame :
  operation_ok op = true → Forall2 param_like (given_params op) outs → copies_of op bs →
  accounts h (bs ++ l) frame →
  wp (writeback_params h op (param_types (paramTypes op)) outs bs) (fun '(h', op') =>
    op' = returned_op op outs ∧ accounts h' l frame).
Proof.
  intros Hok Hlike [Hl Hb] Hacc. unfold writeback_params. apply wp_bind.
  pose proof (operation_params_ok op Hok) as Hp. pose proof (operation_inv op Hok) as [Hlen _].
  pose proof (Forall2_length Hlike) as Hlo. rewrite given_params_length in Hlo.
  eapply wp_mono; [apply writeback_loop_spec; [lia|lia| |done]|by intros [h' xs] [-> ?]].
  intros k x y b Hx Hy Hk. destruct (Hp k x Hx) as [Hxo Hty]. split; [done|].
  pose proof (lookup_lt_Some _ _ _ Hx).
  apply given_fits_back; [done|done| |].
  - eapply Forall2_lookup_lr; [exact Hlike| |done]. unfold given_params, params_given.
    by rewrite list_lookup_imap, Hx.
  - intros Hm. rewrite op_type_at in Hm by lia. destruct b as [b|]; [|done].
    assert (is_memref (op_type op (Z.of_nat k)) = true) by (apply (Hb k (Some b)); [done|by eexists]).
    congruence.
Qed.
End client.

(** ** The round trip *)

Lemma overwrite_take n (b : list byte) : overwrite (take n (take n b)) b = b.
Proof.
  unfold overwrite. rewrite take_take, Nat.min_id, length_take.
  destruct (Nat.le_ge_cases n (length b)).
  - by rewrite Nat.min_l, take_drop by done.
  - by rewrite Nat.min_r, drop_all, app_nil_r, take_ge by done.
Qed.

(** What the agent leaves as it was comes back as it was. *)
Lemma returned_given ty x :
  client_param_ok ty x = true → ty ∈ known_types → x ≠ ZeroParameter →
  ty ≠ TEE_PARAM_TYPE_VALUE_OUTPUT → ty ≠ TEE_PARAM_TYPE_MEMREF_OUTPUT →
  returned ty x (given ty x) = x.
Proof.
  intros Hx Hty Hz Hv Hm. known_type Hty; try done;
    destruct x as [|[bytes|] size|a b]; try done; cbn; by rewrite ?overwrite_take.
Qed.

(** C21: The parameters of an operation make a round trip through the client
    library.  Copying in hands the agent the values, the bytes of the inputs and
    zeroed outputs, of the types it is told, in one block for each memory
    reference.  Copying out, whatever the agent did to its copies within their
    sizes, stores the outputs, keeps the inputs and frees exactly these blocks; a
    parameter that was given in and left alone comes back as it was. *)
Theorem client_params_roundtrip `{allocator} h op frame :
  (∀ n z, malloc_succeeds n z = true) → operation_ok op = true → accounts h [] frame →
  wp (prepare_params h op) (fun '(h1, types, params, bs) =>
    params = given_params op ∧ params_typed types params = true ∧
    length (blocks bs) = memrefs op ∧
    (∀ h2 outs lost, Forall2 param_like params outs → accounts h2 bs (lost ++ frame) →
      wp (writeback_params h2 op types outs bs) (fun '(h3, op') =>
        op' = returned_op op outs ∧ accounts h3 [] (lost ++ frame))) ∧
    ∀ k x, op_params op !! k = Some x → x ≠ ZeroParameter →
      op_type op (Z.of_nat k) ≠ TEE_PARAM_TYPE_VALUE_OUTPUT →
      op_type op (Z.of_nat k) ≠ TEE_PARAM_TYPE_MEMREF_OUTPUT →
      op_params (returned_op op params) !! k = Some x).
Proof.
  intros Hmem Hok Hacc.
  eapply wp_mono; [by apply (prepare_params_spec Hmem h op [] frame)|].
  intros [[[h1 types] params] bs] (->&->&Hbs&Hacc1).
  split; [done|]. split; [by apply given_params_typed|]. split; [by apply copies_count|]. split.
  - intros h2 outs lost Hlike Hacc2.
    apply (writeback_params_spec h2 op outs bs [] (lost ++ frame)); try done. by rewrite app_nil_r.
  - intros k x Hx Hz Hv Hm. apply operation_inv in Hok as [Hl Hok].
    pose proof (lookup_lt_Some _ _ _ Hx). cbn. unfold params_returned.
    rewrite list_lookup_imap, lookup_zip_with. unfold given_params, params_given.
    rewrite list_lookup_imap, Hx. cbn. rewrite op_type_at by lia.
    by rewrite returned_given; [|apply Hok|apply param_type_known|..].
Qed.

(** ** Commands *)

Definition client_safe (frame : list nat) (c : tee_client) : Prop :=
  ∃ block s, session_ctx c = Some (block, s) ∧ instance_safe (block :: frame) (c_globals c) s.

Section commands.
Context `{Hal : allocator, Hcr : crypto_api, !crypto_laws, Hqc : qcbor, !qcbor_laws}.
Context `{Hqe : qcbor_encoder, !qcbor_encoder_laws}.
Variable p : platform.
Variable slot_addr : target_slot → Z.
Variable fuel : nat.
Hypothesis Hmem : ∀ n z, malloc_succeeds n z = true.
Hypothesis Hfuel : runner_fuel < Z.of_nat fuel.

Lemma instance_allocates g s h' bs leak frame :
  session_safe s → length (suit_manifests g) = 2%nat → Forall owned_ok (suit_manifests g) →
  accounts h' (bs ++ stored_blocks g ++ [fst <$> token s]) (leak ++ frame) →
  instance_safe (blocks bs ++ frame) (with_heap g h') s.
Proof.
  intros Hs Hl Ho Hacc. split; [done|]. exists leak. split; [done|done|].
  eapply accounts_perm; [exact Hacc|].
  change (stored_blocks (with_heap g h')) with (stored_blocks g).
  rewrite !blocks_app. solve_Permutation.
Qed.

Lemma live_session_safe bs block frame g s :
  instance_safe (bs ++ block :: frame) g s →
  live_session (g_heap g) (Some (block, s)) = Done (block, s).
Proof.
  intros [_ [leak [_ _ [_ Hl]]]]. unfold live_session. rewrite bool_decide_true; [done|].
  rewrite Hl. rewrite !elem_of_app, elem_of_cons. auto.
Qed.

(** A command through the library: the agent runs on the copies, and they go back
    and are freed if it succeeds. *)
Lemma invoke_spec frame c cmd op block s :
  session_ctx c = Some (block, s) → instance_safe (block :: frame) (c_globals c) s →
  operation_ok op = true → command_ready slot_addr fuel s cmd (given_params op) →
  wp (TEEC_InvokeCommand p slot_addr fuel c cmd op) (fun '(c', op', r) =>
    ∃ h g' s' outs bs,
      TA_InvokeCommandEntryPoint p slot_addr fuel (with_heap (c_globals c) h) s cmd
        (param_types (paramTypes op)) (given_params op) = Done (g', s', outs, r) ∧
      Forall2 param_like (given_params op) outs ∧ session_ctx c' = Some (block, s') ∧
      suit_manifests (c_globals c') = suit_manifests g' ∧ copies_of op bs ∧
      if r =? TEE_SUCCESS then instance_safe (block :: frame) (c_globals c') s' ∧ op' = returned_op op outs
      else instance_safe (blocks bs ++ block :: frame) (c_globals c') s' ∧ op' = op).
Proof.
  intros Hctx [Hs [leak [Hl Ho Hacc]]] Hok Hready. unfold TEEC_InvokeCommand. apply wp_bind.
  eapply wp_mono; [by apply prepare_params_spec|].
  intros [[[h types] params] bs] (->&->&Hbs&Hacc1).
  assert (instance_safe (blocks bs ++ block :: frame) (with_heap (c_globals c) h) s) as Hi
    by by eapply instance_allocates.
  apply wp_bind. rewrite Hctx. change h with (g_heap (with_heap (c_globals c) h)) at 1.
  rewrite (live_session_safe _ _ _ _ _ Hi). cbn [wp].
  destruct (wp_elim _ _ (command_total p slot_addr fuel Hmem Hfuel _ _ _ _ _ _ Hi
    (given_params_typed op Hok) Hready)) as ([[[g' s'] outs] r]&Hrun&Hi'&Hlike).
  cbn [fst snd] in *. rewrite Hrun. cbn [mbind outcome_bind].
  destruct (Z.eqb_spec r TEE_SUCCESS) as [->|Hr].
  - destruct Hi' as [Hs' [leak' [Hl' Ho' Hacc']]]. apply wp_bind.
    eapply wp_mono.
    { apply (writeback_params_spec (g_heap g') op outs bs (stored_blocks g' ++ [fst <$> token s'])
        (leak' ++ block :: frame)); try done.
      eapply accounts_perm; [exact Hacc'|]. rewrite !blocks_app. solve_Permutation. }
    intros [h2 op'] [-> Hacc2]. cbn [wp].
    exists h, g', s', outs, bs. do 5 (split; [done|]). cbn. split; [|done].
    split; [done|]. by exists leak'.
  - cbn [wp]. exists h, g', s', outs, bs. do 5 (split; [done|]).
    destruct (Z.eqb_spec r TEE_SUCCESS); [done|]. by split.
Qed.

Lemma instance_safe_perm f1 f2 g s : f1 ≡ₚ f2 → instance_safe f1 g s → instance_safe f2 g s.
Proof.
  intros Hp [Hs [leak [Hl Ho Hacc]]]. split; [done|]. exists leak. split; [done|done|].
  eapply accounts_perm; [exact Hacc|]. by rewrite Hp.
Qed.

(** Closing gives the session and its token back. *)
Lemma close_session_spec frame g block s :
  instance_safe (block :: frame) g s →
  wp (TA_CloseSessionEntryPoint (g_heap g) (Some (block, s))) (fun h =>
    ∃ lost, accounts h (stored_blocks g) (lost ++ frame)).
Proof.
  intros (_&leak&[_ _ Hacc]). unfold TA_CloseSessionEntryPoint, teep_agent_session_destroy. apply wp_bind.
  eapply wp_mono; [apply (free_owned _ _ (stored_blocks g) (leak ++ block :: frame))|].
  { eapply accounts_perm; [exact Hacc|]. rewrite blocks_app, !blocks_cons. cbn. solve_Permutation. }
  intros h1 Hacc1. eapply wp_mono; [apply (free_owned _ _ (stored_blocks g) (leak ++ frame))|].
  { eapply accounts_perm; [exact Hacc1|]. rewrite blocks_cons. cbn. solve_Permutation. }
  intros h2 Hacc2. by exists leak.
Qed.

(** The session behind the pointer, and what its next command needs. *)
Definition client_ready (c : tee_client) (cmd : Z) (op : TEEC_Operation) : Prop :=
  match session_ctx c with
  | Some (_, s) => command_ready slot_addr fuel s cmd (given_params op)
  | None => False
  end.

(** C13: Every command the client library passes to the agent returns and leaves
    the library and the agent well formed: the session, its buffers, manifests
    and runner, and the books of the heap.  After a success no block is lost; a
    command that fails leaves the operation as it was and loses one block for each
    memory reference. *)
Theorem client_command_total frame c cmd op :
  client_safe frame c → operation_ok op = true → client_ready c cmd op →
  wp (TEEC_InvokeCommand p slot_addr fuel c cmd op) (fun '(c', op', r) =>
    ∃ lost, client_safe (lost ++ frame) c' ∧ paramTypes op' = paramTypes op ∧
      length lost = (if r =? TEE_SUCCESS then 0%nat else memrefs op) ∧
      (r ≠ TEE_SUCCESS → op' = op)).
Proof.
  intros (block&s&Hctx&Hi) Hok Hready. unfold client_ready in Hready. rewrite Hctx in Hready.
  eapply wp_mono; [by eapply invoke_spec|].
  intros [[c' op'] r] (h&g'&s'&outs&bs&_&_&Hctx'&_&Hbs&Hres).
  destruct (Z.eqb_spec r TEE_SUCCESS).
  - destruct Hres as [Hi' ->]. exists []. split; [by exists block, s'|]. done.
  - destruct Hres as [Hi' ->]. exists (blocks bs). split.
    { exists block, s'. split; [done|]. eapply instance_safe_perm; [|exact Hi'].
      by rewrite Permutation_middle. }
    split; [done|]. split; [by apply copies_count|done].
Qed.
End commands.

(** ** Witnesses *)

(** The operation with which the broker asks for a task. *)
Definition query_operation : TEEC_Operation :=
  Operation (TEEC_PARAM_TYPES TEEC_VALUE_OUTPUT TEEC_MEMREF_TEMP_OUTPUT TEEC_MEMREF_TEMP_OUTPUT TEEC_NONE)
    [ZeroParameter; TempMemoryReference (Some (replicate 512 x00)) 512;
     TempMemoryReference (Some (replicate 2048 x00)) 2048; ZeroParameter].

Definition blank_globals : agent_globals := Globals (Heap 1 [0%nat]) [None; None].

Definition blank_client : tee_client := Client blank_globals (Some (0%nat, blank_session)).

Lemma blank_heap_accounts : accounts (Heap 1 [0%nat]) [] [0%nat].
Proof.
  split; [|done]. split; cbn; [apply NoDup_singleton|]. intros b Hb%list_elem_of_singleton. lia.
Qed.

Lemma blank_client_safe : client_safe [] blank_client.
Proof.
  exists 0%nat, blank_session. split; [done|]. split; [apply blank_session_safe|].
  exists []. split; [done|by repeat constructor|apply blank_heap_accounts].
Qed.

(** An operation with an input, given to a session without other blocks. *)
Definition option_operation : TEEC_Operation :=
  Operation (TEEC_PARAM_TYPES TEEC_VALUE_INPUT TEEC_MEMREF_TEMP_INPUT TEEC_NONE TEEC_NONE)
    [ValueParameter 0 0; TempMemoryReference (Some [x61; x00]) 2; ZeroParameter; ZeroParameter].

Lemma client_params_roundtrip_witness :
  ∃ r, @prepare_params always_malloc (Heap 1 [0%nat]) option_operation = Done r ∧
    r.1.2 = [ParamValue 0 0; ParamMemref [x61; x00] 2; ParamNone; ParamNone] ∧ length (blocks r.2) = 1%nat.
Proof.
  destruct (wp_elim _ _ (@client_params_roundtrip always_malloc (Heap 1 [0%nat]) option_operation [0%nat]
    (fun _ _ => eq_refl) ltac:(by vm_compute) blank_heap_accounts)) as ([[[h1 types] params] bs]&Hr&Hp&_&Hl&_).
  exists (h1, types, params, bs). split; [exact Hr|]. split; [exact Hp|exact Hl].
Defined.

(** A command the agent does not know loses both buffers of the broker. *)
Lemma client_command_total_witness :
  ∃ c r lost, @TEEC_InvokeCommand always_malloc (script_qcbor []) empty_encoder toy_crypto PLAT_PC
      (fun _ => 0) enough_fuel blank_client 99 query_operation = Done (c, query_operation, r) ∧
    client_safe lost c ∧ r = TEE_ERROR_NOT_IMPLEMENTED ∧ length lost = 2%nat.
Proof.
  destruct (wp_elim _ _ (@client_command_total always_malloc toy_crypto toy_laws (script_qcbor [])
    (script_laws []) empty_encoder empty_encoder_laws PLAT_PC (fun _ => 0) enough_fuel
    (fun _ _ => eq_refl) enough_fuel_ok [] blank_client 99 query_operation blank_client_safe
    ltac:(by vm_compute) I)) as ([[c op'] r]&Hr&lost&Hc&_&Hl&Hop).
  assert (r = TEE_ERROR_NOT_IMPLEMENTED) as ->.
  { revert Hr. clear. unfold TEEC_InvokeCommand. 
    destruct (prepare_params _ _) as [| |[[[h types] params] bs]]; cbn; try done.
    case_bool_decide; cbn; [|done]. by intros [= _ _ <-]. }
  rewrite (Hop ltac:(done)) in Hr. exists c, TEE_ERROR_NOT_IMPLEMENTED, lost.
  split; [exact Hr|]. rewrite app_nil_r in Hc. by split.
Defined.
