(* ===== verification/SgxHost.v ===== *)
(** * SgxHost: creating an enclave from a host of SGX

    [initialize_enclave] and the messages about its failure, which
    [teep-broker-app/teec-sgx.cpp] and [hello-tc/App-sgx.cpp] share, and the context
    of the client library.  The functions of the SGX SDK and the table of its
    messages are the class [sgx_sdk]. *)

From stdpp Require Import strings.
From S2P Require Import Prelude Text TeeClient.

Local Open Scope Z_scope.

Definition TEEC_ERROR_GENERIC : Z := 4294901760.

Class sgx_sdk := {
  SGX_SUCCESS : Z;
  (** [sgx_errlist]: the code, the message and a suggestion. *)
  sgx_errlist : list (Z * (list byte * option (list byte)));
  (** The status of [sgx_create_enclave] for the enclave in a file, and the
      identifier it stores if it succeeds, for the identifiers that are in use. *)
  sgx_create_enclave : String.string → list Z → Z * Z
}.

(** The variables of the process: the identifier, the enclaves that exist, and the
    standard output. *)
Record sgx_host := SgxHost { global_eid : Z; enclaves : list Z; host_out : list byte }.

Section host.
Context `{sgx_sdk}.

Definition host_print (s : sgx_host) (text : list byte) : sgx_host :=
  SgxHost (global_eid s) (enclaves s) (host_out s ++ text).

(** [%X] of an [unsigned int]. *)
Fixpoint hex_number (fuel : nat) (v : Z) (tail : list byte) : list byte :=
  match fuel with
  | O => tail
  | S fuel =>
      let tail := hex_digit_upper (v mod 16) :: tail in
      if v / 16 =? 0 then tail else hex_number fuel (v / 16) tail
  end.

(** The loop over the table, which stops at the first entry of the code. *)
Fixpoint find_error (ret : Z) (l : list (Z * (list byte * option (list byte)))) : option (list byte * option (list byte)) :=
  match l with
  | [] => None
  | (err, entry) :: l => if ret =? err then Some entry else find_error ret l
  end.

Definition error_text (ret : Z) : list byte :=
  match find_error ret sgx_errlist with
  | Some (msg, sug) =>
      match sug with Some sug => bytes_of_string "Info: " ++ sug ++ newline | None => [] end ++
      bytes_of_string "Error: " ++ msg ++ newline
  | None =>
      bytes_of_string "Error code is 0x" ++ hex_number 8 (to_u32 ret) [] ++
      bytes_of_string ". Please refer to the " ++ [x22] ++ bytes_of_string "Intel SGX SDK Developer Reference" ++ [x22] ++
      bytes_of_string " for more details." ++ newline
  end.

Definition print_error_message (s : sgx_host) (ret : Z) : sgx_host := host_print s (error_text ret).

(** The identifier is only stored if the enclave was created. *)
Definition initialize_enclave (file : String.string) (s : sgx_host) : sgx_host * Z :=
  let '(ret, eid) := sgx_create_enclave file (enclaves s) in
  if negb (ret =? SGX_SUCCESS) then (print_error_message s ret, -1)
  else (SgxHost eid (eid :: enclaves s) (host_out s), 0).

(** Nothing for an identifier that is not in use. *)
Definition sgx_destroy_enclave (s : sgx_host) (eid : Z) : sgx_host :=
  SgxHost (global_eid s) (filter (.≠ eid) (enclaves s)) (host_out s).

(** ** The context of the client library *)

Definition sgx_InitializeContext (s : sgx_host) : sgx_host * Z :=
  let '(s, ret) := initialize_enclave "teep-agent-ta.signed.so" s in
  if ret <? 0 then (s, TEEC_ERROR_GENERIC) else (s, TEEC_SUCCESS).

Definition sgx_FinalizeContext (s : sgx_host) : sgx_host := sgx_destroy_enclave s (global_eid s).
End host.
