(* ===== verification/HelloTc.v ===== *)
(** * HelloTc: the sample component ([hello-tc/])

    The component that is installed in the demonstration ([Enclave.c]) and the
    programs that run it on SGX, OP-TEE and Keystone.  The SDKs and the generated
    code of the calls into the enclave are arguments. *)

From stdpp Require Import strings.
From S2P Require Import Prelude Text Agent TeeClient SgxHost.

Local Open Scope Z_scope.

Definition TA_REF_RUN_HELLO : Z := 286331153.

(** ** The component ([Enclave.c]) *)

(** What its functions print: messages for debugging, information and output. *)
Inductive hello_message :=
  | DMSG (text : list byte)
  | IMSG (text : list byte)
  | tee_printf (text : list byte).

Definition hello_CreateEntryPoint (out : list hello_message) : list hello_message * Z :=
  (out ++ [DMSG (bytes_of_string "has been called")], TEE_SUCCESS).

Definition hello_OpenSession (out : list hello_message) : list hello_message * Z :=
  (out ++ [DMSG (bytes_of_string "Session has been opened")], TEE_SUCCESS).

Definition hello_DestroyEntryPoint (out : list hello_message) : list hello_message :=
  out ++ [DMSG (bytes_of_string "has been called")].

Definition hello_CloseSession (out : list hello_message) : list hello_message :=
  out ++ [IMSG (bytes_of_string "Goodbye!" ++ newline)].

Definition hello_InvokeCommand (cmd_id : Z) (out : list hello_message) : list hello_message * Z :=
  if cmd_id =? TA_REF_RUN_HELLO then
    (out ++ [tee_printf (bytes_of_string "Hello TEEP from TEE!" ++ newline)], TEE_SUCCESS)
  else (out, TEE_ERROR_BAD_PARAMETERS).

(** ** SGX ([App-sgx.cpp]) *)

Section sgx.
Context `{sgx_sdk}.
(** [ecall_ta_main], with the status of the call. *)
Variable ecall_ta_main : Z → Z → Z.

Definition hello_enclave : String.string := "8d82573a-926d-4754-9353-32dc29997f74.ta".

(** [main_destory_out]. *)
Definition hello_destroy (s : sgx_host) (ret : Z) : sgx_host * Z :=
  let s := sgx_destroy_enclave s (global_eid s) in
  (host_print s (bytes_of_string "Info: Enclave successfully returned." ++ newline), ret).

Definition hello_sgx_main (s : sgx_host) : sgx_host * Z :=
  let '(s, r) := initialize_enclave hello_enclave s in
  if r <? 0 then hello_destroy s (-1)
  else
    let ret := to_int (ecall_ta_main (global_eid s) TA_REF_RUN_HELLO) in
    if negb (ret =? SGX_SUCCESS) then (s, ret) else hello_destroy s ret.

(** The outcome in a new process: what is printed, the status, and whether the
    enclave still exists.  A failed call leaves it behind, and a failed creation is
    reported as a success after its error message. *)
Theorem hello_sgx_main_outcome eid0 :
  let '(status, eid) := sgx_create_enclave hello_enclave [] in
  let call := to_int (ecall_ta_main eid TA_REF_RUN_HELLO) in
  let done := bytes_of_string "Info: Enclave successfully returned." ++ newline in
  hello_sgx_main (SgxHost eid0 [] []) =
    if status =? SGX_SUCCESS then
      if call =? SGX_SUCCESS then (SgxHost eid [] done, call) else (SgxHost eid [eid] [], call)
    else (SgxHost eid0 [] (error_text status ++ done), -1).
Proof.
  unfold hello_sgx_main, initialize_enclave. cbn [enclaves].
  destruct (sgx_create_enclave hello_enclave []) as [status eid].
  destruct (status =? SGX_SUCCESS); cbn [negb Z.ltb Z.compare global_eid]; [|done].
  destruct (_ =? SGX_SUCCESS); cbn [negb]; [|done].
  unfold hello_destroy, host_print, sgx_destroy_enclave. cbn. by rewrite decide_False by (intros []; done).
Qed.
End sgx.

(** ** OP-TEE ([App-optee.c]) *)

Inductive optee_call :=
  | CallInitializeContext
  | CallOpenSession
  | CallInvokeCommand (commandID : Z) (operation : TEEC_Operation)
  | CallCloseSession
  | CallFinalizeContext.

Definition PRINT_BUF_SIZE : Z := 16384.

(** [op], with the array [print_buf]. *)
Definition hello_operation : TEEC_Operation :=
  Operation (TEEC_PARAM_TYPES TEEC_NONE TEEC_MEMREF_TEMP_OUTPUT TEEC_NONE TEEC_NONE)
    [ZeroParameter; TempMemoryReference (Some (replicate (Z.to_nat PRINT_BUF_SIZE) x00)) PRINT_BUF_SIZE;
     ZeroParameter; ZeroParameter].

(** The calls made, for their results, and the exit status; [errx] ends the
    program. *)
Definition hello_optee_main (initialized opened invoked : Z) : list optee_call * Z :=
  let calls := [CallInitializeContext] in
  if negb (initialized =? TEEC_SUCCESS) then (calls, 1)
  else
    let calls := calls ++ [CallOpenSession] in
    if negb (opened =? TEEC_SUCCESS) then (calls, 1)
    else
      let calls := calls ++ [CallInvokeCommand TA_REF_RUN_HELLO hello_operation] in
      if negb (invoked =? TEEC_SUCCESS) then (calls, 1)
      else (calls ++ [CallCloseSession; CallFinalizeContext], 0).

(** Which calls are in a list of calls. *)
Ltac in_list := repeat first [done | match goal with
  | H : _ ∈ [] |- _ => by apply elem_of_nil in H
  | H : _ ∈ _ :: _ |- _ => apply elem_of_cons in H as [?|H]
  | |- _ ∈ _ :: _ => apply elem_of_cons; first [by left|right]
  end].

(** The session is closed and the context finalized exactly if all calls succeed. *)
Lemma hello_optee_main_closes initialized opened invoked :
  let '(calls, ret) := hello_optee_main initialized opened invoked in
  (ret = 0 ↔ initialized = TEEC_SUCCESS ∧ opened = TEEC_SUCCESS ∧ invoked = TEEC_SUCCESS) ∧
  (ret = 0 ↔ CallCloseSession ∈ calls) ∧ (ret = 0 ↔ CallFinalizeContext ∈ calls).
Proof.
  unfold hello_optee_main.
  destruct (Z.eqb_spec initialized TEEC_SUCCESS), (Z.eqb_spec opened TEEC_SUCCESS), (Z.eqb_spec invoked TEEC_SUCCESS);
    cbn [negb app]; (split; [split; [try done|intuition congruence]|]); split; split; intros; in_list.
Qed.

(** ** Keystone ([App-keystone.cpp]) *)

Inductive keystone_call :=
  | KeystoneInit (eapp runtime : option (list byte))
  | KeystonePrint (text : list byte)
  | KeystoneRegisterDispatch
  | KeystoneRegisterFunctions
  | KeystoneEdgeInit
  | KeystoneWriteCommand (cmd : Z)
  | KeystoneRun.

(** [argv[i]]: behind the arguments there is a null pointer, and then nothing. *)
Definition argv_at (argv : list (list byte)) (i : nat) : outcome (option (list byte)) :=
  if bool_decide (i ≤ length argv)%nat then Done (argv !! i) else Ub.

(** [enclave.init] succeeds or not, for its arguments. *)
Definition hello_keystone_main (init : option (list byte) → option (list byte) → bool) (argv : list (list byte))
    : outcome (list keystone_call * Z) :=
  eapp ← argv_at argv 1;
  runtime ← argv_at argv 2;
  if negb (init eapp runtime) then
    name ← argv_at argv 0;
    match name with
    | Some name => Done ([KeystoneInit eapp runtime;
                          KeystonePrint (name ++ bytes_of_string ": Unable to start enclave" ++ newline)], 255)
    | None => Ub
    end
  else
    Done ([KeystoneInit eapp runtime; KeystoneRegisterDispatch; KeystoneRegisterFunctions; KeystoneEdgeInit;
           KeystoneWriteCommand TA_REF_RUN_HELLO; KeystoneRun], 0).

(** It needs the two paths on its command line; the constants of the file are not
    used. *)
Lemma hello_keystone_main_defined init name args :
  match args with
  | [] => hello_keystone_main init [name] = Ub
  | _ => wp (hello_keystone_main init (name :: args)) (fun '(calls, ret) =>
           (ret = 0 ↔ KeystoneRun ∈ calls) ∧ (ret = 0 ∨ ret = 255))
  end.
Proof.
  destruct args as [|eapp args]; [done|]. unfold hello_keystone_main, argv_at.
  rewrite !bool_decide_true by (cbn; lia). cbn [mbind outcome_bind].
  destruct (init _ _); cbn [negb]; rewrite ?bool_decide_true by (cbn; lia); cbn [negb mbind outcome_bind lookup list_lookup wp];
    (split; [|lia]); split; intros; in_list.
Qed.
