(* ===== verification/AgentCall.v ===== *)
(** * AgentCall: a command as one call

    What a command given through a client library amounts to, whatever the build:
    the parameters are copied in, the agent runs, the parameters are copied out.
    The builds differ in how they copy; PC, Keystone and SGX are each compared with
    [agent_call]. *)

From S2P Require Import Prelude Tcbor TcborFacts SuitTypes SuitParser SuitParserFacts.
From S2P Require Import SuitAuth SuitAuthFacts SuitContext SuitContextFacts.
From S2P Require Import SuitRunner SuitRunnerFacts SuitRunnerTheorems.
From S2P Require Import TeepMessage TeepMessageFacts TeepMessageTheorems TeepEncoder.
From S2P Require Import Tools Agent AgentFacts AgentTaskTheorems AgentSafety AgentCommands.
From S2P Require Import SuitTheorems TeeClient TeeClientFacts TeeClientTheorems.

Local Open Scope Z_scope.

(** What the agent may leave: a reference is not longer than it was. *)
Definition not_longer (x : TEEC_Parameter) (y : TEE_Param) : Prop :=
  match y with
  | ParamMemref buffer size => 0 <= size <= size_of x ∧ size <= Z.of_nat (length buffer)
  | _ => True
  end.

(** What the agent leaves is not longer than what it was given. *)
Lemma like_not_longer ty x y :
  client_param_ok ty x = true → ty ∈ known_types → param_like (given ty x) y → not_longer x y.
Proof.
  intros Hx Hty. known_type Hty; destruct y as [| |buffer size]; cbn; try done;
    destruct x as [|b n|]; cbn in *; try done; bool_facts; intros [Hl Hs];
    rewrite ?length_take, ?length_replicate in Hl; lia.
Qed.

Lemma likes_not_longer op outs :
  operation_ok op = true → Forall2 param_like (given_params op) outs → Forall2 not_longer (op_params op) outs.
Proof.
  intros Hok Hlike. pose proof (operation_params_ok op Hok) as Hp. apply Forall2_same_length_lookup_2.
  { pose proof (Forall2_length Hlike) as Hl. by rewrite given_params_length in Hl. }
  intros k x y Hx Hy. destruct (Hp k x Hx) as [Hxo Hty]. apply (like_not_longer _ _ _ Hxo Hty).
  eapply Forall2_lookup_lr; [exact Hlike| |exact Hy]. unfold given_params, params_given.
  by rewrite list_lookup_imap, Hx.
Qed.

(** ** Operations changed one parameter after the other *)

Definition op_at (op : TEEC_Operation) (i : Z) (x : TEEC_Parameter) : Prop :=
  op_params op !! Z.to_nat i = Some x.

(** The parameters from [i] on. *)
Definition op_has (op : TEEC_Operation) (i : Z) (xs : list TEEC_Parameter) : Prop :=
  0 <= i ∧ drop (Z.to_nat i) (op_params op) = xs.

(** Other parameters from [i] on. *)
Definition op_from (op : TEEC_Operation) (i : Z) (zs : list TEEC_Parameter) : TEEC_Operation :=
  Operation (paramTypes op) (take (Z.to_nat i) (op_params op) ++ zs).

Lemma op_has_all op : op_has op 0 (op_params op).
Proof. split; [done|by rewrite drop_0]. Qed.

Lemma op_has_cons op i x xs : op_has op i (x :: xs) → op_at op i x ∧ op_has op (i + 1) xs.
Proof.
  intros (Hi&Hd). split.
  - unfold op_at. rewrite <-(Nat.add_0_r (Z.to_nat i)), <-lookup_drop, Hd. done.
  - split; [lia|]. rewrite Z2Nat.inj_add, <-drop_drop, Hd by lia. done.
Qed.

Lemma set_param_set op i x x' : set_param (set_param op i x) i x' = set_param op i x'.
Proof. unfold set_param. cbn. by rewrite list_insert_insert_eq. Qed.

Lemma set_param_same op i x : op_at op i x → set_param op i x = op.
Proof. unfold op_at, set_param. destruct op. cbn. intros Hx. by rewrite list_insert_id. Qed.

Lemma op_at_set op i x x' : op_at op i x → op_at (set_param op i x') i x'.
Proof. intros Hx. apply list_lookup_insert_eq. by eapply lookup_lt_Some. Qed.

Lemma op_has_set op i z xs : 0 <= i → op_has op (i + 1) xs → op_has (set_param op i z) (i + 1) xs.
Proof. intros Hi [Hi1 Hd]. split; [done|]. cbn. by rewrite drop_insert_lt by lia. Qed.

Lemma op_from_nil op i : op_has op i [] → op_from op i [] = op.
Proof.
  intros [_ Hd]. unfold op_from. rewrite app_nil_r, take_ge; [by destruct op|].
  pose proof (f_equal length Hd) as Hl. rewrite length_drop in Hl. cbn in Hl. lia.
Qed.

Lemma op_from_cons op i x z zs :
  0 <= i → op_at op i x → op_from (set_param op i z) (i + 1) zs = op_from op i (z :: zs).
Proof.
  intros Hi Hx%lookup_lt_Some. unfold op_from. cbn. f_equal.
  replace (Z.to_nat (i + 1)) with (S (Z.to_nat i)) by lia.
  rewrite (take_S_r _ _ z) by by apply list_lookup_insert_eq.
  rewrite take_insert_ge by done. by rewrite <-(assoc_L (++)).
Qed.

Section calls.
Context `{Hal : allocator, Hcr : crypto_api, !crypto_laws, Hqc : qcbor, !qcbor_laws}.
Context `{Hqe : qcbor_encoder, !qcbor_encoder_laws}.
Variable p : platform.
Variable slot_addr : target_slot → Z.
Variable fuel : nat.

(** A command as one call: the copies in, the agent, the copies out. *)
Definition agent_call (a : tee_client) (cmd : Z) (op : TEEC_Operation)
    : outcome (tee_client * TEEC_Operation * Z) :=
  '(h, types, params, l) ← prepare_params (g_heap (c_globals a)) op;
  '(block, s) ← live_session h (session_ctx a);
  '(g, s, params, r) ← TA_InvokeCommandEntryPoint p slot_addr fuel (with_heap (c_globals a) h) s cmd types params;
  '(h, op) ← writeback_params (g_heap g) op types params l;
  Done (Client (with_heap g h) (Some (block, s)), op, r).

(** What the PC build does with the results of a call. *)
Definition pc_returns (op : TEEC_Operation) (a' : tee_client) (op' : TEEC_Operation) (r : Z)
    (res : tee_client * TEEC_Operation * Z) : Prop :=
  let '(c', op1, r1) := res in
  r1 = r ∧ session_ctx c' = session_ctx a' ∧ suit_manifests (c_globals c') = suit_manifests (c_globals a') ∧
  if r =? TEE_SUCCESS then c' = a' ∧ op1 = op' else op1 = op.

(** The parts of a call. *)
Record call_run (frame : list nat) (a : tee_client) (cmd : Z) (op : TEEC_Operation)
    (h : heap) (bs : list (option nat)) (block : nat) (s : teep_agent_session)
    (g : agent_globals) (s' : teep_agent_session) (outs : list TEE_Param) (h' : heap) (r : Z) : Prop := {
  cr_prepare : prepare_params (g_heap (c_globals a)) op =
    Done (h, param_types (paramTypes op), given_params op, bs);
  cr_live : live_session h (session_ctx a) = Done (block, s);
  cr_run : TA_InvokeCommandEntryPoint p slot_addr fuel (with_heap (c_globals a) h) s cmd
    (param_types (paramTypes op)) (given_params op) = Done (g, s', outs, r);
  cr_back : writeback_params (g_heap g) op (param_types (paramTypes op)) outs bs =
    Done (h', returned_op op outs);
  cr_copies : copies_of op bs;
  cr_like : Forall2 param_like (given_params op) outs;
  cr_safe : client_safe frame (Client (with_heap g h') (Some (block, s')))
}.

Lemma call_run_done frame a cmd op h bs block s g s' outs h' r :
  call_run frame a cmd op h bs block s g s' outs h' r →
  agent_call a cmd op = Done (Client (with_heap g h') (Some (block, s')), returned_op op outs, r).
Proof.
  intros [Hprep Hlive Hrun Hback _ _ _]. unfold agent_call. rewrite Hprep. cbn [mbind outcome_bind].
  rewrite Hlive. cbn [mbind outcome_bind]. rewrite Hrun. cbn [mbind outcome_bind]. by rewrite Hback.
Qed.

Lemma call_run_pc frame a cmd op h bs block s g s' outs h' r :
  call_run frame a cmd op h bs block s g s' outs h' r →
  wp (TEEC_InvokeCommand p slot_addr fuel a cmd op)
    (pc_returns op (Client (with_heap g h') (Some (block, s'))) (returned_op op outs) r).
Proof.
  intros [Hprep Hlive Hrun Hback _ _ _]. unfold TEEC_InvokeCommand. rewrite Hprep. cbn [mbind outcome_bind].
  rewrite Hlive. cbn [mbind outcome_bind]. rewrite Hrun. cbn [mbind outcome_bind].
  destruct (Z.eqb_spec r TEE_SUCCESS) as [->|Hr].
  - rewrite Hback. cbn. done.
  - cbn. split; [done|]. destruct (Z.eqb_spec r TEE_SUCCESS); [done|]. done.
Qed.

(** A call of a well-formed client is defined. *)
Lemma call_runs frame a cmd op :
  (∀ n z, malloc_succeeds n z = true) → runner_fuel < Z.of_nat fuel →
  client_safe frame a → operation_ok op = true → client_ready slot_addr fuel a cmd op →
  ∃ h bs block s g s' outs h' r, call_run frame a cmd op h bs block s g s' outs h' r.
Proof.
  intros Hmem Hfuel (block&s&Hctx&Hi) Hok Hready. unfold client_ready in Hready. rewrite Hctx in Hready.
  pose proof Hi as [Hs [leak [Hl Ho Hacc]]].
  destruct (wp_elim _ _ (prepare_params_spec Hmem _ op _ _ Hok Hacc)) as ([[[h types] params] bs]&Hprep&->&->&Hbs&Hacc1).
  assert (instance_safe (blocks bs ++ block :: frame) (with_heap (c_globals a) h) s) as Hi1
    by by eapply instance_allocates.
  assert (live_session h (session_ctx a) = Done (block, s)) as Hlive.
  { rewrite Hctx. change h with (g_heap (with_heap (c_globals a) h)) at 1. by eapply live_session_safe. }
  destruct (wp_elim _ _ (command_total p slot_addr fuel Hmem Hfuel _ _ _ _ _ _ Hi1
    (given_params_typed op Hok) Hready)) as ([[[g' s'] outs] r]&Hrun&Hi'&Hlike). cbn [fst snd] in *.
  destruct Hi' as [Hs' [leak' [Hl' Ho' Hacc']]].
  destruct (wp_elim _ _ (writeback_params_spec (g_heap g') op outs bs (stored_blocks g' ++ [fst <$> token s'])
        (leak' ++ block :: frame) Hok Hlike Hbs
        ltac:(eapply accounts_perm; [exact Hacc'|]; rewrite !blocks_app; solve_Permutation)))
    as ([h2 op']&Hback&->&Hacc2).
  exists h, bs, block, s, g', s', outs, h2, r. split; try done.
  exists block, s'. split; [done|]. split; [done|]. by exists leak'.
Qed.
End calls.
