(* ===== verification/ClientLaws.v ===== *)
(** * ClientLaws: what the broker relies on in the client library

    The class [client_laws] is the contract of [client_api]: a session is opened,
    closed, and a command is performed by the agent on the parameters of the
    operation.  The PC build keeps it; Clients has the other builds. *)

From S2P Require Import Prelude Tcbor TcborFacts SuitTypes SuitParser SuitParserFacts.
From S2P Require Import SuitAuth SuitAuthFacts SuitContext SuitContextFacts.
From S2P Require Import SuitRunner SuitRunnerFacts SuitRunnerTheorems.
From S2P Require Import TeepMessage TeepMessageFacts TeepMessageTheorems TeepEncoder.
From S2P Require Import Tools Agent AgentFacts AgentTaskTheorems AgentSafety AgentCommands.
From S2P Require Import SuitTheorems TeeClient TeeClientFacts TeeClientTheorems AgentCall.

Local Open Scope Z_scope.

(** The commands of the broker. *)
Definition broker_commands : list Z :=
  [TEEP_AGENT_SET_DEV_OPTION; TEEP_AGENT_BROKER_TASK_DONE; TEEP_AGENT_QUERY_NEXT_BROKER_TASK].

(** The client has this session, beside the blocks of [frame]. *)
Definition has_session (frame : list nat) (a : tee_client) (s : teep_agent_session) : Prop :=
  ∃ block, session_ctx a = Some (block, s) ∧ instance_safe (block :: frame) (c_globals a) s.

(** The agent has performed a command; [lost]: copies that are not given back,
    none after a success. *)
Definition performed `{allocator, qcbor, qcbor_encoder, crypto_api} (p : platform) (slot_addr : target_slot → Z)
    (fuel : nat) (frame : list nat) (g : agent_globals) (s : teep_agent_session) (cmd : Z) (op : TEEC_Operation)
    (a' : tee_client) (op' : TEEC_Operation) (r : Z) : Prop :=
  ∃ h g' s' outs lost,
    TA_InvokeCommandEntryPoint p slot_addr fuel (with_heap g h) s cmd (param_types (paramTypes op))
      (given_params op) = Done (g', s', outs, r) ∧
    has_session (lost ++ frame) a' s' ∧
    (r = TEE_SUCCESS → lost = [] ∧ op' = returned_op op outs).

Class client_laws `{allocator, Hqc : qcbor, !qcbor_laws, qcbor_encoder, crypto_api, Hcl : client_api}
    (p : platform) (slot_addr : target_slot → Z) (fuel : nat) := {
  open_law : ∀ frame size garbage c,
    garbage_ok garbage → store_safe (c_globals (agent_of c)) [] frame →
    wp (tc_OpenSession size garbage c zero_operation) (fun '(c', r) =>
      r = TEEC_SUCCESS ∧ has_session frame (agent_of c') (session_init garbage));
  close_law : ∀ frame c s, has_session frame (agent_of c) s →
    wp (tc_CloseSession c) (fun c' => ∃ lost,
      accounts (g_heap (c_globals (agent_of c'))) (stored_blocks (c_globals (agent_of c'))) (lost ++ frame));
  invoke_law : ∀ frame c s cmd op,
    has_session frame (agent_of c) s → cmd ∈ broker_commands → operation_ok op = true → known_op op = true →
    command_ready slot_addr fuel s cmd (given_params op) →
    wp (tc_InvokeCommand c cmd op) (fun '(c', op', r) =>
      performed p slot_addr fuel frame (c_globals (agent_of c)) s cmd op (agent_of c') op' r)
}.

(** ** Opening and closing *)

Section sessions.
Context `{Hal : allocator}.
Hypothesis Hmem : ∀ n z, malloc_succeeds n z = true.

(** A new session in the heap of the agent. *)
Lemma new_session frame size garbage g :
  garbage_ok garbage → store_safe g [] frame →
  ∃ h b, TA_OpenSessionEntryPoint size (g_heap g) 0 garbage = (h, Some (b, session_init garbage), TEE_SUCCESS) ∧
    instance_safe (b :: frame) (with_heap g h) (session_init garbage).
Proof.
  intros Hg Hst. unfold TA_OpenSessionEntryPoint. change (0 =? _) with true. cbn [negb].
  unfold teep_agent_session_create. destruct (malloc_some Hmem (g_heap g) size) as (h&b&Hm). rewrite Hm.
  exists h, b. split; [done|]. apply (open_session_safe size g frame garbage h b); [done|done|].
  unfold teep_agent_session_create. by rewrite Hm.
Qed.

Lemma session_given_back frame a s :
  has_session frame a s →
  wp (TA_CloseSessionEntryPoint (g_heap (c_globals a)) (session_ctx a)) (fun h =>
    ∃ lost, accounts h (stored_blocks (c_globals a)) (lost ++ frame)).
Proof. intros (block&Hctx&Hi). rewrite Hctx. by apply (close_session_spec frame). Qed.

(** The operation without parameters copies nothing. *)
Lemma zero_prepared h : prepare_params h zero_operation =
  Done (h, 0, [ParamNone; ParamNone; ParamNone; ParamNone], [None; None; None; None]).
Proof. reflexivity. Qed.

Lemma zero_written h : writeback_params h zero_operation 0
    [ParamNone; ParamNone; ParamNone; ParamNone] [None; None; None; None] = Done (h, zero_operation).
Proof. reflexivity. Qed.
End sessions.

(** ** The builds *)

Section builds.
Context `{Hal : allocator, Hcr : crypto_api, !crypto_laws, Hqc : qcbor, !qcbor_laws}.
Context `{Hqe : qcbor_encoder, !qcbor_encoder_laws}.
Variable p : platform.
Variable slot_addr : target_slot → Z.
Variable fuel : nat.
Hypothesis Hmem : ∀ n z, malloc_succeeds n z = true.
Hypothesis Hfuel : runner_fuel < Z.of_nat fuel.

(** A call that gives its copies back performs its command. *)
Lemma call_run_performed frame a cmd op h bs block s g s' outs h' r s0 :
  session_ctx a = Some (block, s0) →
  call_run p slot_addr fuel frame a cmd op h bs block s g s' outs h' r →
  performed p slot_addr fuel frame (c_globals a) s0 cmd op (Client (with_heap g h') (Some (block, s')))
    (returned_op op outs) r.
Proof.
  intros Hctx [_ Hlive Hrun _ _ _ (block'&s1&Hctx'&Hi)]. rewrite Hctx in Hlive. unfold live_session in Hlive.
  case_bool_decide; [|done]. injection Hlive as <-. injection Hctx' as <- <-.
  exists h, g, s', outs, []. split; [exact Hrun|]. split; [by exists block|done].
Qed.

(** What the builds that always copy back have to show. *)
Lemma invoke_by_calls frame a s cmd op (Q : tee_client → TEEC_Operation → Z → Prop) :
  has_session frame a s → operation_ok op = true →
  command_ready slot_addr fuel s cmd (given_params op) →
  (∀ h bs block s g s' outs h' r, call_run p slot_addr fuel frame a cmd op h bs block s g s' outs h' r →
     Q (Client (with_heap g h') (Some (block, s'))) (returned_op op outs) r) →
  ∃ a' op' r, performed p slot_addr fuel frame (c_globals a) s cmd op a' op' r ∧ Q a' op' r.
Proof.
  intros (block&Hctx&Hi) Hok Hready HQ.
  destruct (call_runs p slot_addr fuel frame a cmd op Hmem Hfuel) as (h&bs&block'&s1&g&s'&outs&h'&r&Hcall).
  - by exists block, s.
  - done.
  - unfold client_ready. by rewrite Hctx.
  - assert (block' = block) as ->.
    { pose proof (cr_live _ _ _ _ _ _ _ _ _ _ _ _ _ _ _ _ Hcall) as Hlive. rewrite Hctx in Hlive.
      unfold live_session in Hlive. case_bool_decide; [|done]. by injection Hlive. }
    eexists _, _, _. split; [by eapply call_run_performed|by eapply HQ].
Qed.

(** The PC build. *)
Lemma pc_client_laws : client_laws (Hcl := pc_client p slot_addr fuel) p slot_addr fuel.
Proof.
  split.
  - intros frame size garbage c Hg Hst. cbn [agent_of tc_OpenSession pc_client client_state] in *.
    unfold TEEC_OpenSession. rewrite zero_prepared.
    cbn [mbind outcome_bind].
    destruct (new_session Hmem frame size garbage _ Hg Hst) as (h&b&->&Hi). rewrite Z.eqb_refl, zero_written.
    cbn. split; [done|]. by exists b.
  - intros frame c s Hs. apply wp_bind. eapply wp_mono; [by eapply session_given_back|]. done.
  - intros frame c s cmd op (block&Hctx&Hi) _ Hok _ Hready. cbn in *.
    eapply wp_mono; [by eapply (invoke_spec p slot_addr fuel Hmem Hfuel frame)|].
    intros [[c' op'] r] (h&g'&s'&outs&bs&Hrun&_&Hctx'&_&_&Hres). destruct (Z.eqb_spec r TEE_SUCCESS).
    + destruct Hres as [Hi' ->]. exists h, g', s', outs, []. split; [done|]. split; [by exists block|done].
    + destruct Hres as [Hi' ->]. exists h, g', s', outs, (blocks bs). split; [done|]. split; [|done].
      exists block. split; [done|]. eapply instance_safe_perm; [|exact Hi']. by rewrite Permutation_middle.
Qed.
End builds.
