(* ===== verification/Broker.v ===== *)
(** * Broker: the loop of the broker

    [teep-broker.c]: the broker opens a session of the agent, sets its options, and
    then asks for tasks, performs them over HTTP and reports the answers until the
    agent has finished.  The client library is the class [client_api], with an
    instance for each build; the two functions of [http.h] are the class [http_api],
    and Http gives the implementation of the source.  Printing is left out. *)

From Stdlib Require Import Strings.String.
From S2P Require Import Prelude Tcbor SuitTypes SuitParser SuitAuth SuitContext SuitRunner.
From S2P Require Import TeepMessage TeepEncoder Tools Agent TeeClient.

Local Open Scope Z_scope.

(** ** HTTP

    [http_get(uri, out, &len)] and [http_post(uri, in, in_len, out, &len)] with the
    capacity of [out]: the result and the bytes stored, [len] of them. *)

Class http_api := {
  net : Type;
  http_get : net → list byte → Z → outcome (net * Z * list byte);
  http_post : net → list byte → list byte → Z → outcome (net * Z * list byte)
}.

(** ** State *)

(** [sizeof http_res_buf]; of its contents only the bytes of an answer are read. *)
Definition http_res_buf_size : Z := 6 * 1024 * 1024.

(** A request the broker made, for the specification only. *)
Inductive request :=
  | Get (uri : list byte)
  | Post (uri message : list byte).

Record broker_state (session net : Type) := BrokerCtx {
  tee_session : session;
  network : net;
  requests_made : list request
}.
#[global] Arguments BrokerCtx {_ _}.
#[global] Arguments tee_session {_ _}.
#[global] Arguments network {_ _}.
#[global] Arguments requests_made {_ _}.

Definition broker_ctx `{client_api, http_api} : Type := broker_state client_state net.

Definition with_session `{client_api, http_api} (ctx : broker_ctx) (c : client_state) : broker_ctx :=
  BrokerCtx c (network ctx) (requests_made ctx).

Definition with_network `{client_api, http_api} (ctx : broker_ctx) (w : net) (r : request) : broker_ctx :=
  BrokerCtx (tee_session ctx) w (requests_made ctx ++ [r]).

(** The copy of [struct broker_task] in the broker; its command is the number the
    agent returned. *)
Record local_task := LocalTask {
  l_command : Z;
  l_uri : list byte;
  l_post_data : list byte;
  l_post_data_len : Z
}.

Section broker.
Context `{client_api, http_api}.
(** What the memory of a session and of the task holds before it is written. *)
Variable sizeof_session : Z.
Variable garbage : teep_agent_session.
Variable garbage_task : local_task.

Definition broker_ctx_init (ctx : broker_ctx) : outcome (broker_ctx * Z) :=
  if negb (TEEC_InitializeContext =? TEEC_SUCCESS) then Done (ctx, -1)
  else
    '(c, r) ← tc_OpenSession sizeof_session garbage (tee_session ctx) zero_operation;
    Done (with_session ctx c, if negb (r =? TEEC_SUCCESS) then -1 else 0).

Definition broker_ctx_destroy (ctx : broker_ctx) : outcome broker_ctx :=
  c ← tc_CloseSession (tee_session ctx); Done (with_session ctx c).

(** ** Commands *)

Definition option_op (option : Z) (value : list byte) : TEEC_Operation :=
  Operation (TEEC_PARAM_TYPES TEEC_VALUE_INPUT TEEC_MEMREF_TEMP_INPUT TEEC_NONE TEEC_NONE)
    [ValueParameter option 0;
     TempMemoryReference (Some (value ++ [x00])) (Z.of_nat (length value) + 1);
     ZeroParameter; ZeroParameter].

Definition done_op (answer : list byte) (in_len : Z) : TEEC_Operation :=
  Operation (TEEC_PARAM_TYPES TEEC_MEMREF_TEMP_INPUT TEEC_NONE TEEC_NONE TEEC_NONE)
    [TempMemoryReference (Some answer) in_len; ZeroParameter; ZeroParameter; ZeroParameter].

Definition query_op (task : local_task) : TEEC_Operation :=
  Operation (TEEC_PARAM_TYPES TEEC_VALUE_OUTPUT TEEC_MEMREF_TEMP_OUTPUT TEEC_MEMREF_TEMP_OUTPUT TEEC_NONE)
    [ZeroParameter;
     TempMemoryReference (Some (l_uri task)) (Z.of_nat TEEP_MAX_URI_LEN);
     TempMemoryReference (Some (l_post_data task)) (Z.of_nat TEEP_MAX_MESSAGE_LEN);
     ZeroParameter].

(** [value]: the characters of the string. *)
Definition set_agent_dev_option (ctx : broker_ctx) (option : Z) (value : list byte)
    : outcome (broker_ctx * Z) :=
  '(c, _, n) ← tc_InvokeCommand (tee_session ctx) TEEP_AGENT_SET_DEV_OPTION
                 (option_op option value);
  Done (with_session ctx c, to_int n).

Definition broker_task_done (ctx : broker_ctx) (answer : list byte) (in_len : Z)
    : outcome (broker_ctx * Z) :=
  '(c, _, n) ← tc_InvokeCommand (tee_session ctx) TEEP_AGENT_BROKER_TASK_DONE
                 (done_op answer in_len);
  Done (with_session ctx c, to_int n).

Definition agent_query_next_broker_task (ctx : broker_ctx) (task : local_task)
    : outcome (broker_ctx * local_task * Z) :=
  '(c, op, n) ← tc_InvokeCommand (tee_session ctx) TEEP_AGENT_QUERY_NEXT_BROKER_TASK
                  (query_op task);
  let ctx := with_session ctx c in
  if negb (n =? TEEC_SUCCESS) then Done (ctx, task, to_int n)
  else
    match op_params op with
    | x0 :: x1 :: x2 :: _ =>
        '(a, _) ← value_member x0;
        '(uri, uri_len) ← tmpref_member x1;
        '(post_data, post_data_len) ← tmpref_member x2;
        let task := LocalTask a (default [] uri) (default [] post_data) post_data_len in
        last ← load (l_uri task) (uri_len - 1);
        if negb (last =? 0) then Done (ctx, task, -1) else Done (ctx, task, to_int n)
    | _ => Ub
    end.

(** ** Tasks *)

(** The string a [char] array holds. *)
Definition task_string (buffer : list byte) : outcome (list byte) :=
  match cstr buffer with Some s => Done s | None => Ub end.

Definition broker_http_post (ctx : broker_ctx) (task : local_task) : outcome (broker_ctx * Z) :=
  uri ← task_string (l_uri task);
  data ← load_bytes (l_post_data task) 0 (l_post_data_len task);
  '(w, n, answer) ← http_post (network ctx) uri data http_res_buf_size;
  let ctx := with_network ctx w (Post uri data) in
  if n <? 0 then Done (ctx, -1)
  else broker_task_done ctx answer (Z.of_nat (length answer)).

Definition broker_http_get (ctx : broker_ctx) (task : local_task) : outcome (broker_ctx * Z) :=
  uri ← task_string (l_uri task);
  '(w, n, answer) ← http_get (network ctx) uri http_res_buf_size;
  let ctx := with_network ctx w (Get uri) in
  if n <? 0 then Done (ctx, -1)
  else broker_task_done ctx answer (Z.of_nat (length answer)).

(** One round of [for (;;)], and the value of a [return] or a [break] in it. *)
Definition loop_round (ctx : broker_ctx) : outcome (broker_ctx * option Z) :=
  '(ctx, task, n) ← agent_query_next_broker_task ctx garbage_task;
  if n <? 0 then Done (ctx, Some (-1))
  else if l_command task =? broker_command_value BROKER_FINISH then Done (ctx, Some 0)
  else if l_command task =? broker_command_value BROKER_HTTP_POST then
    '(ctx, n) ← broker_http_post ctx task;
    Done (ctx, if n <? 0 then Some (-1) else None)
  else if l_command task =? broker_command_value BROKER_HTTP_GET then
    '(ctx, n) ← broker_http_get ctx task;
    Done (ctx, if n <? 0 then Some (-1) else None)
  else Done (ctx, Some (-1)).

Fixpoint loop_rounds (rounds : nat) (ctx : broker_ctx) : outcome (broker_ctx * Z) :=
  match rounds with
  | O => NoFuel
  | S rounds =>
      '(ctx, ret) ← loop_round ctx;
      match ret with
      | Some ret => Done (ctx, ret)
      | None => loop_rounds rounds ctx
      end
  end.

(** The results of setting the options are not looked at. *)
Definition loop_teep (rounds : nat) (uri talist : list byte) (ctx : broker_ctx)
    : outcome (broker_ctx * Z) :=
  '(ctx, _) ← set_agent_dev_option ctx AGENT_OPTION_SET_TAM_URI uri;
  '(ctx, _) ← set_agent_dev_option ctx AGENT_OPTION_SET_CURRENT_TA_LIST talist;
  loop_rounds rounds ctx.

(** The result of the loop is not looked at either. *)
Definition broker_main (rounds : nat) (uri talist : list byte) (ctx : broker_ctx)
    : outcome (broker_ctx * Z) :=
  '(ctx, n) ← broker_ctx_init ctx;
  if n <? 0 then Done (ctx, -1)
  else
    '(ctx, _) ← loop_teep rounds uri talist ctx;
    ctx ← broker_ctx_destroy ctx;
    Done (ctx, 0).

(** ** The command line

    [lws_cmdline_option] of libwebsockets looks an option up; [None] is the exit
    after the usage message. *)

Record broker_options := BrokerOptions { o_uri : list byte; o_talist : list byte; o_cose : bool }.

Definition default_options : broker_options :=
  BrokerOptions (bytes_of_string "http://127.0.0.1:3000/api/tam"%string) [] false.

Definition cmdline_parse (lws_cmdline_option : list byte → option (list byte)) : option broker_options :=
  if bool_decide (is_Some (lws_cmdline_option (bytes_of_string "--help"%string))) then None
  else
    let d := default_options in
    Some (BrokerOptions
      (default (o_uri d) (lws_cmdline_option (bytes_of_string "--tamurl"%string)))
      (default (o_talist d) (lws_cmdline_option (bytes_of_string "--talist"%string)))
      (bool_decide (is_Some (lws_cmdline_option (bytes_of_string "--cose"%string))) || o_cose d)).

(** [main]: the exit status. *)
Definition main (rounds : nat) (lws_cmdline_option : list byte → option (list byte)) (ctx : broker_ctx)
    : outcome (broker_ctx * Z) :=
  match cmdline_parse lws_cmdline_option with
  | None => Done (ctx, 1)
  | Some o => broker_main rounds (o_uri o) (o_talist o) ctx
  end.

End broker.
