(* ===== verification/Protocol.v ===== *)
(** * Protocol: what a TEEP agent may ask of the network

    An abstract machine for one exchange with a TAM, without sessions, buffers,
    runners or heaps: which requests are made in which phase, and how the phase
    may change with the answer.  Broker and agent together are shown to be a
    refinement of it in BrokerTheorems. *)

From S2P Require Import Prelude Agent Broker.

(** [Hello]: nothing was said yet.  [Answering]: the TAM has asked what is
    installed.  [Installing]: an update was accepted and is carried out.
    [Failing]: an error is to be reported.  [Closed]: the exchange is over. *)
Inductive phase := Hello | Answering | Installing | Failing | Closed.

#[export] Instance phase_eq_dec : EqDecision phase.
Proof. solve_decision. Defined.

(** The kinds of messages of the agent. *)
Inductive message_kind := QueryResponse | Success | Error.

Section protocol.
(** The URI of the TAM, and the bytes of the messages of each kind. *)
Variable tam : list byte.
Variable says : message_kind → list byte → Prop.

Inductive protocol_step : phase → request → phase → Prop :=
  (** The first message is empty; the TAM asks, ends the exchange, or is not
      understood. *)
  | hello_step ph : ph ∈ [Answering; Failing; Closed] →
      protocol_step Hello (Post tam []) ph
  (** The answer may be repeated: an update that is not accepted changes nothing. *)
  | answer_step m ph : says QueryResponse m → ph ∈ [Answering; Installing; Failing; Closed] →
      protocol_step Answering (Post tam m) ph
  (** Components are fetched one after the other. *)
  | fetch_step uri : protocol_step Installing (Get uri) Installing
  | success_step m ph : says Success m → ph ∈ [Failing; Closed] →
      protocol_step Installing (Post tam m) ph
  | install_error_step m : says Error m → protocol_step Installing (Post tam m) Closed
  | error_step m : says Error m → protocol_step Failing (Post tam m) Closed.

Inductive protocol_run : phase → list request → phase → Prop :=
  | run_nil ph : protocol_run ph [] ph
  | run_step ph1 q ph2 l ph3 :
      protocol_step ph1 q ph2 → protocol_run ph2 l ph3 → protocol_run ph1 (q :: l) ph3.

Lemma protocol_run_app ph1 l1 ph2 l2 ph3 :
  protocol_run ph1 l1 ph2 → protocol_run ph2 l2 ph3 → protocol_run ph1 (l1 ++ l2) ph3.
Proof. induction 1; [done|]. intros Hrun. econstructor; eauto. Qed.

(** Nothing is fetched and no result is reported before the TAM was answered, and
    nothing follows the end. *)
Lemma protocol_closed l ph : protocol_run Closed l ph → l = [] ∧ ph = Closed.
Proof. inversion 1 as [|? ? ? ? ? Hs]; [done|inversion Hs]. Qed.

Lemma protocol_fetch_after_answer l ph uri :
  protocol_run Hello l ph → Get uri ∈ l → ∃ m, says QueryResponse m ∧ Post tam m ∈ l.
Proof.
  assert (∀ ph1 l ph, protocol_run ph1 l ph → ph1 ≠ Installing → Get uri ∈ l →
    ∃ m, says QueryResponse m ∧ Post tam m ∈ l) as Hgen; [|by eauto].
  clear l ph. intros ph1 l ph Hrun. induction Hrun as [|ph1 q ph2 l ph3 Hs Hrun IH]; intros Hne Hin.
  { by apply elem_of_nil in Hin. }
  destruct (decide (ph2 = Installing)) as [->|Hne2].
  - assert (ph1 = Answering ∧ ∃ m, says QueryResponse m ∧ q = Post tam m) as [_ (m&?&->)].
    { inversion Hs as [ph Hph|m ph ? Hph|?|m ph ? Hph|?|?]; subst; try done;
        first [by apply (bool_decide_pack _) in Hph | by eauto]. }
    exists m. split; [done|]. by left.
  - apply elem_of_cons in Hin as [<-|Hin]; [by inversion Hs|].
    destruct (IH Hne2 Hin) as (m&?&?). exists m. split; [done|]. by right.
Qed.
End protocol.
