(* ===== verification/BrokerFacts.v ===== *)
(** * BrokerFacts: one round of the broker's loop

    What the agent does with an answer, what a round asks of the network, and that
    a round keeps the invariant of the loop ([loop_head]) and makes progress. *)

From S2P Require Import Prelude Tcbor TcborFacts SuitTypes SuitParser SuitParserFacts.
From S2P Require Import SuitAuth SuitAuthFacts SuitContext SuitContextFacts.
From S2P Require Import SuitRunner SuitRunnerFacts SuitRunnerTheorems.
From S2P Require Import TeepMessage TeepMessageFacts TeepMessageTheorems TeepEncoder.
From S2P Require Import Tools Agent AgentFacts AgentTaskTheorems AgentSafety AgentCommands.
From S2P Require Import TeeClient TeeClientFacts TeeClientTheorems AgentCall ClientLaws Broker Protocol.

Local Open Scope Z_scope.

(** ** Answers *)

(** The states an answer to a task of this state may lead to. *)
Definition answer_states (st : agent_state) : list agent_state :=
  match st with
  | AGENT_POSTING_INITIAL_REQUEST => [AGENT_POSTING_QUERY_RESPONSE; AGENT_POSTING_ERROR; AGENT_FINISH]
  | AGENT_POSTING_QUERY_RESPONSE =>
      [AGENT_POSTING_QUERY_RESPONSE; AGENT_INIT_RUNNER; AGENT_POSTING_ERROR; AGENT_FINISH]
  | AGENT_POSTING_SUCCESS => [AGENT_POSTING_ERROR; AGENT_FINISH]
  | AGENT_POSTING_ERROR => [AGENT_FINISH]
  | AGENT_FETCH_COMPONENT => [AGENT_RUN_SUIT_RUNNER]
  | _ => []
  end.

(** The runner as it was, and no longer suspended unless it has failed. *)
Definition runner_resumed (r r' : suit_runner unit) : Prop :=
  program_counter r' = program_counter r ∧ stack r' = stack r ∧ has_error r' = has_error r ∧
  (has_error r = false → suspended r' = false).

Definition answered (s s' : teep_agent_session) : Prop :=
  on_going_task s' = false ∧ tam_uri s' = tam_uri s ∧ state s' ∈ answer_states (state s) ∧
  (state s = AGENT_FETCH_COMPONENT →
     s_context s' = s_context s ∧ runner_resumed (s_runner s) (s_runner s')).

Lemma resume_resumed (r : suit_runner unit) (u : agent_user) :
  runner_resumed r (suit_runner_resume (r, u)).1.
Proof.
  unfold runner_resumed. destruct r as [sq sc sd bs pc st [] [] f]; cbn; try by split_and!.
  destruct f; cbn; by split_and!.
Qed.

Section answers.
Context `{Hal : allocator, Hqc : qcbor, Hcr : crypto_api}.
Variable fuel : nat.

(** A message of the TAM: [posted st] are the states messages are posted in. *)
Definition message_answered (s s' : teep_agent_session) : Prop :=
  tam_uri s' = tam_uri s ∧ state s' ∈ answer_states (state s).

Lemma error_answered s :
  state s ≠ AGENT_POSTING_ERROR → task_state BROKER_HTTP_POST (state s) → message_answered s (teep_error s).
Proof. intros Hne Ht. split; [done|]. cbn. destruct (state s); try done; by apply (bool_decide_unpack _). Qed.

Lemma finish_answered s : task_state BROKER_HTTP_POST (state s) → message_answered s (with_state s AGENT_FINISH).
Proof. intros Ht. split; [done|]. cbn. destruct (state s); try done; by apply (bool_decide_unpack _). Qed.

Lemma handle_message_answered g s m :
  state s ≠ AGENT_POSTING_ERROR → task_state BROKER_HTTP_POST (state s) →
  may (handle_message g s m) (fun r => message_answered s r.2).
Proof.
  intros Hne Ht. pose proof (error_answered s Hne Ht) as Herr.
  unfold handle_message. destruct (m_body m) as [q|q|l|q|q]; try done.
  - unfold handle_query_request. case_bool_decide as Hst; cbn [negb]; [|done].
    destruct (malloc _ _) as [h [b|]]; [|case_match; [|done]]; (split; [done|]); cbn; rewrite Hst;
      by apply (bool_decide_unpack _).
  - unfold handle_update. case_bool_decide as Hst; cbn [negb]; [|done].
    destruct (store_envelopes _ _ _ _) as [| |[g1 []]]; cbn [mbind outcome_bind negb may]; try done.
    + destruct (add_envelopes _ _ _) as [| |[c []]]; cbn [mbind outcome_bind negb may]; try done;
        (split; [done|]); cbn; rewrite Hst; by apply (bool_decide_unpack _).
    + split; [done|]. cbn. rewrite Hst. by apply (bool_decide_unpack _).
Qed.

(** Errors of the agent are negative for the broker. *)
Definition result_code (ret : Z) : Prop := ret = TEE_SUCCESS ∨ to_int ret < 0.

Lemma handle_tam_message_answered g s buffer :
  task_state BROKER_HTTP_POST (state s) →
  may (handle_tam_message fuel g s buffer) (fun r => message_answered s r.1.2 ∧ result_code r.2).
Proof.
  intros Ht. unfold handle_tam_message. pose proof (finish_answered s Ht).
  case_bool_decide; [by split; [|left]|].
  case_bool_decide as Hne; [by split; [|right]|].
  apply may_bind. destruct (parse_teep_message _ _ _) as [| |[h [[block m]|]]]; cbn [may]; try done.
  - apply may_bind. eapply may_mono; [by apply handle_message_answered|].
    intros [g' s'] Hs'. apply may_bind. destruct (free_parsed_teep_message _ _); try done.
    by split; [|left].
  - split; [by apply error_answered|by right].
Qed.

Lemma task_done_answered g s buffer :
  on_going_task s = true → task_state (t_command (task_buffer s)) (state s) →
  t_command (task_buffer s) ≠ BROKER_FINISH →
  may (Agent.broker_task_done fuel g s buffer) (fun r => answered s r.1.2 ∧ result_code r.2).
Proof.
  intros Hon Ht Hc. unfold Agent.broker_task_done. rewrite Hon. cbn [negb].
  destruct (t_command (task_buffer s)); [| |done].
  - apply may_bind. eapply may_mono; [by apply handle_tam_message_answered|].
    intros [[g' s'] ret] [[Huri Hst] ?]. cbn in *. split; [|done]. split_and!; try done.
    intros Hf. by rewrite Hf in Ht.
  - destruct (state s) eqn:Hst; try done.
    unfold handle_component_download. rewrite Hst, bool_decide_true by done. cbn [negb].
    pose proof (resume_resumed (s_runner s)
      (store_component (s_user s) (fetch_component_path (s_user s)) buffer)) as Hres.
    destruct (suit_runner_resume _) as [r u]. cbn. split; [|by left].
    split_and!; try done. rewrite Hst. by left.
Qed.
End answers.

(** ** The operations of the broker *)

Definition garbage_task_ok (task : local_task) : Prop :=
  length (l_uri task) = TEEP_MAX_URI_LEN ∧ length (l_post_data task) = TEEP_MAX_MESSAGE_LEN.

Lemma query_op_ok task : garbage_task_ok task → operation_ok (query_op task) = true.
Proof. intros [H1 H2]. unfold operation_ok. cbn -[Z.leb Z.of_nat]. by rewrite H1, H2. Qed.

Lemma query_op_given task : given_params (query_op task) =
  [ParamValue 0 0; ParamMemref (replicate 512 x00) 512; ParamMemref (replicate 2048 x00) 2048; ParamNone].
Proof. by vm_compute. Qed.

Lemma query_op_types task : param_types (paramTypes (query_op task)) = query_types.
Proof. by vm_compute. Qed.

Lemma done_op_ok answer :
  Z.of_nat (length answer) < u32_modulus → operation_ok (done_op answer (Z.of_nat (length answer))) = true.
Proof.
  intros Hl. unfold operation_ok. cbn -[Z.leb Z.ltb Z.of_nat].
  apply Z.ltb_lt in Hl. rewrite Hl, Z.leb_refl. destruct (Z.leb_spec 0 (Z.of_nat (length answer))); [done|lia].
Qed.

Lemma done_op_given answer :
  given_params (done_op answer (Z.of_nat (length answer))) =
  [ParamMemref answer (Z.of_nat (length answer)); ParamNone; ParamNone; ParamNone].
Proof.
  change (given_params (done_op answer (Z.of_nat (length answer)))) with
    [ParamMemref (take (Z.to_nat (Z.of_nat (length answer))) answer) (Z.of_nat (length answer));
     ParamNone; ParamNone; ParamNone].
  by rewrite Nat2Z.id, take_ge.
Qed.

(** What comes back into the task of the broker. *)
Lemma query_op_returned task a b buf1 n1 buf2 n2 :
  returned_op (query_op task) [ParamValue a b; ParamMemref buf1 n1; ParamMemref buf2 n2; ParamNone] =
  Operation (paramTypes (query_op task))
    [ValueParameter a b;
     TempMemoryReference (Some (overwrite (take (Z.to_nat n1) buf1) (l_uri task))) n1;
     TempMemoryReference (Some (overwrite (take (Z.to_nat n2) buf2) (l_post_data task))) n2;
     ZeroParameter].
Proof. reflexivity. Qed.

Definition done_types : Z := TEE_PARAM_TYPES TEE_PARAM_TYPE_MEMREF_INPUT TEE_PARAM_TYPE_NONE
  TEE_PARAM_TYPE_NONE TEE_PARAM_TYPE_NONE.

Lemma done_op_types answer n : param_types (paramTypes (done_op answer n)) = done_types.
Proof. by vm_compute. Qed.

(** A string that was copied out. *)
Lemma cstr_app_nul uri rest : x00 ∉ uri → cstr (uri ++ (x00 :: rest)) = Some uri.
Proof.
  induction uri as [|c uri IH]; cbn; intros Hn; [by rewrite bool_decide_true|].
  apply not_elem_of_cons in Hn as [Hc Hn]. rewrite bool_decide_false by done. by rewrite IH.
Qed.

Lemma cstr_inv buf uri : cstr buf = Some uri → (x00 ∉ uri) ∧ ∃ rest, buf = uri ++ (x00 :: rest).
Proof.
  revert uri. induction buf as [|c buf IH]; intros uri; cbn; [done|].
  case_bool_decide as Hc; [intros [= <-]; subst; split; [by intros ?%elem_of_nil|by exists buf]|].
  destruct (cstr buf) as [s|]; [|done]. intros [= <-]. destruct (IH s eq_refl) as (Hs&rest&->).
  split; [|by exists rest]. intros [?|?]%elem_of_cons; congruence.
Qed.

Lemma cstr_length buf uri : cstr buf = Some uri → (length uri < length buf)%nat.
Proof. intros (_&rest&->)%cstr_inv. rewrite length_app. cbn. lia. Qed.

Lemma take_overwrite bytes old : take (length bytes) (overwrite bytes old) = bytes.
Proof. unfold overwrite. by rewrite take_app_length. Qed.

Lemma load_overwrite bytes old : load_bytes (overwrite bytes old) 0 (Z.of_nat (length bytes)) = Done bytes.
Proof.
  rewrite range_bytes_load; [by rewrite Nat2Z.id, take_overwrite|].
  unfold overwrite. rewrite length_app. lia.
Qed.

Lemma load_overwrite_last bytes c old :
  load (overwrite (bytes ++ [c]) old) (Z.of_nat (length (bytes ++ [c])) - 1) = Done (u8 c).
Proof.
  unfold load, overwrite. rewrite <-(assoc_L (++)), length_app. cbn [length app].
  destruct (Z.ltb_spec (Z.of_nat (length bytes + 1) - 1) 0); [lia|].
  replace (Z.to_nat (Z.of_nat (length bytes + 1) - 1)) with (length bytes) by lia.
  by rewrite list_lookup_middle.
Qed.

Section query.
Context `{Hal : allocator, Hcr : crypto_api, !crypto_laws, Hqc : qcbor, !qcbor_laws}.
Context `{Hqe : qcbor_encoder, !qcbor_encoder_laws}.
Variable p : platform.
Variable slot_addr : target_slot → Z.
Variable fuel : nat.
Hypothesis Hfuel : runner_fuel < Z.of_nat fuel.

(** A task that fits the buffers of the broker is handed out. *)
Lemma query_answer_fits s uri b :
  session_wf s → on_going_task s = true → cstr (t_uri (task_buffer s)) = Some uri →
  query_answer s uri b (replicate 512 x00) 512 (replicate 2048 x00) 2048 =
  ([ParamValue (broker_command_value (t_command (task_buffer s))) b;
    ParamMemref (overwrite (uri ++ [x00]) (replicate 512 x00)) (Z.of_nat (length (uri ++ [x00])));
    ParamMemref (overwrite (task_bytes s) (replicate 2048 x00)) (Z.of_nat (length (task_bytes s)));
    ParamNone], TEE_SUCCESS).
Proof.
  intros [_ Hu Hd Hl _ _] Hon Huri%cstr_length. unfold query_answer.
  change TEEP_MAX_URI_LEN with 512%nat in *. change TEEP_MAX_MESSAGE_LEN with 2048%nat in *.
  rewrite length_app. cbn [length].
  destruct (Z.ltb_spec 512 (Z.of_nat (length uri + 1))); [lia|].
  destruct (Z.ltb_spec 2048 (Z.of_nat (length (task_bytes s)))) as [Hlt|]; [|done].
  unfold task_bytes in Hlt. rewrite length_take in Hlt. lia.
Qed.

Lemma query_command g s s' uri :
  query_next_broker_task p slot_addr fuel 4 s = Done s' →
  session_wf s' → on_going_task s' = true → cstr (t_uri (task_buffer s')) = Some uri →
  TA_InvokeCommandEntryPoint p slot_addr fuel g s TEEP_AGENT_QUERY_NEXT_BROKER_TASK query_types
    [ParamValue 0 0; ParamMemref (replicate 512 x00) 512; ParamMemref (replicate 2048 x00) 2048; ParamNone] =
  Done (g, s', (query_answer s' uri 0 (replicate 512 x00) 512 (replicate 2048 x00) 2048).1, TEE_SUCCESS).
Proof.
  intros Hq Hwf Hon Huri.
  unfold TA_InvokeCommandEntryPoint.
  change (TEEP_AGENT_QUERY_NEXT_BROKER_TASK =? TEEP_AGENT_SET_DEV_OPTION) with false.
  change (TEEP_AGENT_QUERY_NEXT_BROKER_TASK =? TEEP_AGENT_BROKER_TASK_DONE) with false.
  rewrite Z.eqb_refl. cbv iota.
  rewrite (query_handler_ok p slot_addr fuel s s' uri) by (done || by rewrite length_replicate).
  cbn [mbind outcome_bind]. by rewrite query_answer_fits.
Qed.
End query.

(** ** Rounds *)

(** What the broker relies on in the functions of [http.h]: a URI up to some
    length, and an answer within the capacity. *)
Class http_laws `{http_api} := {
  http_uri_max : nat;
  http_net_ok : net → Prop;
  http_get_spec : ∀ w uri max, http_net_ok w → (length uri ≤ http_uri_max)%nat → 0 <= max <= PTRDIFF_MAX →
    wp (http_get w uri max) (fun '(w', n, answer) => http_net_ok w' ∧ Z.of_nat (length answer) <= max);
  http_post_spec : ∀ w uri data max, http_net_ok w → (length uri ≤ http_uri_max)%nat → 0 <= max <= PTRDIFF_MAX →
    wp (http_post w uri data max) (fun '(w', n, answer) => http_net_ok w' ∧ Z.of_nat (length answer) <= max)
}.

Section rounds.
Context `{Hal : allocator, Hcr : crypto_api, !crypto_laws, Hqc : qcbor, !qcbor_laws}.
Variable p : platform.
Variable slot_addr : target_slot → Z.
Variable fuel : nat.
Context `{Hqe : qcbor_encoder, !qcbor_encoder_laws, Hcl : client_api, !client_laws p slot_addr fuel}.
Context `{Hht : http_api, !http_laws}.
Variable garbage_task : local_task.
Hypothesis Hfuel : runner_fuel < Z.of_nat fuel.
(** The fuel is also enough for the decoder on everything that fits the buffer. *)
Hypothesis Hdecode : ∀ answer, Z.of_nat (length answer) <= http_res_buf_size →
  (remaining (QCBORDecode_Init (Some answer)) < fuel)%nat.
Hypothesis Hgarbage : garbage_task_ok garbage_task.

(** The session of a broker and the rest of the state around it. *)
Definition session_at (frame : list nat) (ctx : broker_ctx) (s : teep_agent_session) : Prop :=
  has_session frame (agent_of (tee_session ctx)) s.

Lemma ask_spec frame ctx s :
  session_at frame ctx s → on_going_task s = false → query_ready slot_addr fuel s →
  ∃ tam r u, cstr (tam_uri s) = Some tam ∧ runner_result slot_addr fuel s = Done (r, u) ∧
    wp (agent_query_next_broker_task ctx garbage_task) (fun '(ctx', task, n) =>
      n = 0 ∧ network ctx' = network ctx ∧ requests_made ctx' = requests_made ctx ∧
      ∃ s', session_at frame ctx' s' ∧ session_kept s s' ∧ task_given tam (next_state s r) r u s' ∧
        (length tam < 511)%nat ∧
        l_command task = broker_command_value (t_command (task_buffer s')) ∧
        cstr (l_uri task) = cstr (t_uri (task_buffer s')) ∧ is_Some (cstr (l_uri task)) ∧
        load_bytes (l_post_data task) 0 (l_post_data_len task) = Done (task_bytes s')).
Proof.
  intros Hat Hon Hready. pose proof Hat as (block&_&Hi).
  destruct (query_fresh p slot_addr fuel Hfuel s ltac:(apply Hi) Hon Hready)
    as (tam&r&u&Htam&Hlen&Hres&Hwp).
  exists tam, r, u. split; [done|]. split; [done|].
  destruct (wp_elim _ _ Hwp) as (s1&Hq&Hs1&Hkept&Hg&[uri Huri]).
  unfold agent_query_next_broker_task. apply wp_bind.
  eapply wp_mono; [eapply (invoke_law frame (tee_session ctx) s
    TEEP_AGENT_QUERY_NEXT_BROKER_TASK (query_op garbage_task)); try done;
    [by apply (bool_decide_unpack _)|by apply query_op_ok]|].
  intros [[c' op'] n] (h&g'&s'&outs&lost&Hrun&Hat'&Hpost).
  rewrite query_op_types, query_op_given in Hrun.
  rewrite (query_command p slot_addr fuel (with_heap (c_globals (agent_of (tee_session ctx))) h) s s1 uri Hq)
    in Hrun by (done || apply Hs1 || by eapply given_on).
  rewrite query_answer_fits in Hrun by (done || apply Hs1 || by eapply given_on).
  injection Hrun as <- <- <- <-. destruct (Hpost eq_refl) as [-> ->].
  rewrite query_op_returned, !Nat2Z.id, !take_overwrite.
  change (TEE_SUCCESS =? TEEC_SUCCESS) with true. cbn [negb op_params value_member tmpref_member
    mbind outcome_bind default l_uri]. unfold Datatypes.id.
  rewrite load_overwrite_last. cbn [mbind outcome_bind negb Z.eqb wp].
  split; [done|]. split; [done|]. split; [done|]. exists s1. split; [exact Hat'|].
  split; [done|]. split; [done|]. split; [done|]. split; [done|]. cbn [l_uri l_post_data l_post_data_len].
  assert (cstr (overwrite (uri ++ [x00]) (l_uri garbage_task)) = Some uri) as Hc.
  { unfold overwrite. rewrite <-(assoc_L (++)). cbn [app]. apply cstr_app_nul.
    by eapply cstr_inv. }
  rewrite Hc, Huri. split; [done|]. split; [by eexists|]. apply load_overwrite.
Qed.

Lemma done_command g s answer :
  TA_InvokeCommandEntryPoint p slot_addr fuel g s TEEP_AGENT_BROKER_TASK_DONE done_types
    [ParamMemref answer (Z.of_nat (length answer)); ParamNone; ParamNone; ParamNone] =
  '(g, s, ret) ← Agent.broker_task_done fuel g s answer;
  Done (g, s, [ParamMemref answer (Z.of_nat (length answer)); ParamNone; ParamNone; ParamNone], ret).
Proof.
  unfold TA_InvokeCommandEntryPoint.
  change (TEEP_AGENT_BROKER_TASK_DONE =? TEEP_AGENT_SET_DEV_OPTION) with false.
  rewrite Z.eqb_refl. cbv iota. unfold handle_TEEP_AGENT_BROKER_TASK_DONE.
  rewrite Z.eqb_refl. cbn [negb]. rewrite range_bytes_load by lia. by rewrite Nat2Z.id, take_ge.
Qed.

(** The answer to the task of the session, handed over. *)
Lemma done_spec frame ctx s answer :
  session_at frame ctx s → on_going_task s = true → t_command (task_buffer s) ≠ BROKER_FINISH →
  Z.of_nat (length answer) <= http_res_buf_size →
  wp (broker_task_done ctx answer (Z.of_nat (length answer))) (fun '(ctx', n) =>
    network ctx' = network ctx ∧ requests_made ctx' = requests_made ctx ∧
    ∃ lost s', session_at (lost ++ frame) ctx' s' ∧ answered s s' ∧ (n < 0 ∨ lost = [])).
Proof.
  intros Hat Hon Hcmd Hlen. pose proof Hat as (block&_&Hi).
  assert (Z.of_nat (length answer) < u32_modulus) as Hsmall by (unfold http_res_buf_size, u32_modulus in *; lia).
  unfold broker_task_done. apply wp_bind.
  eapply wp_mono; [eapply (invoke_law frame (tee_session ctx) s
    TEEP_AGENT_BROKER_TASK_DONE (done_op answer (Z.of_nat (length answer)))); try done|].
  { by apply (bool_decide_unpack _). }
  { by apply done_op_ok. }
  { rewrite done_op_given. cbn -[remaining]. rewrite Nat2Z.id, take_ge by lia. by apply Hdecode. }
  intros [[c' op'] n] (h&g'&s'&outs&lost&Hrun&Hat'&Hpost).
  rewrite done_op_types, done_op_given, done_command in Hrun.
  pose proof (task_done_answered fuel (with_heap (c_globals (agent_of (tee_session ctx))) h) s answer Hon
    ltac:(by apply Hi) Hcmd) as Hans.
  destruct (Agent.broker_task_done _ _ _ _) as [| |[[g2 s2] ret]]; try done.
  cbn [mbind outcome_bind] in Hrun. injection Hrun as <- <- <- <-. destruct Hans as [Hans Hcode].
  cbn [fst snd] in *. split; [done|]. split; [done|].
  exists lost, s2. split; [exact Hat'|]. split; [done|]. destruct Hcode as [Hret|]; [right|by left].
  by destruct (Hpost Hret).
Qed.

(** ** The phases *)

Definition phase_of (st : agent_state) : phase :=
  match st with
  | AGENT_INIT | AGENT_POSTING_INITIAL_REQUEST => Hello
  | AGENT_POSTING_QUERY_RESPONSE => Answering
  | AGENT_INIT_RUNNER | AGENT_RUN_SUIT_RUNNER | AGENT_FETCH_COMPONENT | AGENT_POSTING_SUCCESS => Installing
  | AGENT_POSTING_ERROR => Failing
  | AGENT_FINISH => Closed
  end.

Definition message_state (k : message_kind) : agent_state :=
  match k with
  | QueryResponse => AGENT_POSTING_QUERY_RESPONSE
  | Success => AGENT_POSTING_SUCCESS
  | Error => AGENT_POSTING_ERROR
  end.

(** The messages some session builds in the buffer of its task. *)
Definition agent_says (k : message_kind) (m : list byte) : Prop :=
  ∃ s, task_message (message_state k) s ∧ m = task_bytes s.

(** The request for a task of this state. *)
Definition request_for (tam : list byte) (st : agent_state) (q : request) : Prop :=
  match st with
  | AGENT_POSTING_INITIAL_REQUEST => q = Post tam []
  | AGENT_POSTING_QUERY_RESPONSE => ∃ m, agent_says QueryResponse m ∧ q = Post tam m
  | AGENT_POSTING_SUCCESS => ∃ m, agent_says Success m ∧ q = Post tam m
  | AGENT_POSTING_ERROR => ∃ m, agent_says Error m ∧ q = Post tam m
  | AGENT_FETCH_COMPONENT => ∃ uri, q = Get uri
  | _ => False
  end.

(** The states a task is given in. *)
Lemma post_states s (r : suit_runner unit) :
  BROKER_HTTP_POST = task_command (next_state s r) →
  next_state s r ∈ [AGENT_POSTING_INITIAL_REQUEST; AGENT_POSTING_QUERY_RESPONSE;
    AGENT_POSTING_SUCCESS; AGENT_POSTING_ERROR].
Proof.
  unfold next_state. intros Hc. destruct (state s); try done;
    try (destruct (suit_runner_finished r); [|destruct (suit_runner_suspended r)]); try done;
    by apply (bool_decide_unpack _).
Qed.

Lemma get_request tam st uri : BROKER_HTTP_GET = task_command st → request_for tam st (Get uri).
Proof. intros Hc. destruct st; try done. by exists uri. Qed.

Lemma finish_phase s (r : suit_runner unit) :
  BROKER_FINISH = task_command (next_state s r) → phase_of (state s) = Closed.
Proof.
  unfold next_state. intros Hc. destruct (state s); try done; by repeat case_match.
Qed.

(** A request and an answer are a step of the protocol from the phase of the task,
    or, for an error of the runner, from the one before. *)
Lemma request_step tam st q st' :
  request_for tam st q → st' ∈ answer_states st →
  protocol_step tam agent_says (phase_of st) q (phase_of st') ∧
  (st = AGENT_POSTING_ERROR → protocol_step tam agent_says Installing q (phase_of st')).
Proof.
  intros Hq Hst. destruct st; try done; cbn in Hq, Hst.
  - subst q. split; [|done]. apply hello_step.
    repeat (apply elem_of_cons in Hst as [->|Hst]); [..|by apply elem_of_nil in Hst];
      by apply (bool_decide_unpack _).
  - destruct Hq as (m&Hm&->). split; [|done]. apply answer_step; [done|].
    repeat (apply elem_of_cons in Hst as [->|Hst]); [..|by apply elem_of_nil in Hst];
      by apply (bool_decide_unpack _).
  - destruct Hq as (m&Hm&->). split; [|done]. apply success_step; [done|].
    repeat (apply elem_of_cons in Hst as [->|Hst]); [..|by apply elem_of_nil in Hst];
      by apply (bool_decide_unpack _).
  - destruct Hq as (m&Hm&->). apply list_elem_of_singleton in Hst as ->.
    split; [by constructor|intros _; by constructor].
  - destruct Hq as (uri&->). apply list_elem_of_singleton in Hst as ->. split; [constructor|done].
Qed.

Lemma next_phase s (r : suit_runner unit) :
  phase_of (next_state s r) = phase_of (state s) ∨
  phase_of (state s) = Installing ∧ next_state s r = AGENT_POSTING_ERROR.
Proof. unfold next_state. destruct (state s); auto; repeat case_match; auto. Qed.

Lemma request_protocol tam s (r : suit_runner unit) q st :
  request_for tam (next_state s r) q → st ∈ answer_states (next_state s r) →
  protocol_step tam agent_says (phase_of (state s)) q (phase_of st).
Proof.
  intros Hq Hst. destruct (request_step tam _ q st Hq Hst) as [Hs He].
  destruct (next_phase s r) as [<-|[-> Hn]]; auto.
Qed.

(** The request of a round, and a step of the protocol even if no answer comes. *)
Lemma request_of_task tam st r u s q :
  task_given tam st r u s → st ∈ [AGENT_POSTING_INITIAL_REQUEST; AGENT_POSTING_QUERY_RESPONSE;
    AGENT_POSTING_SUCCESS; AGENT_POSTING_ERROR] →
  (length tam < 511)%nat → Some q = (fun uri => Post uri (task_bytes s)) <$> cstr (t_uri (task_buffer s)) →
  request_for tam st q.
Proof.
  intros [_ _ _ Hst Hc _ _ Hcont Hm] Hin Hl Hq.
  assert (cstr (t_uri (task_buffer s)) = Some tam) as Huri.
  { repeat (apply elem_of_cons in Hin as [->|Hin]); [auto..|by apply elem_of_nil in Hin]. }
  rewrite Huri in Hq. injection Hq as ->.
  assert (∀ k, message_state k = st → agent_says k (task_bytes s)) as Hsays.
  { intros k <-. by exists s. }
  repeat (apply elem_of_cons in Hin as [->|Hin]); [..|by apply elem_of_nil in Hin].
  - cbn in Hm. cbn. f_equal. unfold task_bytes. by rewrite Hm.
  - exists (task_bytes s). split; [by apply Hsays|done].
  - exists (task_bytes s). split; [by apply Hsays|done].
  - exists (task_bytes s). split; [by apply Hsays|done].
Qed.

(** ** Progress *)

(** What the runner of the session still has to do. *)
Definition run_weight (s : teep_agent_session) : Z :=
  match root (s_context s), state s with
  | Some m, AGENT_RUN_SUIT_RUNNER => runner_measure m (s_runner s)
  | _, _ => 0
  end.

Definition loop_measure (s : teep_agent_session) : Z :=
  (7 - Z.of_nat (rank (state s))) * (runner_fuel + 1) + run_weight s.

(** An update that was not accepted. *)
Definition retry (s s' : teep_agent_session) : bool :=
  bool_decide (state s = AGENT_POSTING_QUERY_RESPONSE ∧ state s' = AGENT_POSTING_QUERY_RESPONSE).

Lemma run_weight_range s : session_safe s → 0 <= run_weight s <= runner_fuel.
Proof.
  intros [_ _ _ _ Hrun]. unfold run_weight.
  assert (0 <= runner_fuel) by done.
  destruct (root (s_context s)) as [m|] eqn:Hroot; [|done].
  destruct (state s) eqn:Hst; try done.
  destruct (Hrun eq_refl) as (m'&Hroot'&Hok&_). assert (m' = m) as -> by congruence.
  exact (conj (@runner_measure_nonneg agent_callbacks m (s_runner s) Hok)
    (@runner_measure_bound agent_callbacks m (s_runner s) Hok)).
Qed.

Lemma loop_measure_rank s s' :
  session_safe s → session_safe s' → (rank (state s) < rank (state s'))%nat →
  loop_measure s' < loop_measure s.
Proof.
  intros Hs%run_weight_range Hs'%run_weight_range Hr. unfold loop_measure.
  assert (rank (state s') ≤ 7)%nat by (destruct (state s'); cbn; lia). nia.
Qed.

(** The part of the loop's invariant about the runner. *)
Definition runner_awake (s : teep_agent_session) : Prop :=
  state s = AGENT_RUN_SUIT_RUNNER → has_error (s_runner s) = false → suspended (s_runner s) = false.

Lemma next_fetch_stopped s (r : suit_runner unit) :
  next_state s r = AGENT_FETCH_COMPONENT → state s ≠ AGENT_FETCH_COMPONENT →
  has_error r = false ∧ suspended r = true.
Proof.
  unfold next_state, suit_runner_suspended. intros Hn Hne.
  destruct (state s); try done; (destruct (suit_runner_finished r); [done|]);
    destruct (has_error r), (suspended r); done.
Qed.

Lemma run_failed (r : suit_runner unit) (u : agent_user) :
  has_error r = true → suit_runner_run slot_addr fuel (r, u) = Done (r, u).
Proof. intros He. unfold suit_runner_run. destruct r. cbn in *. by rewrite He. Qed.

(** A round moves the session forward, lets the runner work, or is a retry. *)
Lemma round_progress tam s r u s1 s2 :
  session_safe s → runner_awake s → state s ≠ AGENT_FETCH_COMPONENT →
  runner_result slot_addr fuel s = Done (r, u) → session_kept s s1 →
  task_given tam (next_state s r) r u s1 → answered s1 s2 → session_safe s2 →
  runner_awake s2 ∧
  (loop_measure s2 < loop_measure s ∨ retry s s2 = true ∧ loop_measure s2 = loop_measure s).
Proof.
  intros Hs Hawake Hne Hres (_&_&Hctx) Hg (_&_&Hst&Hfetch) Hs2.
  pose proof (given_state _ _ _ _ _ Hg) as Hst1. pose proof (given_runner _ _ _ _ _ Hg) as Hr1.
  rewrite Hst1 in Hst, Hfetch. rewrite Hr1 in Hfetch.
  destruct (decide (next_state s r = AGENT_FETCH_COMPONENT)) as [Hn|Hn].
  - destruct (Hfetch Hn) as (Hctx2&Hpc&Hstk&Herr&Hsus). rewrite Hn in Hst.
    apply list_elem_of_singleton in Hst.
    destruct (next_fetch_stopped s r Hn Hne) as [He Hsu].
    split; [by intros _ _; apply Hsus|]. left.
    destruct (decide (state s = AGENT_RUN_SUIT_RUNNER)) as [Hrun|Hrun].
    2: { apply loop_measure_rank; [done|done|]. rewrite Hst. unfold next_state in Hn.
      destruct (state s); try done; cbn; lia. }
    pose proof Hs as [_ _ _ _ Hrs]. rewrite Hrun in Hrs. destruct (Hrs eq_refl) as (m&Hroot&Hok&_).
    unfold loop_measure, run_weight. rewrite Hst, Hrun, Hctx2, Hctx, Hroot.
    assert (runner_measure m (s_runner s2) = runner_measure m r) as ->.
    { unfold runner_measure. by rewrite Hpc, Hstk. }
    unfold runner_result in Hres. rewrite Hrun in Hres.
    pose proof (run_total slot_addr fuel Hfuel m (s_runner s) (s_user s) Hok) as Hpost.
    match type of Hres with ?o = _ => change o with
      (suit_runner_run slot_addr fuel (s_runner s, s_user s)) in Hpost end.
    assert (run_post m (s_runner s, s_user s) (r, u)) as (_&_&_&Hm) by by rewrite Hres in Hpost.
    specialize (Hm He) as [_ Hm].
    assert (has_error (s_runner s) = false) as Herr0.
    { destruct (has_error (s_runner s)) eqn:He0; [|done].
      pose proof (eq_trans (eq_sym (run_failed (s_runner s) (s_user s) He0)) Hres) as Heq. congruence. }
    assert (runner_measure m r < runner_measure m (s_runner s)) by exact (Hm (Hawake Hrun Herr0) Hsu). lia.
  - split.
    { intros Hrun. exfalso. rewrite Hrun in Hst. destruct (next_state s r); try done; cbn in Hst;
        by apply (bool_decide_pack _) in Hst. }
    destruct (retry s s2) eqn:Hretry.
    + right. split; [done|]. apply bool_decide_eq_true in Hretry as [H1' H2'].
      unfold loop_measure, run_weight. rewrite H1', H2'. by repeat case_match.
    + left. apply loop_measure_rank; [done|done|]. apply bool_decide_eq_false in Hretry.
      unfold next_state in *. destruct (state s); try done;
        repeat (case_match; try done); cbn in Hst;
        repeat (apply elem_of_cons in Hst as [Hst|Hst]); try (by apply elem_of_nil in Hst);
        rewrite Hst in *; cbn; (lia || by destruct Hretry).
Qed.

(** ** One round *)

(** The invariant of the loop. *)
Record loop_head (frame : list nat) (ctx : broker_ctx) (s : teep_agent_session) : Prop := {
  head_session : session_at frame ctx s;
  head_idle : on_going_task s = false;
  head_fetch : state s ≠ AGENT_FETCH_COMPONENT;
  head_awake : runner_awake s;
  head_net : http_net_ok (network ctx)
}.

(** What a round relies on: see [query_ready], and URIs the HTTP client can take. *)
Definition round_ready (s : teep_agent_session) : Prop :=
  query_ready slot_addr fuel s ∧
  (∀ uri, cstr (tam_uri s) = Some uri → (length uri ≤ http_uri_max)%nat) ∧
  ∀ r u, runner_result slot_addr fuel s = Done (r, u) → next_state s r = AGENT_FETCH_COMPONENT →
    range_len (fetch_uri u) <= Z.of_nat http_uri_max.

(** The end of a round: the request, the phase it leads to, and whether it goes on. *)
Definition round_post (frame : list nat) (ctx : broker_ctx) (s : teep_agent_session) (tam : list byte)
    (res : broker_ctx * option Z) : Prop :=
  let '(ctx', ret) := res in
  http_net_ok (network ctx') ∧
  match ret with
  | Some n =>
      ∃ lost s', session_at (lost ++ frame) ctx' s' ∧
        ((n = 0 ∧ phase_of (state s) = Closed ∧ lost = [] ∧ requests_made ctx' = requests_made ctx) ∨
         (n = -1 ∧ ∃ q ph, requests_made ctx' = requests_made ctx ++ [q] ∧
            protocol_step tam agent_says (phase_of (state s)) q ph))
  | None =>
      ∃ q s', requests_made ctx' = requests_made ctx ++ [q] ∧
        protocol_step tam agent_says (phase_of (state s)) q (phase_of (state s')) ∧
        loop_head frame ctx' s' ∧ cstr (tam_uri s') = Some tam ∧
        (loop_measure s' < loop_measure s ∨ retry s s' = true ∧ loop_measure s' = loop_measure s)
  end.

Lemma task_uri_bound tam s r u s1 uri :
  round_ready s → cstr (tam_uri s) = Some tam → (length tam < 511)%nat →
  runner_result slot_addr fuel s = Done (r, u) → task_given tam (next_state s r) r u s1 →
  t_command (task_buffer s1) ≠ BROKER_FINISH →
  cstr (t_uri (task_buffer s1)) = Some uri → (length uri ≤ http_uri_max)%nat.
Proof.
  intros (_&Htam&Hfetch) Hu Hl Hres [_ _ _ _ Hc _ _ Hcont _] Hne Huri.
  rewrite Hc in Hne. destruct (task_command (next_state s r)) eqn:Hcmd; [| |done].
  - specialize (Hcont Hl). assert (uri = tam) as -> by congruence. auto.
  - destruct Hcont as (bytes&Hload&Hbuf).
    assert (next_state s r = AGENT_FETCH_COMPONENT) as Hn by by destruct (next_state s r).
    specialize (Hfetch r u Hres Hn). apply range_load_length in Hload.
    rewrite Hbuf in Huri. pose proof (cstr_inv _ _ Huri) as (Hnul&rest&Heq).
    assert (length uri ≤ length bytes)%nat; [|lia].
    destruct (Nat.le_gt_cases (length uri) (length bytes)); [done|].
    assert (uri !! length bytes = Some x00) as Hat; [|by apply list_elem_of_lookup_2 in Hat].
    pose proof (cstr_length _ _ Huri) as Hlen. rewrite length_app, length_replicate in Hlen.
    assert ((bytes ++ replicate (TEEP_MAX_URI_LEN - length bytes) x00) !! length bytes = Some x00) as Hz.
    { rewrite lookup_app_r, Nat.sub_diag by lia. apply lookup_replicate. split; [done|lia]. }
    rewrite Heq, lookup_app_l in Hz by lia. done.
Qed.

(** The request was made: the answer goes to the agent, unless it failed. *)
Lemma perform_spec frame ctx s w n answer q :
  session_at frame ctx s → on_going_task s = true → t_command (task_buffer s) ≠ BROKER_FINISH →
  http_net_ok w → Z.of_nat (length answer) <= http_res_buf_size →
  wp (if n <? 0 then Done (with_network ctx w q, -1)
      else broker_task_done (with_network ctx w q) answer (Z.of_nat (length answer)))
    (fun '(ctx', n') => http_net_ok (network ctx') ∧ requests_made ctx' = requests_made ctx ++ [q] ∧
       ∃ lost s', session_at (lost ++ frame) ctx' s' ∧ (n' < 0 ∨ lost = [] ∧ answered s s')).
Proof.
  intros Hs Hon Hc Hw Hl. destruct (n <? 0).
  { split; [done|]. split; [done|]. exists [], s. split; [done|by left]. }
  eapply wp_mono; [apply (done_spec frame (with_network ctx w q) s answer); done|].
  intros [ctx' n'] (->&->&lost&s'&Hs'&Ha&Hn). split; [done|]. split; [done|].
  exists lost, s'. split; [done|]. destruct Hn as [?| ->]; auto.
Qed.

(** A task of an agent that goes on, from its request to the end of the round. *)
Lemma round_end frame ctx s tam r u s1 (ctx1 : broker_ctx) q (o : outcome (broker_ctx * Z)) :
  loop_head frame ctx s → session_safe s → runner_result slot_addr fuel s = Done (r, u) →
  cstr (tam_uri s) = Some tam → session_kept s s1 → task_given tam (next_state s r) r u s1 →
  requests_made ctx1 = requests_made ctx → request_for tam (next_state s r) q →
  wp o (fun '(ctx', n') => http_net_ok (network ctx') ∧ requests_made ctx' = requests_made ctx1 ++ [q] ∧
     ∃ lost s', session_at (lost ++ frame) ctx' s' ∧ (n' < 0 ∨ lost = [] ∧ answered s1 s')) →
  wp ('(ctx, n) ← o; Done (ctx, if n <? 0 then Some (-1) else None)) (round_post frame ctx s tam).
Proof.
  intros Hhead Hsafe Hres Htam Hkept Hg Hreq Hq Ho. apply wp_bind. eapply wp_mono; [exact Ho|].
  intros [ctx' n'] (Hnet&Hreq'&lost&s'&Hs'&Hend). rewrite Hreq in Hreq'. cbn [wp]. split; [done|].
  destruct (Z.ltb_spec n' 0).
  - exists lost, s'. split; [done|]. right. split; [done|]. exists q.
    assert (∃ st, st ∈ answer_states (next_state s r)) as [st Hst].
    { destruct (next_state s r); try done; eexists; by left. }
    exists (phase_of st). split; [done|]. by eapply request_protocol.
  - destruct Hend as [?|[-> Ha]]; [lia|]. exists q, s'. split; [done|].
    pose proof Ha as (Hoff&Huri&Hst&_). rewrite (given_state _ _ _ _ _ Hg) in Hst.
    split; [by eapply request_protocol|].
    assert (session_safe s') as Hsafe' by (destruct Hs' as (?&?&[? _]); done).
    destruct (round_progress tam s r u s1 s') as [Hawake Hm]; try done; [apply Hhead..|].
    split; [|split; [|done]].
    + split; try done. intros Hf. rewrite Hf in Hst.
      destruct (next_state s r); try done; cbn in Hst; by apply (bool_decide_pack _) in Hst.
    + destruct Hkept as (_&Hk&_). by rewrite Huri, Hk.
Qed.

Lemma session_at_network frame ctx w q s : session_at frame ctx s → session_at frame (with_network ctx w q) s.
Proof. done. Qed.

Theorem round_spec frame ctx s :
  loop_head frame ctx s → round_ready s →
  ∃ tam, cstr (tam_uri s) = Some tam ∧
    wp (loop_round garbage_task ctx) (round_post frame ctx s tam).
Proof.
  intros Hhead Hready. pose proof Hhead as [Hs Hon Hf Haw Hnet].
  assert (session_safe s) as Hsafe by (destruct Hs as (?&?&[? _]); done).
  destruct (ask_spec frame ctx s Hs Hon (proj1 Hready)) as (tam&r&u&Htam&Hres&Hask).
  exists tam. split; [done|]. unfold loop_round. apply wp_bind. eapply wp_mono; [exact Hask|]. clear Hask.
  intros [[ctx1 task] n] (->&Hnet1&Hreq1&s1&Hs1&Hkept&Hg&Hlen&Hcmd&Huri&[uri Hluri]&Hdata).
  rewrite Hluri in Huri. rewrite Hcmd. cbn [Z.ltb Z.compare].
  pose proof (given_command _ _ _ _ _ Hg) as Hgc. pose proof (given_on _ _ _ _ _ Hg) as Hon1.
  assert (t_command (task_buffer s1) ≠ BROKER_FINISH → (length uri ≤ http_uri_max)%nat) as Hbound.
  { intros Hne. by eapply (task_uri_bound tam s r u s1). }
  assert (0 <= http_res_buf_size) as Hsize by done.
  destruct (t_command (task_buffer s1)) eqn:Hc; cbn [broker_command_value Z.eqb Pos.eqb].
  - eapply (round_end frame ctx s tam r u s1 ctx1 (Post uri (task_bytes s1))); try done.
    { apply (request_of_task tam (next_state s r) r u s1); [exact Hg| |exact Hlen|rewrite <-Huri; reflexivity].
      by apply post_states. }
    unfold broker_http_post, task_string. rewrite Hluri, Hdata. cbn [mbind outcome_bind].
    apply wp_bind. eapply wp_mono; [apply http_post_spec; [by rewrite Hnet1|by apply Hbound|done]|].
    intros [[w m] answer] [Hw Hl]. apply perform_spec; try done. by rewrite Hc.
  - eapply (round_end frame ctx s tam r u s1 ctx1 (Get uri)); try done.
    { by apply get_request. }
    unfold broker_http_get, task_string. rewrite Hluri. cbn [mbind outcome_bind].
    apply wp_bind. eapply wp_mono; [apply http_get_spec; [by rewrite Hnet1|by apply Hbound|done]|].
    intros [[w m] answer] [Hw Hl]. apply perform_spec; try done. by rewrite Hc.
  - cbn [wp]. split; [by rewrite Hnet1|]. exists [], s1. split; [done|]. left. split; [done|].
    split; [|done]. by apply (finish_phase s r).
Qed.
End rounds.
