(* ===== verification/BrokerTheorems.v ===== *)
(** * BrokerTheorems: complete exchanges

    With any client library that keeps the contract of ClientLaws, which those of
    all builds do, the broker with the agent behind it refines the abstract
    protocol, and a run of the broker ends: in every round the session moves
    forward, the SUIT runner works off a part of its commands, or the TAM had an
    update that was not accepted. *)

From S2P Require Import Prelude Tcbor TcborFacts SuitTypes SuitParser SuitParserFacts.
From S2P Require Import SuitAuth SuitAuthFacts SuitContext SuitContextFacts.
From S2P Require Import SuitRunner SuitRunnerFacts SuitRunnerTheorems.
From S2P Require Import TeepMessage TeepMessageFacts TeepMessageTheorems TeepEncoder.
From S2P Require Import Tools SuitTheorems Agent AgentFacts AgentTaskTheorems AgentSafety AgentCommands.
From S2P Require Import TeeClient TeeClientFacts TeeClientTheorems AgentCall ClientLaws Broker Protocol BrokerFacts.

Local Open Scope Z_scope.

Section exchange.
Context `{Hal : allocator, Hcr : crypto_api, !crypto_laws, Hqc : qcbor, !qcbor_laws}.
Variable p : platform.
Variable slot_addr : target_slot → Z.
Variable fuel : nat.
Context `{Hqe : qcbor_encoder, !qcbor_encoder_laws, Hcl : client_api, !client_laws p slot_addr fuel}.
Context `{Hht : http_api, !http_laws}.
Variable garbage_task : local_task.
Hypothesis Hfuel : runner_fuel < Z.of_nat fuel.
Hypothesis Hdecode : ∀ answer, Z.of_nat (length answer) <= http_res_buf_size →
  (remaining (QCBORDecode_Init (Some answer)) < fuel)%nat.
Hypothesis Hgarbage : garbage_task_ok garbage_task.

(** ** Rounds *)

Definition session_of (ctx : broker_ctx) : option teep_agent_session :=
  snd <$> session_ctx (agent_of (tee_session ctx)).

Definition ctx_retry (ctx ctx' : broker_ctx) : bool :=
  match session_of ctx, session_of ctx' with Some s, Some s' => retry s s' | _, _ => false end.

(** Rounds of the loop, with the number of retries among them. *)
Inductive rounds : nat → broker_ctx → broker_ctx → Prop :=
  | rounds_nil ctx : rounds 0 ctx ctx
  | rounds_cons n ctx1 ctx2 ctx3 :
      loop_round garbage_task ctx1 = Done (ctx2, None) → rounds n ctx2 ctx3 →
      rounds (Nat.b2n (ctx_retry ctx1 ctx2) + n) ctx1 ctx3.

Lemma rounds_inv n ctx1 ctx3 :
  rounds n ctx1 ctx3 →
  n = 0%nat ∧ ctx3 = ctx1 ∨
  ∃ n' ctx2, loop_round garbage_task ctx1 = Done (ctx2, None) ∧ rounds n' ctx2 ctx3 ∧
    n = (Nat.b2n (ctx_retry ctx1 ctx2) + n')%nat.
Proof. destruct 1; [by left|right]. eauto. Qed.

(** What the source relies on, in every state the exchange gets to. *)
Definition stays_ready (ctx : broker_ctx) : Prop :=
  ∀ n ctx' s, rounds n ctx ctx' → session_of ctx' = Some s → round_ready slot_addr fuel s.

Definition retries_bounded (k : nat) (ctx : broker_ctx) : Prop :=
  ∀ n ctx', rounds n ctx ctx' → (n ≤ k)%nat.

Lemma session_of_at frame ctx s : session_at frame ctx s → session_of ctx = Some s.
Proof. intros (block&Hctx&_). unfold session_of. by rewrite Hctx. Qed.

Lemma head_of frame ctx s : loop_head frame ctx s → session_of ctx = Some s.
Proof. intros Hh. by eapply session_of_at, head_session. Qed.

Lemma ready_now frame ctx s : stays_ready ctx → loop_head frame ctx s → round_ready slot_addr fuel s.
Proof. intros Hr Hh. eapply Hr; [constructor|by eapply head_of]. Qed.

Lemma ready_next ctx ctx' :
  stays_ready ctx → loop_round garbage_task ctx = Done (ctx', None) → stays_ready ctx'.
Proof. intros Hr Hround n ctx2 s Hrounds. eapply Hr. by eapply rounds_cons. Qed.

Lemma bounded_next k ctx ctx' :
  retries_bounded k ctx → loop_round garbage_task ctx = Done (ctx', None) →
  (Nat.b2n (ctx_retry ctx ctx') ≤ k)%nat ∧ retries_bounded (k - Nat.b2n (ctx_retry ctx ctx')) ctx'.
Proof.
  intros Hb Hround. split.
  - specialize (Hb _ _ (rounds_cons 0 ctx ctx' ctx' Hround (rounds_nil ctx'))). lia.
  - intros n ctx2 Hrounds. specialize (Hb _ _ (rounds_cons n ctx ctx' ctx2 Hround Hrounds)). lia.
Qed.

(** C5: Refinement of the abstract protocol.  After any number of rounds the
    requests the broker has made are a run of the protocol from the phase of the
    session at the start to the one it is in now, and the next round is defined
    and either goes on by a step of the protocol, ends in the closed phase with 0,
    or fails with -1 after a step of the protocol.  So the TAM only sees the
    messages the protocol allows in its order, and components are fetched only
    while an update is carried out, whatever the network answers, in every build
    whose client library keeps its contract. *)
Theorem broker_refines_protocol frame ctx s tam n ctx' :
  loop_head frame ctx s → cstr (tam_uri s) = Some tam → stays_ready ctx → rounds n ctx ctx' →
  ∃ qs s', requests_made ctx' = requests_made ctx ++ qs ∧
    protocol_run tam agent_says (phase_of (state s)) qs (phase_of (state s')) ∧
    loop_head frame ctx' s' ∧
    wp (loop_round garbage_task ctx') (round_post frame ctx' s' tam).
Proof.
  intros Hhead Htam Hready Hrounds. revert s Hhead Htam Hready.
  induction Hrounds as [ctx|n ctx1 ctx2 ctx3 Hround Hrounds IH]; intros s Hhead Htam Hready.
  - exists [], s. split; [by rewrite app_nil_r|]. split; [constructor|]. split; [done|].
    destruct (round_spec p slot_addr fuel garbage_task Hfuel Hdecode Hgarbage frame ctx s Hhead)
      as (tam'&Htam'&Hwp); [by eapply ready_now|]. by assert (tam' = tam) as -> by congruence.
  - destruct (round_spec p slot_addr fuel garbage_task Hfuel Hdecode Hgarbage frame ctx1 s Hhead)
      as (tam'&Htam'&Hwp); [by eapply ready_now|]. assert (tam' = tam) as -> by congruence.
    rewrite Hround in Hwp. destruct Hwp as (_&q&s2&Hq&Hstep&Hhead2&Htam2&_).
    destruct (IH s2 Hhead2 Htam2 (ready_next _ _ Hready Hround)) as (qs&s3&Hqs&Hrun&Hhead3&Hwp3).
    exists (q :: qs), s3. split; [by rewrite Hqs, Hq, <-(assoc_L (++))|].
    split; [exact (run_step _ _ _ _ _ _ _ Hstep Hrun)|exact (conj Hhead3 Hwp3)].
Qed.

(** ** The loop *)

(** The end of the loop. *)
Definition loop_post (frame : list nat) (ctx : broker_ctx) (ph0 : phase) (tam : list byte)
    (res : broker_ctx * Z) : Prop :=
  ∃ qs ph lost s', requests_made res.1 = requests_made ctx ++ qs ∧ protocol_run tam agent_says ph0 qs ph ∧
    session_at (lost ++ frame) res.1 s' ∧ http_net_ok (network res.1) ∧
    (res.2 = 0 ∧ ph = Closed ∧ lost = [] ∨ res.2 = -1).

Lemma loop_spec n k frame ctx s tam :
  loop_head frame ctx s → cstr (tam_uri s) = Some tam → stays_ready ctx → retries_bounded k ctx →
  loop_measure s + Z.of_nat k < Z.of_nat n →
  wp (loop_rounds garbage_task n ctx) (loop_post frame ctx (phase_of (state s)) tam).
Proof.
  revert k ctx s. induction n as [|n IH]; intros k ctx s Hhead Htam Hready Hk Hn.
  { assert (session_safe s) as Hs by (destruct (head_session _ _ _ Hhead) as (?&?&[? _]); done).
    pose proof (run_weight_range s Hs). unfold loop_measure in Hn.
    assert (rank (state s) ≤ 7)%nat by (destruct (state s); cbn; lia). unfold runner_fuel in *. nia. }
  destruct (round_spec p slot_addr fuel garbage_task Hfuel Hdecode Hgarbage frame ctx s Hhead)
    as (tam'&Htam'&Hwp); [by eapply ready_now|]. assert (tam' = tam) as -> by congruence.
  cbn [loop_rounds]. apply wp_bind.
  destruct (loop_round garbage_task ctx) as [| |[ctx1 [ret|]]] eqn:Hround; [done..| |].
  - destruct Hwp as (Hnet&lost&s1&Hs1&Hend). cbn [wp].
    destruct Hend as [(->&Hph&->&Hreq)|(->&q&ph&Hreq&Hstep)].
    + exists [], Closed, [], s1. rewrite app_nil_r. split; [done|]. rewrite Hph.
      split; [constructor|]. split; [done|]. split; [done|]. by left.
    + exists [q], ph, lost, s1. split; [done|]. split; [by econstructor; [|constructor]|].
      split; [done|]. split; [done|]. by right.
  - destruct Hwp as (_&q&s1&Hreq&Hstep&Hhead1&Htam1&Hm). cbn [wp].
    destruct (bounded_next k ctx ctx1 Hk Hround) as [Hle Hk1].
    assert (ctx_retry ctx ctx1 = retry s s1) as Hr.
    { unfold ctx_retry. by rewrite (head_of _ _ _ Hhead), (head_of _ _ _ Hhead1). }
    rewrite Hr in *. eapply wp_mono.
    { eapply (IH (k - Nat.b2n (retry s s1))%nat ctx1 s1); try done; [by eapply ready_next|].
      destruct Hm as [?|[Ht ?]]; [lia|]. rewrite Ht in *. cbn in *. lia. }
    intros [ctx' ret] (qs&ph&lost&s'&Hqs&Hrun&Hrest). exists (q :: qs), ph, lost, s'.
    split; [by rewrite Hqs, Hreq, <-(assoc_L (++))|]. split; [by econstructor|done].
Qed.

(** ** From the start to the end *)

Variable sizeof_session : Z.
Variable garbage : teep_agent_session.
Hypothesis Hsession : garbage_ok garbage.

(** The broker before its first call: no session and no stored envelopes. *)
Definition initial_globals : agent_globals := Globals empty_heap [None; None].

Variable c0 : client_state.
Hypothesis Hc0 : c_globals (agent_of c0) = initial_globals.

Definition initial_ctx (w : net) : broker_ctx := BrokerCtx c0 w [].

(** A session before its first task. *)
Record fresh_session (frame : list nat) (ctx : broker_ctx) (s : teep_agent_session) : Prop := {
  fresh_at : session_at frame ctx s;
  fresh_state : state s = AGENT_INIT;
  fresh_idle : on_going_task s = false;
  fresh_net : http_net_ok (network ctx);
  fresh_requests : requests_made ctx = []
}.

Lemma initial_store : store_safe initial_globals [] [].
Proof. split; [done|by repeat constructor|]. split; [apply empty_heap_wf|done]. Qed.

Lemma ctx_init_spec w :
  http_net_ok w →
  wp (broker_ctx_init sizeof_session garbage (initial_ctx w)) (fun '(ctx, n) =>
    n = 0 ∧ ∃ s, fresh_session [] ctx s).
Proof.
  intros Hw. unfold broker_ctx_init. rewrite Z.eqb_refl. cbn [negb]. apply wp_bind.
  eapply wp_mono; [apply (open_law []); [done|]|].
  { cbn [tee_session initial_ctx]. rewrite Hc0. apply initial_store. }
  intros [c r] [-> Hs]. split; [done|]. by exists (session_init garbage).
Qed.

Lemma option_op_ok option value :
  Z.of_nat (length value) + 1 < u32_modulus → operation_ok (option_op option value) = true.
Proof.
  intros Hl. unfold operation_ok. cbn -[Z.leb Z.ltb Z.of_nat Z.add].
  apply Z.ltb_lt in Hl. rewrite Hl, length_app. cbn [length].
  rewrite !andb_true_iff, !Z.leb_le. split_and!; (done || lia).
Qed.

Lemma option_op_given option value :
  given_params (option_op option value) =
  [ParamValue option 0; ParamMemref (value ++ [x00]) (Z.of_nat (length value) + 1); ParamNone; ParamNone].
Proof.
  change (given_params (option_op option value)) with
    [ParamValue option 0; ParamMemref (take (Z.to_nat (Z.of_nat (length value) + 1)) (value ++ [x00]))
      (Z.of_nat (length value) + 1); ParamNone; ParamNone].
  rewrite take_ge; [done|]. rewrite length_app. cbn. lia.
Qed.

Definition option_types : Z := TEE_PARAM_TYPES TEE_PARAM_TYPE_VALUE_INPUT TEE_PARAM_TYPE_MEMREF_INPUT
  TEE_PARAM_TYPE_NONE TEE_PARAM_TYPE_NONE.

Lemma option_op_types option value : param_types (paramTypes (option_op option value)) = option_types.
Proof. by vm_compute. Qed.

Lemma option_command g s option value :
  TA_InvokeCommandEntryPoint p slot_addr fuel g s TEEP_AGENT_SET_DEV_OPTION option_types
    [ParamValue option 0; ParamMemref (value ++ [x00]) (Z.of_nat (length value) + 1); ParamNone; ParamNone] =
  '(s, ret) ← set_dev_option p s option (value ++ [x00]);
  Done (g, s, [ParamValue option 0; ParamMemref (value ++ [x00]) (Z.of_nat (length value) + 1);
               ParamNone; ParamNone], ret).
Proof.
  unfold TA_InvokeCommandEntryPoint. rewrite Z.eqb_refl. cbv iota.
  unfold handle_TEEP_AGENT_SET_DEV_OPTION. rewrite Z.eqb_refl. cbn [negb].
  destruct (Z.eqb_spec (Z.of_nat (length value) + 1) 0); [lia|].
  pose proof (load_overwrite_last value x00 []) as Hl. unfold overwrite in Hl.
  rewrite drop_nil, app_nil_r, length_app in Hl. cbn [length] in Hl.
  replace (Z.of_nat (length value + 1)) with (Z.of_nat (length value) + 1) in Hl by lia.
  by rewrite Hl.
Qed.

(** Options before the first task. *)
Lemma set_option_spec s option value x :
  session_safe s → state s = AGENT_INIT → cstr value = Some x →
  wp (set_dev_option p s option value) (fun '(s', ret) =>
    state s' = AGENT_INIT ∧ on_going_task s' = on_going_task s ∧
    (option = AGENT_OPTION_SET_TAM_URI → (length x < 511)%nat → ret = TEE_SUCCESS ∧ cstr (tam_uri s') = Some x) ∧
    (option = AGENT_OPTION_SET_CURRENT_TA_LIST → tam_uri s' = tam_uri s)).
Proof.
  intros [[Hu _ _ _ _ _] _ _ _ _] Hst Hx. unfold set_dev_option.
  rewrite bool_decide_true, Hx by done. cbn [negb].
  destruct (Z.eqb_spec option AGENT_OPTION_SET_TAM_URI) as [->|].
  - case_bool_decide as Hlen.
    { split_and!; try done. intros _ Hl. change TEEP_MAX_URI_LEN with 512%nat in Hlen. lia. }
    change (TEEP_MAX_URI_LEN - 1)%nat with 511%nat. apply wp_bind.
    eapply wp_mono; [by apply (platform_strncpy_ok p (tam_uri s) value 511 x)|].
    intros d (_&_&Hc&_). split_and!; try done. intros _ Hl. split; [done|].
    cbn. rewrite Hc by auto. by rewrite take_ge by lia.
  - destruct (Z.eqb_spec option AGENT_OPTION_SET_CURRENT_TA_LIST); [|by split_and!].
    case_bool_decide; [by split_and!|]. case_bool_decide; by split_and!.
Qed.

Lemma set_option_round frame ctx s option value :
  fresh_session frame ctx s → x00 ∉ value → Z.of_nat (length value) + 1 < u32_modulus →
  wp (set_agent_dev_option ctx option value) (fun '(ctx', n) =>
    ∃ lost s', fresh_session (lost ++ frame) ctx' s' ∧
      (option = AGENT_OPTION_SET_TAM_URI → (length value < 511)%nat → lost = [] ∧ cstr (tam_uri s') = Some value) ∧
      (option = AGENT_OPTION_SET_CURRENT_TA_LIST → tam_uri s' = tam_uri s)).
Proof.
  intros [Hat Hst Hon Hnet Hreq] Hv Hl. unfold set_agent_dev_option. apply wp_bind.
  eapply wp_mono; [eapply (invoke_law frame (tee_session ctx) s
    TEEP_AGENT_SET_DEV_OPTION (option_op option value)); try done;
    [by apply (bool_decide_unpack _)|by apply option_op_ok|]|].
  { rewrite option_op_given. cbn -[Z.add Z.of_nat]. lia. }
  intros [[c' op'] n] (h&g'&s'&outs&lost&Hrun&Hat'&Hpost).
  rewrite option_op_types, option_op_given, option_command in Hrun.
  assert (session_safe s) as Hsafe by by destruct Hat as (block&_&[? _]).
  pose proof (set_option_spec s option (value ++ [x00]) value Hsafe Hst (cstr_app_nul value [] Hv)) as Hset.
  destruct (set_dev_option p s option (value ++ [x00])) as [| |[s2 ret]]; try done.
  cbn [mbind outcome_bind] in Hrun. injection Hrun as <- <- <- <-.
  destruct Hset as (Hst2&Hon2&Huri&Hlist). cbn [wp]. exists lost, s2.
  split; [split; [exact Hat'|done|congruence|done|done]|]. split; [|done].
  intros Ho Hlen. destruct (Huri Ho Hlen) as [Hret ?]. split; [|done]. by apply Hpost.
Qed.

(** The session is closed: its token and its block are freed. *)
Lemma ctx_destroy_spec frame ctx s :
  session_at frame ctx s →
  wp (broker_ctx_destroy ctx) (fun ctx' =>
    requests_made ctx' = requests_made ctx ∧
    ∃ lost, accounts (g_heap (c_globals (agent_of (tee_session ctx'))))
              (stored_blocks (c_globals (agent_of (tee_session ctx')))) (lost ++ frame)).
Proof.
  intros Hs. unfold broker_ctx_destroy. apply wp_bind.
  eapply wp_mono; [by eapply (close_law frame)|]. by intros c Hacc.
Qed.

(** The broker when it enters the loop. *)
Definition broker_start (uri talist : list byte) (w : net) : outcome broker_ctx :=
  '(ctx, _) ← broker_ctx_init sizeof_session garbage (initial_ctx w);
  '(ctx, _) ← set_agent_dev_option ctx AGENT_OPTION_SET_TAM_URI uri;
  '(ctx, _) ← set_agent_dev_option ctx AGENT_OPTION_SET_CURRENT_TA_LIST talist;
  Done ctx.

Lemma start_spec w uri talist :
  http_net_ok w → x00 ∉ uri → (length uri < 511)%nat → x00 ∉ talist →
  Z.of_nat (length talist) + 1 < u32_modulus →
  wp (broker_start uri talist w) (fun ctx => ∃ lost s,
    loop_head lost ctx s ∧ state s = AGENT_INIT ∧ cstr (tam_uri s) = Some uri ∧ requests_made ctx = []).
Proof.
  intros Hw Hu Hul Ht Htl. unfold broker_start. apply wp_bind.
  eapply wp_mono; [by apply ctx_init_spec|]. intros [ctx1 n1] (_&s1&Hs1).
  apply wp_bind. eapply wp_mono.
  { apply (set_option_round [] ctx1 s1 AGENT_OPTION_SET_TAM_URI uri); [done|done|].
    unfold u32_modulus. lia. }
  intros [ctx2 n2] (lost2&s2&Hs2&Huri&_). destruct (Huri eq_refl Hul) as [-> Huri2].
  apply wp_bind. eapply wp_mono.
  { by apply (set_option_round [] ctx2 s2 AGENT_OPTION_SET_CURRENT_TA_LIST talist). }
  intros [ctx3 n3] (lost3&s3&[Hat Hst Hon Hnet Hreq]&_&Hlist). rewrite app_nil_r in Hat.
  exists lost3, s3. split; [|split; [done|split; [|done]]].
  - split; try done; [congruence|]. intros Hrun. congruence.
  - by rewrite (Hlist eq_refl).
Qed.

(** C6: Liveness of a complete run.  The broker opens a session, sets the options
    and exchanges messages with the TAM, and this ends: if at most [k] of the
    updates are not accepted, [broker_main] returns 0 after a number of rounds that
    only depends on [k] and the size of manifests, in a state where the session is
    freed.  The requests it made are a run of the protocol from its first phase,
    for every build, every network, every contents of the answers, and every
    manifest that keeps to the limits of the source in each state that is
    reached. *)
Theorem broker_main_terminates n k w uri talist :
  http_net_ok w → x00 ∉ uri → (length uri < 511)%nat → x00 ∉ talist →
  Z.of_nat (length talist) + 1 < u32_modulus →
  (∀ ctx, broker_start uri talist w = Done ctx → stays_ready ctx ∧ retries_bounded k ctx) →
  8 * (runner_fuel + 1) + Z.of_nat k < Z.of_nat n →
  wp (broker_main sizeof_session garbage garbage_task n uri talist (initial_ctx w))
    (fun '(ctx, ret) => ret = 0 ∧ (∃ ph, protocol_run uri agent_says Hello (requests_made ctx) ph) ∧
       ∃ lost, accounts (g_heap (c_globals (agent_of (tee_session ctx))))
                 (stored_blocks (c_globals (agent_of (tee_session ctx)))) lost).
Proof.
  intros Hw Hu Hul Ht Htl Hok Hn.
  destruct (wp_elim _ _ (start_spec w uri talist Hw Hu Hul Ht Htl)) as (ctx&Hstart&lost&s&Hhead&Hst&Huri&Hreq).
  destruct (Hok ctx Hstart) as [Hready Hk].
  unfold broker_start in Hstart. unfold broker_main.
  pose proof (ctx_init_spec w Hw) as Hinit.
  destruct (broker_ctx_init _ _ _) as [| |[ctx1 n1]]; try done. destruct Hinit as [-> _].
  cbn [mbind outcome_bind Z.ltb Z.compare] in *. unfold loop_teep.
  destruct (set_agent_dev_option _ AGENT_OPTION_SET_TAM_URI _) as [| |[ctx2 n2]]; [discriminate Hstart..|].
  cbn [mbind outcome_bind] in *.
  destruct (set_agent_dev_option _ AGENT_OPTION_SET_CURRENT_TA_LIST _) as [| |[ctx3 n3]]; [discriminate Hstart..|].
  cbn [mbind outcome_bind] in *. injection Hstart as ->.
  apply wp_bind. eapply wp_mono.
  { apply (loop_spec n k lost ctx s uri); try done.
    assert (run_weight s = 0) as Hweight by (unfold run_weight; rewrite Hst; by destruct (root _)).
    assert (0 <= runner_fuel) by done. unfold loop_measure. rewrite Hweight, Hst. cbn. lia. }
  rewrite Hst.
  intros [ctx' ret] (qs&ph&lost'&s'&Hqs&Hrun&Hat&_). cbn [fst snd] in *.
  apply wp_bind. eapply wp_mono; [by eapply ctx_destroy_spec|].
  intros ctx'' (Hreq'&leak&Hacc). cbn [wp]. split; [done|]. split.
  - exists ph. by rewrite Hreq', Hqs, Hreq.
  - by exists (leak ++ lost' ++ lost).
Qed.
End exchange.

(** ** Witnesses

    A TAM that ends the exchange at once: its answer is empty. *)

#[local] Instance quiet_http : http_api := {|
  net := unit;
  http_get := fun w _ _ => Done (w, 0, []);
  http_post := fun w _ _ _ => Done (w, 0, [])
|}.

#[local] Instance quiet_laws : http_laws.
Proof. refine {| http_uri_max := 511; http_net_ok := fun _ => True |}; intros; cbn; (split; [done|lia]). Defined.

Definition blank_task : local_task :=
  LocalTask 0 (replicate TEEP_MAX_URI_LEN x00) (replicate TEEP_MAX_MESSAGE_LEN x00) 0.

#[local] Existing Instances always_malloc empty_encoder toy_crypto.
Definition quiet_qcbor : qcbor := script_qcbor [].
#[local] Existing Instance quiet_qcbor.

(** The states of this exchange, for any fuel of the runner: it is not run. *)
Section quiet.
Variable fuel : nat.

#[local] Instance quiet_client : client_api := pc_client PLAT_PC (fun _ => 0) fuel.

Definition blank_start : broker_ctx := initial_ctx (Client initial_globals None : client_state) tt.

Definition quiet_start : broker_ctx :=
  match broker_start 8192 blank_session (Client initial_globals None : client_state) [x74] [] tt with
  | Done ctx => ctx
  | _ => blank_start
  end.

Definition quiet_end : broker_ctx :=
  match loop_round blank_task quiet_start with
  | Done (ctx, _) => ctx
  | _ => blank_start
  end.

Lemma quiet_starts :
  broker_start 8192 blank_session (Client initial_globals None : client_state) [x74] [] tt = Done quiet_start.
Proof. vm_compute. reflexivity. Qed.

Lemma quiet_first : loop_round blank_task quiet_start = Done (quiet_end, None).
Proof. vm_compute. reflexivity. Qed.

Lemma quiet_last : ∃ ctx, loop_round blank_task quiet_end = Done (ctx, Some 0).
Proof. eexists. vm_compute. reflexivity. Qed.

Lemma quiet_no_retry : ctx_retry quiet_start quiet_end = false.
Proof. vm_compute. reflexivity. Qed.
(** In both states the conditions hold: nothing was received. *)
Lemma quiet_ready ctx s :
  ctx = quiet_start ∨ ctx = quiet_end → session_of ctx = Some s →
  round_ready (fun _ => 0) fuel s.
Proof.
  assert (∀ s, on_going_task s = false → cstr (tam_uri s) = Some [x74] →
    state s = AGENT_INIT ∨ state s = AGENT_FINISH → ids_ready s = true →
    round_ready (fun _ => 0) fuel s) as Hready.
  { intros s0 Hon Huri Hst Hids. split; [|split].
    - unfold query_ready. rewrite Hon. split; [exists [x74]; split; [done|cbn; lia]|].
      split; [intros Hr; destruct Hst; congruence|]. split; [done|].
      intros r u _ Hn. unfold next_state in Hn. destruct Hst as [Hst|Hst]; by rewrite Hst in Hn.
    - intros uri Hu. assert (uri = [x74]) as -> by congruence. cbn. lia.
    - intros r u _ Hn. unfold next_state in Hn. destruct Hst as [Hst|Hst]; by rewrite Hst in Hn. }
  assert (∀ ctx, session_of ctx = Some s → (on_going_task <$> session_of ctx) = Some false →
    ((cstr ∘ tam_uri) <$> session_of ctx) = Some (Some [x74]) →
    ((fun s => bool_decide (state s = AGENT_INIT ∨ state s = AGENT_FINISH)) <$> session_of ctx) = Some true →
    (ids_ready <$> session_of ctx) = Some true → round_ready (fun _ => 0) fuel s) as Hctx.
  { intros ctx0 -> Hon Huri Hst Hids. injection Hon as Hon. injection Huri as Huri.
    injection Hst as Hst%bool_decide_eq_true. injection Hids as Hids. by apply Hready. }
  intros [-> | ->] Hs; (apply (Hctx _ Hs); vm_compute; reflexivity).
Qed.

#[local] Opaque quiet_start quiet_end.

Lemma quiet_rounds n ctx :
  rounds blank_task n quiet_start ctx →
  n = 0%nat ∧ (ctx = quiet_start ∨ ctx = quiet_end).
Proof.
  intros [[-> ->]|(n1&ctx1&Hround&Hrest&->)]%rounds_inv; [by auto|].
  rewrite quiet_first in Hround. apply done_pair in Hround as [<- _]. rewrite quiet_no_retry.
  apply rounds_inv in Hrest as [[-> ->]|(n2&ctx2&Hround2&_&_)]; [by auto|].
  destruct quiet_last as [ctx3 Hlast]. rewrite Hlast in Hround2.
  apply done_pair in Hround2 as [_ Hround2]. clear Hlast. discriminate Hround2.
Qed.

Lemma quiet_start_ok ctx :
  broker_start 8192 blank_session (Client initial_globals None : client_state) [x74] [] tt = Done ctx →
  stays_ready (fun _ => 0) fuel blank_task ctx ∧ retries_bounded blank_task 0 ctx.
Proof.
  rewrite quiet_starts. intros <-%done_value. split.
  - intros n ctx' s Hn. apply quiet_ready. exact (proj2 (quiet_rounds _ _ Hn)).
  - intros n ctx' Hn. rewrite (proj1 (quiet_rounds _ _ Hn)). constructor.
Qed.

Lemma quiet_one_round : rounds blank_task 0 quiet_start quiet_end.
Proof.
  pose proof (rounds_cons blank_task 0 _ _ _ quiet_first (rounds_nil _ _)) as Hr.
  rewrite quiet_no_retry in Hr. exact Hr.
Qed.
End quiet.

Definition quiet_laws_pc : client_laws (Hcl := quiet_client enough_fuel) PLAT_PC (fun _ => 0) enough_fuel :=
  @pc_client_laws always_malloc toy_crypto toy_laws quiet_qcbor (script_laws []) empty_encoder empty_encoder_laws
    PLAT_PC (fun _ => 0) enough_fuel (fun _ _ => eq_refl) enough_fuel_ok.

Lemma quiet_garbage : garbage_ok blank_session.
Proof. by vm_compute. Qed.

Lemma script_fuel (answer : list byte) :
  Z.of_nat (length answer) <= http_res_buf_size →
  (remaining (qcbor_laws := script_laws []) (QCBORDecode_Init (Some answer)) < enough_fuel)%nat.
Proof.
  intros _. pose proof enough_fuel_ok as Hf. revert Hf. generalize enough_fuel.
  intros [|n] Hf; cbn; [unfold runner_fuel, command_weight, PTRDIFF_MAX in Hf; lia|lia].
Qed.

Lemma broker_main_terminates_witness :
  ∃ n ctx, broker_main (H := quiet_client enough_fuel) 8192 blank_session blank_task n [x74] []
             (blank_start enough_fuel) = Done (ctx, 0) ∧
    ∃ ph, protocol_run [x74] agent_says Hello (requests_made ctx) ph.
Proof.
  exists (Z.to_nat (8 * (runner_fuel + 1) + 1)).
  destruct (wp_elim _ _ (@broker_main_terminates always_malloc toy_crypto quiet_qcbor
    (script_laws []) PLAT_PC (fun _ => 0) enough_fuel empty_encoder empty_encoder_laws
    (quiet_client enough_fuel) quiet_laws_pc quiet_http quiet_laws
    blank_task enough_fuel_ok script_fuel (conj eq_refl eq_refl) 8192 blank_session
    quiet_garbage (Client initial_globals None) eq_refl (Z.to_nat (8 * (runner_fuel + 1) + 1)) 0 tt [x74] [] I
    ltac:(by intros ?%list_elem_of_singleton) ltac:(cbn; lia) ltac:(by intros ?%elem_of_nil) ltac:(done)
    (quiet_start_ok enough_fuel)
    ltac:(rewrite Z2Nat.id; unfold runner_fuel, command_weight, PTRDIFF_MAX; lia)))
    as ([ctx ret] & Hrun & -> & Hph & _).
  exists ctx. split; [exact Hrun|exact Hph].
Defined.

(** The first round of this exchange. *)
Lemma broker_refines_protocol_witness :
  ∃ qs s', requests_made (quiet_end enough_fuel) = qs ∧ state s' ≠ AGENT_FETCH_COMPONENT ∧
    protocol_run [x74] agent_says Hello qs (phase_of (state s')).
Proof.
  destruct (wp_elim _ _ (@start_spec always_malloc toy_crypto quiet_qcbor (script_laws [])
    PLAT_PC (fun _ => 0) enough_fuel empty_encoder (quiet_client enough_fuel) quiet_laws_pc
    quiet_http quiet_laws 8192 blank_session quiet_garbage (Client initial_globals None) eq_refl
    tt [x74] [] I
    ltac:(by intros ?%list_elem_of_singleton) ltac:(cbn; lia) ltac:(by intros ?%elem_of_nil) ltac:(done)))
    as (ctx & Hstart & lost & s & Hhead & Hst & Huri & Hreq).
  pose proof (quiet_start_ok enough_fuel ctx Hstart) as [Hready _].
  rewrite quiet_starts in Hstart. apply done_value in Hstart as <-.
  destruct (@broker_refines_protocol always_malloc toy_crypto quiet_qcbor (script_laws [])
    PLAT_PC (fun _ => 0) enough_fuel empty_encoder empty_encoder_laws (quiet_client enough_fuel) quiet_laws_pc
    quiet_http quiet_laws blank_task
    enough_fuel_ok script_fuel (conj eq_refl eq_refl) lost (quiet_start enough_fuel) s
    [x74] 0 (quiet_end enough_fuel) Hhead Huri Hready (quiet_one_round enough_fuel))
    as (qs & s' & Hqs & Hrun & Hhead' & _).
  exists qs, s'. rewrite Hreq in Hqs. split; [exact Hqs|]. split; [apply Hhead'|].
  rewrite Hst in Hrun. exact Hrun.
Defined.
