(* ===== verification/Cose.v ===== *)
(** * Cose: the adapter of t_cose to Mbed TLS

    [t_cose_mbedtls_crypto.c] implements the cryptographic interface of t_cose:
    ECDSA signatures in the format of COSE (r and s as big-endian numbers of the
    size of the key, one after the other) and hashes.  What it calls in Mbed TLS
    and in t_cose is the class [mbedtls_api]; the behaviour of the numbers the
    code relies on is [mbedtls_laws]. *)

From S2P Require Import Prelude Tcbor TeepMessage.

Local Open Scope Z_scope.

(** ** Mbed TLS and t_cose *)

Class mbedtls_api := {
  (** t_cose: the identifiers of the algorithms of COSE. *)
  T_COSE_ALGORITHM_ES256 : Z;
  T_COSE_ALGORITHM_ES384 : Z;
  T_COSE_ALGORITHM_ES512 : Z;
  COSE_ALGORITHM_SHA_256 : Z;
  COSE_ALGORITHM_SHA_384 : Z;
  COSE_ALGORITHM_SHA_512 : Z;
  t_cose_algorithm_is_ecdsa : Z → bool;
  (** Key pairs, with the size of the field in bytes. *)
  mbedtls_ecp_keypair : Type;
  mbedtls_mpi_size_P : mbedtls_ecp_keypair → nat;
  (** The kinds of digests, and contexts over them. *)
  mbedtls_md_type_t : Type;
  MBEDTLS_MD_SHA256 : mbedtls_md_type_t;
  MBEDTLS_MD_SHA384 : mbedtls_md_type_t;
  MBEDTLS_MD_SHA512 : mbedtls_md_type_t;
  mbedtls_md_info_t : Type;
  mbedtls_md_info_from_type : mbedtls_md_type_t → option mbedtls_md_info_t;
  mbedtls_md_context_t : Type;
  mbedtls_md_setup : mbedtls_md_info_t → option mbedtls_md_context_t;
  mbedtls_md_starts : mbedtls_md_context_t → option mbedtls_md_context_t;
  (** The context also after an error. *)
  mbedtls_md_update : mbedtls_md_context_t → list byte → mbedtls_md_context_t * Z;
  mbedtls_md_get_size : mbedtls_md_context_t → nat;
  mbedtls_md_finish : mbedtls_md_context_t → option (list byte);
  (** Numbers: [None] is an error. *)
  mbedtls_mpi_read_binary : list byte → option Z;
  mbedtls_mpi_write_binary : Z → nat → option (list byte);
  mbedtls_ecdsa_sign_det : mbedtls_ecp_keypair → list byte → mbedtls_md_type_t → option (Z * Z);
  mbedtls_ecdsa_verify : mbedtls_ecp_keypair → list byte → Z → Z → bool
}.

Class mbedtls_laws `{mbedtls_api} := {
  mpi_read_value : ∀ bytes v, mbedtls_mpi_read_binary bytes = Some v → v = be_fold 0 bytes;
  mpi_write_value : ∀ v n bytes, mbedtls_mpi_write_binary v n = Some bytes →
    0 <= v < 256 ^ Z.of_nat n ∧ bytes = be_bytes n v
}.

(** The errors this file returns. *)
Inductive t_cose_err_t :=
  | T_COSE_SUCCESS
  | T_COSE_ERR_INCORRECT_KEY_FOR_LIB
  | T_COSE_ERR_EMPTY_KEY
  | T_COSE_ERR_UNSUPPORTED_SIGNING_ALG
  | T_COSE_ERR_SIG_FAIL
  | T_COSE_ERR_SIG_VERIFY
  | T_COSE_ERR_INSUFFICIENT_MEMORY
  | T_COSE_ERR_UNSUPPORTED_HASH
  | T_COSE_ERR_HASH_GENERAL_FAIL.

#[export] Instance t_cose_err_eq_dec : EqDecision t_cose_err_t.
Proof. solve_decision. Defined.

Section cose.
Context `{mbedtls_api}.

(** [struct t_cose_key]: whether it is marked for the library
    T_COSE_CRYPTO_LIB_UNIDENTIFIED, and the pointer. *)
Record t_cose_key := CoseKey {
  crypto_lib_unidentified : bool;
  key_ptr : option mbedtls_ecp_keypair
}.

(** ** Keys *)

Definition key_convert_and_size (key : t_cose_key) : (mbedtls_ecp_keypair * nat) + t_cose_err_t :=
  if negb (crypto_lib_unidentified key) then inr T_COSE_ERR_INCORRECT_KEY_FOR_LIB
  else
    match key_ptr key with
    | None => inr T_COSE_ERR_EMPTY_KEY
    | Some keypair => inl (keypair, mbedtls_mpi_size_P keypair)
    end.

Definition t_cose_crypto_sig_size (cose_algorithm_id : Z) (signing_key : t_cose_key) : nat + t_cose_err_t :=
  if negb (t_cose_algorithm_is_ecdsa cose_algorithm_id) then inr T_COSE_ERR_UNSUPPORTED_SIGNING_ALG
  else
    match key_convert_and_size signing_key with
    | inr e => inr e
    | inl (_, key_len_bytes) => inl (key_len_bytes * 2)%nat
    end.

(** ** Signatures *)

Definition sign_md_type (cose_algorithm_id : Z) : option mbedtls_md_type_t :=
  if cose_algorithm_id =? T_COSE_ALGORITHM_ES256 then Some MBEDTLS_MD_SHA256
  else if cose_algorithm_id =? T_COSE_ALGORITHM_ES384 then Some MBEDTLS_MD_SHA256
  else if cose_algorithm_id =? T_COSE_ALGORITHM_ES512 then Some MBEDTLS_MD_SHA256
  else None.

(** The error, the buffer, and the signature in it. *)
Definition t_cose_crypto_sign (cose_algorithm_id : Z) (signing_key : t_cose_key)
    (hash_to_sign signature_buffer : list byte) : t_cose_err_t * list byte * option (list byte) :=
  let fail e := (e, signature_buffer, None) in
  if negb (t_cose_algorithm_is_ecdsa cose_algorithm_id) then fail T_COSE_ERR_UNSUPPORTED_SIGNING_ALG
  else
    match sign_md_type cose_algorithm_id with
    | None => fail T_COSE_ERR_UNSUPPORTED_SIGNING_ALG
    | Some md_type =>
        match key_convert_and_size signing_key with
        | inr e => fail e
        | inl (keypair, key_size) =>
            match mbedtls_ecdsa_sign_det keypair hash_to_sign md_type with
            | None => fail T_COSE_ERR_SIG_FAIL
            | Some (r, s) =>
                if bool_decide (length signature_buffer < key_size * 2)%nat then fail T_COSE_ERR_SIG_FAIL
                else
                  match mbedtls_mpi_write_binary r key_size with
                  | None => fail T_COSE_ERR_SIG_FAIL
                  | Some bytes =>
                      let buffer := write_at signature_buffer 0 bytes in
                      match mbedtls_mpi_write_binary r key_size with
                      | None => (T_COSE_ERR_SIG_FAIL, buffer, None)
                      | Some bytes =>
                          let buffer := write_at buffer key_size bytes in
                          (T_COSE_SUCCESS, buffer, Some (take (key_size * 2) buffer))
                      end
                  end
            end
        end
    end.

Definition t_cose_crypto_verify (cose_algorithm_id : Z) (verification_key : t_cose_key)
    (hash_to_verify cose_signature : list byte) : t_cose_err_t :=
  if negb (t_cose_algorithm_is_ecdsa cose_algorithm_id) then T_COSE_ERR_UNSUPPORTED_SIGNING_ALG
  else
    match key_convert_and_size verification_key with
    | inr e => e
    | inl (keypair, key_size) =>
        if negb (bool_decide (length cose_signature = key_size * 2)%nat) then T_COSE_ERR_SIG_VERIFY
        else
          match mbedtls_mpi_read_binary (take key_size cose_signature) with
          | None => T_COSE_ERR_INSUFFICIENT_MEMORY
          | Some r =>
              match mbedtls_mpi_read_binary (take key_size (drop key_size cose_signature)) with
              | None => T_COSE_ERR_INSUFFICIENT_MEMORY
              | Some s =>
                  if negb (mbedtls_ecdsa_verify keypair hash_to_verify r s) then T_COSE_ERR_SIG_VERIFY
                  else T_COSE_SUCCESS
              end
          end
    end.

(** ** Hashes *)

(** [struct hash_context_mbedtls], with the block of the context of Mbed TLS that
    [mbedtls_md_setup] allocates and [mbedtls_md_free] gives back. *)
Record hash_context_mbedtls := HashContext {
  md_ctx : mbedtls_md_context_t;
  md_block : option nat;
  update_error : Z
}.

(** [hash_ctx->context.ptr]. *)
Definition t_cose_crypto_hash : Type := option (nat * hash_context_mbedtls).

Definition hash_md_type (cose_hash_alg_id : Z) : option mbedtls_md_type_t :=
  if cose_hash_alg_id =? COSE_ALGORITHM_SHA_256 then Some MBEDTLS_MD_SHA256
  else if cose_hash_alg_id =? COSE_ALGORITHM_SHA_384 then Some MBEDTLS_MD_SHA384
  else if cose_hash_alg_id =? COSE_ALGORITHM_SHA_512 then Some MBEDTLS_MD_SHA512
  else None.

Section hash.
Context `{allocator}.
(** [sizeof] of the two structures. *)
Variables sizeof_ctx sizeof_md : Z.

(** [mbedtls_md_setup] with its allocation; nothing is allocated if it fails. *)
Definition md_setup (h : heap) (info : mbedtls_md_info_t)
    : heap * option (mbedtls_md_context_t * option nat) :=
  match mbedtls_md_setup info with
  | None => (h, None)
  | Some ctx =>
      let '(h, block) := malloc h sizeof_md in
      if bool_decide (block = None) then (h, None) else (h, Some (ctx, block))
  end.

Definition t_cose_crypto_hash_start (h : heap) (cose_hash_alg_id : Z)
    : outcome (heap * t_cose_err_t * t_cose_crypto_hash) :=
  match hash_md_type cose_hash_alg_id with
  | None => Done (h, T_COSE_ERR_UNSUPPORTED_HASH, None)
  | Some md_type =>
      match mbedtls_md_info_from_type md_type with
      | None => Done (h, T_COSE_ERR_UNSUPPORTED_HASH, None)
      | Some md_info =>
          let '(h, ctx) := malloc h sizeof_ctx in
          match ctx with
          | None => Done (h, T_COSE_ERR_INSUFFICIENT_MEMORY, None)
          | Some block =>
              match md_setup h md_info with
              | (h, None) =>
                  h ← free h (Some block); Done (h, T_COSE_ERR_HASH_GENERAL_FAIL, None)
              | (h, Some (md, mdb)) =>
                  match mbedtls_md_starts md with
                  | None => h ← free h (Some block); Done (h, T_COSE_ERR_HASH_GENERAL_FAIL, None)
                  | Some md => Done (h, T_COSE_SUCCESS, Some (block, HashContext md mdb 0))
                  end
              end
          end
      end
  end.

(** [data_to_hash] is the null buffer or some bytes. *)
Definition t_cose_crypto_hash_update (hash_ctx : t_cose_crypto_hash) (data_to_hash : useful_buf)
    : outcome t_cose_crypto_hash :=
  match hash_ctx with
  | None => Ub
  | Some (block, ctx) =>
      if update_error ctx =? 0 then
        match data_to_hash with
        | None => Done hash_ctx
        | Some data =>
            let '(md, error) := mbedtls_md_update (md_ctx ctx) data in
            Done (Some (block, HashContext md (md_block ctx) error))
        end
      else Done hash_ctx
  end.

(** The heap, the error, and the digest in a buffer of [buffer_len] bytes. *)
Definition t_cose_crypto_hash_finish (h : heap) (hash_ctx : t_cose_crypto_hash) (buffer_len : nat)
    : outcome (heap * t_cose_err_t * option (list byte)) :=
  match hash_ctx with
  | None => Ub
  | Some (block, ctx) =>
      let '(ret, result) :=
        if negb (update_error ctx =? 0) then (T_COSE_ERR_HASH_GENERAL_FAIL, None)
        else if bool_decide (buffer_len < mbedtls_md_get_size (md_ctx ctx))%nat
        then (T_COSE_ERR_HASH_GENERAL_FAIL, None)
        else
          match mbedtls_md_finish (md_ctx ctx) with
          | None => (T_COSE_ERR_HASH_GENERAL_FAIL, None)
          | Some digest => (T_COSE_SUCCESS, Some (take (mbedtls_md_get_size (md_ctx ctx)) digest))
          end in
      h ← free h (md_block ctx);
      h ← free h (Some block);
      Done (h, ret, result)
  end.
End hash.
End cose.
