(* ===== verification/CoseTheorems.v ===== *)
(** * CoseTheorems: signatures and hashes of the adapter

    Verification accepts exactly the encodings of valid pairs of numbers; signing
    encodes the first number twice; a hash is the digest of the data in order, and
    its memory is given back except on one path. *)

From S2P Require Import Prelude Tcbor TeepMessage TeepMessageFacts TeepMessageTheorems Cose.

Local Open Scope Z_scope.

(** ** Signatures *)

Section signatures.
Context `{Hmb : mbedtls_api, !mbedtls_laws}.

(** The key pair of a key this library can use. *)
Definition keypair_of (key : t_cose_key) : option mbedtls_ecp_keypair :=
  if crypto_lib_unidentified key then key_ptr key else None.

Lemma key_convert_spec key :
  match keypair_of key with
  | Some kp => key_convert_and_size key = inl (kp, mbedtls_mpi_size_P kp)
  | None => ∃ e, key_convert_and_size key = inr e ∧ e ≠ T_COSE_SUCCESS
  end.
Proof.
  unfold keypair_of, key_convert_and_size. destruct (crypto_lib_unidentified key); cbn.
  - destruct (key_ptr key); [done|]. by eexists.
  - by eexists.
Qed.

(** Verification of two parts of the size of the key. *)
Lemma verify_parts alg key kp hash bytes1 bytes2 :
  t_cose_algorithm_is_ecdsa alg = true → keypair_of key = Some kp →
  length bytes1 = mbedtls_mpi_size_P kp → length bytes2 = mbedtls_mpi_size_P kp →
  t_cose_crypto_verify alg key hash (bytes1 ++ bytes2) =
  match mbedtls_mpi_read_binary bytes1, mbedtls_mpi_read_binary bytes2 with
  | Some r, Some s => if mbedtls_ecdsa_verify kp hash r s then T_COSE_SUCCESS else T_COSE_ERR_SIG_VERIFY
  | _, _ => T_COSE_ERR_INSUFFICIENT_MEMORY
  end.
Proof.
  intros Halg Hkp Hl1 Hl2. unfold t_cose_crypto_verify. rewrite Halg. cbn [negb].
  pose proof (key_convert_spec key) as Hkey. rewrite Hkp in Hkey. rewrite Hkey.
  rewrite bool_decide_true by (rewrite length_app; lia). cbn [negb].
  rewrite <-Hl1, take_app_length, drop_app_length, take_ge by lia.
  destruct (mbedtls_mpi_read_binary bytes1); [|done].
  destruct (mbedtls_mpi_read_binary bytes2); [|done]. by destruct (mbedtls_ecdsa_verify _ _ _ _).
Qed.

Lemma verify_length alg key kp hash sig :
  keypair_of key = Some kp → length sig ≠ (mbedtls_mpi_size_P kp * 2)%nat →
  t_cose_crypto_verify alg key hash sig ≠ T_COSE_SUCCESS.
Proof.
  intros Hkp Hl. unfold t_cose_crypto_verify. destruct (negb _); [done|].
  pose proof (key_convert_spec key) as Hkey. rewrite Hkp in Hkey. rewrite Hkey.
  by rewrite bool_decide_false.
Qed.

Lemma verify_key alg key hash sig :
  keypair_of key = None → t_cose_crypto_verify alg key hash sig ≠ T_COSE_SUCCESS.
Proof.
  intros Hkp. unfold t_cose_crypto_verify. destruct (negb _); [done|].
  pose proof (key_convert_spec key) as Hkey. rewrite Hkp in Hkey. by destruct Hkey as (e&->&?).
Qed.

Lemma verify_alg alg key hash sig :
  t_cose_crypto_verify alg key hash sig = T_COSE_SUCCESS → t_cose_algorithm_is_ecdsa alg = true.
Proof. unfold t_cose_crypto_verify. by destruct (t_cose_algorithm_is_ecdsa alg). Qed.

Lemma verify_success_iff alg key hash sig :
  t_cose_crypto_verify alg key hash sig = T_COSE_SUCCESS ↔
  t_cose_algorithm_is_ecdsa alg = true ∧
  ∃ kp r s, keypair_of key = Some kp ∧
    let n := mbedtls_mpi_size_P kp in
    0 <= r < 256 ^ Z.of_nat n ∧ 0 <= s < 256 ^ Z.of_nat n ∧
    sig = be_bytes n r ++ be_bytes n s ∧
    mbedtls_mpi_read_binary (be_bytes n r) = Some r ∧ mbedtls_mpi_read_binary (be_bytes n s) = Some s ∧
    mbedtls_ecdsa_verify kp hash r s = true.
Proof.
  split.
  - intros Hv. pose proof (verify_alg _ _ _ _ Hv) as Halg. split; [done|].
    destruct (keypair_of key) as [kp|] eqn:Hkp; [|by apply (verify_key alg key hash sig) in Hkp].
    destruct (decide (length sig = (mbedtls_mpi_size_P kp * 2)%nat)) as [Hl|Hl];
      [|by apply (verify_length alg key kp hash sig) in Hl].
    set (n := mbedtls_mpi_size_P kp) in *.
    assert (length (take n sig) = n) as Hl1 by (rewrite length_take; lia).
    assert (length (drop n sig) = n) as Hl2 by (rewrite length_drop; lia).
    rewrite <-(take_drop n sig) in Hv. rewrite (verify_parts alg key kp) in Hv by done.
    destruct (mbedtls_mpi_read_binary (take n sig)) as [r|] eqn:Hr; [|done].
    destruct (mbedtls_mpi_read_binary (drop n sig)) as [s|] eqn:Hs; [|done].
    destruct (mbedtls_ecdsa_verify kp hash r s) eqn:Hecdsa; [|done].
    exists kp, r, s. split; [done|]. cbn zeta. fold n.
    pose proof (mpi_read_value _ _ Hr) as ->. pose proof (mpi_read_value _ _ Hs) as ->.
    pose proof (be_fold_range (take n sig)) as Hr1. pose proof (be_fold_range (drop n sig)) as Hr2.
    pose proof (be_bytes_fold (take n sig)) as Hb1. pose proof (be_bytes_fold (drop n sig)) as Hb2.
    rewrite Hl1 in *. rewrite Hl2 in *. rewrite Hb1, Hb2. split_and!; try done; [lia..|].
    by rewrite take_drop.
  - intros (Halg&kp&r&s&Hkp&_&_&->&Hr&Hs&Hecdsa).
    rewrite (verify_parts alg key kp) by (done || apply be_bytes_length). by rewrite Hr, Hs, Hecdsa.
Qed.

(** C20: Verification succeeds exactly on signatures that are the two numbers of a
    valid ECDSA signature, each in the size of the key, one after the other; every
    other length, key or algorithm is an error, and so is a number that cannot be
    read. *)
Theorem cose_verify_correct alg key hash sig :
  t_cose_crypto_verify alg key hash sig = T_COSE_SUCCESS ↔
  t_cose_algorithm_is_ecdsa alg = true ∧
  ∃ kp r s, keypair_of key = Some kp ∧
    let n := mbedtls_mpi_size_P kp in
    0 <= r < 256 ^ Z.of_nat n ∧ 0 <= s < 256 ^ Z.of_nat n ∧
    sig = be_bytes n r ++ be_bytes n s ∧
    mbedtls_mpi_read_binary (be_bytes n r) = Some r ∧ mbedtls_mpi_read_binary (be_bytes n s) = Some s ∧
    mbedtls_ecdsa_verify kp hash r s = true.
Proof. apply verify_success_iff. Qed.

Lemma write_twice buffer n (bytes : list byte) :
  length bytes = n → (n * 2 ≤ length buffer)%nat →
  take (n * 2) (write_at (write_at buffer 0 bytes) n bytes) = bytes ++ bytes.
Proof.
  intros <- Hl. replace (length bytes * 2)%nat with (length bytes + length bytes)%nat by lia.
  rewrite write_at_take by (rewrite write_at_length; lia).
  pose proof (write_at_take buffer 0 bytes) as H0. cbn in H0. by rewrite H0 by lia.
Qed.

(** C40: Signing, when it succeeds, stays in the buffer and encodes the number r
    twice where r and s belong.  So verifying what was signed, with the same key
    and hash, succeeds only if r itself is a valid second number, whatever s
    was. *)
Theorem cose_sign_then_verify alg key hash buffer buffer' sig :
  t_cose_crypto_sign alg key hash buffer = (T_COSE_SUCCESS, buffer', Some sig) →
  ∃ kp md r s, keypair_of key = Some kp ∧ mbedtls_ecdsa_sign_det kp hash md = Some (r, s) ∧
    let n := mbedtls_mpi_size_P kp in
    length buffer' = length buffer ∧ sig = take (n * 2) buffer' ∧
    sig = be_bytes n r ++ be_bytes n r ∧
    (t_cose_crypto_verify alg key hash sig = T_COSE_SUCCESS → mbedtls_ecdsa_verify kp hash r r = true).
Proof.
  unfold t_cose_crypto_sign. destruct (t_cose_algorithm_is_ecdsa alg) eqn:Halg; cbn [negb]; [|done].
  destruct (sign_md_type alg) as [md|]; [|done].
  pose proof (key_convert_spec key) as Hkey. destruct (keypair_of key) as [kp|] eqn:Hkp.
  2: { by destruct Hkey as (e&->&_). }
  rewrite Hkey. set (n := mbedtls_mpi_size_P kp).
  destruct (mbedtls_ecdsa_sign_det kp hash md) as [[r s]|] eqn:Hsign; [|done].
  case_bool_decide as Hlen; [done|].
  destruct (mbedtls_mpi_write_binary r n) as [bytes|] eqn:Hw; [|done].
  destruct (mpi_write_value _ _ _ Hw) as [Hr ->].
  pose proof (be_bytes_length n r) as Hbl.
  intros [= <- <-]. exists kp, md, r, s. split; [done|]. split; [done|]. cbn zeta. fold n.
  split; [by rewrite !write_at_length by (rewrite ?write_at_length; lia)|].
  split; [done|]. rewrite write_twice by lia. split; [done|].
  rewrite (verify_parts alg key kp) by (done || apply be_bytes_length).
  destruct (mbedtls_mpi_read_binary (be_bytes n r)) as [r'|] eqn:Hread; [|done].
  pose proof (mpi_read_value _ _ Hread) as ->. rewrite be_fold_bytes by done.
  by destruct (mbedtls_ecdsa_verify kp hash r r).
Qed.
End signatures.

(** ** Hashes *)

Section hashes.
Context `{Hmb : mbedtls_api, Hal : allocator}.
Variables sizeof_ctx sizeof_md : Z.

(** The data in order; null buffers are skipped, and an error is final. *)
Fixpoint md_updates (md : mbedtls_md_context_t) (l : list useful_buf) : option mbedtls_md_context_t :=
  match l with
  | [] => Some md
  | None :: l => md_updates md l
  | Some data :: l =>
      let '(md, error) := mbedtls_md_update md data in if error =? 0 then md_updates md l else None
  end.

Definition md_begin (alg : Z) : option mbedtls_md_context_t :=
  md_type ← hash_md_type alg; info ← mbedtls_md_info_from_type md_type; mbedtls_md_setup info.

(** The size and the bytes of the digest. *)
Definition reference_digest (alg : Z) (l : list useful_buf) : option (nat * list byte) :=
  md ← md_begin alg; md ← mbedtls_md_starts md; md ← md_updates md l;
  digest ← mbedtls_md_finish md; Some (mbedtls_md_get_size md, digest).

(** The functions as t_cose calls them. *)
Fixpoint hash_updates (ctx : t_cose_crypto_hash) (l : list useful_buf) : outcome t_cose_crypto_hash :=
  match l with
  | [] => Done ctx
  | data :: l => ctx ← t_cose_crypto_hash_update ctx data; hash_updates ctx l
  end.

Definition hash_all (h : heap) (alg : Z) (l : list useful_buf) (buffer_len : nat)
    : outcome (heap * t_cose_err_t * option (list byte)) :=
  '(h, e, ctx) ← t_cose_crypto_hash_start sizeof_ctx sizeof_md h alg;
  if bool_decide (e = T_COSE_SUCCESS) then
    ctx ← hash_updates ctx l; t_cose_crypto_hash_finish h ctx buffer_len
  else Done (h, e, None).

Lemma hash_updates_failed block ctx l :
  update_error ctx ≠ 0 → hash_updates (Some (block, ctx)) l = Done (Some (block, ctx)).
Proof.
  intros He. induction l as [|data l IH]; cbn; [done|].
  destruct (Z.eqb_spec (update_error ctx) 0); [done|]. exact IH.
Qed.

Lemma hash_updates_spec block md mdb l :
  ∃ ctx, hash_updates (Some (block, HashContext md mdb 0)) l = Done (Some (block, ctx)) ∧ md_block ctx = mdb ∧
    match md_updates md l with
    | Some md' => md_ctx ctx = md' ∧ update_error ctx = 0
    | None => update_error ctx ≠ 0
    end.
Proof.
  revert md. induction l as [|[data|] l IH]; intros md; cbn; [by eexists| |by apply IH].
  destruct (mbedtls_md_update md data) as [md' error] eqn:Hu. cbn.
  destruct (Z.eqb_spec error 0) as [->|He]; [by apply IH|].
  rewrite hash_updates_failed by done. by eexists.
Qed.

Lemma hash_finish_spec h block ctx buffer_len frame :
  accounts h [md_block ctx; Some block] frame →
  wp (t_cose_crypto_hash_finish h (Some (block, ctx)) buffer_len) (fun '(h', e, res) =>
    accounts h' [] frame ∧
    let size := mbedtls_md_get_size (md_ctx ctx) in
    (e, res) = match mbedtls_md_finish (md_ctx ctx) with
               | Some digest =>
                   if bool_decide (update_error ctx = 0 ∧ (size ≤ buffer_len)%nat)
                   then (T_COSE_SUCCESS, Some (take size digest))
                   else (T_COSE_ERR_HASH_GENERAL_FAIL, None)
               | None => (T_COSE_ERR_HASH_GENERAL_FAIL, None)
               end).
Proof.
  intros Hacc. unfold t_cose_crypto_hash_finish.
  assert (∀ (ret : t_cose_err_t) (result : option (list byte)), wp (h ← free h (md_block ctx); h ← free h (Some block); Done (h, ret, result))
    (fun '(h', e, res) => accounts h' [] frame ∧ (e, res) = (ret, result))) as Hfree.
  { intros ret result. apply wp_bind. eapply wp_mono; [exact (free_owned _ _ _ _ Hacc)|]. intros h1 H1.
    apply wp_bind. eapply wp_mono; [exact (free_owned _ _ _ _ H1)|]. intros h2 H2. by split. }
  destruct (Z.eqb_spec (update_error ctx) 0) as [He|He]; cbn [negb].
  - case_bool_decide as Hb.
    + eapply wp_mono; [apply Hfree|]. intros [[h' e] res] [? [= -> ->]]. split; [done|].
      destruct (mbedtls_md_finish _); [|done]. rewrite bool_decide_false; [done|]. cbn. lia.
    + destruct (mbedtls_md_finish (md_ctx ctx)) as [digest|]; [|apply Hfree].
      rewrite bool_decide_true by (split; [done|lia]). apply Hfree.
  - eapply wp_mono; [apply Hfree|]. intros [[h' e] res] [? [= -> ->]]. split; [done|].
    destruct (mbedtls_md_finish _); [|done]. by rewrite bool_decide_false by tauto.
Qed.

(** Starting: the context owns two blocks; an error of [mbedtls_md_starts] loses
    the second. *)
Lemma hash_start_spec h alg frame :
  accounts h [] frame →
  wp (t_cose_crypto_hash_start sizeof_ctx sizeof_md h alg) (fun '(h', e, ctx) =>
    match ctx with
    | Some (block, c) =>
        e = T_COSE_SUCCESS ∧ accounts h' [md_block c; Some block] frame ∧
        ∃ md, md_begin alg = Some md ∧ mbedtls_md_starts md = Some (md_ctx c) ∧ update_error c = 0
    | None =>
        e ≠ T_COSE_SUCCESS ∧
        (∃ lost, accounts h' [] (lost ++ frame) ∧
           (lost ≠ [] → ∃ md, md_begin alg = Some md ∧ mbedtls_md_starts md = None)) ∧
        ((∀ n z, malloc_succeeds n z = true) → (md_begin alg ≫= mbedtls_md_starts) = None)
    end).
Proof.
  intros Hacc. unfold t_cose_crypto_hash_start, md_begin.
  assert (∀ P, accounts h [] frame ∧ (∃ lost, accounts h [] (lost ++ frame) ∧ (lost ≠ [] → P))) as Hkeep.
  { intros P. split; [done|]. by exists []. }
  destruct (hash_md_type alg) as [md_type|]; cbn -[free malloc]; [|split; [done|]; split; [apply Hkeep|done]].
  destruct (mbedtls_md_info_from_type md_type) as [info|]; cbn -[free malloc]; [|split; [done|]; split; [apply Hkeep|done]].
  pose proof (accounts_malloc h sizeof_ctx [] frame Hacc) as H1.
  destruct (malloc h sizeof_ctx) as [h1 [block|]] eqn:Hm1; cbn in H1.
  2: { split; [done|]. split; [by exists []|]. intros Hmem. unfold malloc in Hm1. by rewrite Hmem in Hm1. }
  unfold md_setup. destruct (mbedtls_md_setup info) as [md|] eqn:Hsetup.
  2: { apply wp_bind. eapply wp_mono; [exact (free_owned _ _ _ _ H1)|]. intros h2 H2. cbn -[free malloc].
    split; [done|]. split; [by exists []|done]. }
  pose proof (accounts_malloc h1 sizeof_md _ frame H1) as H2.
  destruct (malloc h1 sizeof_md) as [h2 [mdb|]] eqn:Hm2; cbn in H2.
  2: { rewrite bool_decide_true by done. apply wp_bind. eapply wp_mono; [exact (free_owned _ (Some block) [] _ H2)|]. intros h3 H3. cbn.
    split; [done|]. split; [by exists []|]. intros Hmem. unfold malloc in Hm2. by rewrite Hmem in Hm2. }
  rewrite bool_decide_false by done. destruct (mbedtls_md_starts md) as [md'|] eqn:Hstarts.
  - cbn. split; [done|]. split; [done|]. by exists md.
  - apply wp_bind. eapply wp_mono.
    { apply (free_owned h2 (Some block) [] (mdb :: frame)). eapply accounts_perm; [exact H2|]. cbn. by constructor. }
    intros h3 H3. cbn. split; [done|]. split; [|by rewrite Hstarts].
    exists [mdb]. split; [exact H3|]. intros _. by exists md.
Qed.

Lemma hash_all_spec h alg l buffer_len frame :
  accounts h [] frame →
  wp (hash_all h alg l buffer_len) (fun '(h', e, res) =>
    (∃ lost, accounts h' [] (lost ++ frame) ∧
       (lost ≠ [] → ∃ md, md_begin alg = Some md ∧ mbedtls_md_starts md = None)) ∧
    match res with
    | Some bytes => e = T_COSE_SUCCESS ∧ ∃ size digest,
        reference_digest alg l = Some (size, digest) ∧ (size ≤ buffer_len)%nat ∧ bytes = take size digest
    | None => e ≠ T_COSE_SUCCESS ∧
        ((∀ n z, malloc_succeeds n z = true) → ∀ size digest,
           reference_digest alg l = Some (size, digest) → (buffer_len < size)%nat)
    end).
Proof.
  intros Hacc. unfold hash_all, reference_digest. apply wp_bind.
  eapply wp_mono; [by apply hash_start_spec|]. intros [[h1 e] [[block c]|]].
  - intros (->&H1&md&Hbegin&Hstarts&He). rewrite bool_decide_true by done. rewrite Hbegin. cbn [mbind option_bind].
    rewrite Hstarts. cbn [mbind option_bind].
    destruct c as [md1 mdb e1]. cbn in He, H1, Hstarts |- *. subst e1.
    destruct (hash_updates_spec block md1 mdb l) as (c&Hup&Hmdb&Hc). rewrite Hup. cbn [mbind outcome_bind].
    eapply wp_mono; [apply (hash_finish_spec h1 block c buffer_len frame); by rewrite Hmdb|].
    intros [[h' e] res] [Hacc' Hres]. split; [by exists []|].
    destruct (md_updates md1 l) as [md2|]; cbn [mbind option_bind].
    + destruct Hc as [Hmd Herr]. rewrite Hmd, Herr in Hres.
      destruct (mbedtls_md_finish md2) as [digest|]; cbn [mbind option_bind].
      * cbn zeta in Hres. case_bool_decide as Hb; injection Hres as -> ->.
        -- split; [done|]. exists (mbedtls_md_get_size md2), digest. split; [done|]. split; [apply Hb|done].
        -- split; [done|]. intros _ size d [= <- <-]. lia.
      * injection Hres as -> ->. by split.
    + assert (res = None ∧ e ≠ T_COSE_SUCCESS) as [-> ?]; [|done].
      destruct (mbedtls_md_finish _); [|by injection Hres as -> ->].
      cbn zeta in Hres. rewrite bool_decide_false in Hres by tauto. by injection Hres as -> ->.
  - intros (He&Hlost&Hnone). rewrite bool_decide_false by done. cbn. split; [done|]. split; [done|].
    intros Hmem size digest Hr. specialize (Hnone Hmem).
    destruct (md_begin alg) as [md|]; [|done]. cbn in *. by rewrite Hnone in Hr.
Qed.

(** C25: A hash computed with the functions of the adapter is the digest of the
    data that is not null, in order: if the call succeeds, and it does if the
    library does, memory is there and the buffer is large enough.  All blocks are
    given back on every path but one: when [mbedtls_md_starts] fails, the context
    of Mbed TLS is lost. *)
Theorem cose_hash_correct h alg l buffer_len frame :
  accounts h [] frame →
  wp (hash_all h alg l buffer_len) (fun '(h', e, res) =>
    (∃ lost, accounts h' [] (lost ++ frame) ∧
       (lost ≠ [] → ∃ md, md_begin alg = Some md ∧ mbedtls_md_starts md = None)) ∧
    match res with
    | Some bytes => e = T_COSE_SUCCESS ∧ ∃ size digest,
        reference_digest alg l = Some (size, digest) ∧ (size ≤ buffer_len)%nat ∧ bytes = take size digest
    | None => e ≠ T_COSE_SUCCESS ∧
        ((∀ n z, malloc_succeeds n z = true) → ∀ size digest,
           reference_digest alg l = Some (size, digest) → (buffer_len < size)%nat)
    end).
Proof. apply hash_all_spec. Qed.
End hashes.

(** ** Concrete uses *)

(** A library whose only valid signature is (5, 7); digests are the length of the
    data in one byte. *)
#[local] Instance toy_mbedtls : mbedtls_api := {|
  T_COSE_ALGORITHM_ES256 := -7;
  T_COSE_ALGORITHM_ES384 := -35;
  T_COSE_ALGORITHM_ES512 := -36;
  COSE_ALGORITHM_SHA_256 := -16;
  COSE_ALGORITHM_SHA_384 := -43;
  COSE_ALGORITHM_SHA_512 := -44;
  t_cose_algorithm_is_ecdsa alg := (alg =? -7) || (alg =? -35) || (alg =? -36);
  mbedtls_ecp_keypair := nat;
  mbedtls_mpi_size_P kp := kp;
  mbedtls_md_type_t := Z;
  MBEDTLS_MD_SHA256 := 256;
  MBEDTLS_MD_SHA384 := 384;
  MBEDTLS_MD_SHA512 := 512;
  mbedtls_md_info_t := Z;
  mbedtls_md_info_from_type ty := Some ty;
  mbedtls_md_context_t := list byte;
  mbedtls_md_setup _ := Some [];
  mbedtls_md_starts ctx := Some ctx;
  mbedtls_md_update ctx data := (ctx ++ data, 0);
  mbedtls_md_get_size _ := 1%nat;
  mbedtls_md_finish ctx := Some [to_byte (Z.of_nat (length ctx))];
  mbedtls_mpi_read_binary bytes := Some (be_fold 0 bytes);
  mbedtls_mpi_write_binary v n :=
    if bool_decide (0 <= v < 256 ^ Z.of_nat n) then Some (be_bytes n v) else None;
  mbedtls_ecdsa_sign_det _ _ _ := Some (5, 7);
  mbedtls_ecdsa_verify _ _ r s := (r =? 5) && (s =? 7)
|}.

#[local] Instance toy_mbedtls_laws : mbedtls_laws.
Proof.
  split; cbn.
  - by intros bytes v [= <-].
  - intros v n bytes. case_bool_decide; [by intros [= <-]|done].
Qed.

Definition toy_key : t_cose_key := @CoseKey toy_mbedtls true (Some 2%nat).

(** The signature made here is not accepted with the key that made it. *)
Lemma cose_sign_then_verify_witness :
  t_cose_crypto_sign (-7) toy_key [] (replicate 5 x00) =
    (T_COSE_SUCCESS, [x00; x05; x00; x05; x00], Some [x00; x05; x00; x05]) ∧
  t_cose_crypto_verify (-7) toy_key [] [x00; x05; x00; x05] ≠ T_COSE_SUCCESS ∧
  t_cose_crypto_verify (-7) toy_key [] [x00; x05; x00; x07] = T_COSE_SUCCESS.
Proof.
  split; [reflexivity|]. split; [|reflexivity]. intros Hv.
  destruct (cose_sign_then_verify (-7) toy_key [] (replicate 5 x00)
    [x00; x05; x00; x05; x00] [x00; x05; x00; x05] eq_refl) as (kp&md&r&s&_&Hsign&_&_&_&Himp).
  injection Hsign as <- <-. by specialize (Himp Hv).
Defined.

(** The signature of the two numbers is accepted, whatever was signed. *)
Lemma cose_verify_correct_witness : t_cose_crypto_verify (-7) toy_key [x61] [x00; x05; x00; x07] = T_COSE_SUCCESS.
Proof.
  apply (cose_verify_correct (-7) toy_key [x61] [x00; x05; x00; x07]). split; [done|].
  exists (2%nat : @mbedtls_ecp_keypair toy_mbedtls), 5, 7. by vm_compute.
Defined.

#[local] Existing Instance always_malloc.

(** Two buffers of three bytes in all, with a null buffer between them. *)
Lemma cose_hash_correct_witness :
  ∃ h, hash_all 100 80 empty_heap (-43) [Some [x01; x02]; None; Some [x03]] 32 =
         Done (h, T_COSE_SUCCESS, Some [x03]) ∧
    reference_digest (-43) [Some [x01; x02]; None; Some [x03]] = Some (1%nat, [x03]) ∧
    ∃ lost, accounts h [] (lost ++ []).
Proof.
  destruct (wp_elim _ _ (cose_hash_correct 100 80 empty_heap (-43) [Some [x01; x02]; None; Some [x03]] 32 []
    (conj empty_heap_wf (Permutation_refl _)))) as ([[h e] res] & Hrun & (lost & Hacc & _) & _).
  exists h. split; [|split; [reflexivity|by exists lost]].
  vm_compute in Hrun. injection Hrun as <- <- <-. vm_compute. reflexivity.
Defined.
