(* ===== verification/CoseAuth.v ===== *)
(** * CoseAuth: authentication with the adapter

    SuitAuth is about any implementation of [crypto_api].  Here it is the one the
    program is linked with: t_cose over the functions of
    [t_cose_mbedtls_crypto.c], and Mbed TLS for the digest of the manifest.  What
    t_cose does with the functions it is given is the class [t_cose_api]. *)

From stdpp Require Import strings.
From S2P Require Import Prelude Tcbor TcborFacts CborSpec SuitTypes SuitParser SuitParserFacts SuitSpec.
From S2P Require Import SuitAuth SuitAuthFacts SuitContext SuitTheorems TeepMessage TeepMessageFacts TeepMessageTheorems TeepEncoder.
From S2P Require Import Agent AgentFacts AgentTheorems Cose CoseTheorems.

Local Open Scope Z_scope.

(** ** The messages of RFC 8152 *)

(** A byte string with the shortest head. *)
Definition cbor_bstr (bs : list byte) : cbor := CString 2 (shortest (Z.of_nat (length bs))) bs.

(** Tags in front of an item, each with an encoding of its number. *)
Definition tag_heads (ts : list (Z * Z)) : list byte := flat_map (fun '(ai, v) => encode_head 6 ai v) ts.
Definition tags_ok (ts : list (Z * Z)) : Prop := Forall (fun '(ai, v) => head_ok ai v = true) ts.

(** The encodings of a byte string: in one piece, or in pieces up to a break. *)
Definition bstr_head_ok (ai : Z) (bs : list byte) : Prop := head_ok ai (Z.of_nat (length bs)) = true.

Inductive bstr_encoding (contents : list byte) : list byte → Prop :=
  | bstr_definite ai :
      bstr_head_ok ai contents → bstr_encoding contents (encode (CString 2 ai contents))
  | bstr_indefinite (pieces : list (Z * list byte)) :
      contents = flat_map snd pieces → Forall (fun '(ai, bs) => bstr_head_ok ai bs) pieces →
      bstr_encoding contents (x5f :: flat_map (fun '(ai, bs) => encode (CString 2 ai bs)) pieces ++ [xff]).

(** The head of an array of four items, or of one that ends with a break. *)
Inductive array4_head : list byte → Prop :=
  | array4_definite ai : head_ok ai 4 = true → array4_head (encode_head 4 ai 4)
  | array4_indefinite : array4_head [x9f].

(** A message of [COSE_Sign1] with the given tags, in any encoding of CBOR: tags, an
    array, the protected header, the unprotected header and the payload in [middle],
    and the signature.  The members may have tags, too. *)
Definition cose_sign1 (tags : list Z) (protected signature message : list byte) : Prop :=
  ∃ ts arr tp p middle tg sg rest,
    tags = map snd ts ∧ tags_ok ts ∧ array4_head arr ∧
    tags_ok tp ∧ bstr_encoding protected p ∧ tags_ok tg ∧ bstr_encoding signature sg ∧
    message = tag_heads ts ++ arr ++ (tag_heads tp ++ p) ++ middle ++ (tag_heads tg ++ sg) ++ rest.

(** What [read_tag] finds in front of such a message is its first tag. *)
Lemma cose_sign1_tag tags protected signature message :
  cose_sign1 tags protected signature message → tag_of message = head tags.
Proof.
  intros (ts&arr&tp&p&middle&tg&sg&rest&->&Hts&Harr&_&_&_&_&->). unfold tag_of.
  destruct ts as [|[ai v] ts].
  - destruct Harr as [ai Hai|]; [|done].
    pose proof (decode_item_encode 4 ai 4 [] ((tag_heads tp ++ p) ++ middle ++ (tag_heads tg ++ sg) ++ rest)
      ltac:(lia) Hai eq_refl eq_refl) as Hd. cbn [app tag_heads flat_map] in Hd |- *. rewrite Hd. cbn [d_header].
    pose proof (head_ok_range _ _ Hai). by rewrite shiftr_head by lia.
  - apply list.Forall_cons in Hts as [Hv _]. pose proof (head_ok_range _ _ Hv).
    cbn [tag_heads flat_map]. rewrite <-app_assoc. 
    match goal with |- context [encode_head 6 ai v ++ ?r] =>
      pose proof (decode_item_encode 6 ai v [] r ltac:(lia) Hv eq_refl eq_refl) as Hd end.
    cbn [app] in Hd. rewrite Hd. cbn [d_header d_value]. by rewrite shiftr_head by lia.
Qed.

(** [Sig_structure] of section 4.4, without external data. *)
Definition sig_structure (protected payload : list byte) : list byte :=
  encode (CArray 4 [CString 3 10 (bytes_of_string "Signature1"); cbor_bstr protected; cbor_bstr [];
                    cbor_bstr payload]).

(** ** t_cose *)

(** The cryptographic functions t_cose is linked with: the verification of a
    signature, and the digest of some buffers. *)
Record t_cose_crypto `{mbedtls_api} := TCoseCrypto {
  crypto_verify : Z → t_cose_key → list byte → list byte → t_cose_err_t;
  crypto_hash : Z → list useful_buf → nat → option (list byte)
}.

Class t_cose_api `{mbedtls_api} := {
  (** QCBOR. *)
  COSE_SIGN1_TAG : Z;
  (** [mbedtls_pk_parse_public_key], with the key pair [pk_ctx] points to. *)
  mbedtls_pk_parse_public_key : list byte → option mbedtls_ecp_keypair;
  mbedtls_md_info_get_size : mbedtls_md_info_t → nat;
  (** The algorithm of the digest for an algorithm of signatures. *)
  hash_alg_id_from_sig_alg_id : Z → Z;
  (** [t_cose_sign1_verify_detached(...) == T_COSE_SUCCESS]. *)
  t_cose_verify_detached : t_cose_crypto → t_cose_key → option (list byte) → option (list byte) → bool
}.

(** What is relied on: a message is accepted only if it is a COSE_Sign1, with any
    tags or none since the option that requires the tag is not given, whose
    signature the given functions verify over the digest of the Sig_structure, which
    may be handed over in pieces; and the documented behaviour of digests. *)
Class t_cose_laws `{t_cose_api} := {
  t_cose_verified : ∀ crypto key message payload,
    t_cose_verify_detached crypto key message (Some payload) = true →
    ∃ alg tags protected signature pieces len hash m,
      message = Some m ∧ cose_sign1 tags protected signature m ∧
      flat_map (default []) pieces = sig_structure protected payload ∧
      crypto_hash crypto (hash_alg_id_from_sig_alg_id alg) pieces len = Some hash ∧
      crypto_verify crypto alg key hash signature = T_COSE_SUCCESS;
  (** The digest function of a kind of digest. *)
  digest_of_md : mbedtls_md_type_t → list byte → list byte;
  md_digest_value : ∀ ty info c0 c1 c l out,
    mbedtls_md_info_from_type ty = Some info → mbedtls_md_setup info = Some c0 →
    mbedtls_md_starts c0 = Some c1 → md_updates c1 l = Some c → mbedtls_md_finish c = Some out →
    out = digest_of_md ty (flat_map (default []) l) ∧ length out = mbedtls_md_info_get_size info ∧
    mbedtls_md_get_size c = length out;
  md_info_size_max : ∀ info, (mbedtls_md_info_get_size info <= 64)%nat
}.

(** ** The program *)

Section linked.
Context `{Hmb : mbedtls_api, Htc : !t_cose_api, Hal : allocator}.
Variables sizeof_ctx sizeof_md : Z.
(** The heap when t_cose is asked for a digest. *)
Variable heap_at : list useful_buf → heap.

(** The functions of [t_cose_mbedtls_crypto.c]. *)
Definition mbedtls_crypto : t_cose_crypto := {|
  crypto_verify := t_cose_crypto_verify;
  crypto_hash alg l buffer_len :=
    match hash_all sizeof_ctx sizeof_md (heap_at l) alg l buffer_len with
    | Done (_, _, res) => res
    | _ => None
    end
|}.

Definition suit_md_info : option mbedtls_md_info_t := mbedtls_md_info_from_type MBEDTLS_MD_SHA256.

(** What [suit-parser.c] calls. *)
Definition linked_crypto : crypto_api := {|
  CBOR_TAG_COSE_SIGN1 := COSE_SIGN1_TAG;
  pk_key := mbedtls_ecp_keypair;
  md_context := mbedtls_md_context_t;
  pk_parse_public_key := mbedtls_pk_parse_public_key;
  t_cose_sign1_verify_detached pk := t_cose_verify_detached mbedtls_crypto (CoseKey true (Some pk));
  md_sha256_available := bool_decide (is_Some suit_md_info);
  SuitAuth.md_setup := info ← suit_md_info; mbedtls_md_setup info;
  md_starts := mbedtls_md_starts;
  md_update c data := let '(c, error) := mbedtls_md_update c data in if error =? 0 then Some c else None;
  md_finish := mbedtls_md_finish;
  md_get_size := match suit_md_info with Some info => Z.of_nat (mbedtls_md_info_get_size info) | None => 0 end
|}.

(** ** What an accepted envelope shows *)

Context `{!mbedtls_laws, !t_cose_laws}.
Hypothesis Hheap : ∀ l, heap_wf (heap_at l).

(** Two updates that succeed are [md_updates]. *)
Lemma md_updates_two c1 c2 c3 m1 m2 :
  @md_update linked_crypto c1 m1 = Some c2 → @md_update linked_crypto c2 m2 = Some c3 →
  md_updates c1 [Some m1; Some m2] = Some c3.
Proof.
  cbn. intros E1 E2. destruct (mbedtls_md_update c1 m1) as [c e]. destruct (e =? 0); [|done]. injection E1 as ->.
  destruct (mbedtls_md_update c2 m2) as [c e']. by destruct (e' =? 0).
Qed.

(** The laws SuitAuthFacts asks for. *)
Lemma linked_laws : @crypto_laws linked_crypto.
Proof.
  assert (∀ c0 c1 c2 c3 m1 m2 out, @SuitAuth.md_setup linked_crypto = Some c0 → md_starts c0 = Some c1 →
    md_update c1 m1 = Some c2 → md_update c2 m2 = Some c3 → md_finish c3 = Some out →
    out = digest_of_md MBEDTLS_MD_SHA256 (m1 ++ m2) ∧ Z.of_nat (length out) = @md_get_size linked_crypto) as Hval.
  { intros c0 c1 c2 c3 m1 m2 out Hc0 Hc1 Hc2 Hc3 Hout.
    pose proof (md_updates_two _ _ _ _ _ Hc2 Hc3) as Hup. cbn in *. unfold suit_md_info in *.
    destruct (mbedtls_md_info_from_type MBEDTLS_MD_SHA256) as [info|] eqn:Hinfo; [|done]. cbn in Hc0.
    destruct (md_digest_value _ info c0 c1 c3 [Some m1; Some m2] out Hinfo Hc0 Hc1 Hup Hout) as (->&->&_).
    cbn. by rewrite app_nil_r. }
  refine (@Build_crypto_laws linked_crypto (digest_of_md MBEDTLS_MD_SHA256) _ _ _).
  - intros. by eapply Hval.
  - intros. by eapply Hval.
  - cbn. destruct suit_md_info as [info|]; [|lia]. pose proof (md_info_size_max info). lia.
Qed.

(** A signature with the key pair [kp] over the digest bytes [payload], in the
    format of COSE with the given tags, with its two numbers in the size of the
    key. *)
Definition signed_by (kp : mbedtls_ecp_keypair) (tags : list Z) (payload message : list byte) : Prop :=
  ∃ alg md_type protected r s,
    let n := mbedtls_mpi_size_P kp in
    0 <= r < 256 ^ Z.of_nat n ∧ 0 <= s < 256 ^ Z.of_nat n ∧
    cose_sign1 tags protected (be_bytes n r ++ be_bytes n s) message ∧
    hash_md_type (hash_alg_id_from_sig_alg_id alg) = Some md_type ∧
    mbedtls_ecdsa_verify kp (digest_of_md md_type (sig_structure protected payload)) r s = true.

(** The digest t_cose gets is that of the data. *)
Lemma crypto_hash_value alg l len hash :
  crypto_hash mbedtls_crypto alg l len = Some hash →
  ∃ md_type, hash_md_type alg = Some md_type ∧ hash = digest_of_md md_type (flat_map (default []) l).
Proof.
  cbn. intros Hh. assert (accounts (heap_at l) [] (h_live (heap_at l))) as Hacc by (split; [apply Hheap|done]).
  destruct (wp_elim _ _ (hash_all_spec sizeof_ctx sizeof_md _ alg l len _ Hacc)) as ([[h e] res]&Hrun&_&Hres).
  rewrite Hrun in Hh. subst res. destruct Hres as (_&size&digest&Href&_&->).
  unfold reference_digest, md_begin in Href.
  destruct (hash_md_type alg) as [ty|]; [|done]. cbn in Href. exists ty. split; [done|].
  destruct (mbedtls_md_info_from_type ty) as [info|] eqn:Hinfo; [|done]. cbn in Href.
  destruct (mbedtls_md_setup info) as [c0|] eqn:Hc0; [|done]. cbn in Href.
  destruct (mbedtls_md_starts c0) as [c1|] eqn:Hc1; [|done]. cbn in Href.
  destruct (md_updates c1 l) as [c|] eqn:Hc; [|done]. cbn in Href.
  destruct (mbedtls_md_finish c) as [d|] eqn:Hd; [|done]. injection Href as <- <-.
  destruct (md_digest_value ty info c0 c1 c l d Hinfo Hc0 Hc1 Hc Hd) as (<-&_&->).
  by rewrite take_ge.
Qed.

Lemma verified_signed pk message payload :
  t_cose_verify_detached mbedtls_crypto (CoseKey true (Some pk)) message (Some payload) = true →
  ∃ m tags, message = Some m ∧ signed_by pk tags payload m.
Proof.
  intros (alg&tags&protected&signature&pieces&len&hash&m&->&Hm&Hp&Hh&Hv)%t_cose_verified.
  exists m, tags. split; [done|]. apply crypto_hash_value in Hh as (ty&Hty&->). rewrite Hp in Hv.
  apply verify_success_iff in Hv as (_&kp&r&s&[= <-]&Hr&Hs&->&_&_&Hv).
  by exists alg, ty, protected, r, s.
Qed.

(** There is a digest only in a range that is not null. *)
Lemma covers_not_null manifest : ¬ @digest_covers linked_crypto linked_laws None manifest.
Proof. intros (b&Hb&Hs&_). cbn in Hb. by injection Hb as <-. Qed.

Lemma signed_tag kp tags payload message : signed_by kp tags payload message → tag_of message = head tags.
Proof. intros (?&?&?&?&?&_&_&Hm&_). by eapply cose_sign1_tag. Qed.

(** What the bytes of [env] hold: a signed digest of the manifest, in a block whose
    first tag is that of COSE_Sign1. *)
Definition envelope_signed (env : tcbor_range) (key_pem : list byte) : Prop :=
  ∃ kp manifest wrapper digest payload block message tags,
    mbedtls_pk_parse_public_key key_pem = Some kp ∧
    suit_envelope_get_field_by_key env SUIT_MANIFEST = Done (Some manifest) ∧
    suit_envelope_get_field_by_key env SUIT_AUTHENTICATION_WRAPPER = Done (Some wrapper) ∧
    range_within digest wrapper ∧ view digest = Some payload ∧
    range_within block wrapper ∧ view block = Some message ∧
    signed_by kp tags payload message ∧ head tags = Some COSE_SIGN1_TAG ∧
    @digest_covers linked_crypto linked_laws digest manifest.

Lemma authenticated_signed env key_pem :
  range_ok env → @suit_authenticate_envelope linked_crypto env key_pem = Done true → envelope_signed env key_pem.
Proof.
  intros Henv Hrun. pose proof (@authenticate_spec linked_crypto linked_laws env key_pem Henv) as Hspec.
  rewrite Hrun in Hspec.
  destruct (Hspec eq_refl) as (manifest&Hm&wrapper&digest&block&Hw&Hd&Hb&(Htag&kp&Hkp&Hv)&Hcov).
  pose proof (get_field_safe env false SUIT_AUTHENTICATION_WRAPPER tcbor_range_null Henv I) as Hwok.
  unfold suit_envelope_get_field_by_key in Hw. rewrite Hw in Hwok.
  assert (range_ok block) as Hbok by (cbn in Hwok; eauto with c_ok).
  destruct digest as [s|]; [|by apply covers_not_null in Hcov].
  cbn in Hkp, Hv. apply verified_signed in Hv as (message&tags&Hmsg&Hsigned).
  destruct block as [bs|]; [|done]. injection Hmsg as Hmsg.
  rewrite read_tag_at, Hmsg, (signed_tag _ _ _ _ Hsigned) in Htag by exact Hbok. injection Htag as Htag.
  exists kp, manifest, wrapper, (Some s), (span_bytes s), (Some bs), message, tags.
  split_and!; try done. cbn. by rewrite Hmsg.
Qed.

(** C4: With the functions the program is linked with, an envelope is accepted only
    if it carries a real signature: some block of its authentication wrapper has the
    tag of COSE_Sign1 (which t_cose does not ask for) and is a message of COSE_Sign1
    whose signature is the two numbers of an ECDSA signature, in the size
    of the key, which Mbed TLS verifies with the given key over the digest of the
    Sig_structure of the digest bytes; and that digest is the SHA-256 of the
    manifest. *)
Theorem accepted_envelope_is_signed env key_pem :
  range_ok env →
  @suit_authenticate_envelope linked_crypto env key_pem = Done true →
  envelope_signed env key_pem.
Proof. apply authenticated_signed. Qed.

(** So does every manifest in a session of the agent, unless its envelope does not
    fit in memory. *)
Lemma agent_manifests_signed `{Hqc : qcbor, Hqe : qcbor_encoder} s i m :
  @session_reaches Hal Hqc Hqe linked_crypto s →
  (i < n_manifest (s_context s))%nat → manifests (s_context s) !! i = Some m →
  ∃ bytes slot, suit_envelope_get_manifest (range_of (Some bytes)) slot = Done (m, Some tt) ∧
    @suit_authenticate_envelope linked_crypto (range_of (Some bytes)) tc_singer_pubkey = Done true ∧
    (Z.of_nat (length bytes) <= PTRDIFF_MAX → envelope_signed (range_of (Some bytes)) tc_singer_pubkey).
Proof.
  intros Hs Hi Hm. apply (@session_reaches_inv Hal Hqc Hqe linked_crypto) in Hs as [Hc _ _].
  destruct (Hc i m Hi Hm) as (bytes&slot&Hauth&Hget). exists bytes, slot. split; [done|]. split; [done|].
  intros Hl. apply authenticated_signed; [|done]. by apply whole_ok.
Qed.
End linked.

(** ** A concrete library

    t_cose for one fixed encoding of messages, over the Mbed TLS of CoseTheorems. *)

#[local] Existing Instances toy_mbedtls toy_mbedtls_laws always_malloc.

Definition toy_protected : list byte := [xa1; x01; x26].
(** The message without a tag, up to the signature of four bytes. *)
Definition toy_body (signature : list byte) : list byte :=
  encode_head 4 4 4 ++ encode (CString 2 3 toy_protected) ++ [xa0; xf6] ++ encode (CString 2 4 signature).
Definition toy_sign1 (signature : list byte) : list byte := xd2 :: toy_body signature.

(** A tag in front is skipped, whether it is there or not. *)
Definition skip_tag (m : list byte) : list byte := match m with xd2 :: m => m | _ => m end.

#[local] Instance toy_t_cose : t_cose_api := {|
  COSE_SIGN1_TAG := 18;
  mbedtls_pk_parse_public_key pem := Some (length pem : @mbedtls_ecp_keypair toy_mbedtls);
  mbedtls_md_info_get_size _ := 1%nat;
  hash_alg_id_from_sig_alg_id alg := if alg =? -7 then -16 else if alg =? -35 then -43 else -44;
  t_cose_verify_detached crypto key message payload :=
    match message, payload with
    | Some m, Some p =>
        match crypto_hash crypto (-16) [Some (sig_structure toy_protected p)] 64 with
        | Some hash =>
            let signature := drop 8 (skip_tag m) in
            bool_decide (skip_tag m = toy_body signature ∧ length signature = 4%nat) &&
            bool_decide (crypto_verify crypto (-7) key hash signature = T_COSE_SUCCESS)
        | None => false
        end
    | _, _ => false
    end
|}.

Lemma toy_updates l : ∀ c : @mbedtls_md_context_t toy_mbedtls,
  md_updates c l = Some (c ++ flat_map (default []) l : @mbedtls_md_context_t toy_mbedtls).
Proof.
  induction l as [|[data|] l IH]; intros c; cbn.
  - by rewrite app_nil_r.
  - fold (@md_updates toy_mbedtls). rewrite IH. by rewrite <-app_assoc.
  - by rewrite IH.
Qed.

Lemma toy_encoding m :
  skip_tag m = toy_body (drop 8 (skip_tag m)) → length (drop 8 (skip_tag m)) = 4%nat →
  ∃ tags, cose_sign1 tags toy_protected (drop 8 (skip_tag m)) m.
Proof.
  intros Hm Hl. revert Hm Hl. generalize (drop 8 (skip_tag m)). intros signature Hm Hl.
  assert (∃ ts, tags_ok ts ∧ m = tag_heads ts ++ toy_body signature) as (ts&Hts&->).
  { destruct m as [|b m]; [done|]. destruct (decide (b = xd2)) as [->|Hb].
    - exists [(18, 18)]. split; [by repeat constructor|]. cbn [skip_tag] in Hm. by rewrite Hm at 1.
    - exists []. split; [constructor|]. destruct b; try done. }
  exists (map snd ts), ts, (encode_head 4 4 4), [], (encode (CString 2 3 toy_protected)), [xa0; xf6], [],
    (encode (CString 2 4 signature)), [].
  split_and!; try done; try (by constructor).
  - constructor. unfold bstr_head_ok. by rewrite Hl.
  - by rewrite app_nil_r.
Qed.

#[local] Instance toy_t_cose_laws : t_cose_laws.
Proof.
  refine (@Build_t_cose_laws toy_mbedtls toy_t_cose _ (fun _ => toy_hash) _ _).
  - intros crypto key message payload. cbn. destruct message as [m|]; [|done].
    destruct (crypto_hash _ _ _ _) as [hash|] eqn:Hh; [|done].
    intros [[Hm Hl]%bool_decide_eq_true Hv%bool_decide_eq_true]%andb_true_iff.
    destruct (toy_encoding m Hm Hl) as [tags Htags].
    exists (-7), tags, toy_protected, (drop 8 (skip_tag m)), [Some (sig_structure toy_protected payload)], 64%nat, hash, m.
    split; [done|]. split; [done|]. split; [cbn; by rewrite app_nil_r|done].
  - cbn. intros ty info c0 c1 c l out _ [= <-] [= <-] Hc [= <-]. rewrite (toy_updates l []) in Hc.
    by injection Hc as <-.
  - cbn. lia.
Defined.

Definition signed_envelope : list byte :=
  encode (CTag 24 107 (CMap 2
    [num 2; bstr (encode (CArray 2 [bstr (encode sample_digest); bstr (toy_sign1 [x00; x05; x00; x07])]));
     num 3; bstr sample_manifest_bytes])).

Lemma accepted_envelope_is_signed_witness :
  @suit_authenticate_envelope (linked_crypto 100 80 (fun _ => empty_heap)) (Some (whole signed_envelope)) [x41; x42] =
    Done true ∧
  ∃ tags payload message, signed_by (2%nat : @mbedtls_ecp_keypair toy_mbedtls) tags payload message.
Proof.
  split; [by vm_compute|].
  destruct (accepted_envelope_is_signed 100 80 (fun _ => empty_heap) (fun _ => empty_heap_wf)
    (Some (whole signed_envelope)) [x41; x42] ltac:(by apply whole_ok) ltac:(by vm_compute))
    as (kp&_&_&_&payload&_&message&tags&[= <-]&_&_&_&_&_&_&Hs&_). by exists tags, payload, message.
Defined.
