(* ===== verification/Http.v ===== *)
(** * Http: the requests of the broker

    [http-lws.c]: the functions [http_get] and [http_post] of [http.h] over
    libwebsockets.  The library is the class [lws_api]: a call of it that runs
    callbacks is entered and then goes on in steps, each of which calls back with
    an event or returns.  The requests of the source are the two callbacks and the
    loop that services the connection. *)

From Stdlib Require Import Strings.String.
From stdpp Require Import pretty.
From S2P Require Import Prelude Tcbor TeepMessage Tools.

Local Open Scope Z_scope.

(** ** libwebsockets *)

(** The reasons the source handles, with [in] and [len] for the one whose data it
    reads; all others are [LWS_CALLBACK_OTHER]. *)
Inductive lws_callback_reasons :=
  | LWS_CALLBACK_CLIENT_CONNECTION_ERROR
  | LWS_CALLBACK_CLOSED_CLIENT_HTTP
  | LWS_CALLBACK_ESTABLISHED_CLIENT_HTTP
  | LWS_CALLBACK_CLIENT_APPEND_HANDSHAKE_HEADER
  | LWS_CALLBACK_COMPLETED_CLIENT_HTTP
  | LWS_CALLBACK_RECEIVE_CLIENT_HTTP_READ (data : list byte)
  | LWS_CALLBACK_RECEIVE_CLIENT_HTTP
  | LWS_CALLBACK_CLIENT_HTTP_WRITEABLE
  | LWS_CALLBACK_OTHER.

Inductive lws_token := WSI_TOKEN_HTTP_CONTENT_LENGTH | WSI_TOKEN_HTTP_CONTENT_TYPE.

Record lws_client_connect_info (context : Type) := ConnectInfo {
  ci_context : context;
  ci_address : list byte;
  ci_port : Z;
  ci_alpn : list byte;
  ci_path : list byte;
  ci_host : list byte;
  ci_origin : list byte;
  ci_method : list byte;
  ci_protocol : list byte;
  ci_ssl_connection : Z
}.
Arguments ConnectInfo {context}.

(** What [lws_parse_uri] stores: protocol, address, port and the path without its
    first slash. *)
Record parsed_uri := ParsedUri {
  pu_proto : list byte;
  pu_address : list byte;
  pu_port : Z;
  pu_path : list byte
}.

(** The next step of a call of the library. *)
Inductive lws_action (world : Type) :=
  | Calls (reason : lws_callback_reasons) (w : world)
  | Returned (w : world) (ret : Z).
Arguments Calls {world}.
Arguments Returned {world}.

Class lws_api := {
  lws_world : Type;
  lws_context : Type;
  LCCSCF_USE_SSL : Z;
  LCCSCF_ALLOW_SELFSIGNED : Z;
  LCCSCF_SKIP_SERVER_CERT_HOSTNAME_CHECK : Z;
  lws_create_context : lws_world → lws_world * option lws_context;
  lws_parse_uri : list byte → option parsed_uri;
  (** Calls that run callbacks, their steps, and the return of a callback.
      [lws_client_connect_via_info] returns 0 for a null pointer. *)
  lws_client_connect_via_info : lws_world → lws_client_connect_info lws_context → lws_world;
  lws_service : lws_world → lws_context → Z → lws_world;
  lws_http_client_read : lws_world → Z → lws_world;
  lws_step : lws_world → lws_action lws_world;
  lws_callback_return : lws_world → Z → lws_world;
  (** Calls of the callbacks that return at once. *)
  lws_http_client_http_response : lws_world → Z;
  lws_add_http_header_by_name : lws_world → list byte → list byte → lws_world * Z;
  lws_add_http_header_by_token : lws_world → lws_token → list byte → lws_world * Z;
  lws_client_http_body_pending : lws_world → Z → lws_world;
  lws_callback_on_writable : lws_world → lws_world;
  lws_write : lws_world → list byte → lws_world * Z;
  lws_callback_http_dummy : lws_world → lws_callback_reasons → lws_world * Z
}.

(** ** State of a request *)

Inductive tam_result :=
  | TR_ONGOING
  | TR_OKAY
  | TR_FAIL_START
  | TR_FAIL_CONN_ERR
  | TR_FAIL_REFUSED
  | TR_FAIL_OVERSIZE
  | TR_FAIL_CLOSED.

Definition tam_result_value (r : tam_result) : Z :=
  match r with
  | TR_ONGOING => 1
  | TR_OKAY => 0
  | TR_FAIL_START => -1
  | TR_FAIL_CONN_ERR => -2
  | TR_FAIL_REFUSED => -3
  | TR_FAIL_OVERSIZE => -4
  | TR_FAIL_CLOSED => -5
  end.

#[export] Instance tam_result_eq_dec : EqDecision tam_result.
Proof. solve_decision. Defined.

(** The lengths of [in] and of the bytes stored in [out]. *)
Record lao_rpc_io := LaoRpcIo {
  io_in : list byte;
  io_in_len : Z;
  io_out : list byte;
  io_out_len : Z
}.

(** [wsi] is only written, by the library. *)
Record libteep_async := LibteepAsync {
  io : lao_rpc_io;
  max_out_len : Z;
  http_resp : Z;
  result : tam_result
}.

Definition set_result (laoa : libteep_async) (r : tam_result) : libteep_async :=
  LibteepAsync (io laoa) (max_out_len laoa) (http_resp laoa) r.
Definition set_http_resp (laoa : libteep_async) (resp : Z) : libteep_async :=
  LibteepAsync (io laoa) (max_out_len laoa) resp (result laoa).
Definition set_io (laoa : libteep_async) (i : lao_rpc_io) : libteep_async :=
  LibteepAsync i (max_out_len laoa) (http_resp laoa) (result laoa).

Section http.
Context `{lws_api, allocator}.

(** ** Callbacks

    [read] runs [lws_http_client_read], which calls back itself. *)

Definition callback : Type := lws_world → libteep_async → lws_callback_reasons →
  outcome (lws_world * libteep_async * Z).

Section callbacks.
Variable read : lws_world → libteep_async → outcome (lws_world * libteep_async * Z).

(** The call after the [switch]. *)
Definition dummy (w : lws_world) (laoa : libteep_async) (reason : lws_callback_reasons)
    : outcome (lws_world * libteep_async * Z) :=
  let '(w, ret) := lws_callback_http_dummy w reason in Done (w, laoa, ret).

(** [memcpy] and the new length, or the failure. *)
Definition receive_read (laoa : libteep_async) (data : list byte) : outcome (libteep_async * bool) :=
  let i := io laoa in
  let len := Z.of_nat (List.length data) in
  if max_out_len laoa <? to_u64 (io_out_len i + len) then Done (set_result laoa TR_FAIL_OVERSIZE, false)
  else if io_out_len i + len <=? Z.of_nat (List.length (io_out i)) then
    Done (set_io laoa (LaoRpcIo (io_in i) (io_in_len i) (write_at (io_out i) (Z.to_nat (io_out_len i)) data)
                        (to_u64 (io_out_len i + len))), true)
  else Ub.

(** The cases that are the same in both callbacks. *)
Definition common_event (w : lws_world) (laoa : libteep_async) (reason : lws_callback_reasons)
    : outcome (lws_world * libteep_async * Z) :=
  match reason with
  | LWS_CALLBACK_CLIENT_CONNECTION_ERROR => dummy w (set_result laoa TR_FAIL_CONN_ERR) reason
  | LWS_CALLBACK_CLOSED_CLIENT_HTTP =>
      dummy w (if decide (result laoa = TR_ONGOING) then set_result laoa TR_FAIL_CLOSED else laoa) reason
  | LWS_CALLBACK_COMPLETED_CLIENT_HTTP => dummy w (set_result laoa TR_OKAY) reason
  | LWS_CALLBACK_RECEIVE_CLIENT_HTTP_READ data =>
      '(laoa, ok) ← receive_read laoa data;
      if ok : bool then dummy w laoa reason else Done (w, laoa, -1)
  | LWS_CALLBACK_RECEIVE_CLIENT_HTTP =>
      '(w, laoa, ret) ← read (lws_http_client_read w 1024) laoa;
      Done (w, laoa, if ret <? 0 then -1 else 0)
  | LWS_CALLBACK_CLIENT_HTTP_WRITEABLE =>
      let '(w, ret) := lws_write w (take (Z.to_nat (io_in_len (io laoa))) (io_in (io laoa))) in
      if ret <? 0 then Done (w, laoa, -1)
      else dummy (lws_client_http_body_pending w 0) laoa reason
  | _ => dummy w laoa reason
  end.

Definition media_type : list byte := bytes_of_string "application/teep+cbor"%string.

(** The headers of a message, in the order they are added; [None] is an error. *)
Definition append_headers (w : lws_world) (in_len : Z) : lws_world * bool :=
  let '(w, ret) := lws_add_http_header_by_name w (bytes_of_string "Accept:"%string) media_type in
  if negb (ret =? 0) then (w, false)
  else
    let buf_len := bytes_of_string (pretty (to_int in_len)) in
    let '(w, ret) := lws_add_http_header_by_token w WSI_TOKEN_HTTP_CONTENT_LENGTH buf_len in
    if negb (ret =? 0) then (w, false)
    else
      let '(w, ret) := lws_add_http_header_by_token w WSI_TOKEN_HTTP_CONTENT_TYPE media_type in
      if negb (ret =? 0) then (w, false)
      else (lws_callback_on_writable (lws_client_http_body_pending w 1), true).

Definition callback_teep : callback := fun w laoa reason =>
  match reason with
  | LWS_CALLBACK_ESTABLISHED_CLIENT_HTTP =>
      let laoa := set_http_resp laoa (lws_http_client_http_response w) in
      if http_resp laoa =? 204 then Done (w, set_result laoa TR_OKAY, 0) else dummy w laoa reason
  | LWS_CALLBACK_CLIENT_APPEND_HANDSHAKE_HEADER =>
      match append_headers w (io_in_len (io laoa)) with
      | (w, false) => Done (w, laoa, -1)
      | (w, true) => dummy w laoa reason
      end
  | _ => common_event w laoa reason
  end.

Definition callback_download_ta_image : callback := fun w laoa reason =>
  match reason with
  | LWS_CALLBACK_ESTABLISHED_CLIENT_HTTP =>
      let laoa := set_http_resp laoa (lws_http_client_http_response w) in
      if negb (http_resp laoa =? 200) then Done (w, set_result laoa TR_FAIL_REFUSED, -1)
      else dummy w laoa reason
  | _ => common_event w laoa reason
  end.
End callbacks.

(** A call of the library with callbacks, nested ones included. *)
Fixpoint lws_run (cb : (lws_world → libteep_async → outcome (lws_world * libteep_async * Z)) → callback)
    (fuel : nat) (w : lws_world) (laoa : libteep_async) : outcome (lws_world * libteep_async * Z) :=
  match fuel with
  | O => NoFuel
  | S fuel =>
      match lws_step w with
      | Returned w ret => Done (w, laoa, ret)
      | Calls reason w =>
          '(w, laoa, ret) ← cb (lws_run cb fuel) w laoa reason;
          lws_run cb fuel (lws_callback_return w ret) laoa
      end
  end.

(** ** Requests *)

Record lws_protocols := Protocol {
  protocol_name : list byte;
  protocol_callback : (lws_world → libteep_async → outcome (lws_world * libteep_async * Z)) → callback
}.

Definition protocols_teep : lws_protocols := Protocol (bytes_of_string "teep"%string) callback_teep.
Definition protocols_download : lws_protocols :=
  Protocol (bytes_of_string "download_ta_image"%string) callback_download_ta_image.

(** [strncpy] of the C library: the string, filled up with NULs. *)
Definition padded_copy (src : list byte) (n : nat) : list byte := take n (src ++ replicate n x00).

(** The local arrays. *)
Definition tmp_url (url : list byte) : list byte := padded_copy url 200.
Definition path_array (path_slash_dropped : list byte) : list byte :=
  x2f :: padded_copy path_slash_dropped 199.

(** [while (!lws_service(lws_ctx, 1000) && laoa->result == TR_ONGOING)]. *)
Fixpoint service_loop (cb : (lws_world → libteep_async → outcome (lws_world * libteep_async * Z)) → callback)
    (fuel rounds : nat) (ctx : lws_context) (w : lws_world) (laoa : libteep_async)
    : outcome (lws_world * libteep_async) :=
  match rounds with
  | O => NoFuel
  | S rounds =>
      '(w, laoa, ret) ← lws_run cb fuel (lws_service w ctx 1000) laoa;
      if (ret =? 0) && bool_decide (result laoa = TR_ONGOING) then service_loop cb fuel rounds ctx w laoa
      else Done (w, laoa)
  end.

Variable sizeof_laoa : Z.
Variable fuel : nat.

(** The library and the heap of the broker. *)
Definition http_state : Type := lws_world * heap.

Definition ssl_connection (proto : list byte) : option Z :=
  if bool_decide (proto = bytes_of_string "https"%string)
  then Some (Z.lor (Z.lor LCCSCF_USE_SSL LCCSCF_ALLOW_SELFSIGNED) LCCSCF_SKIP_SERVER_CERT_HOSTNAME_CHECK)
  else if bool_decide (proto = bytes_of_string "http"%string) then Some 0 else None.

(** The text that [http_get] and [http_post] share: the result, [out] and
    [*out_len].  Neither the context nor [laoa] is given back. *)
Definition http_request (method : list byte) (protocol : lws_protocols) (st : http_state)
    (url data out : list byte) (out_len : Z) : outcome (http_state * Z * list byte * Z) :=
  let '(w, h) := st in
  let '(w, lws_ctx) := lws_create_context w in
  match lws_ctx with
  | None => Done ((w, h), -1, out, out_len)
  | Some lws_ctx =>
      match cstr (tmp_url url) with
      | None => Ub
      | Some uri =>
          match lws_parse_uri uri with
          | None => Done ((w, h), -1, out, out_len)
          | Some u =>
              let '(h, laoa) := malloc h sizeof_laoa in
              match laoa with
              | None => Done ((w, h), -1, out, out_len)
              | Some _ =>
                  let laoa := LibteepAsync (LaoRpcIo data (Z.of_nat (List.length data)) out 0) out_len 0 TR_OKAY in
                  match ssl_connection (pu_proto u) with
                  | None => Done ((w, h), -1, out, out_len)
                  | Some ssl =>
                      match cstr (path_array (pu_path u)) with
                      | None => Ub
                      | Some path =>
                          let conn_info := ConnectInfo lws_ctx (pu_address u) (pu_port u)
                            (bytes_of_string "http/1.1"%string) path (bytes_of_string "example.com"%string)
                            (bytes_of_string "192.168.11.3"%string) method (protocol_name protocol) ssl in
                          '(w, laoa, wsi) ← lws_run (protocol_callback protocol) fuel
                                              (lws_client_connect_via_info w conn_info) laoa;
                          if wsi =? 0 then Done ((w, h), -1, io_out (io laoa), out_len)
                          else
                            '(w, laoa) ← service_loop (protocol_callback protocol) fuel fuel lws_ctx w
                                           (set_result laoa TR_ONGOING);
                            if tam_result_value (result laoa) <? 0
                            then Done ((w, h), tam_result_value (result laoa), io_out (io laoa), out_len)
                            else Done ((w, h), 0, io_out (io laoa), io_out_len (io laoa))
                      end
                  end
              end
          end
      end
  end.

Definition http_get (st : http_state) (url out : list byte) (out_len : Z) :=
  http_request (bytes_of_string "GET"%string) protocols_download st url [] out out_len.

Definition http_post (st : http_state) (url data out : list byte) (out_len : Z) :=
  http_request (bytes_of_string "POST"%string) protocols_teep st url data out out_len.
End http.
