(* ===== verification/HttpFacts.v ===== *)
(** * HttpFacts: what a request relies on, and its invariant

    The laws of libwebsockets describe the life of one connection as an automaton:
    a connection is established once, delivers the body of the response piece by
    piece, is completed or not, and is closed; after a callback that returns an
    error nothing more is delivered; and the library gives up on a peer that is
    silent, so every request ends.  The invariant ties the state of a request to
    the connection. *)

From Stdlib Require Import Strings.String.
From S2P Require Import Prelude Tcbor TeepMessage TeepMessageFacts Tools ToolsTheorems Http.

Local Open Scope Z_scope.

(** ** Connections *)

Record connection := Connection {
  connecting : bool;           (** still inside [lws_client_connect_via_info] *)
  established : option Z;      (** the status of the response *)
  body : list byte;            (** what was delivered of the response *)
  completed : bool;
  closed : bool;               (** closed, or the connection failed *)
  refused : bool               (** a callback returned an error *)
}.

Definition new_connection : connection := Connection true None [] false false false.
Definition connect_over (c : connection) : connection :=
  Connection false (established c) (body c) (completed c) (closed c) (refused c).
Definition refuse (c : connection) : connection :=
  Connection (connecting c) (established c) (body c) (completed c) (closed c) true.
Definition close (c : connection) : connection :=
  Connection (connecting c) (established c) (body c) (completed c) true (refused c).

Definition over (c : connection) : bool := completed c || closed c.
(** Something can still arrive. *)
Definition live (c : connection) : bool :=
  negb (connecting c) && negb (completed c) && negb (closed c) && negb (refused c).

(** The events that can come, and what they do; [status] is the one of the response. *)
Definition conn_event (status : Z) (c : connection) (e : lws_callback_reasons) : option connection :=
  match e with
  | LWS_CALLBACK_CLIENT_CONNECTION_ERROR => if completed c then None else Some (close c)
  | LWS_CALLBACK_CLOSED_CLIENT_HTTP => Some (close c)
  | LWS_CALLBACK_ESTABLISHED_CLIENT_HTTP =>
      if live c && bool_decide (established c = None)
      then Some (Connection (connecting c) (Some status) (body c) (completed c) (closed c) (refused c))
      else None
  | LWS_CALLBACK_RECEIVE_CLIENT_HTTP_READ data =>
      if live c && bool_decide (established c ≠ None)
      then Some (Connection (connecting c) (established c) (body c ++ data) (completed c) (closed c) (refused c))
      else None
  | LWS_CALLBACK_COMPLETED_CLIENT_HTTP =>
      if live c && bool_decide (established c ≠ None)
      then Some (Connection (connecting c) (established c) (body c) true (closed c) (refused c))
      else None
  | _ => Some c
  end.

(** What a call that returns at once does not change. *)
Class lws_laws `{lws_api} := {
  lws_conn : lws_world → connection;
  (** A bound on what the library still does on its own before the connection is
      over: the callbacks of one call, and the calls of [lws_service] until its
      timeouts. *)
  lws_patience : lws_world → nat;
  lws_patience_max : nat;
  lws_step_event : ∀ w e w', lws_step w = Calls e w' →
    conn_event (lws_http_client_http_response w') (lws_conn w) e = Some (lws_conn w') ∧
    (lws_patience w' < lws_patience w)%nat ∧
    (∀ data, e = LWS_CALLBACK_RECEIVE_CLIENT_HTTP_READ data → Z.of_nat (List.length data) <= PTRDIFF_MAX);
  lws_step_return : ∀ w w' ret, lws_step w = Returned w' ret →
    lws_conn w' = lws_conn w ∧ (lws_patience w' ≤ lws_patience w)%nat ∧
    (over (lws_conn w) = true ∨ (lws_patience w' < lws_patience w)%nat) ∧
    (connecting (lws_conn w) = true → over (lws_conn w) = true → ret = 0);
  lws_return_conn : ∀ w ret,
    lws_conn (lws_callback_return w ret) = (if ret =? 0 then lws_conn w else refuse (lws_conn w)) ∧
    (lws_patience (lws_callback_return w ret) ≤ lws_patience w)%nat;
  lws_connect_conn : ∀ w info, lws_conn (lws_client_connect_via_info w info) = new_connection ∧
    (lws_patience (lws_client_connect_via_info w info) ≤ lws_patience_max)%nat;
  lws_service_conn : ∀ w ctx t, lws_conn (lws_service w ctx t) = connect_over (lws_conn w) ∧
    (lws_patience (lws_service w ctx t) ≤ lws_patience w)%nat;
  lws_read_conn : ∀ w n, lws_conn (lws_http_client_read w n) = lws_conn w ∧
    (lws_patience (lws_http_client_read w n) ≤ lws_patience w)%nat;
  lws_by_name_conn : ∀ w n v, lws_conn (lws_add_http_header_by_name w n v).1 = lws_conn w ∧
    (lws_patience (lws_add_http_header_by_name w n v).1 ≤ lws_patience w)%nat;
  lws_by_token_conn : ∀ w t v, lws_conn (lws_add_http_header_by_token w t v).1 = lws_conn w ∧
    (lws_patience (lws_add_http_header_by_token w t v).1 ≤ lws_patience w)%nat;
  lws_pending_conn : ∀ w b, lws_conn (lws_client_http_body_pending w b) = lws_conn w ∧
    (lws_patience (lws_client_http_body_pending w b) ≤ lws_patience w)%nat;
  lws_writable_conn : ∀ w, lws_conn (lws_callback_on_writable w) = lws_conn w ∧
    (lws_patience (lws_callback_on_writable w) ≤ lws_patience w)%nat;
  lws_write_conn : ∀ w data, lws_conn (lws_write w data).1 = lws_conn w ∧
    (lws_patience (lws_write w data).1 ≤ lws_patience w)%nat;
  lws_dummy_conn : ∀ w e, lws_conn (lws_callback_http_dummy w e).1 = lws_conn w ∧
    (lws_patience (lws_callback_http_dummy w e).1 ≤ lws_patience w)%nat;
  (** The path of a URI is shorter than the URI, and a string. *)
  lws_uri_path : ∀ uri u, lws_parse_uri uri = Some u →
    (List.length (pu_path u) ≤ 1 ∨ List.length (pu_path u) < List.length uri)%nat ∧ x00 ∉ pu_path u
}.

(** Same connection, and no more to do than before. *)
Definition same_conn `{lws_laws} (w w' : lws_world) : Prop :=
  lws_conn w' = lws_conn w ∧ (lws_patience w' ≤ lws_patience w)%nat.

#[export] Hint Resolve lws_read_conn lws_by_name_conn lws_by_token_conn lws_pending_conn
  lws_writable_conn lws_write_conn lws_dummy_conn : c_ok.

Section runs.
Context `{Hlws : lws_api, !lws_laws}.

#[export] Instance same_conn_preorder : PreOrder same_conn.
Proof.
  split; [by intros w; split|]. intros w1 w2 w3 [H1 ?] [H2 ?]. split; [by rewrite H2|lia].
Qed.

(** ** Calls with callbacks

    [I] relates the request to the connection.  A callback keeps it, with the
    connection as it is after the return of the callback. *)

Section invariant.
Variable I : libteep_async → connection → Prop.

Definition returned (w : lws_world) (ret : Z) : connection :=
  if ret =? 0 then lws_conn w else refuse (lws_conn w).

(** What a run from [w] ensures. *)
Definition run_post (w : lws_world) (res : lws_world * libteep_async * Z) : Prop :=
  let '(w', laoa', ret) := res in
  I laoa' (lws_conn w') ∧ (lws_patience w' ≤ lws_patience w)%nat ∧
  (over (lws_conn w') = true ∨ (lws_patience w' < lws_patience w)%nat) ∧
  connecting (lws_conn w') = connecting (lws_conn w) ∧
  (connecting (lws_conn w) = true → over (lws_conn w') = true → ret = 0).

Definition reads (n : nat) (read : lws_world → libteep_async → outcome (lws_world * libteep_async * Z)) : Prop :=
  ∀ w laoa, (lws_patience w ≤ n)%nat → I laoa (lws_conn w) → wp (read w laoa) (run_post w).

Definition callback_ok
    (cb : (lws_world → libteep_async → outcome (lws_world * libteep_async * Z)) → callback) : Prop :=
  ∀ read w laoa e c,
    reads (lws_patience w) read → conn_event (lws_http_client_http_response w) c e = Some (lws_conn w) →
    (∀ data, e = LWS_CALLBACK_RECEIVE_CLIENT_HTTP_READ data → Z.of_nat (List.length data) <= PTRDIFF_MAX) →
    I laoa c →
    wp (cb read w laoa e) (fun '(w', laoa', ret) =>
      I laoa' (returned w' ret) ∧ (lws_patience w' ≤ lws_patience w)%nat ∧
      connecting (lws_conn w') = connecting (lws_conn w)).

Lemma conn_event_connecting status c e c' : conn_event status c e = Some c' → connecting c' = connecting c.
Proof. destruct e; cbn; repeat case_match; by intros [= <-]. Qed.

Lemma run_spec cb fuel : callback_ok cb → ∀ w laoa,
  (lws_patience w < fuel)%nat → I laoa (lws_conn w) → wp (lws_run cb fuel w laoa) (run_post w).
Proof.
  intros Hcb. induction fuel as [|fuel IH]; intros w laoa Hf HI; [lia|]. cbn.
  destruct (lws_step w) as [e w1|w1 ret] eqn:Hstep.
  - destruct (lws_step_event _ _ _ Hstep) as (Hc&Hp&Hd).
    apply wp_bind. eapply wp_mono.
    { eapply (Hcb _ w1 laoa e); [|exact Hc|exact Hd|exact HI]. intros w2 laoa2 Hle. apply IH. lia. }
    intros [[w2 laoa2] ret2] (HI2&Hp2&Hcon2).
    destruct (lws_return_conn w2 ret2) as [Hrc Hrp].
    eapply wp_mono; [apply IH; [lia|by rewrite Hrc]|]. intros [[w3 laoa3] ret3] (HI3&Hp3&Hov&Hcon3&Hret).
    assert (connecting (lws_conn (lws_callback_return w2 ret2)) = connecting (lws_conn w)) as Hcon.
    { rewrite Hrc. transitivity (connecting (lws_conn w2)); [by case_match|].
      rewrite Hcon2. by eapply conn_event_connecting. }
    rewrite Hcon in Hcon3, Hret. split_and!; [done|lia|right; lia|done|done].
  - destruct (lws_step_return _ _ _ Hstep) as (Hc&Hp&Hov&Hret). cbn. rewrite Hc.
    by split_and!.
Qed.

(** ** Callbacks *)

Definition callback_post (w : lws_world) (res : lws_world * libteep_async * Z) : Prop :=
  let '(w', laoa', ret) := res in
  I laoa' (returned w' ret) ∧ (lws_patience w' ≤ lws_patience w)%nat ∧
  connecting (lws_conn w') = connecting (lws_conn w).

(** An error of a callback does not break the invariant, and the events keep it. *)
Class event_laws := {
  I_refuse : ∀ laoa c, I laoa c → I laoa (refuse c);
  I_conn_error : ∀ laoa c, I laoa c → completed c = false → I (set_result laoa TR_FAIL_CONN_ERR) (close c);
  I_closed : ∀ laoa c, I laoa c →
    I (if decide (result laoa = TR_ONGOING) then set_result laoa TR_FAIL_CLOSED else laoa) (close c);
  I_completed : ∀ laoa c, I laoa c → live c = true → established c ≠ None →
    I (set_result laoa TR_OKAY) (Connection (connecting c) (established c) (body c) true (closed c) (refused c));
  I_read : ∀ laoa c data, I laoa c → live c = true → established c ≠ None →
    Z.of_nat (List.length data) <= PTRDIFF_MAX →
    let c' := Connection (connecting c) (established c) (body c ++ data) (completed c) (closed c) (refused c) in
    wp (receive_read laoa data) (fun '(laoa', ok) => I laoa' (if ok : bool then c' else refuse c'))
}.

Context {Hevents : event_laws}.

Lemma done_ok w w' laoa ret :
  same_conn w w' → I laoa (lws_conn w) → wp (Done (w', laoa, ret)) (callback_post w).
Proof.
  intros [Hc Hp] HI. cbn. unfold returned. rewrite Hc. split_and!; try done.
  case_match; [done|]. by apply I_refuse.
Qed.

Lemma dummy_ok w w' laoa e :
  same_conn w w' → I laoa (lws_conn w) → wp (dummy w' laoa e) (callback_post w).
Proof.
  intros Hc HI. unfold dummy. pose proof (lws_dummy_conn w' e) as Hd.
  destruct (lws_callback_http_dummy w' e) as [w'' ret]. apply done_ok; [|done].
  etrans; [exact Hc|exact Hd].
Qed.

Lemma headers_ok w n : same_conn w (append_headers w n).1.
Proof.
  unfold append_headers. pose proof (lws_by_name_conn w (bytes_of_string "Accept:"%string) media_type) as Hn1.
  destruct (lws_add_http_header_by_name _ _ _) as [w1 r1]. cbn in Hn1. case_match; [done|].
  set (len := bytes_of_string _). pose proof (lws_by_token_conn w1 WSI_TOKEN_HTTP_CONTENT_LENGTH len) as Hn2.
  destruct (lws_add_http_header_by_token _ _ _) as [w2 r2]. cbn in Hn2. case_match; [by etrans|].
  pose proof (lws_by_token_conn w2 WSI_TOKEN_HTTP_CONTENT_TYPE media_type) as Hn3.
  destruct (lws_add_http_header_by_token _ _ _) as [w3 r3]. cbn in Hn3.
  assert (same_conn w w3) as Hw3 by (etrans; [exact Hn1|]; by etrans). case_match; [done|]. cbn.
  etrans; [exact Hw3|]. etrans; [apply lws_pending_conn|apply lws_writable_conn].
Qed.

Lemma common_event_ok read w laoa e c :
  reads (lws_patience w) read → conn_event (lws_http_client_http_response w) c e = Some (lws_conn w) →
  (∀ data, e = LWS_CALLBACK_RECEIVE_CLIENT_HTTP_READ data → Z.of_nat (List.length data) <= PTRDIFF_MAX) →
  I laoa c → e ≠ LWS_CALLBACK_ESTABLISHED_CLIENT_HTTP →
  wp (common_event read w laoa e) (callback_post w).
Proof.
  intros Hread Hc Hd HI He. destruct e; cbn in Hc |- *; try done.
  - destruct (completed c) eqn:Hcomp; [done|]. injection Hc as Hc.
    apply dummy_ok; [done|]. rewrite <-Hc. by apply I_conn_error.
  - injection Hc as Hc. apply dummy_ok; [done|]. rewrite <-Hc. by apply I_closed.
  - injection Hc as Hc. apply dummy_ok; [done|]. by rewrite <-Hc.
  - destruct (live c) eqn:Hlive; [|done]. case_bool_decide as Hest; [|done]. injection Hc as Hc.
    apply dummy_ok; [done|]. rewrite <-Hc. by apply I_completed.
  - destruct (live c) eqn:Hlive; [|done]. case_bool_decide as Hest; [|done]. injection Hc as Hc.
    apply wp_bind. eapply wp_mono; [by apply (I_read laoa c data); auto|]. intros [laoa' ok] HI'. cbn in HI'.
    rewrite Hc in HI'. destruct ok; [by apply dummy_ok|]. cbn. by unfold returned.
  - injection Hc as Hc. destruct (lws_read_conn w 1024) as [Hrc Hrp]. apply wp_bind.
    eapply wp_mono; [apply (Hread _ laoa Hrp); by rewrite Hrc, <-Hc|].
    intros [[w' laoa'] ret] (HI'&Hp&_&Hcon&_). cbn. rewrite Hrc in Hcon. split_and!; [|lia|done].
    unfold returned. case_match; case_match; try done. by apply I_refuse.
  - injection Hc as Hc. rewrite Hc in HI. set (bytes := take _ _). pose proof (lws_write_conn w bytes) as Hw.
    destruct (lws_write w bytes) as [w' ret]. cbn in Hw. case_match; [by apply done_ok|].
    apply dummy_ok; [|done]. etrans; [exact Hw|apply lws_pending_conn].
  - injection Hc as Hc. apply dummy_ok; [done|]. by rewrite <-Hc.
Qed.

(** The two callbacks, up to the event that differs. *)
Lemma callback_teep_ok :
  (∀ w laoa c, conn_event (lws_http_client_http_response w) c LWS_CALLBACK_ESTABLISHED_CLIENT_HTTP = Some (lws_conn w) →
     I laoa c →
     let resp := lws_http_client_http_response w in
     let laoa' := set_http_resp laoa resp in
     I (if resp =? 204 then set_result laoa' TR_OKAY else laoa') (lws_conn w)) →
  callback_ok callback_teep.
Proof.
  intros Hest read w laoa e c Hread Hc Hd HI.
  destruct e; cbn [callback_teep]; try (by apply (common_event_ok read w laoa _ c)).
  - specialize (Hest w laoa c Hc HI). cbn in Hest. unfold http_resp at 1. cbn [set_http_resp].
    case_match; [by apply done_ok|by apply dummy_ok].
  - cbn in Hc. injection Hc as Hc. rewrite Hc in HI.
    pose proof (headers_ok w (io_in_len (io laoa))) as Hh. destruct (append_headers _ _) as [w' []];
      [by apply dummy_ok|by apply done_ok].
Qed.

Lemma callback_download_ok :
  (∀ w laoa c, conn_event (lws_http_client_http_response w) c LWS_CALLBACK_ESTABLISHED_CLIENT_HTTP = Some (lws_conn w) →
     I laoa c →
     let resp := lws_http_client_http_response w in
     let laoa' := set_http_resp laoa resp in
     if resp =? 200 then I laoa' (lws_conn w) else I (set_result laoa' TR_FAIL_REFUSED) (refuse (lws_conn w))) →
  callback_ok callback_download_ta_image.
Proof.
  intros Hest read w laoa e c Hread Hc Hd HI.
  destruct e; cbn [callback_download_ta_image]; try (by apply (common_event_ok read w laoa _ c)).
  specialize (Hest w laoa c Hc HI). cbn in Hest. unfold http_resp at 1. cbn [set_http_resp].
  destruct (Z.eqb_spec (lws_http_client_http_response w) 200); cbn [negb]; [by apply dummy_ok|].
  cbn. by unfold returned.
Qed.
End invariant.
End runs.
