(* ===== verification/HttpTheorems.v ===== *)
(** * HttpTheorems: what a request returns

    A request never leaves its buffers and ends; an answer is the body of the
    response, complete unless the library failed; and the two functions implement
    what the broker relies on. *)

From Stdlib Require Import Strings.String.
From S2P Require Import Prelude Tcbor TeepMessage TeepMessageFacts TeepMessageTheorems Tools ToolsTheorems Http HttpFacts.

Local Open Scope Z_scope.
Local Abbreviation length := List.length.

(** ** Strings *)

Lemma cstr_short (p : list byte) i : p !! i = Some x00 → ∃ s, cstr p = Some s ∧ (length s ≤ i)%nat.
Proof.
  revert i. induction p as [|c p IH]; intros i Hi; [done|]. cbn. case_bool_decide as Hc.
  - exists []. cbn. split; [done|lia].
  - destruct i as [|i]; [cbn in Hi; congruence|]. destruct (IH i Hi) as (s&->&Hs). exists (c :: s). cbn. split; [done|lia].
Qed.

Lemma padded_copy_cstr src n :
  (length src < n)%nat → ∃ s, cstr (padded_copy src n) = Some s ∧ (length s ≤ length src)%nat.
Proof.
  intros Hn. apply cstr_short. unfold padded_copy. rewrite lookup_take_lt by done.
  rewrite lookup_app_r by done. by rewrite Nat.sub_diag, lookup_replicate_2 by lia.
Qed.

Section requests.
Context `{Hlws : lws_api, !lws_laws, Hal : allocator}.

(** ** The connection phase *)

Definition connect_inv (laoa0 laoa : libteep_async) (c : connection) : Prop :=
  connecting c = true ∧ established c = None ∧ body c = [] ∧ completed c = false ∧
  laoa = set_result laoa0 (result laoa).

Lemma connecting_dead c : connecting c = true → live c = false.
Proof. unfold live. by intros ->. Qed.

Lemma connect_events laoa0 : event_laws (connect_inv laoa0).
Proof.
  split.
  - by intros laoa c (?&?&?&?&?).
  - intros laoa c (?&?&?&?&->) _. done.
  - intros laoa c (?&?&?&?&Hl). split_and!; try done. case_decide; [|done]. by rewrite Hl.
  - intros laoa c (Hc&_) Hlive. by rewrite (connecting_dead _ Hc) in Hlive.
  - intros laoa c data (Hc&_) Hlive. by rewrite (connecting_dead _ Hc) in Hlive.
Qed.

Lemma connect_teep laoa0 : callback_ok (connect_inv laoa0) callback_teep.
Proof.
  apply callback_teep_ok; [apply connect_events|]. intros w laoa c Hc (Hcon&_). cbn in Hc.
  by rewrite (connecting_dead _ Hcon) in Hc.
Qed.

Lemma connect_download laoa0 : callback_ok (connect_inv laoa0) callback_download_ta_image.
Proof.
  apply callback_download_ok; [apply connect_events|]. intros w laoa c Hc (Hcon&_). cbn in Hc.
  by rewrite (connecting_dead _ Hcon) in Hc.
Qed.

(** ** The exchange *)

Section exchange.
(** The responses that are accepted, and those that are at once. *)
Variables accepts early : Z → Prop.
Variable out0 : list byte.
Variable max : Z.
Hypothesis Hmax : 0 <= max <= Z.of_nat (length out0).
Hypothesis Hptr : Z.of_nat (length out0) <= PTRDIFF_MAX.

Definition result_means (r : tam_result) (c : connection) : Prop :=
  match r with
  | TR_ONGOING =>
      (∀ status, established c = Some status → accepts status ∧ ¬ early status) ∧ over c = false
  | TR_OKAY => ∃ status, established c = Some status ∧ (completed c = true ∧ accepts status ∨ early status)
  | TR_FAIL_START => False
  | TR_FAIL_CONN_ERR => closed c = true
  | TR_FAIL_REFUSED => ∃ status, established c = Some status ∧ ¬ accepts status
  | TR_FAIL_OVERSIZE => max < Z.of_nat (length (body c))
  | TR_FAIL_CLOSED => closed c = true ∧ completed c = false
  end.

Record request_inv (laoa : libteep_async) (c : connection) : Prop := {
  ri_connecting : connecting c = false;
  ri_max : max_out_len laoa = max;
  ri_out : length (io_out (io laoa)) = length out0;
  ri_len : 0 <= io_out_len (io laoa) <= max;
  ri_rest : drop (Z.to_nat (io_out_len (io laoa))) (io_out (io laoa)) =
            drop (Z.to_nat (io_out_len (io laoa))) out0;
  ri_body : 0 <= tam_result_value (result laoa) →
            take (Z.to_nat (io_out_len (io laoa))) (io_out (io laoa)) = body c;
  ri_result : result_means (result laoa) c;
  ri_dead : tam_result_value (result laoa) < 0 → live c = false
}.

Lemma live_result laoa c : request_inv laoa c → live c = true → 0 <= tam_result_value (result laoa).
Proof.
  intros Hi Hl. destruct (Z_lt_le_dec (tam_result_value (result laoa)) 0) as [Hr|]; [|done].
  by rewrite (ri_dead _ _ Hi Hr) in Hl.
Qed.

Lemma live_over c : live c = true → completed c = false ∧ closed c = false ∧ over c = false.
Proof. unfold live, over. destruct (completed c), (closed c); cbn; rewrite ?andb_false_r; naive_solver. Qed.

Lemma request_refuse laoa c : request_inv laoa c → request_inv laoa (refuse c).
Proof.
  intros []. split; try done. intros _. unfold live. cbn. by rewrite andb_false_r.
Qed.

(** A result that is an error, of a connection that is dead. *)
Lemma request_fails laoa c c' r :
  request_inv laoa c → connecting c' = false → tam_result_value r < 0 → live c' = false → result_means r c' →
  request_inv (set_result laoa r) c'.
Proof. intros [] Hcon Hr Hl Hm. split; try done. cbn. lia. Qed.

Lemma close_dead c : live (close c) = false.
Proof. unfold live. cbn. by rewrite andb_false_r. Qed.

Lemma request_events : event_laws request_inv.
Proof.
  split.
  - exact request_refuse.
  - intros laoa c Hi _. apply (request_fails laoa c); [done|apply Hi|done|apply close_dead|done].
  - intros laoa c Hi. case_decide as Hr.
    + pose proof (ri_result _ _ Hi) as Hm. rewrite Hr in Hm. destruct Hm as [_ Hover].
      apply (request_fails laoa c); [done|apply Hi|done|apply close_dead|].
      split; [done|]. unfold over in Hover. cbn. by destruct (completed c).
    + destruct Hi as [? ? ? ? ? ? Hm ?]. split; try done; [|intros _; apply close_dead].
      destruct (result laoa); try done. by destruct Hm.
  - intros laoa c Hi Hlive Hest. pose proof (live_result _ _ Hi Hlive) as Hr.
    destruct (live_over c Hlive) as (Hcomp&Hcl&_). pose proof (ri_result _ _ Hi) as Hm.
    assert (∃ status, established c = Some status ∧ (accepts status ∨ early status)) as (status&Hs&Ha).
    { destruct (established c) as [status|] eqn:Hs; [|done]. exists status. split; [done|].
      destruct (result laoa); cbn in Hr, Hm; try lia.
      - left. by apply Hm.
      - destruct Hm as (s&Hs'&[[? _]|?]); [congruence|]. right. congruence. }
    destruct Hi. split; try done; cbn.
    + by intros _; apply ri_body0.
    + exists status. split; [done|]. destruct Ha; [by left|by right].
  - intros laoa c data Hi Hlive Hest Hd c'. unfold receive_read. destruct Hi as [Hcon Hm Ho Hl Hrest Hb Hres Hdead].
    pose proof (live_result laoa c (Build_request_inv laoa c Hcon Hm Ho Hl Hrest Hb Hres Hdead) Hlive) as Hr.
    specialize (Hb Hr). set (i := io laoa) in *.
    rewrite to_u64_small by (unfold u64_modulus, PTRDIFF_MAX in *; lia). rewrite Hm.
    destruct (Z.ltb_spec max (io_out_len i + Z.of_nat (length data))) as [Hbig|Hfit].
    + cbn. split; try done; cbn.
      * rewrite <-Hb, length_app, length_take. fold i. lia.
      * intros _. unfold live. cbn. by rewrite andb_false_r.
    + destruct (Z.leb_spec (io_out_len i + Z.of_nat (length data)) (Z.of_nat (length (io_out i)))); [|lia].
      cbn. assert (Z.to_nat (io_out_len i + Z.of_nat (length data)) =
        (Z.to_nat (io_out_len i) + length data)%nat) as Hn by lia.
      split; cbn; try done; rewrite ?Hn.
      * rewrite write_at_length; [done|lia].
      * lia.
      * rewrite write_at_drop by lia. rewrite <-!drop_drop. by rewrite Hrest.
      * intros _. rewrite write_at_take by lia. by rewrite Hb.
      * destruct (result laoa); cbn in *; try done; try lia.
Qed.

(** Servicing ends, and keeps the invariant. *)
Lemma service_loop_spec cb fuel rounds ctx w laoa :
  callback_ok request_inv cb → (lws_patience w < rounds)%nat → (lws_patience w < fuel)%nat →
  request_inv laoa (connect_over (lws_conn w)) →
  wp (service_loop cb fuel rounds ctx w laoa) (fun '(w', laoa') => request_inv laoa' (lws_conn w')).
Proof.
  intros Hcb. revert w laoa. induction rounds as [|rounds IH]; intros w laoa Hrounds Hf Hi; [lia|]. cbn.
  destruct (lws_service_conn w ctx 1000) as [Hsc Hsp]. apply wp_bind.
  eapply wp_mono; [apply (run_spec request_inv cb fuel Hcb); [lia|by rewrite Hsc]|].
  intros [[w1 laoa1] ret] (Hi1&Hp1&Hov&_). destruct (ret =? 0) eqn:Hret; cbn; [|done].
  case_bool_decide as Hr; [|done]. pose proof (ri_result _ _ Hi1) as Hm. rewrite Hr in Hm. destruct Hm as [_ Hm].
  destruct Hov as [Hov|Hlt]; [congruence|]. apply IH; [lia|lia|].
  pose proof (ri_connecting _ _ Hi1) as Hcon. destruct (lws_conn w1); cbn in *. by subst.
Qed.

(** What a request returned, in the state [c] of its connection. *)
Definition request_returns (c : connection) (n : Z) (out' : list byte) (len : Z) : Prop :=
  length out' = length out0 ∧
  if n <? 0 then
    len = max ∧
    (n = -1 ∨
     ∃ r, n = tam_result_value r ∧ result_means r c)
  else
    n = 0 ∧ 0 <= len <= max ∧ take (Z.to_nat len) out' = body c ∧
    drop (Z.to_nat len) out' = drop (Z.to_nat len) out0 ∧
    (over c = false ∨
     ∃ status, established c = Some status ∧ (completed c = true ∧ accepts status ∨ early status)).

(** The events of establishing a response, for both protocols. *)
Lemma established_inv w laoa c :
  conn_event (lws_http_client_http_response w) c LWS_CALLBACK_ESTABLISHED_CLIENT_HTTP = Some (lws_conn w) →
  request_inv laoa c →
  let status := lws_http_client_http_response w in
  established (lws_conn w) = Some status ∧ over (lws_conn w) = false ∧
  ((accepts status ∧ ¬ early status) → request_inv (set_http_resp laoa status) (lws_conn w)) ∧
  (early status → request_inv (set_result (set_http_resp laoa status) TR_OKAY) (lws_conn w)) ∧
  (¬ accepts status → request_inv (set_result (set_http_resp laoa status) TR_FAIL_REFUSED) (refuse (lws_conn w))).
Proof.
  cbn zeta. cbn [conn_event]. destruct (live c) eqn:Hlive; [|done]. case_bool_decide as Hest; [|done].
  cbn. intros [= <-] Hi. pose proof (live_over c Hlive) as (Hcomp&Hcl&Hover).
  pose proof (live_result _ _ Hi Hlive) as Hr. pose proof (ri_result _ _ Hi) as Hm.
  destruct Hi as [Hcon Hmx Ho Hl Hrest Hb _ _]. specialize (Hb Hr).
  assert (result laoa = TR_ONGOING) as Hgo.
  { destruct (result laoa); cbn in Hr; try lia; [done|]. destruct Hm as (s&Hs&_). congruence. }
  split; [done|]. split; [done|]. split; [|split].
  - intros Ha. split; try done; cbn; [|by rewrite Hgo]. rewrite Hgo. split; [|done]. by intros s [= <-].
  - intros He. split; try done; cbn. eexists. split; [done|]. by right.
  - intros Ha. split; try done; cbn; [by eexists|]. intros _. unfold live. cbn. by rewrite andb_false_r.
Qed.

(** A protocol whose callback keeps both invariants. *)
Definition protocol_ok (protocol : lws_protocols) : Prop :=
  (∀ laoa0, callback_ok (connect_inv laoa0) (protocol_callback protocol)) ∧
  callback_ok request_inv (protocol_callback protocol).

Variable sizeof_laoa : Z.
Variable fuel : nat.
Hypothesis Hfuel : (lws_patience_max < fuel)%nat.

Lemma http_request_spec method protocol w h url data frame :
  protocol_ok protocol → (length url < 200)%nat → accounts h [] frame →
  wp (http_request sizeof_laoa fuel method protocol (w, h) url data out0 max) (fun '((w', h'), n, out', len) =>
    request_returns (lws_conn w') n out' len ∧
    ∃ lost, accounts h' [] (lost ++ frame) ∧ (length lost ≤ 1)%nat ∧ (n ≠ -1 → length lost = 1%nat)).
Proof.
  intros [Hconn Hreq] Hurl Hacc. unfold http_request.
  assert (∀ w' h' lost, accounts h' [] (lost ++ frame) → (length lost <=? 1)%nat = true →
    request_returns (lws_conn w') (-1) out0 max ∧
    ∃ lost, accounts h' [] (lost ++ frame) ∧ (length lost ≤ 1)%nat ∧ (-1 ≠ -1 → length lost = 1%nat)) as Hfail.
  { intros w' h' lost Hacc' Hlost%Nat.leb_le. split; [|by exists lost]. split; [done|]. cbn. by auto. }
  destruct (lws_create_context w) as [w1 [ctx|]]; [|by apply (Hfail w1 h [])].
  destruct (padded_copy_cstr url 200 Hurl) as (uri&Huri&Hlen). unfold tmp_url. rewrite Huri.
  destruct (lws_parse_uri uri) as [u|] eqn:Hparse; [|by apply (Hfail w1 h [])].
  pose proof (accounts_malloc h sizeof_laoa [] frame Hacc) as Hm.
  destruct (malloc h sizeof_laoa) as [h1 [block|]]; cbn in Hm; [|by apply (Hfail w1 h1 [])].
  assert (accounts h1 [] ([block] ++ frame)) as Hacc1 by exact Hm.
  destruct (ssl_connection (pu_proto u)) as [ssl|]; [|by apply (Hfail w1 h1 [block])].
  destruct (lws_uri_path _ _ Hparse) as [Hpath _].
  destruct (padded_copy_cstr (pu_path u) 199) as (path&Hcpath&_); [lia|].
  unfold path_array. cbn [cstr]. rewrite bool_decide_false by done. rewrite Hcpath. cbn [fmap option_fmap option_map].
  set (info := ConnectInfo _ _ _ _ _ _ _ _ _ _). set (laoa0 := LibteepAsync _ _ _ _).
  pose proof (lws_connect_conn w1 info) as [Hc Hb2]. set (w2 := lws_client_connect_via_info w1 info) in *.
  apply wp_bind.
  eapply wp_mono; [apply (run_spec _ _ fuel (Hconn laoa0) w2 laoa0); [lia|by rewrite Hc]|].
  intros [[w3 laoa3] wsi] (Hi3&Hb3&_&_&Hret). rewrite Hc in Hret. specialize (Hret eq_refl).
  destruct Hi3 as (Hcon3&Hest3&Hbody3&Hcomp3&Hl3).
  destruct (Z.eqb_spec wsi 0) as [->|Hwsi].
  { rewrite Hl3. by apply (Hfail w3 h1 [block]). }
  assert (over (lws_conn w3) = false) as Hover.
  { destruct (over (lws_conn w3)); [|done]. by specialize (Hret eq_refl). }
  apply wp_bind.
  eapply wp_mono; [apply (service_loop_spec _ fuel fuel ctx w3 _ Hreq); [lia|lia|]|].
  { rewrite Hl3. split; try done; cbn; try lia. split; [|done]. by rewrite Hest3. }
  intros [w4 laoa4] [Hcon Hmx Ho Hl Hrest Hb Hm' _].
  destruct (Z.ltb_spec (tam_result_value (result laoa4)) 0) as [Hneg|Hpos]; cbn.
  - split; [|exists [block]; by split_and!]. split; [done|].
    destruct (Z.ltb_spec (tam_result_value (result laoa4)) 0); [|lia]. split; [done|]. right. by eexists.
  - split; [|exists [block]; by split_and!]. split; [done|]. cbn. split_and!; try done; [lia..|by apply Hb|].
    destruct (result laoa4); cbn in Hpos; try lia; [left; by apply Hm'|by right].
Qed.
End exchange.

(** ** The two functions *)

(** The first alternative that holds. *)
Ltac pick_case := first [left; solve [by auto]|right; pick_case|solve [by auto]].

Variable sizeof_laoa : Z.
Variable fuel : nat.
Hypothesis Hfuel : (lws_patience_max < fuel)%nat.

Lemma download_ok out0 max :
  0 <= max <= Z.of_nat (length out0) → Z.of_nat (length out0) <= PTRDIFF_MAX →
  protocol_ok (eq 200) (fun _ => False) out0 max protocols_download.
Proof.
  intros Hmax Hptr. split; [exact connect_download|].
  apply callback_download_ok; [by apply request_events|]. intros w laoa c Hc Hi. cbn zeta.
  destruct (established_inv _ _ _ _ Hmax w laoa c Hc Hi) as (_&_&Hyes&_&Hno).
  destruct (Z.eqb_spec (lws_http_client_http_response w) 200); [by apply Hyes; auto|by apply Hno; auto].
Qed.

Lemma teep_ok out0 max :
  0 <= max <= Z.of_nat (length out0) → Z.of_nat (length out0) <= PTRDIFF_MAX →
  protocol_ok (fun _ => True) (eq 204) out0 max protocols_teep.
Proof.
  intros Hmax Hptr. split; [exact connect_teep|].
  apply callback_teep_ok; [by apply request_events|]. intros w laoa c Hc Hi. cbn zeta.
  destruct (established_inv _ _ _ _ Hmax w laoa c Hc Hi) as (_&_&Hyes&Hearly&_).
  destruct (Z.eqb_spec (lws_http_client_http_response w) 204); [by apply Hearly|apply Hyes; auto].
Qed.

(** C23: Fetching a component ends and stays in the buffer, whatever the server and
    the network do.  The answer is exactly what the server sent with status 200,
    in full unless the library itself failed; what is too large, refused or cut
    off is an error that says so.  No more than one block is lost. *)
Theorem http_get_correct w h url out max frame :
  (length url < 200)%nat → 0 <= max <= Z.of_nat (length out) → Z.of_nat (length out) <= PTRDIFF_MAX →
  accounts h [] frame →
  wp (http_get sizeof_laoa fuel (w, h) url out max) (fun '((w', h'), n, out', len) =>
    let c := lws_conn w' in
    (length out' = length out ∧
     if n <? 0 then
       len = max ∧
       (n = -1 ∨ n = -2 ∧ closed c = true ∨ n = -3 ∧ (∃ status, established c = Some status ∧ status ≠ 200) ∨
        n = -4 ∧ max < Z.of_nat (length (body c)) ∨ n = -5 ∧ closed c = true ∧ completed c = false)
     else
       n = 0 ∧ 0 <= len <= max ∧ out' = body c ++ drop (length (body c)) out ∧ Z.of_nat (length (body c)) = len ∧
       (completed c = true ∧ established c = Some 200 ∨ over c = false)) ∧
    ∃ lost, accounts h' [] (lost ++ frame) ∧ (length lost ≤ 1)%nat ∧ (n ≠ -1 → length lost = 1%nat)).
Proof.
  intros Hurl Hmax Hptr Hacc. unfold http_get.
  eapply wp_mono; [apply (http_request_spec (eq 200) (fun _ => False)); try done; by apply download_ok|].
  intros [[[[w' h'] n] out'] len] [[Ho Hret] Hlost]. cbn zeta. split; [|done]. split; [done|].
  destruct (n <? 0) eqn:Hn; bool_facts.
  - destruct Hret as (->&Hret). split; [done|]. destruct Hret as [->|(r&->&Hm)]; [by left|].
    destruct r; cbn in *; try lia; try done; try pick_case.
    destruct Hm as (s&Hs&Hne). do 2 right. left. split; [done|]. by exists s.
  - destruct Hret as (->&Hl&Ht&Hd&Hcase). split; [done|]. split; [done|].
    assert (Z.of_nat (length (body (lws_conn w'))) = len) as Hlen by (rewrite <-Ht, length_take; lia).
    split; [|split; [done|]].
    + rewrite <-(take_drop (Z.to_nat len) out') at 1. rewrite Ht, Hd. do 2 f_equal. lia.
    + destruct Hcase as [?|(s&Hs&[[? <-]|[]])]; [by right|by left].
Qed.

(** C24: The same for a message to the TAM, except that the status of the response
    is not looked at unless it is 204: an error page of a server is an answer like
    any other. *)
Theorem http_post_correct w h url data out max frame :
  (length url < 200)%nat → 0 <= max <= Z.of_nat (length out) → Z.of_nat (length out) <= PTRDIFF_MAX →
  accounts h [] frame →
  wp (http_post sizeof_laoa fuel (w, h) url data out max) (fun '((w', h'), n, out', len) =>
    let c := lws_conn w' in
    (length out' = length out ∧
     if n <? 0 then
       len = max ∧
       (n = -1 ∨ n = -2 ∧ closed c = true ∨ n = -4 ∧ max < Z.of_nat (length (body c)) ∨
        n = -5 ∧ closed c = true ∧ completed c = false)
     else
       n = 0 ∧ 0 <= len <= max ∧ out' = body c ++ drop (length (body c)) out ∧ Z.of_nat (length (body c)) = len ∧
       (completed c = true ∧ is_Some (established c) ∨ established c = Some 204 ∨ over c = false)) ∧
    ∃ lost, accounts h' [] (lost ++ frame) ∧ (length lost ≤ 1)%nat ∧ (n ≠ -1 → length lost = 1%nat)).
Proof.
  intros Hurl Hmax Hptr Hacc. unfold http_post.
  eapply wp_mono; [apply (http_request_spec (fun _ => True) (eq 204)); try done; by apply teep_ok|].
  intros [[[[w' h'] n] out'] len] [[Ho Hret] Hlost]. cbn zeta. split; [|done]. split; [done|].
  destruct (n <? 0) eqn:Hn; bool_facts.
  - destruct Hret as (->&Hret). split; [done|]. destruct Hret as [->|(r&->&Hm)]; [by left|].
    destruct r; cbn in *; try lia; try done; try pick_case. by destruct Hm as (s&_&[]).
  - destruct Hret as (->&Hl&Ht&Hd&Hcase). split; [done|]. split; [done|].
    assert (Z.of_nat (length (body (lws_conn w'))) = len) as Hlen by (rewrite <-Ht, length_take; lia).
    split; [|split; [done|]].
    + rewrite <-(take_drop (Z.to_nat len) out') at 1. rewrite Ht, Hd. do 2 f_equal. lia.
    + destruct Hcase as [?|(s&Hs&[[? _]|<-])]; [by auto|left; by split|by auto].
Qed.
End requests.

(** ** Concrete uses *)

(** A library that performs a script for each connection: a status, and the events
    and the returns of its calls.  What cannot happen is left out, and a connection
    whose script has ended is closed. *)
Definition script : Type := list (lws_callback_reasons + Z).

Record script_world := ScriptWorld {
  sw_later : list (Z * script);
  sw_status : Z;
  sw_script : script;
  sw_conn : connection
}.

Definition with_conn (w : script_world) (s : script) (c : connection) : script_world :=
  ScriptWorld (sw_later w) (sw_status w) s c.

(** Only so much happens on one connection. *)
Definition script_max : nat := 20.

Definition script_connect (w : script_world) : script_world :=
  match sw_later w with
  | [] => ScriptWorld [] 0 [] new_connection
  | (status, s) :: later => ScriptWorld later status (take script_max s) new_connection
  end.

Definition reason_fits (e : lws_callback_reasons) : bool :=
  match e with
  | LWS_CALLBACK_RECEIVE_CLIENT_HTTP_READ data => Z.of_nat (length data) <=? PTRDIFF_MAX
  | _ => true
  end.

Definition script_step (w : script_world) : lws_action script_world :=
  let c := sw_conn w in
  match sw_script w with
  | [] => if over c then Returned w 0 else Calls LWS_CALLBACK_CLOSED_CLIENT_HTTP (with_conn w [] (close c))
  | inr ret :: s => Returned (with_conn w s c) (if connecting c && over c then 0 else ret)
  | inl e :: s =>
      match conn_event (sw_status w) c e with
      | Some c' => if reason_fits e then Calls e (with_conn w s c') else Returned (with_conn w s c) 0
      | None => Returned (with_conn w s c) 0
      end
  end.

#[local] Instance script_lws : lws_api := {|
  lws_world := script_world;
  lws_context := unit;
  LCCSCF_USE_SSL := 1;
  LCCSCF_ALLOW_SELFSIGNED := 2;
  LCCSCF_SKIP_SERVER_CERT_HOSTNAME_CHECK := 4;
  lws_create_context w := (w, Some tt);
  lws_parse_uri uri := Some (ParsedUri (bytes_of_string "http"%string) uri 80 []);
  lws_client_connect_via_info w _ := script_connect w;
  lws_service w _ _ := with_conn w (sw_script w) (connect_over (sw_conn w));
  lws_http_client_read w _ := w;
  lws_step := script_step;
  lws_callback_return w ret := if ret =? 0 then w else with_conn w (sw_script w) (refuse (sw_conn w));
  lws_http_client_http_response := sw_status;
  lws_add_http_header_by_name w _ _ := (w, 0);
  lws_add_http_header_by_token w _ _ := (w, 0);
  lws_client_http_body_pending w _ := w;
  lws_callback_on_writable w := w;
  lws_write w _ := (w, 0);
  lws_callback_http_dummy w _ := (w, 0)
|}.

Definition script_patience (w : script_world) : nat :=
  (length (sw_script w) + if over (sw_conn w) then 0 else 1)%nat.

Lemma conn_event_over status c e c' : conn_event status c e = Some c' → over c = true → over c' = true.
Proof.
  unfold over. destruct e; cbn; repeat case_match; intros [= <-]; cbn; rewrite ?orb_true_r; try done;
    by destruct (completed c).
Qed.

#[local] Instance script_laws : lws_laws.
Proof.
  refine {| lws_conn := sw_conn : @lws_world script_lws → _; lws_patience := script_patience;
            lws_patience_max := S script_max |}; cbn.
  - intros w e w'. unfold script_step. destruct (sw_script w) as [|[e1|ret] s] eqn:Hs.
    + destruct (over (sw_conn w)) eqn:Hov; [done|]. intros [= <- <-]. split; [done|]. split; [|done].
      unfold script_patience. rewrite Hs, Hov. unfold over. cbn. rewrite orb_true_r. lia.
    + destruct (conn_event (sw_status w) (sw_conn w) e1) as [c'|] eqn:Hc; [|done].
      destruct (reason_fits e1) eqn:Hfit; [|done]. intros [= <- <-]. split; [done|]. split.
      * pose proof (conn_event_over _ _ _ _ Hc) as Hmono. unfold script_patience. rewrite Hs. cbn -[over].
        destruct (over (sw_conn w)); [rewrite Hmono by done|destruct (over c')]; lia.
      * intros data ->. by apply Z.leb_le in Hfit.
    + done.
  - intros w w' ret. unfold script_step. destruct (sw_script w) as [|[e1|ret1] s] eqn:Hs.
    + destruct (over (sw_conn w)) eqn:Hov; [|done]. intros [= <- <-]. by auto.
    + assert (Returned (with_conn w s (sw_conn w)) 0 = Returned w' ret →
        sw_conn w' = sw_conn w ∧ (script_patience w' ≤ script_patience w)%nat ∧
        (over (sw_conn w) = true ∨ (script_patience w' < script_patience w)%nat) ∧
        (connecting (sw_conn w) = true → over (sw_conn w) = true → ret = 0)) as Hret.
      { intros [= <- <-]. unfold script_patience. rewrite Hs. cbn. split_and!; [done|lia|right; lia|done]. }
      by destruct (conn_event _ _ _); [destruct (reason_fits e1)|].
    + intros [= <- <-]. unfold script_patience. rewrite Hs. cbn. split_and!; [done|lia|right; lia|].
      by intros -> ->.
  - intros w ret. by destruct (ret =? 0).
  - intros w info. unfold script_connect. destruct (sw_later w) as [|[status s] later]; cbn; [split; [done|lia]|].
    split; [done|]. unfold script_patience. cbn. rewrite length_take. unfold script_max. lia.
  - by split.
  - by split.
  - by split.
  - by split.
  - by split.
  - by split.
  - by split.
  - by split.
  - intros uri u [= <-]. cbn. split; [lia|]. by intros ?%elem_of_nil.
Defined.

#[local] Existing Instance always_malloc.

Lemma lws_script_fuel : (lws_patience_max < 22)%nat.
Proof. vm_compute. lia. Qed.

(** A response of status 200 that is complete, and one after which the library
    fails: both are answers. *)
Definition get_world (ending : script) : script_world :=
  ScriptWorld [(200, inr 1 :: inl LWS_CALLBACK_ESTABLISHED_CLIENT_HTTP ::
    inl (LWS_CALLBACK_RECEIVE_CLIENT_HTTP_READ [x61; x62]) :: ending)] 0 [] new_connection.

Definition get_answer (ending : script) : option (Z * list byte * Z) :=
  match http_get 48 22 (get_world ending, empty_heap) [x75] (replicate 4 x00) 4 with
  | Done (_, n, out, len) => Some (n, out, len)
  | _ => None
  end.

Lemma http_get_correct_witness :
  get_answer [inl LWS_CALLBACK_COMPLETED_CLIENT_HTTP] = Some (0, [x61; x62; x00; x00], 2) ∧
  get_answer [inr (-1)] = Some (0, [x61; x62; x00; x00], 2) ∧
  ∃ w h, http_get 48 22 (get_world [inr (-1)], empty_heap) [x75] (replicate 4 x00) 4 =
    Done ((w, h), 0, [x61; x62; x00; x00], 2) ∧ over (sw_conn w) = false ∧
    ∃ lost, accounts h [] (lost ++ []) ∧ length lost = 1%nat.
Proof.
  split; [vm_compute; reflexivity|]. split; [vm_compute; reflexivity|].
  destruct (wp_elim _ _ (http_get_correct 48 22 lws_script_fuel
    (get_world [inr (-1)]) empty_heap [x75] (replicate 4 x00) 4 [] ltac:(cbn; lia) ltac:(cbn; lia)
    ltac:(cbn; unfold PTRDIFF_MAX; lia) (conj empty_heap_wf (Permutation_refl _))))
    as ([[[[w h] n] out] len] & Hrun & _ & (lost & Hacc & _ & Hlost)).
  assert (n = 0 ∧ out = [x61; x62; x00; x00] ∧ len = 2 ∧ over (sw_conn w) = false) as (->&->&->&Hover).
  { vm_compute in Hrun. injection Hrun as <- _ <- <- <-. by vm_compute. }
  exists w, h. split; [exact Hrun|]. split; [done|]. exists lost. split; [done|]. by apply Hlost.
Defined.

(** An error page of a server is the answer to a message. *)
Definition post_world : script_world :=
  ScriptWorld [(500, [inr 1; inl LWS_CALLBACK_CLIENT_APPEND_HANDSHAKE_HEADER;
    inl LWS_CALLBACK_CLIENT_HTTP_WRITEABLE; inr 0; inl LWS_CALLBACK_ESTABLISHED_CLIENT_HTTP;
    inl (LWS_CALLBACK_RECEIVE_CLIENT_HTTP_READ [x6e; x6f]); inl LWS_CALLBACK_COMPLETED_CLIENT_HTTP; inr 0])]
    0 [] new_connection.

Lemma http_post_correct_witness :
  ∃ w h, http_post 48 22 (post_world, empty_heap) [x75] [x01] (replicate 4 x00) 4 =
    Done ((w, h), 0, [x6e; x6f; x00; x00], 2) ∧ established (sw_conn w) = Some 500 ∧
    ∃ lost, accounts h [] (lost ++ []) ∧ length lost = 1%nat.
Proof.
  destruct (wp_elim _ _ (http_post_correct 48 22 lws_script_fuel
    post_world empty_heap [x75] [x01] (replicate 4 x00) 4 [] ltac:(cbn; lia) ltac:(cbn; lia)
    ltac:(cbn; unfold PTRDIFF_MAX; lia) (conj empty_heap_wf (Permutation_refl _))))
    as ([[[[w h] n] out] len] & Hrun & _ & (lost & Hacc & _ & Hlost)).
  assert (n = 0 ∧ out = [x6e; x6f; x00; x00] ∧ len = 2 ∧ established (sw_conn w) = Some 500) as (->&->&->&Hest).
  { vm_compute in Hrun. injection Hrun as <- _ <- <- <-. by vm_compute. }
  exists w, h. split; [exact Hrun|]. split; [done|]. exists lost. split; [done|]. by apply Hlost.
Defined.
