(* ===== verification/BrokerHttp.v ===== *)
(** * BrokerHttp: the HTTP client as the one the broker uses

    The functions of [http-lws.c] are an instance of what Broker asks of
    [http.h], for URIs that fit their local arrays. *)

From S2P Require Import Prelude Tcbor TeepMessage TeepMessageFacts Http HttpFacts HttpTheorems.
From S2P Require Import Broker BrokerFacts.

Local Open Scope Z_scope.

Section client.
Context `{Hlws : lws_api, !lws_laws, Hal : allocator}.
Variable sizeof_laoa : Z.
Variable fuel : nat.
Hypothesis Hfuel : (lws_patience_max < fuel)%nat.

(** [http_res_buf] is overwritten from its start, and an error leaves its length. *)
Definition answer_of (m : outcome (http_state * Z * list byte * Z)) : outcome (http_state * Z * list byte) :=
  '(st, n, out, len) ← m; Done (st, n, if n <? 0 then [] else take (Z.to_nat len) out).

Definition http_buffer (max : Z) : list byte := replicate (Z.to_nat max) x00.

Definition lws_http : http_api := {|
  net := http_state;
  Broker.http_get st uri max :=
    answer_of (Http.http_get sizeof_laoa fuel st uri (http_buffer max) max);
  Broker.http_post st uri data max :=
    answer_of (Http.http_post sizeof_laoa fuel st uri data (http_buffer max) max)
|}.

Lemma buffer_fits max :
  0 <= max <= PTRDIFF_MAX →
  0 <= max <= Z.of_nat (length (http_buffer max)) ∧ Z.of_nat (length (http_buffer max)) <= PTRDIFF_MAX.
Proof. intros Hmax. unfold http_buffer. rewrite length_replicate. lia. Qed.

Lemma answer_spec accepts early method protocol st uri data max :
  (∀ out0, 0 <= max <= Z.of_nat (length out0) → Z.of_nat (length out0) <= PTRDIFF_MAX →
     protocol_ok accepts early out0 max protocol) →
  heap_wf st.2 → (length uri < 200)%nat → 0 <= max <= PTRDIFF_MAX →
  wp (answer_of (http_request sizeof_laoa fuel method protocol st uri data (http_buffer max) max))
    (fun '(st', n, answer) => heap_wf st'.2 ∧ Z.of_nat (length answer) <= max).
Proof.
  intros Hprot Hwf Huri Hmax. destruct st as [w h], (buffer_fits max Hmax) as [Hb1 Hb2].
  apply wp_bind. eapply wp_mono.
  { apply (http_request_spec accepts early (http_buffer max) max Hb1 sizeof_laoa fuel Hfuel method
      protocol w h uri data (h_live h)); [by apply Hprot|done|by split]. }
  intros [[[[w' h'] n] out] len] [[Ho Hret] (lost&[Hwf' _]&_)]. cbn. split; [done|].
  destruct (n <? 0); [cbn; lia|]. rewrite length_take. lia.
Qed.

(** The interface of the broker, for URIs of at most 199 characters. *)
Definition lws_http_laws : @http_laws lws_http.
Proof.
  refine (Build_http_laws lws_http 199 (fun st => heap_wf st.2) _ _).
  - intros st uri max Hwf Huri Hmax.
    apply (answer_spec (eq 200) (fun _ => False)); [by intros; apply download_ok|done|lia|done].
  - intros st uri data max Hwf Huri Hmax.
    apply (answer_spec (fun _ => True) (eq 204)); [by intros; apply teep_ok|done|lia|done].
Defined.
End client.
