(* ===== verification/Keystone.v ===== *)
(** * Keystone: commands between two threads

    In the Keystone build the agent runs in an enclave with a thread of its own.
    The client library ([teec-keystone.cpp]) puts a command in a queue of one
    element and waits for the result; the enclave ([eapp_entry] of
    [teep-agent-ta.c]) pulls commands, copies the parameters in pieces through
    calls of the host, runs the agent and copies the results back.  The calls of
    the host are the class [ocalls], so that the enclave can be looked at with any
    host; the queue is the instance of the source.  The generated code that passes
    these calls through is left out. *)

From S2P Require Import Prelude Tcbor SuitTypes SuitParser SuitAuth SuitContext SuitRunner.
From S2P Require Import TeepMessage TeepEncoder Tools Agent TeeClient.

Local Open Scope Z_scope.

Definition TEEP_AGENT_TA_EXIT : Z := 1000.

(** ** Commands in transit *)

Record invoke_param := InvokeParam { ip_a : Z; ip_b : Z; ip_size : Z }.

Record invoke_command_t := InvokeCommand {
  ic_commandID : Z;
  ic_paramTypes : Z;
  ic_params : list invoke_param
}.

(** The calls out of the enclave; [param_buffer_t] is the bytes of [buf] and
    [size]. *)
Class ocalls := {
  host : Type;
  ocall_read_invoke_param : host → Z → Z → outcome (host * list byte * Z);
  ocall_write_invoke_param : host → Z → Z → Z → list byte → outcome host;
  ocall_put_invoke_command_result : host → invoke_command_t → Z → outcome host
}.

(** ** The enclave *)

Section enclave.
Context `{allocator, ocalls}.
(** What fresh memory holds. *)
Variable junk : byte.

(** [for (offset = 0; offset < size;)], reading. *)
Fixpoint read_loop (fuel : nat) (w : host) (i size offset : Z) (buffer : list byte)
    : outcome (host * list byte) :=
  match fuel with
  | O => NoFuel
  | S fuel =>
      if offset <? size then
        '(w, buf, n) ← ocall_read_invoke_param w i offset;
        bytes ← load_bytes buf 0 n;
        if offset + n <=? Z.of_nat (length buffer) then
          read_loop fuel w i size (to_u32 (offset + n)) (write_at buffer (Z.to_nat offset) bytes)
        else Ub
      else Done (w, buffer)
  end.

(** One round of the first loop: the parameter for the agent and its block. *)
Definition pull_param (w : host) (h : heap) (ty i : Z) (x : invoke_param)
    : outcome (host * heap * TEE_Param * option nat) :=
  if is_value_input ty then Done (w, h, ParamValue (ip_a x) (ip_b x), None)
  else if is_memref_input ty then
    let size := ip_size x in
    '(h, block) ← filled_block h size;
    '(w, buffer) ← read_loop (S (Z.to_nat size)) w i size 0 (replicate (Z.to_nat size) junk);
    Done (w, h, ParamMemref buffer size, block)
  else if ty =? TEE_PARAM_TYPE_MEMREF_OUTPUT then
    let size := ip_size x in
    '(h, block) ← filled_block h size;
    Done (w, h, ParamMemref (replicate (Z.to_nat size) x00) size, block)
  else if ty =? TEE_PARAM_TYPE_VALUE_OUTPUT then Done (w, h, ParamValue 0 0, None)
  else Done (w, h, ParamNone, None).

Fixpoint pull_params (w : host) (h : heap) (types i : Z) (xs : list invoke_param)
    : outcome (host * heap * list TEE_Param * list (option nat)) :=
  match xs with
  | [] => Done (w, h, [], [])
  | x :: xs =>
      '(w, h, y, block) ← pull_param w h (TEE_PARAM_TYPE_GET types i) i x;
      '(w, h, ys, l) ← pull_params w h types (i + 1) xs;
      Done (w, h, y :: ys, block :: l)
  end.

(** The same loop, writing pieces of at most 256 bytes. *)
Fixpoint write_loop (fuel : nat) (w : host) (i size offset : Z) (buffer : list byte) : outcome host :=
  match fuel with
  | O => NoFuel
  | S fuel =>
      if offset <? size then
        let n := size - offset in
        let n := if 256 <=? n then 256 else n in
        bytes ← load_bytes buffer offset n;
        w ← ocall_write_invoke_param w i offset n bytes;
        write_loop fuel w i size (to_u32 (offset + n)) buffer
      else Done w
  end.

(** One round of the second loop: the parameter of the command for the host. *)
Definition push_param (w : host) (h : heap) (ty i : Z) (x : invoke_param) (y : TEE_Param)
    (block : option nat) : outcome (host * heap * invoke_param) :=
  if is_value_output ty then
    match y with
    | ParamValue a b => Done (w, h, InvokeParam a b (ip_size x))
    | _ => Ub
    end
  else if is_memref_output ty then
    match y with
    | ParamMemref buffer size =>
        let size := to_u32 size in
        w ← write_loop (S (Z.to_nat size)) w i size 0 buffer;
        h ← free h block;
        Done (w, h, InvokeParam 0 0 size)
    | _ => Ub
    end
  else if ty =? TEE_PARAM_TYPE_MEMREF_INPUT then
    h ← free h block; Done (w, h, InvokeParam 0 0 (ip_size x))
  else Done (w, h, InvokeParam 0 0 (ip_size x)).

Fixpoint push_params (w : host) (h : heap) (types i : Z) (xs : list invoke_param) (ys : list TEE_Param)
    (l : list (option nat)) : outcome (host * heap * list invoke_param) :=
  match xs, ys, l with
  | x :: xs, y :: ys, block :: l =>
      '(w, h, x) ← push_param w h (TEE_PARAM_TYPE_GET types i) i x y block;
      '(w, h, xs) ← push_params w h types (i + 1) xs ys l;
      Done (w, h, x :: xs)
  | _, _, _ => Done (w, h, xs)
  end.

(** The session [eapp_entry] opens; its result is not looked at. *)
Definition eapp_open (sizeof_session : Z) (garbage : teep_agent_session) (g : agent_globals) : tee_client :=
  let '(h, session, _) := TA_OpenSessionEntryPoint sizeof_session (g_heap g) 0 garbage in
  Client (with_heap g h) session.

Definition eapp_close (a : tee_client) : outcome tee_client :=
  h ← TA_CloseSessionEntryPoint (g_heap (c_globals a)) (session_ctx a);
  Done (Client (with_heap (c_globals a) h) None).

Context `{qcbor, qcbor_encoder, crypto_api}.
Variable p : platform.
Variable slot_addr : target_slot → Z.
Variable fuel : nat.

(** The body of [for (;;)] after a command that is not the exit. *)
Definition eapp_command (w : host) (a : tee_client) (c : invoke_command_t) : outcome (host * tee_client) :=
  '(w, h, params, l) ← pull_params w (g_heap (c_globals a)) (ic_paramTypes c) 0 (ic_params c);
  '(block, s) ← live_session h (session_ctx a);
  '(g, s, params, r) ← TA_InvokeCommandEntryPoint p slot_addr fuel (with_heap (c_globals a) h) s
                          (ic_commandID c) (ic_paramTypes c) params;
  '(w, h, xs) ← push_params w (g_heap g) (ic_paramTypes c) 0 (ic_params c) params l;
  w ← ocall_put_invoke_command_result w (InvokeCommand (ic_commandID c) (ic_paramTypes c) xs) r;
  Done (w, Client (with_heap g h) (Some (block, s))).
End enclave.

(** ** The queue *)

(** [CommandQueue] with [current] in it.  [q_operation] tells whether
    [current.operation] is not null, and then [q_caller] is the operation of the
    caller it points to. *)
Record command_queue := CommandQueue {
  q_command : invoke_command_t;
  q_operation : bool;
  q_caller : TEEC_Operation;
  q_command_result : Z;
  q_invoking : bool
}.

Definition with_caller (q : command_queue) (op : TEEC_Operation) : command_queue :=
  CommandQueue (q_command q) (q_operation q) op (q_command_result q) (q_invoking q).

(** [&current.operation->params[index].tmpref]. *)
Definition caller_tmpref (q : command_queue) (index : Z) : outcome (option (list byte) * Z) :=
  if negb (q_operation q) then Ub
  else
    match op_params (q_caller q) !! Z.to_nat index with
    | Some x => tmpref_member x
    | None => Ub
    end.

(** Bytes at an offset of a pointer; none can be at a null pointer. *)
Definition copy_from_at (buffer : option (list byte)) (offset n : Z) : outcome (list byte) :=
  match buffer with
  | Some bytes => load_bytes bytes offset n
  | None => if n =? 0 then Done [] else Ub
  end.

Definition copy_to_at (buffer : option (list byte)) (offset : Z) (bytes : list byte)
    : outcome (option (list byte)) :=
  match buffer with
  | Some old =>
      if offset + Z.of_nat (length bytes) <=? Z.of_nat (length old)
      then Done (Some (write_at old (Z.to_nat offset) bytes)) else Ub
  | None => if bool_decide (bytes = []) then Done None else Ub
  end.

(** [sizeof ret.buf]. *)
Section queue.
Variable sizeof_buf : Z.

Definition read_invoke_param (q : command_queue) (index offset : Z)
    : outcome (command_queue * list byte * Z) :=
  '(buffer, ref_size) ← caller_tmpref q index;
  if ref_size <? offset then Done (q, [], 0)
  else
    let size := to_u32 (Z.min (ref_size - offset) sizeof_buf) in
    bytes ← copy_from_at buffer offset size;
    Done (q, bytes, size).

Definition write_invoke_param (q : command_queue) (index offset size : Z) (buf : list byte)
    : outcome command_queue :=
  '(buffer, ref_size) ← caller_tmpref q index;
  if ref_size <? offset then Done q
  else
    let n := to_u32 (Z.min (ref_size - offset) size) in
    bytes ← load_bytes buf 0 n;
    new ← copy_to_at buffer offset bytes;
    Done (with_caller q (set_param (q_caller q) index (TempMemoryReference new ref_size))).

(** One round of the loop of [put_invoke_command_result]. *)
Definition put_param (ty : Z) (x : invoke_param) (y : TEEC_Parameter) : outcome TEEC_Parameter :=
  if (ty =? TEEC_VALUE_OUTPUT) || (ty =? TEEC_VALUE_INOUT) then Done (ValueParameter (ip_a x) (ip_b x))
  else if (ty =? TEEC_MEMREF_TEMP_OUTPUT) || (ty =? TEEC_MEMREF_TEMP_INOUT) then
    '(buffer, _) ← tmpref_member y; Done (TempMemoryReference buffer (ip_size x))
  else Done y.

Fixpoint put_loop (types i : Z) (xs : list invoke_param) (ys : list TEEC_Parameter)
    : outcome (list TEEC_Parameter) :=
  match xs, ys with
  | x :: xs, y :: ys =>
      y ← put_param (TEEC_PARAM_TYPE_GET types i) x y;
      ys ← put_loop types (i + 1) xs ys;
      Done (y :: ys)
  | _, _ => Done ys
  end.

(** Through a null [current.operation] nothing may be stored. *)
Definition put_invoke_command_result (q : command_queue) (cmd : invoke_command_t) (result : Z)
    : outcome command_queue :=
  let op := q_caller q in
  op ← (if q_operation q then
          ys ← put_loop (ic_paramTypes cmd) 0 (ic_params cmd) (op_params op);
          Done (Operation (paramTypes op) ys)
        else if ic_paramTypes cmd =? 0 then Done op else Ub);
  Done (CommandQueue (q_command q) false op result false).

(** One round of the loop of [put_invoke_command]. *)
Definition take_param (ty : Z) (x : TEEC_Parameter) : outcome invoke_param :=
  if (ty =? TEEC_VALUE_INPUT) || (ty =? TEEC_VALUE_INOUT) then
    '(a, b) ← value_member x; Done (InvokeParam a b 0)
  else if (ty =? TEEC_MEMREF_TEMP_INPUT) || (ty =? TEEC_MEMREF_TEMP_OUTPUT) ||
          (ty =? TEEC_MEMREF_TEMP_INOUT) then
    '(_, size) ← tmpref_member x; Done (InvokeParam 0 0 (to_u32 size))
  else Done (InvokeParam 0 0 0).

Fixpoint take_loop (types i : Z) (xs : list TEEC_Parameter) : outcome (list invoke_param) :=
  match xs with
  | [] => Done []
  | x :: xs =>
      y ← take_param (TEEC_PARAM_TYPE_GET types i) x;
      ys ← take_loop types (i + 1) xs;
      Done (y :: ys)
  end.

Definition no_params : list invoke_param := replicate 4 (InvokeParam 0 0 0).

Definition put_invoke_command (q : command_queue) (commandID : Z) (operation : option TEEC_Operation)
    : outcome command_queue :=
  match operation with
  | Some op =>
      xs ← take_loop (paramTypes op) 0 (op_params op);
      Done (CommandQueue (InvokeCommand commandID (paramTypes op) xs) true op (q_command_result q) true)
  | None =>
      Done (CommandQueue (InvokeCommand commandID 0 no_params) false (q_caller q) (q_command_result q) true)
  end.

(** [cv.wait]: [None] while the caller has to wait. *)
Definition pull_invoke_command (q : command_queue) : option invoke_command_t :=
  if q_invoking q then Some (q_command q) else None.

Definition pull_invoke_command_result (q : command_queue) : option Z :=
  if negb (q_invoking q) then Some (q_command_result q) else None.

#[export] Instance queue_ocalls : ocalls := {|
  host := command_queue;
  ocall_read_invoke_param := read_invoke_param;
  ocall_write_invoke_param := write_invoke_param;
  ocall_put_invoke_command_result := put_invoke_command_result
|}.
End queue.

(** ** Calls

    The functions of the client library with the steps of the enclave in between,
    for a caller that waits; KeystoneTheorems shows that the threads make these
    calls. *)

Section calls.
Context `{allocator, qcbor, qcbor_encoder, crypto_api}.
Variable sizeof_buf : Z.
Variable junk : byte.
Variable p : platform.
Variable slot_addr : target_slot → Z.
Variable fuel : nat.

(** The enclave opens the session of the agent when it starts. *)
Definition keystone_OpenSession (sizeof_session : Z) (garbage : teep_agent_session)
    (c : command_queue * tee_client) : (command_queue * tee_client) * Z :=
  ((c.1, eapp_open sizeof_session garbage (c_globals c.2)), TEEC_SUCCESS).

Definition keystone_CloseSession (c : command_queue * tee_client) : outcome (command_queue * tee_client) :=
  q ← put_invoke_command c.1 TEEP_AGENT_TA_EXIT None;
  q ← put_invoke_command_result q (q_command q) 0;
  a ← eapp_close c.2;
  Done (q, a).

Definition keystone_InvokeCommand (c : command_queue * tee_client) (commandID : Z) (operation : TEEC_Operation)
    : outcome ((command_queue * tee_client) * TEEC_Operation * Z) :=
  q ← put_invoke_command c.1 commandID (Some operation);
  '(q, a) ← eapp_command (H0 := queue_ocalls sizeof_buf) junk p slot_addr fuel q c.2 (q_command q);
  match pull_invoke_command_result q with
  | Some r => Done ((q, a), q_caller q, r)
  | None => NoFuel
  end.

(** The interface of the broker. *)
Definition keystone_client : client_api := {|
  client_state := command_queue * tee_client;
  agent_of c := c.2;
  tc_OpenSession size garbage c _ := Done (keystone_OpenSession size garbage c);
  tc_CloseSession := keystone_CloseSession;
  tc_InvokeCommand := keystone_InvokeCommand
|}.
End calls.

(** ** Threads *)

(** Where the broker is: outside of the library, or waiting in
    [TEEC_InvokeCommand]. *)
Inductive broker_thread :=
  | BrokerOutside
  | BrokerWaiting (commandID : Z) (operation : option TEEC_Operation).

(** Where the enclave is: pulling a command, working on one, or at its end.  The
    work on a command has four parts: with its parameters to be read, with the
    agent to be run, with the parameters to be written back, and with the result to
    be put into the queue. *)
Inductive enclave_thread :=
  | EnclavePulling
  | EnclaveServing (c : invoke_command_t)
  | EnclaveRunning (c : invoke_command_t) (params : list TEE_Param) (l : list (option nat))
  | EnclaveReturning (c : invoke_command_t) (params : list TEE_Param) (l : list (option nat)) (r : Z)
  | EnclaveAnswering (c : invoke_command_t) (r : Z)
  | EnclaveExited.

Record threads := Threads {
  t_queue : command_queue;
  t_broker : broker_thread;
  t_enclave : enclave_thread;
  t_agent : tee_client
}.

(** A call that returned: command, operation before and after, result. *)
Record completed_call := Completed {
  cc_command : Z;
  cc_operation : option TEEC_Operation;
  cc_result : Z;
  cc_returned : option TEEC_Operation
}.

Inductive thread_event :=
  | Internal
  | CallCommand (commandID : Z) (operation : option TEEC_Operation)
  | ReturnCommand (c : completed_call).

Section threads.
Context `{allocator, qcbor, qcbor_encoder, crypto_api}.
Variable sizeof_buf : Z.
Variable junk : byte.
Variable p : platform.
Variable slot_addr : target_slot → Z.
Variable fuel : nat.

(** The steps of the two threads; a thread whose condition does not hold waits. *)
Inductive thread_step : threads → thread_event → threads → Prop :=
  | step_put q q' e a cmd op :
      put_invoke_command q cmd op = Done q' →
      thread_step (Threads q BrokerOutside e a) (CallCommand cmd op) (Threads q' (BrokerWaiting cmd op) e a)
  | step_pull q b a c :
      pull_invoke_command q = Some c →
      thread_step (Threads q b EnclavePulling a) Internal (Threads q b (EnclaveServing c) a)
  | step_copy_in q q' b a c h params l :
      ic_commandID c ≠ TEEP_AGENT_TA_EXIT →
      pull_params (H0 := queue_ocalls sizeof_buf) junk q (g_heap (c_globals a)) (ic_paramTypes c) 0 (ic_params c) =
        Done (q', h, params, l) →
      thread_step (Threads q b (EnclaveServing c) a) Internal
        (Threads q' b (EnclaveRunning c params l) (Client (with_heap (c_globals a) h) (session_ctx a)))
  | step_run q b a c params l block s g s' params' r :
      live_session (g_heap (c_globals a)) (session_ctx a) = Done (block, s) →
      TA_InvokeCommandEntryPoint p slot_addr fuel (c_globals a) s (ic_commandID c) (ic_paramTypes c) params =
        Done (g, s', params', r) →
      thread_step (Threads q b (EnclaveRunning c params l) a) Internal
        (Threads q b (EnclaveReturning c params' l r) (Client g (Some (block, s'))))
  | step_copy_out q q' b a c params l r h xs :
      push_params (H0 := queue_ocalls sizeof_buf) q (g_heap (c_globals a)) (ic_paramTypes c) 0 (ic_params c)
        params l = Done (q', h, xs) →
      thread_step (Threads q b (EnclaveReturning c params l r) a) Internal
        (Threads q' b (EnclaveAnswering (InvokeCommand (ic_commandID c) (ic_paramTypes c) xs) r)
           (Client (with_heap (c_globals a) h) (session_ctx a)))
  | step_answer q q' b a c r :
      put_invoke_command_result q c r = Done q' →
      thread_step (Threads q b (EnclaveAnswering c r) a) Internal (Threads q' b EnclavePulling a)
  | step_exit q q' b a a' c :
      ic_commandID c = TEEP_AGENT_TA_EXIT →
      put_invoke_command_result q c 0 = Done q' → eapp_close a = Done a' →
      thread_step (Threads q b (EnclaveServing c) a) Internal (Threads q' b EnclaveExited a')
  | step_return q e a cmd op r :
      pull_invoke_command_result q = Some r →
      thread_step (Threads q (BrokerWaiting cmd op) e a)
        (ReturnCommand (Completed cmd op r ((fun _ => q_caller q) <$> op))) (Threads q BrokerOutside e a).
End threads.
