(* ===== verification/KeystoneHost.v ===== *)
(** * KeystoneHost: starting the Keystone enclave

    [TEEC_OpenSession] of [teec-keystone.cpp] starts the enclave and the thread that
    runs it, and [TEEC_CloseSession] waits for the end of that thread.  The SDK is
    given by the outcome of [enclave.init]; the calls of it are recorded. *)

From stdpp Require Import sets strings.
From S2P Require Import Prelude Tcbor SuitTypes SuitParser SuitAuth SuitContext SuitRunner.
From S2P Require Import TeepMessage TeepEncoder Tools Agent TeeClient SgxHost Keystone.

Local Open Scope Z_scope.

Definition enc_path : String.string := "teep-agent-ta".
Definition runtime_path : String.string := "eyrie-rt".

(** [Params]: the free memory, and the shared memory with its address. *)
Record enclave_params := EnclaveParams { FreeMemSize : Z; UntrustedPtr : Z; UntrustedSize : Z }.

Inductive enclave_call :=
  | EnclaveInit (eapp runtime : String.string) (params : enclave_params)
  | EnclaveRegisterOcallDispatch
  | RegisterFunctions
  | EdgeCallInitInternals
  | EnclaveRun.

(** The variables of the process: whether [enclave_thread] is joinable, and the
    calls that were made. *)
Record keystone_host := KeystoneHost { enclave_joinable : bool; enclave_calls : list enclave_call }.

Section host.
Variable DEFAULT_UNTRUSTED_PTR : Z.
(** Whether [enclave.init] returns [Error::Success]. *)
Variable enclave_init : String.string → String.string → enclave_params → bool.

Definition host_call (s : keystone_host) (calls : list enclave_call) : keystone_host :=
  KeystoneHost (enclave_joinable s) (enclave_calls s ++ calls).

(** [TEEC_OpenSession] in the host.  The new thread is swapped into
    [enclave_thread]; if that had a thread that was not joined, the destructor of
    [t] ends the process ([None]). *)
Definition keystone_start (s : keystone_host) : option (keystone_host * Z) :=
  let params := EnclaveParams (1024 * 1024) DEFAULT_UNTRUSTED_PTR (1024 * 1024) in
  let s := host_call s [EnclaveInit enc_path runtime_path params] in
  if negb (enclave_init enc_path runtime_path params) then Some (s, TEEC_ERROR_GENERIC)
  else
    let s := host_call s [EnclaveRegisterOcallDispatch; RegisterFunctions; EdgeCallInitInternals; EnclaveRun] in
    if enclave_joinable s then None
    else Some (KeystoneHost true (enclave_calls s), TEEC_SUCCESS).

(** [enclave_thread.join()], which throws if there is no thread. *)
Definition keystone_join (s : keystone_host) : option keystone_host :=
  if enclave_joinable s then Some (KeystoneHost false (enclave_calls s)) else None.

(** What a new thread of the enclave begins with, and what there is without one. *)
Definition enclave_position (s : keystone_host) : enclave_thread :=
  if enclave_joinable s then EnclavePulling else EnclaveExited.

(** The result tells whether there is an enclave; a second session before the
    first one is closed ends the process. *)
Lemma keystone_start_outcome s :
  match keystone_start s with
  | Some (s', r) =>
      (r = TEEC_SUCCESS ↔ EnclaveRun ∈ drop (length (enclave_calls s)) (enclave_calls s')) ∧
      (r = TEEC_SUCCESS → enclave_joinable s = false ∧ enclave_position s' = EnclavePulling) ∧
      (r ≠ TEEC_SUCCESS → r = TEEC_ERROR_GENERIC ∧ enclave_joinable s' = enclave_joinable s)
  | None => enclave_joinable s = true
  end.
Proof.
  destruct s as [[] calls]; unfold keystone_start, host_call, enclave_position;
    destruct (enclave_init _ _ _); cbn [negb enclave_joinable enclave_calls]; [done|..];
    rewrite <-?(assoc_L (++)), drop_app_length; cbn [app]; rewrite !elem_of_cons, elem_of_nil;
    unfold TEEC_SUCCESS, TEEC_ERROR_GENERIC; naive_solver.
Qed.

(** A session that was opened can be closed and opened again. *)
Lemma keystone_restart s s' :
  enclave_joinable s = false → keystone_start s = Some (s', TEEC_SUCCESS) →
  ∃ s'', keystone_join s' = Some s'' ∧ is_Some (keystone_start s'').
Proof.
  intros Hj Hs. pose proof (keystone_start_outcome s) as Ho. rewrite Hs in Ho.
  destruct Ho as (_ & Hok & _). destruct (Hok eq_refl) as [_ Hp].
  unfold enclave_position in Hp. unfold keystone_join. destruct (enclave_joinable s'); [|done].
  eexists. split; [done|]. unfold keystone_start, host_call. cbn [enclave_joinable].
  destruct (negb _); eauto.
Qed.
End host.

(** ** Without an enclave *)

Section alone.
Context `{allocator, qcbor, qcbor_encoder, crypto_api}.
Variable sizeof_buf : Z.
Variable junk : byte.
Variable p : platform.
Variable slot_addr : target_slot → Z.
Variable fuel : nat.

(** A command that is put when there is no enclave, before the first session or
    after the last, is waited for forever: no step is left. *)
Lemma no_enclave_no_answer q q' a cmd op ev st :
  put_invoke_command q cmd op = Done q' →
  ¬ thread_step sizeof_buf junk p slot_addr fuel (Threads q' (BrokerWaiting cmd op) EnclaveExited a) ev st.
Proof.
  intros Hput. assert (q_invoking q' = true) as Hi.
  { unfold put_invoke_command in Hput. destruct op as [op|]; [|by simplify_eq].
    destruct (take_loop _ _ _); cbn in Hput; by simplify_eq. }
  intros Hs. inversion Hs; subst. unfold pull_invoke_command_result in *. by rewrite Hi in *.
Qed.
End alone.
