(* ===== verification/KeystoneFacts.v ===== *)
(** * KeystoneFacts: the copies between the queue and the enclave

    With the queue as its host, the loops of the enclave read and write the
    parameters of the caller piece by piece; together they do what the client
    library of the PC build does at once. *)

From S2P Require Import Prelude Tcbor TcborFacts SuitTypes SuitParser SuitAuth SuitContext SuitRunner.
From S2P Require Import TeepMessage TeepMessageFacts TeepEncoder Tools Agent AgentCommands.
From S2P Require Import TeeClient TeeClientFacts AgentCall Keystone.

Local Open Scope Z_scope.

Section copies.
Variable sizeof_buf : Z.
Hypothesis Hbuf : 0 < sizeof_buf.
#[local] Hint Extern 0 ocalls => exact (queue_ocalls sizeof_buf) : typeclass_instances.
Variable junk : byte.

Lemma to_u32_id n : 0 <= n < u32_modulus → to_u32 n = n.
Proof. apply Z.mod_small. Qed.

Lemma load_some bytes offset n :
  0 <= offset → 0 <= n → offset + n <= Z.of_nat (length bytes) →
  load_bytes bytes offset n = Done (take (Z.to_nat n) (drop (Z.to_nat offset) bytes)).
Proof.
  intros. unfold load_bytes. assert ((0 <=? offset) && (0 <=? n) && (offset + n <=? Z.of_nat (length bytes)) = true)
    as ->; [|done]. rewrite !andb_true_iff, !Z.leb_le. lia.
Qed.

Lemma load_all bytes n : n = Z.of_nat (length bytes) → load_bytes bytes 0 n = Done bytes.
Proof. intros ->. rewrite load_some by lia. by rewrite drop_0, take_ge by lia. Qed.

(** ** Reading *)

Section reading.
Variables (q : command_queue) (i size : Z) (buffer : option (list byte)).
Let bytes : list byte := default [] buffer.
Hypothesis Href : caller_tmpref q i = Done (buffer, size).
Hypothesis Hsize : 0 <= size < u32_modulus.
Hypothesis Hbytes : size <= Z.of_nat (length bytes).

(** One piece: not empty, and within what is left. *)
Lemma read_piece offset :
  0 <= offset < size →
  ∃ n, 0 < n <= size - offset ∧
    read_invoke_param sizeof_buf q i offset =
      Done (q, take (Z.to_nat n) (drop (Z.to_nat offset) bytes), n).
Proof.
  intros Ho. unfold read_invoke_param. rewrite Href. cbn [mbind outcome_bind].
  destruct (Z.ltb_spec size offset); [lia|].
  rewrite to_u32_id by lia. set (n := Z.min (size - offset) sizeof_buf). exists n. split; [lia|].
  destruct buffer as [b|]; cbn in bytes; [|subst bytes; cbn in Hbytes; lia].
  cbn [copy_from_at]. by rewrite load_some by (subst bytes n; lia).
Qed.

Lemma read_loop_spec fuel offset b :
  0 <= offset <= size → length b = Z.to_nat size →
  take (Z.to_nat offset) b = take (Z.to_nat offset) bytes → (Z.to_nat (size - offset) < fuel)%nat →
  read_loop fuel q i size offset b = Done (q, take (Z.to_nat size) bytes).
Proof.
  revert offset b. induction fuel as [|fuel IH]; intros offset b Ho Hl Ht Hf; [lia|]. cbn.
  destruct (Z.ltb_spec offset size) as [Hlt|Hge].
  - destruct (read_piece offset ltac:(lia)) as (n&Hn&->). cbn [mbind outcome_bind].
    set (piece := take (Z.to_nat n) (drop (Z.to_nat offset) bytes)).
    assert (length piece = Z.to_nat n) as Hp.
    { unfold piece. rewrite length_take, length_drop. subst bytes. lia. }
    rewrite load_all by lia. cbn [mbind outcome_bind].
    destruct (Z.leb_spec (offset + n) (Z.of_nat (length b))); [|lia].
    rewrite to_u32_id by lia. apply IH; [lia|by rewrite write_at_length by lia| |lia].
    replace (Z.to_nat (offset + n)) with (Z.to_nat offset + length piece)%nat by lia.
    rewrite write_at_take by lia. rewrite Ht, Hp. unfold piece. by rewrite take_take_drop.
  - assert (offset = size) as -> by lia. do 2 f_equal. by rewrite <-Ht, take_ge by lia.
Qed.
End reading.

(** The caller has parameter [x] at [i]. *)
Definition caller_at (q : command_queue) (i : Z) (x : TEEC_Parameter) : Prop :=
  q_operation q = true ∧ op_at (q_caller q) i x.

Lemma caller_ref q i x : caller_at q i x → caller_tmpref q i = tmpref_member x.
Proof. intros [Ho Hx]. unfold caller_tmpref. by rewrite Ho, Hx. Qed.

(** What the command carries of a parameter. *)
Definition sent (ty : Z) (x : TEEC_Parameter) : invoke_param :=
  if is_value_input ty then InvokeParam (value_of x).1 (value_of x).2 0
  else if is_memref ty then InvokeParam 0 0 (size_of x)
  else InvokeParam 0 0 0.

Lemma take_param_ok ty x :
  client_param_ok ty x = true → ty ∈ known_types → take_param ty x = Done (sent ty x).
Proof.
  intros Hx Hty. known_type Hty; cbn; try done;
    destruct x as [|buffer size|a b]; cbn in *; try done; bool_facts; by rewrite to_u32_id by lia.
Qed.

Section allocates.
Context `{allocator}.

Lemma pull_param_eq q h ty i x h' y block :
  client_param_ok ty x = true → ty ∈ known_types → caller_at q i x →
  prepare_param h ty x = Done (h', y, block) →
  pull_param junk q h ty i (sent ty x) = Done (q, h', y, block).
Proof.
  intros Hx Hty Hat. unfold prepare_param, pull_param, sent.
  destruct (is_value_input ty) eqn:Hvi.
  { cbn. destruct x as [|? ?|a b]; cbn in *; [|by rewrite Hvi in Hx|]; by intros [= <- <- <-]. }
  destruct (is_memref_input ty) eqn:Hmi.
  { assert (is_memref ty = true) as Hm by (unfold is_memref; by rewrite Hmi).
    destruct (tmpref_member_ok ty x Hx Hm) as (Href&Hu&Hs). rewrite Href, Hm. cbn [mbind outcome_bind ip_size].
    destruct (filled_block h (size_of x)) as [| |[h1 b1]]; [done..|]. cbn [mbind outcome_bind].
    rewrite copy_from_ok by done. cbn [mbind outcome_bind]. intros [= <- <- <-].
    rewrite (read_loop_spec q i (size_of x) (buffer_of x));
      rewrite ?length_replicate; try done; try lia; [by rewrite Hu|by rewrite caller_ref with (x := x)|].
    unfold to_u32 in Hu. rewrite <-Hu. apply Z.mod_pos_bound. done. }
  destruct (Z.eqb_spec ty TEE_PARAM_TYPE_MEMREF_OUTPUT) as [->|].
  { destruct (tmpref_member_ok _ x Hx eq_refl) as (->&Hu&Hs). cbn [mbind outcome_bind]. rewrite Hu.
    cbn [is_memref is_memref_input is_memref_output ip_size].
    change (is_memref TEE_PARAM_TYPE_MEMREF_OUTPUT) with true. cbn [ip_size].
    destruct (filled_block h (size_of x)) as [| |[h1 b1]]; [done..|]. cbn. by intros [= <- <- <-]. }
  case_match; by intros [= <- <- <-].
Qed.

(** The caller has the parameters from [i] on. *)
Definition caller_has (q : command_queue) (i : Z) (xs : list TEEC_Parameter) : Prop :=
  q_operation q = true ∧ op_has (q_caller q) i xs.

Lemma caller_has_cons q i x xs : caller_has q i (x :: xs) → caller_at q i x ∧ caller_has q (i + 1) xs.
Proof. by intros [Ho [? ?]%op_has_cons]. Qed.

Definition params_sent (types i : Z) (xs : list TEEC_Parameter) : list invoke_param :=
  imap (fun k x => sent (ty_at types i k) x) xs.

Lemma ty_at_0 types i : TEE_PARAM_TYPE_GET types i = ty_at types i 0.
Proof. unfold ty_at. f_equal. lia. Qed.

Lemma params_sent_cons types i x xs :
  params_sent types i (x :: xs) = sent (ty_at types i 0) x :: params_sent types (i + 1) xs.
Proof.
  unfold params_sent. cbn [imap]. f_equal. apply imap_ext. intros k y _. unfold compose. by rewrite ty_at_S.
Qed.

Lemma take_loop_ok types i xs : params_ok types i xs → take_loop types i xs = Done (params_sent types i xs).
Proof.
  revert i. induction xs as [|x xs IH]; intros i Hok; [done|].
  apply params_ok_cons in Hok as [[Hx Hty] Hok]. cbn [take_loop].
  change (TEEC_PARAM_TYPE_GET types i) with (TEE_PARAM_TYPE_GET types i). rewrite ty_at_0.
  rewrite take_param_ok by done. cbn [mbind outcome_bind]. rewrite IH by done.
  by rewrite params_sent_cons.
Qed.

Lemma pull_params_eq q h types i xs h' ys bs :
  params_ok types i xs → caller_has q i xs → prepare_loop h types i xs = Done (h', ys, bs) →
  pull_params junk q h types i (params_sent types i xs) = Done (q, h', ys, bs).
Proof.
  revert h i ys bs. induction xs as [|x xs IH]; intros h i ys bs Hok Hat; cbn [prepare_loop].
  { by intros [= <- <- <-]. }
  apply params_ok_cons in Hok as [[Hx Hty] Hok]. apply caller_has_cons in Hat as [Hat1 Hat].
  rewrite params_sent_cons. cbn [pull_params]. rewrite ty_at_0.
  destruct (prepare_param h (ty_at types i 0) x) as [| |[[h1 y] b]] eqn:Hprep; [done..|].
  rewrite (pull_param_eq _ _ _ _ _ _ _ _ Hx Hty Hat1 Hprep). cbn [mbind outcome_bind].
  destruct (prepare_loop h1 types (i + 1) xs) as [| |[[h2 ys'] l]] eqn:Hloop; [done..|].
  cbn. intros [= <- <- <-]. by rewrite (IH _ _ _ _ Hok Hat Hloop).
Qed.
End allocates.

(** ** Writing *)

(** The caller gets [x] at [i]. *)
Definition caller_set (q : command_queue) (i : Z) (x : TEEC_Parameter) : command_queue :=
  with_caller q (set_param (q_caller q) i x).

Lemma caller_set_set q i x x' : caller_set (caller_set q i x) i x' = caller_set q i x'.
Proof. unfold caller_set, with_caller. cbn. by rewrite set_param_set. Qed.

Lemma caller_set_same q i x : caller_at q i x → caller_set q i x = q.
Proof. intros [_ Hx]. unfold caller_set. rewrite (set_param_same _ _ _ Hx). by destruct q. Qed.

Lemma caller_at_set q i x x' : caller_at q i x → caller_at (caller_set q i x') i x'.
Proof. intros [Ho Hx]. split; [done|]. by eapply op_at_set. Qed.

(** The part of [new] up to an offset over the old bytes. *)
Definition overwritten (new : list byte) (offset : Z) (buffer : option (list byte)) : option (list byte) :=
  overwrite (take (Z.to_nat offset) new) <$> buffer.

Lemma overwritten_0 new buffer : overwritten new 0 buffer = buffer.
Proof. by destruct buffer. Qed.

Section writing.
Variables (i size0 size : Z) (buffer : option (list byte)) (new : list byte).
Hypothesis Hsize : 0 <= size <= size0.
Hypothesis Hbytes : size0 <= Z.of_nat (length (default [] buffer)).
Hypothesis Hnew : size <= Z.of_nat (length new).
Hypothesis H32 : size0 < u32_modulus.

Lemma write_piece q x offset n :
  caller_at q i x → tmpref_member x = Done (overwritten new offset buffer, size0) →
  0 <= offset → 0 < n → offset + n <= size →
  write_invoke_param q i offset n (take (Z.to_nat n) (drop (Z.to_nat offset) new)) =
    Done (caller_set q i (TempMemoryReference (overwritten new (offset + n) buffer) size0)).
Proof.
  intros Hat Href Ho Hn Hle. unfold write_invoke_param. rewrite (caller_ref q i x Hat), Href.
  cbn [mbind outcome_bind]. destruct (Z.ltb_spec size0 offset); [lia|].
  rewrite Z.min_r, to_u32_id by lia. set (piece := take (Z.to_nat n) (drop (Z.to_nat offset) new)).
  assert (length piece = Z.to_nat n) as Hp by (unfold piece; rewrite length_take, length_drop; lia).
  rewrite load_all by lia. cbn [mbind outcome_bind].
  destruct buffer as [old|]; cbn in Hbytes; [|lia]. cbn.
  set (before := overwrite (take (Z.to_nat offset) new) old).
  assert (length (take (Z.to_nat offset) new) = Z.to_nat offset) as Hl by (rewrite length_take; lia).
  assert (length before = length old) as Hlb.
  { unfold before, overwrite. rewrite length_app, length_drop, Hl. lia. }
  destruct (Z.leb_spec (offset + Z.of_nat (length piece)) (Z.of_nat (length before))); [|lia].
  cbn. unfold caller_set. do 5 f_equal. unfold write_at, before, overwrite.
  rewrite take_app_le, take_ge by lia. rewrite drop_app_ge by lia. rewrite Hl, Hp, drop_drop.
  rewrite (assoc_L (++)). f_equal.
  - rewrite Z2Nat.inj_add by lia. unfold piece. by rewrite take_take_drop.
  - f_equal. rewrite length_take. lia.
Qed.

Lemma write_loop_spec fuel q x offset :
  caller_at q i x → tmpref_member x = Done (overwritten new offset buffer, size0) →
  0 <= offset <= size → (Z.to_nat (size - offset) < fuel)%nat →
  ∃ x', write_loop fuel q i size offset new = Done (caller_set q i x') ∧
    tmpref_member x' = Done (overwritten new size buffer, size0).
Proof.
  revert q x offset. induction fuel as [|fuel IH]; intros q x offset Hat Href Ho Hf; [lia|]. cbn.
  destruct (Z.ltb_spec offset size) as [Hlt|Hge].
  - set (n := if 256 <=? size - offset then 256 else size - offset).
    assert (0 < n /\ offset + n <= size) as [Hn Hle].
    { unfold n. destruct (Z.leb_spec 256 (size - offset)); lia. }
    rewrite load_some by lia. cbn [mbind outcome_bind].
    rewrite (write_piece q x offset n) by (done || lia). cbn [mbind outcome_bind].
    rewrite to_u32_id by lia.
    set (x1 := TempMemoryReference (overwritten new (offset + n) buffer) size0).
    destruct (IH (caller_set q i x1) x1 (offset + n)) as (x'&Hrun&Hx');
      [by eapply caller_at_set|done|lia|lia|].
    exists x'. by rewrite Hrun, caller_set_set.
  - assert (offset = size) as -> by lia. exists x. by rewrite caller_set_same.
Qed.
End writing.

Section results.
Context `{allocator}.

Lemma push_param_eq q h ty i x y block h' x' :
  client_param_ok ty x = true → ty ∈ known_types → caller_at q i x → not_longer x y →
  writeback_param h ty x y block = Done (h', x') →
  ∃ z ip, push_param q h ty i (sent ty x) y block = Done (caller_set q i z, h', ip) ∧
    put_param ty ip z = Done x'.
Proof.
  intros Hx Hty Hat Hy. unfold writeback_param, push_param.
  destruct (is_value_output ty) eqn:Hvo.
  { destruct y as [|a b|]; [done| |done]. intros [= <- <-]. exists x. eexists.
    rewrite caller_set_same by done. split; [done|]. by known_type Hty. }
  destruct (is_memref_output ty) eqn:Hmo.
  { destruct y as [|a b|buffer size]; [done..|]. destruct Hy as [Hs Hl].
    assert (is_memref ty = true) as Hm by (unfold is_memref; by rewrite Hmo, orb_true_r).
    destruct (tmpref_member_ok ty x Hx Hm) as (Href&Hu&Hb). rewrite Href. cbn [mbind outcome_bind].
    rewrite load_take by lia. cbn [mbind outcome_bind].
    rewrite copy_to_ok by (rewrite length_take; lia). cbn [mbind outcome_bind].
    assert (size_of x < u32_modulus) as H32 by (rewrite <-Hu; by apply Z.mod_pos_bound).
    rewrite to_u32_id by lia.
    destruct (write_loop_spec i (size_of x) size (buffer_of x) buffer Hs ltac:(lia) Hl H32
      (S (Z.to_nat size)) q x 0) as (z&->&Hz); [done|by rewrite overwritten_0|lia|lia|].
    cbn [mbind outcome_bind]. destruct (free h block) as [| |h1]; [done..|]. cbn [mbind outcome_bind].
    intros [= <- <-]. exists z. eexists. split; [done|]. unfold put_param.
    assert ((ty =? TEEC_VALUE_OUTPUT) || (ty =? TEEC_VALUE_INOUT) = false) as -> by exact Hvo.
    assert ((ty =? TEEC_MEMREF_TEMP_OUTPUT) || (ty =? TEEC_MEMREF_TEMP_INOUT) = true) as -> by exact Hmo.
    by rewrite Hz. }
  assert (∀ ip, put_param ty ip x = Done x) as Hput.
  { intros ip. unfold put_param.
    assert ((ty =? TEEC_VALUE_OUTPUT) || (ty =? TEEC_VALUE_INOUT) = false) as -> by exact Hvo.
    by assert ((ty =? TEEC_MEMREF_TEMP_OUTPUT) || (ty =? TEEC_MEMREF_TEMP_INOUT) = false) as -> by exact Hmo. }
  destruct (ty =? TEE_PARAM_TYPE_MEMREF_INPUT).
  - destruct (free h block) as [| |h1]; [done..|]. cbn [mbind outcome_bind]. intros [= <- <-].
    exists x. eexists. rewrite caller_set_same by done. split; [done|]. apply Hput.
  - intros [= <- <-]. exists x. eexists. rewrite caller_set_same by done. split; [done|]. apply Hput.
Qed.

(** The caller with other parameters from [i] on. *)
Definition caller_from (q : command_queue) (i : Z) (zs : list TEEC_Parameter) : command_queue :=
  with_caller q (op_from (q_caller q) i zs).

Lemma caller_from_cons q i x z zs :
  0 <= i → caller_at q i x → caller_from (caller_set q i z) (i + 1) zs = caller_from q i (z :: zs).
Proof.
  intros Hi [_ Hx]. unfold caller_from, caller_set, with_caller. cbn. by rewrite (op_from_cons _ _ x).
Qed.

Lemma push_params_eq types xs ys bs q h i h' xs' :
  params_ok types i xs → caller_has q i xs → Forall2 not_longer xs ys → length bs = length xs →
  writeback_loop h types i xs ys bs = Done (h', xs') →
  ∃ zs ips, push_params q h types i (params_sent types i xs) ys bs = Done (caller_from q i zs, h', ips) ∧
    put_loop types i ips zs = Done xs'.
Proof.
  revert ys bs q h i xs'. induction xs as [|x xs IH]; intros ys bs q h i xs' Hok Hat Hys Hbs.
  { cbn. intros [= <- <-]. exists [], []. split; [|done]. destruct Hat as (_&Hh).
    unfold caller_from, with_caller. rewrite op_from_nil by done. by destruct q. }
  apply params_ok_cons in Hok as [[Hx Hty] Hok]. apply Forall2_cons_inv_l in Hys as (y&ys'&Hy&Hys&->).
  destruct bs as [|b bs]; [done|]. cbn in Hbs. pose proof Hat as [Hat1 Hat2]%caller_has_cons.
  cbn [writeback_loop]. rewrite params_sent_cons. cbn [push_params]. rewrite ty_at_0.
  destruct (writeback_param h (ty_at types i 0) x y b) as [| |[h1 x1]] eqn:Hwb; [done..|].
  destruct (push_param_eq _ _ _ _ _ _ _ _ _ Hx Hty Hat1 Hy Hwb) as (z&ip&->&Hput). cbn [mbind outcome_bind].
  destruct (writeback_loop h1 types (i + 1) xs ys' bs) as [| |[h2 xs1]] eqn:Hloop; [done..|].
  cbn [mbind outcome_bind]. intros [= <- <-].
  assert (0 <= i) as Hi by apply Hat.
  destruct (IH ys' bs (caller_set q i z) h1 (i + 1) xs1) as (zs&ips&->&Hputs); try done; [|lia|].
  { destruct Hat2 as [Ho Hh]. split; [done|]. by apply op_has_set. }
  exists (z :: zs), (ip :: ips). rewrite (caller_from_cons _ _ x) by done. split; [done|]. cbn [put_loop].
  change (TEEC_PARAM_TYPE_GET types i) with (TEE_PARAM_TYPE_GET types i). rewrite ty_at_0, Hput.
  cbn [mbind outcome_bind]. by rewrite Hputs.
Qed.
End results.
End copies.

(** ** What the calls of the enclave leave in the queue *)

(** The same command, still to be answered or not. *)
Definition same_call (q q' : command_queue) : Prop :=
  q_command q' = q_command q ∧ q_operation q' = q_operation q ∧ q_invoking q' = q_invoking q.

#[export] Instance same_call_preorder : PreOrder same_call.
Proof. split; [by intros q|]. intros q1 q2 q3 (?&?&?) (?&?&?). unfold same_call. by split_and!; etrans. Qed.

Section keeps.
Context `{allocator}.
Variable sizeof_buf : Z.
Variable junk : byte.
#[local] Existing Instance queue_ocalls.

(** A result of any value. *)
Lemma may_any {A} (o : outcome A) : may o (fun _ => True).
Proof. by destruct o. Qed.

Lemma read_loop_keeps fuel q i size offset b :
  may (read_loop (H0 := queue_ocalls sizeof_buf) fuel q i size offset b) (fun r => r.1 = q).
Proof.
  revert q offset b. induction fuel as [|fuel IH]; intros q offset b; [done|]. cbn [read_loop].
  destruct (offset <? size); [|done]. apply may_bind.
  eapply (may_mono _ (fun r => r.1.1 = q)).
  { cbn. unfold read_invoke_param. apply may_bind. eapply may_mono; [apply may_any|]. intros [buffer n] _.
    destruct (n <? offset); [done|]. apply may_bind. eapply may_mono; [apply may_any|]. done. }
  intros [[q1 buf] n] Hq. cbn in Hq. subst q1. apply may_bind. eapply may_mono; [apply may_any|].
  intros bytes _. destruct (_ <=? _); [apply IH|done].
Qed.

Lemma pull_param_keeps q h ty i x :
  may (pull_param (H0 := queue_ocalls sizeof_buf) junk q h ty i x) (fun r => r.1.1.1 = q).
Proof.
  unfold pull_param. destruct (is_value_input ty); [done|]. destruct (is_memref_input ty).
  { apply may_bind. eapply may_mono; [apply may_any|]. intros [h1 block] _. apply may_bind.
    eapply may_mono; [apply read_loop_keeps|]. by intros [q1 b]. }
  destruct (ty =? TEE_PARAM_TYPE_MEMREF_OUTPUT).
  { apply may_bind. eapply may_mono; [apply may_any|]. by intros [h1 block]. }
  by destruct (ty =? TEE_PARAM_TYPE_VALUE_OUTPUT).
Qed.

Lemma pull_params_keeps types xs q h i :
  may (pull_params (H0 := queue_ocalls sizeof_buf) junk q h types i xs) (fun r => r.1.1.1 = q).
Proof.
  revert h i. induction xs as [|x xs IH]; intros h i; [done|]. cbn [pull_params]. apply may_bind.
  eapply may_mono; [apply pull_param_keeps|]. intros [[[q1 h1] y] b] Hq. cbn in Hq. subst q1.
  apply may_bind. eapply may_mono; [apply IH|]. by intros [[[q2 h2] ys] l].
Qed.

Lemma write_loop_keeps fuel q i size offset b :
  may (write_loop (H0 := queue_ocalls sizeof_buf) fuel q i size offset b) (same_call q).
Proof.
  revert q offset. induction fuel as [|fuel IH]; intros q offset; [done|]. cbn [write_loop].
  destruct (offset <? size); [|done]. apply may_bind. eapply may_mono; [apply may_any|].
  intros bytes _. apply may_bind. eapply (may_mono _ (same_call q)).
  { cbn. unfold write_invoke_param. apply may_bind. eapply may_mono; [apply may_any|]. intros [buffer n] _.
    destruct (n <? offset); [done|]. apply may_bind. eapply may_mono; [apply may_any|]. intros new _.
    apply may_bind. eapply may_mono; [apply may_any|]. done. }
  intros q1 Hq1. eapply may_mono; [apply IH|]. intros q2 Hq2. by etrans.
Qed.

Lemma push_param_keeps q h ty i x y block :
  may (push_param (H0 := queue_ocalls sizeof_buf) q h ty i x y block) (fun r => same_call q r.1.1).
Proof.
  unfold push_param. destruct (is_value_output ty); [by destruct y|]. destruct (is_memref_output ty).
  { destruct y; [done..|]. apply may_bind. eapply may_mono; [apply write_loop_keeps|]. intros q1 Hq1.
    apply may_bind. eapply may_mono; [apply may_any|]. done. }
  destruct (ty =? TEE_PARAM_TYPE_MEMREF_INPUT); [|done].
  apply may_bind. eapply may_mono; [apply may_any|]. done.
Qed.

Lemma push_params_keeps types xs ys l q h i :
  may (push_params (H0 := queue_ocalls sizeof_buf) q h types i xs ys l) (fun r => same_call q r.1.1).
Proof.
  revert ys l q h i. induction xs as [|x xs IH]; intros ys l q h i; [done|].
  destruct ys as [|y ys]; [done|]. destruct l as [|b l]; [done|]. cbn [push_params]. apply may_bind.
  eapply may_mono; [apply push_param_keeps|]. intros [[q1 h1] z] Hq1. apply may_bind.
  eapply may_mono; [apply IH|]. intros [[q2 h2] zs] Hq2. cbn in *. by etrans.
Qed.
End keeps.
