(* ===== verification/KeystoneTheorems.v ===== *)
(** * KeystoneTheorems: commands through the queue

    A command that goes through the queue has the result and the outputs it has in
    the PC build, and loses no memory; and the two threads together are a sequence
    of such calls: every call returns, with its own result. *)

From S2P Require Import Prelude Tcbor TcborFacts SuitTypes SuitParser SuitParserFacts.
From S2P Require Import SuitAuth SuitAuthFacts SuitContext SuitContextFacts.
From S2P Require Import SuitRunner SuitRunnerFacts SuitRunnerTheorems.
From S2P Require Import TeepMessage TeepMessageFacts TeepMessageTheorems TeepEncoder.
From S2P Require Import Tools Agent AgentFacts AgentTaskTheorems AgentSafety AgentCommands.
From S2P Require Import SuitTheorems TeeClient TeeClientFacts TeeClientTheorems AgentCall Keystone KeystoneFacts.

Local Open Scope Z_scope.

Section commands.
Context `{Hal : allocator, Hcr : crypto_api, !crypto_laws, Hqc : qcbor, !qcbor_laws}.
Context `{Hqe : qcbor_encoder, !qcbor_encoder_laws}.
Variable sizeof_buf : Z.
Variable junk : byte.
Variable p : platform.
Variable slot_addr : target_slot → Z.
Variable fuel : nat.
Hypothesis Hmem : ∀ n z, malloc_succeeds n z = true.
Hypothesis Hfuel : runner_fuel < Z.of_nat fuel.
Hypothesis Hbuf : 0 < sizeof_buf.

(** ** One command *)

(** A command the broker may give. *)
Definition call_ok (a : tee_client) (cmd : Z) (op : TEEC_Operation) : Prop :=
  cmd ≠ TEEP_AGENT_TA_EXIT ∧ operation_ok op = true ∧ known_op op = true ∧ client_ready slot_addr fuel a cmd op.

Definition op_sent (op : TEEC_Operation) : list invoke_param := params_sent (paramTypes op) 0 (op_params op).

(** The queue with a command in it, and with its result. *)
Definition commanded (cmd : Z) (op : TEEC_Operation) (r : Z) : command_queue :=
  CommandQueue (InvokeCommand cmd (paramTypes op) (op_sent op)) true op r true.
Definition answered (cmd : Z) (op op' : TEEC_Operation) (r : Z) : command_queue :=
  CommandQueue (InvokeCommand cmd (paramTypes op) (op_sent op)) false op' r false.

Lemma put_command q cmd op :
  operation_ok op = true → known_op op = true →
  put_invoke_command q cmd (Some op) = Done (commanded cmd op (q_command_result q)).
Proof.
  intros Hok Hk%Z.eqb_eq. unfold put_invoke_command. rewrite take_loop_ok; [done|].
  rewrite Hk. by apply operation_params_ok.
Qed.

(** The call is defined; the enclave performs it; the PC build does the same up to
    the copies of a command that failed. *)
Lemma call_spec frame a cmd op :
  client_safe frame a → call_ok a cmd op →
  wp (agent_call p slot_addr fuel a cmd op) (fun '(a', op', r) =>
    client_safe frame a' ∧ paramTypes op' = paramTypes op ∧
    (∀ r0, eapp_command (H0 := queue_ocalls sizeof_buf) junk p slot_addr fuel (commanded cmd op r0) a
       (q_command (commanded cmd op r0)) = Done (answered cmd op op' r, a')) ∧
    wp (TEEC_InvokeCommand p slot_addr fuel a cmd op) (pc_returns op a' op' r)).
Proof.
  intros Ha (_&Hok&Hk%Z.eqb_eq&Hready).
  destruct (call_runs p slot_addr fuel frame a cmd op Hmem Hfuel Ha Hok Hready)
    as (h&bs&block&s&g&s'&outs&h'&r&Hcall).
  rewrite (call_run_done _ _ _ _ _ _ _ _ _ _ _ _ _ _ _ _ Hcall). cbn [wp].
  split; [apply Hcall|]. split; [done|]. split; [|by eapply call_run_pc].
  intros r0. destruct Hcall as [Hprep Hlive Hrun Hback [Hbs _] Hlike _].
  pose proof (operation_params_ok op Hok) as Hp. unfold prepare_params, writeback_params in *.
  rewrite <-Hk in *. destruct (prepare_loop _ _ _ _) as [| |[[h0 ys] l0]] eqn:Hloop; [done..|].
  injection Hprep as -> -> ->. destruct (writeback_loop _ _ _ _ _ _) as [| |[h3 xs']] eqn:Hwb; [done..|].
  injection Hback as -> Hxs. set (q := commanded cmd op r0).
  assert (caller_has q 0 (op_params op)) as Hat by (split; [done|apply op_has_all]).
  unfold eapp_command. change (q_command q) with (InvokeCommand cmd (paramTypes op) (op_sent op)).
  cbn [ic_paramTypes ic_params ic_commandID]. unfold op_sent.
  rewrite (pull_params_eq sizeof_buf Hbuf junk q _ _ _ _ _ _ _ Hp Hat Hloop).
  cbn [mbind outcome_bind]. rewrite Hlive. cbn [mbind outcome_bind]. rewrite Hrun. cbn [mbind outcome_bind].
  destruct (push_params_eq sizeof_buf (paramTypes op) (op_params op) outs bs q (g_heap g) 0 h' xs' Hp Hat
    (likes_not_longer op outs Hok Hlike)) as (zs&ips&->&Hput); [|exact Hwb|].
  { rewrite Hbs. by apply operation_inv in Hok as [-> _]. }
  cbn -[put_loop]. change (take (Z.to_nat 0) (op_params op) ++ zs) with zs. rewrite Hput. cbn.
  unfold answered, returned_op. by rewrite <-Hxs.
Qed.

(** C8: A command the broker puts in the queue is performed by the enclave, for any
    size of the pieces, and the answer in the queue is the result and the
    operation with the outputs of the agent; no memory is lost, also if the command
    fails.  The PC build gives the same result, and after a success the same
    operation and the same state of the agent. *)
Theorem keystone_command_correct frame a cmd op q :
  client_safe frame a → call_ok a cmd op →
  ∃ a' op' r, client_safe frame a' ∧ paramTypes op' = paramTypes op ∧
    wp (put_invoke_command q cmd (Some op)) (fun q =>
      q_invoking q = true ∧ q_caller q = op ∧
      wp (eapp_command (H0 := queue_ocalls sizeof_buf) junk p slot_addr fuel q a (q_command q)) (fun '(q', a1) =>
        a1 = a' ∧ q_caller q' = op' ∧ pull_invoke_command_result q' = Some r)) ∧
    wp (TEEC_InvokeCommand p slot_addr fuel a cmd op) (pc_returns op a' op' r).
Proof.
  intros Ha Hok. destruct (wp_elim _ _ (call_spec frame a cmd op Ha Hok)) as ([[a' op'] r]&_&Ha'&Ht&Hrun&Hpc).
  exists a', op', r. split; [done|]. split; [done|]. split; [|done].
  destruct Hok as (_&Hop&Hk&_). rewrite put_command by done. cbn [wp]. split; [done|]. split; [done|].
  by rewrite Hrun.
Qed.

(** ** The two threads *)

(** Calls one after the other, the last one possibly the exit. *)
Inductive calls (a0 : tee_client) : list completed_call → tee_client → Prop :=
  | calls_nil : calls a0 [] a0
  | calls_command l a cmd op a' op' r :
      calls a0 l a → agent_call p slot_addr fuel a cmd op = Done (a', op', r) →
      calls a0 (l ++ [Completed cmd (Some op) r (Some op')]) a'
  | calls_exit l a a' :
      calls a0 l a → eapp_close a = Done a' →
      calls a0 (l ++ [Completed TEEP_AGENT_TA_EXIT None 0 None]) a'.

(** Executions in which the broker gives such commands, and the exit once. *)
Definition allowed (s : threads) (e : thread_event) : Prop :=
  match e with
  | CallCommand cmd (Some op) => call_ok (t_agent s) cmd op
  | CallCommand cmd None => cmd = TEEP_AGENT_TA_EXIT ∧ is_Some (session_ctx (t_agent s))
  | _ => True
  end.

Definition completed_by (e : thread_event) : list completed_call :=
  match e with ReturnCommand c => [c] | _ => [] end.

Definition is_call (e : thread_event) : bool := match e with CallCommand _ _ => true | _ => false end.

Definition step := thread_step sizeof_buf junk p slot_addr fuel.

Inductive execution (a0 : tee_client) : list completed_call → threads → Prop :=
  | execution_start q : q_invoking q = false → execution a0 [] (Threads q BrokerOutside EnclavePulling a0)
  | execution_step l s e s' :
      execution a0 l s → step s e s' → allowed s e → execution a0 (l ++ completed_by e) s'.

(** The rest of the work on a command, from each place of the enclave. *)
Definition rest (q : command_queue) (e : enclave_thread) (a : tee_client) : outcome (command_queue * tee_client) :=
  match e with
  | EnclaveServing c => eapp_command (H0 := queue_ocalls sizeof_buf) junk p slot_addr fuel q a c
  | EnclaveRunning c params l =>
      '(block, s) ← live_session (g_heap (c_globals a)) (session_ctx a);
      '(g, s, params, r) ← TA_InvokeCommandEntryPoint p slot_addr fuel (c_globals a) s
                              (ic_commandID c) (ic_paramTypes c) params;
      '(q, h, xs) ← push_params (H0 := queue_ocalls sizeof_buf) q (g_heap g) (ic_paramTypes c) 0 (ic_params c) params l;
      q ← put_invoke_command_result q (InvokeCommand (ic_commandID c) (ic_paramTypes c) xs) r;
      Done (q, Client (with_heap g h) (Some (block, s)))
  | EnclaveReturning c params l r =>
      '(q, h, xs) ← push_params (H0 := queue_ocalls sizeof_buf) q (g_heap (c_globals a)) (ic_paramTypes c) 0
                      (ic_params c) params l;
      q ← put_invoke_command_result q (InvokeCommand (ic_commandID c) (ic_paramTypes c) xs) r;
      Done (q, Client (with_heap (c_globals a) h) (session_ctx a))
  | EnclaveAnswering c r => q ← put_invoke_command_result q c r; Done (q, a)
  | EnclavePulling | EnclaveExited => Ub
  end.

(** At work on a command that is not the exit. *)
Definition working (e : enclave_thread) : Prop :=
  match e with
  | EnclaveServing c => ic_commandID c ≠ TEEP_AGENT_TA_EXIT
  | EnclavePulling | EnclaveExited => False
  | _ => True
  end.

(** How many steps the work takes. *)
Definition work_left (e : enclave_thread) : nat :=
  match e with
  | EnclaveServing _ => 4
  | EnclaveRunning _ _ _ => 3
  | EnclaveReturning _ _ _ _ => 2
  | EnclaveAnswering _ _ => 1
  | EnclavePulling | EnclaveExited => 0
  end.

(** A step of the work does its part of it, and only the last one touches what the
    broker waits for. *)
Lemma work_step q b e a ev q' b' e' a' :
  working e → step (Threads q b e a) ev (Threads q' b' e' a') → is_call ev = false → b' ≠ BrokerOutside →
  b' = b ∧ ev = Internal ∧
  (e' = EnclavePulling ∧ rest q e a = Done (q', a') ∧ work_left e = 1%nat ∨
   working e' ∧ rest q e a = rest q' e' a' ∧ same_call q q' ∧ work_left e = S (work_left e')).
Proof.
  intros Hw Hstep Hev Hb. inversion Hstep; subst; try done; (split; [done|]); (split; [done|]).
  - right. split; [done|]. cbn [rest]. unfold eapp_command.
    match goal with H : pull_params _ _ _ _ _ _ = Done _ |- _ =>
      pose proof (pull_params_keeps sizeof_buf junk (ic_paramTypes c) (ic_params c) q (g_heap (c_globals a)) 0) as Hkeep;
      rewrite H in Hkeep |- * end.
    cbn in Hkeep. subst q'. done.
  - right. split; [done|]. cbn [rest].
    match goal with H : live_session _ _ = Done _ |- _ => rewrite H end. cbn [mbind outcome_bind].
    match goal with H : TA_InvokeCommandEntryPoint _ _ _ _ _ _ _ _ = Done _ |- _ => rewrite H end. done.
  - right. split; [done|]. cbn [rest].
    match goal with H : push_params _ _ _ _ _ _ _ = Done _ |- _ =>
      pose proof (push_params_keeps sizeof_buf (ic_paramTypes c) (ic_params c) params l q (g_heap (c_globals a)) 0) as Hkeep;
      rewrite H in Hkeep |- * end.
    done.
  - left. split; [done|]. cbn [rest].
    by match goal with H : put_invoke_command_result _ _ _ = Done _ |- _ => rewrite H end.
Qed.

(** Work that is defined goes on. *)
Lemma work_goes_on q b e a res :
  working e → rest q e a = Done res → ∃ s', step (Threads q b e a) Internal s'.
Proof.
  intros Hw. destruct e as [|c|c params l|c params l r|c r|]; try done; cbn [rest].
  - unfold eapp_command. destruct (pull_params _ _ _ _ _ _) as [| |[[[q' h] params] l]] eqn:He; [done..|].
    intros _. eexists. by eapply step_copy_in.
  - destruct (live_session _ _) as [| |[block s]] eqn:Hl; [done..|]. cbn [mbind outcome_bind].
    destruct (TA_InvokeCommandEntryPoint _ _ _ _ _ _ _ _) as [| |[[[g s'] params'] r]] eqn:He; [done..|].
    intros _. eexists. by eapply step_run.
  - destruct (push_params _ _ _ _ _ _ _) as [| |[[q' h] xs]] eqn:He; [done..|].
    intros _. eexists. by eapply step_copy_out.
  - destruct (put_invoke_command_result _ _ _) as [| |q'] eqn:He; [done..|].
    intros _. eexists. by eapply step_answer.
Qed.

(** The state of both threads between the calls that returned and the next: [a] is
    the agent after those. *)
Inductive phase (frame : list nat) (a : tee_client) : threads → Prop :=
  | phase_outside q : q_invoking q = false → client_safe frame a →
      phase frame a (Threads q BrokerOutside EnclavePulling a)
  | phase_put cmd op r : client_safe frame a → call_ok a cmd op →
      phase frame a (Threads (commanded cmd op r) (BrokerWaiting cmd (Some op)) EnclavePulling a)
  | phase_working cmd op a' op' r q e a1 :
      agent_call p slot_addr fuel a cmd op = Done (a', op', r) → client_safe frame a' →
      q_invoking q = true → working e → rest q e a1 = Done (answered cmd op op' r, a') →
      phase frame a (Threads q (BrokerWaiting cmd (Some op)) e a1)
  | phase_answered cmd op a' op' r : agent_call p slot_addr fuel a cmd op = Done (a', op', r) → client_safe frame a' →
      phase frame a (Threads (answered cmd op op' r) (BrokerWaiting cmd (Some op)) EnclavePulling a')
  | phase_exit q e : client_safe frame a → q_invoking q = true → q_operation q = false →
      q_command q = InvokeCommand TEEP_AGENT_TA_EXIT 0 no_params →
      e = EnclavePulling ∨ e = EnclaveServing (q_command q) →
      phase frame a (Threads q (BrokerWaiting TEEP_AGENT_TA_EXIT None) e a)
  | phase_exited q a' : eapp_close a = Done a' → q_invoking q = false → q_command_result q = 0 →
      session_ctx a' = None →
      phase frame a (Threads q (BrokerWaiting TEEP_AGENT_TA_EXIT None) EnclaveExited a')
  | phase_closed q : q_invoking q = false → session_ctx a = None →
      phase frame a (Threads q BrokerOutside EnclaveExited a).

Lemma closed_session a a' : eapp_close a = Done a' → session_ctx a' = None.
Proof. unfold eapp_close. destruct (TA_CloseSessionEntryPoint _ _); [done..|]. by intros [= <-]. Qed.

(** The first step of a command. *)
Lemma served frame a cmd op r :
  client_safe frame a → call_ok a cmd op →
  ∃ a' op' r', agent_call p slot_addr fuel a cmd op = Done (a', op', r') ∧ client_safe frame a' ∧
    rest (commanded cmd op r) (EnclaveServing (q_command (commanded cmd op r))) a = Done (answered cmd op op' r', a').
Proof.
  intros Ha Hok. destruct (wp_elim _ _ (call_spec frame a cmd op Ha Hok)) as ([[a' op'] r']&Hcall&Ha'&_&Hserve&_).
  exists a', op', r'. split; [done|]. split; [done|]. exact (Hserve r).
Qed.

(** Steps while the enclave works. *)
Lemma phase_work_step frame a cmd op a' op' r q e a1 ev s' :
  agent_call p slot_addr fuel a cmd op = Done (a', op', r) → client_safe frame a' → q_invoking q = true →
  working e → rest q e a1 = Done (answered cmd op op' r, a') →
  step (Threads q (BrokerWaiting cmd (Some op)) e a1) ev s' →
  completed_by ev = [] ∧ phase frame a s' ∧ (work_left (t_enclave s') < work_left e)%nat ∧
  (t_enclave s' = EnclavePulling → q_invoking (t_queue s') = false).
Proof.
  intros Hcall Ha' Hinv Hw Hrest Hstep.
  assert (is_call ev = false ∧ t_broker s' ≠ BrokerOutside) as [Hev Hb].
  { inversion Hstep; subst; try done. unfold pull_invoke_command_result in *. by rewrite Hinv in *. }
  destruct s' as [q' b' e' a2].
  destruct (work_step _ _ _ _ _ _ _ _ _ Hw Hstep Hev Hb) as (->&->&[(->&Hend&Hleft)|(Hw'&Heq&(_&_&Hq)&Hleft)]).
  - rewrite Hend in Hrest. injection Hrest as -> ->. split; [done|]. split; [by apply phase_answered|].
    split; [rewrite Hleft; cbn; lia|done].
  - split; [done|]. cbn. split; [|split; [lia|by intros ->]].
    eapply phase_working; [done|done|congruence|done|congruence].
Qed.

(** Every step stays in a phase, and a return ends a call. *)
Lemma phase_step frame a0 l a s e s' :
  calls a0 l a → phase frame a s → step s e s' → allowed s e →
  ∃ a', calls a0 (l ++ completed_by e) a' ∧ phase frame a' s'.
Proof.
  intros Hcalls Hph Hstep Hall.
  destruct Hph as [q Hq Ha|cmd op r Ha Hok|cmd op a' op' r q en a1 Hcall Ha' Hq Hw Hrest|cmd op a' op' r Hcall Ha'|
    q en Ha Hq Hop Hcmd Hen|q a' Hclose Hq Hr Hs|q Hq Hs].
  - inversion Hstep as [? q' ? ? cmd op Hput|? ? ? c Hpull| | | | | |]; subst; cbn in *.
    + exists a. rewrite app_nil_r. split; [done|]. destruct op as [op|].
      * rewrite put_command in Hput by apply Hall. injection Hput as <-. by apply phase_put.
      * destruct Hall as [-> _]. injection Hput as <-. by apply phase_exit; [..|left].
    + unfold pull_invoke_command in Hpull. by rewrite Hq in Hpull.
  - inversion Hstep as [|? ? ? c Hpull| | | | | |? ? ? ? ? r' Hres]; subst; cbn in *; [|done].
    exists a. rewrite app_nil_r. split; [done|]. injection Hpull as <-.
    destruct (served frame a cmd op r Ha Hok) as (a'&op'&r'&Hcall&Ha'&Hrest).
    eapply phase_working; [done|done|done|by destruct Hok|done].
  - destruct (phase_work_step _ _ _ _ _ _ _ _ _ _ _ _ Hcall Ha' Hq Hw Hrest Hstep) as (->&Hph&_).
    exists a. by rewrite app_nil_r.
  - inversion Hstep as [|? ? ? c Hpull| | | | | |? ? ? ? ? r' Hres]; subst; cbn in *; [done|].
    injection Hres as <-. eexists. split; [by eapply calls_command|]. by apply phase_outside.
  - destruct Hen as [->| ->].
    + inversion Hstep as [|? ? ? c Hpull| | | | | |? ? ? ? ? r' Hres]; subst; cbn in *.
      * unfold pull_invoke_command in Hpull. rewrite Hq in Hpull. injection Hpull as <-.
        exists a. rewrite app_nil_r. split; [done|]. by apply phase_exit; [..|right].
      * unfold pull_invoke_command_result in Hres. by rewrite Hq in Hres.
    + inversion Hstep as [| |? ? ? ? ? ? ? ? Hne| | | |? q' ? ? a2 ? _ Hput Hclose|? ? ? ? ? r' Hres]; subst; cbn in *.
      * by rewrite Hcmd in Hne.
      * exists a. rewrite app_nil_r. split; [done|]. unfold put_invoke_command_result in Hput.
        rewrite Hop, Hcmd in Hput. injection Hput as <-. apply phase_exited; try done. by eapply closed_session.
      * unfold pull_invoke_command_result in Hres. by rewrite Hq in Hres.
  - inversion Hstep as [| | | | | | |? ? ? ? ? r' Hres]; subst; cbn in *.
    unfold pull_invoke_command_result in Hres. rewrite Hq in Hres. injection Hres as <-. rewrite Hr.
    eexists. split; [by eapply calls_exit|]. by apply phase_closed.
  - inversion Hstep as [? q' ? ? cmd op Hput| | | | | | |]; subst; cbn in *. destruct op as [op|].
    + destruct Hall as (_&_&_&Hready). unfold client_ready in Hready. by rewrite Hs in Hready.
    + destruct Hall as [_ [? Hs']]. congruence.
Qed.

Lemma execution_phase frame a0 l s :
  client_safe frame a0 → execution a0 l s → ∃ a, calls a0 l a ∧ phase frame a s.
Proof.
  intros Ha0. induction 1 as [q Hq|l s e s' _ (a&Hcalls&Hph) Hstep Hall].
  - exists a0. split; [constructor|]. by apply phase_outside.
  - by eapply phase_step.
Qed.

(** The steps until the broker has its result. *)
Definition steps_left (s : threads) : nat :=
  match t_broker s with
  | BrokerOutside => 0
  | BrokerWaiting _ _ =>
      if q_invoking (t_queue s) then
        match t_enclave s with EnclavePulling => 6 | e => S (work_left e) end
      else 1
  end.

(** While the broker waits some thread can go on, and each step brings the result
    closer. *)
Lemma phase_progress frame a s :
  phase frame a s → t_broker s ≠ BrokerOutside → ∃ e s', step s e s' ∧ is_call e = false.
Proof.
  intros Hph Hb.
  destruct Hph as [|cmd op r Ha Hok|cmd op a' op' r q e a1 Hcall Ha' Hq Hw Hrest|cmd op a' op' r _ _|
    q e Ha Hq Hop Hcmd Hen|q a' Hclose Hq Hr _|]; [done| | | | | |done].
  - do 2 eexists. split; [by apply step_pull|done].
  - destruct (work_goes_on q (BrokerWaiting cmd (Some op)) e a1 _ Hw Hrest) as [s' Hstep].
    by exists Internal, s'.
  - do 2 eexists. split; [by apply step_return|done].
  - destruct Hen as [->| ->].
    + do 2 eexists. split; [apply step_pull; unfold pull_invoke_command; by rewrite Hq|done].
    + destruct Ha as (block&s&Hs&Hi). destruct (wp_elim _ _ (close_session_spec frame _ _ _ Hi)) as (h&Hclose&_).
      assert (eapp_close a = Done (Client (with_heap (c_globals a) h) None)) as Hc.
      { unfold eapp_close. by rewrite Hs, Hclose. }
      do 2 eexists. split; [eapply step_exit; [by rewrite Hcmd| |exact Hc]|done].
      unfold put_invoke_command_result. by rewrite Hop, Hcmd.
  - do 2 eexists. split; [apply step_return; unfold pull_invoke_command_result; by rewrite Hq|done].
Qed.

Lemma phase_steps frame a s e s' :
  phase frame a s → step s e s' → is_call e = false → (steps_left s' < steps_left s)%nat.
Proof.
  intros Hph Hstep He.
  destruct Hph as [q Hq Ha|cmd op r Ha Hok|cmd op a' op' r q en a1 Hcall Ha' Hq Hw Hrest|cmd op a' op' r Hcall Ha'|
    q en Ha Hq Hop Hcmd Hen|q a' Hclose Hq Hr Hs|q Hq Hs].
  - inversion Hstep as [|? ? ? c Hpull| | | | | |]; subst; cbn in *; [done|].
    unfold pull_invoke_command in Hpull. by rewrite Hq in Hpull.
  - inversion Hstep as [|? ? ? c Hpull| | | | | |? ? ? ? ? r' Hres]; subst; cbn in *; [lia|done].
  - destruct (phase_work_step _ _ _ _ _ _ _ _ _ _ _ _ Hcall Ha' Hq Hw Hrest Hstep) as (_&_&Hleft&Hpull).
    destruct s' as [q' b' e' a2]. unfold steps_left. cbn in *. rewrite Hq.
    assert (steps_left (Threads q' b' e' a2) ≤ S (work_left e'))%nat as Hle.
    { unfold steps_left. cbn. destruct b'; [lia|]. destruct (q_invoking q') eqn:Hi; [|lia].
      destruct e'; cbn; try lia. by specialize (Hpull eq_refl). }
    unfold steps_left in Hle. cbn in Hle. destruct en; cbn in *; try done; lia.
  - inversion Hstep as [|? ? ? c Hpull| | | | | |]; subst; cbn in *; [done|lia].
  - destruct Hen as [->| ->].
    + inversion Hstep as [|? ? ? c Hpull| | | | | |? ? ? ? ? r' Hres]; subst; unfold steps_left; cbn in *;
        rewrite Hq; lia.
    + inversion Hstep as [| |? ? ? ? ? ? ? ? Hne| | | |? q' ? ? a2 ? _ Hput Hclose|? ? ? ? ? r' Hres]; subst; cbn in *.
      * by rewrite Hcmd in Hne.
      * unfold put_invoke_command_result in Hput. rewrite Hop, Hcmd in Hput. injection Hput as <-.
        unfold steps_left. cbn. rewrite Hq. lia.
      * unfold steps_left. cbn. rewrite Hq. lia.
  - inversion Hstep as [| | | | | | |? ? ? ? ? r' Hres]; subst; unfold steps_left; cbn in *. rewrite Hq. lia.
  - inversion Hstep; subst; done.
Qed.

(** C7: Whatever the order in which the two threads run, the commands of the broker
    are answered as if they were calls of the agent, one after the other: each
    returns, after at most six more steps and without a deadlock, its own result and its
    own outputs.  From the pull of a command until its result is in the queue the
    broker waits and cannot go on, so nothing else touches the operation while the
    enclave reads and writes its parameters. *)
Theorem keystone_threads_refine frame a0 l s :
  client_safe frame a0 → execution a0 l s →
  (∃ a, calls a0 l a ∧ (t_broker s = BrokerOutside → t_agent s = a)) ∧
  (t_enclave s ≠ EnclavePulling → t_enclave s ≠ EnclaveExited →
     t_broker s ≠ BrokerOutside ∧ pull_invoke_command_result (t_queue s) = None) ∧
  (t_broker s ≠ BrokerOutside → ∃ e s', step s e s' ∧ is_call e = false) ∧
  (steps_left s ≤ 6)%nat ∧
  (∀ e s', step s e s' → is_call e = false → (steps_left s' < steps_left s)%nat).
Proof.
  intros Ha0 Hex. destruct (execution_phase _ _ _ _ Ha0 Hex) as (a&Hcalls&Hph). split_and!.
  - exists a. split; [done|]. by destruct Hph.
  - intros Hp Hx. unfold pull_invoke_command_result.
    destruct Hph as [| |? ? ? ? ? ? ? ? ? ? Hq ? ?| |? ? ? Hq| |]; cbn in *; try done; by rewrite Hq.
  - by apply (phase_progress frame a).
  - unfold steps_left. repeat case_match; cbn; lia.
  - intros e s'. by apply (phase_steps frame a).
Qed.
End commands.

(** ** Concrete uses *)

#[local] Existing Instances always_malloc empty_encoder toy_crypto.
Definition idle_qcbor : qcbor := script_qcbor [].
#[local] Existing Instance idle_qcbor.

Definition empty_queue : command_queue :=
  CommandQueue (InvokeCommand 0 0 no_params) false (Operation 0 []) 0 false.

Lemma option_call_ok : call_ok (fun _ => 0) enough_fuel blank_client 99 option_operation.
Proof. split; [done|]. split; [by vm_compute|]. split; [by vm_compute|exact I]. Qed.

(** A command the agent does not know, in pieces of one byte. *)
Lemma keystone_command_correct_witness :
  ∃ a' op' r, client_safe [] a' ∧
    wp (put_invoke_command empty_queue 99 (Some option_operation)) (fun q =>
      wp (eapp_command (H0 := queue_ocalls 1) x00 PLAT_KEYSTONE (fun _ => 0) enough_fuel q blank_client (q_command q))
        (fun '(q', a1) => a1 = a' ∧ q_caller q' = op' ∧ pull_invoke_command_result q' = Some r)).
Proof.
  destruct (@keystone_command_correct always_malloc toy_crypto toy_laws idle_qcbor (script_laws [])
    empty_encoder empty_encoder_laws 1 x00 PLAT_KEYSTONE (fun _ => 0) enough_fuel (fun _ _ => eq_refl)
    enough_fuel_ok ltac:(lia) [] blank_client 99 option_operation empty_queue blank_client_safe option_call_ok)
    as (a'&op'&r&Ha'&_&Hrun&_).
  exists a', op', r. split; [exact Ha'|]. eapply wp_mono; [exact Hrun|]. intros q (_&_&Hq). exact Hq.
Defined.

Definition demo_step := step 1 x00 PLAT_KEYSTONE (fun _ => 0) enough_fuel.
Definition demo_execution := execution 1 x00 PLAT_KEYSTONE (fun _ => 0) enough_fuel.

(** The threads after the broker called and the enclave pulled the command. *)
Lemma demo_serving :
  demo_execution blank_client []
    (Threads (commanded 99 option_operation 0) (BrokerWaiting 99 (Some option_operation))
       (EnclaveServing (q_command (commanded 99 option_operation 0))) blank_client).
Proof.
  change (@nil completed_call) with (([] ++ completed_by (CallCommand 99 (Some option_operation))) ++ completed_by Internal).
  eapply execution_step; [eapply execution_step; [by apply (execution_start _ _ _ _ _ _ empty_queue)| |]| |done].
  - apply step_put. by apply (put_command empty_queue).
  - exact option_call_ok.
  - by apply step_pull.
Qed.

(** There the enclave works, the broker waits, and a step of the enclave is next. *)
Lemma keystone_threads_refine_witness :
  ∃ s, demo_execution blank_client [] s ∧ t_broker s ≠ BrokerOutside ∧
    pull_invoke_command_result (t_queue s) = None ∧ ∃ e s', demo_step s e s' ∧ (steps_left s' < 5)%nat.
Proof.
  destruct (@keystone_threads_refine always_malloc toy_crypto toy_laws idle_qcbor (script_laws [])
    empty_encoder empty_encoder_laws 1 x00 PLAT_KEYSTONE (fun _ => 0) enough_fuel (fun _ _ => eq_refl)
    enough_fuel_ok ltac:(lia) [] blank_client [] _ blank_client_safe demo_serving)
    as (_&Hwaits&Hprogress&_&Hless).
  eexists. split; [exact demo_serving|].
  destruct (Hwaits ltac:(discriminate) ltac:(discriminate)) as [Hb Hpull].
  split; [exact Hb|]. split; [exact Hpull|]. destruct (Hprogress Hb) as (e&s'&Hstep&He).
  exists e, s'. split; [exact Hstep|]. exact (Hless e s' Hstep He).
Defined.

(** ** Hosts that do not keep to the protocol

    The enclave takes the size of a piece from the host: one that is too long
    overflows the block of the parameter, and one that is empty keeps the enclave
    in the loop for ever. *)

Definition long_pieces : ocalls := {|
  host := unit;
  ocall_read_invoke_param w _ _ := Done (w, [x61; x62], 2);
  ocall_write_invoke_param w _ _ _ _ := Done w;
  ocall_put_invoke_command_result w _ _ := Done w
|}.

Definition empty_pieces : ocalls := {|
  host := unit;
  ocall_read_invoke_param w _ _ := Done (w, [], 0);
  ocall_write_invoke_param w _ _ _ _ := Done w;
  ocall_put_invoke_command_result w _ _ := Done w
|}.

Lemma long_piece_overflows h :
  pull_param (H0 := long_pieces) x00 tt h TEE_PARAM_TYPE_MEMREF_INPUT 0 (InvokeParam 0 0 1) = Ub.
Proof. reflexivity. Qed.

Lemma empty_pieces_forever fuel size b :
  0 < size → read_loop (H0 := empty_pieces) fuel tt 0 size 0 b = NoFuel.
Proof.
  intros Hs. revert b. induction fuel as [|fuel IH]; intros b; [done|]. cbn.
  destruct (Z.ltb_spec 0 size); [|lia]. cbn [mbind outcome_bind].
  change (load_bytes [] 0 0) with (@Done (list byte) []). cbn [mbind outcome_bind].
  destruct (Z.leb_spec (0 + 0) (Z.of_nat (length b))); [|lia]. apply IH.
Qed.
