(* ===== verification/Sgx.v ===== *)
(** * Sgx: commands into an SGX enclave

    In the SGX build the client library ([teec-sgx.cpp]) hands the enclave pointers
    into the operation of the caller, and the entry point of the enclave
    ([ecall_TA_InvokeCommandEntryPoint] of [teep-agent-ta.c]) checks that they
    point outside of the enclave, copies the parameters in, runs the agent and
    copies them out.  The memory of the host is the class [host_memory]: the host
    runs at the same time, so an access may find it changed, and an access that
    leaves what the pointer may be used for is undefined.  The memory of the
    library is an instance.  Creating the enclave is in SgxHost; the generated
    code around the entry points is left out. *)

From S2P Require Import Prelude Tcbor SuitTypes SuitParser SuitAuth SuitContext SuitRunner.
From S2P Require Import TeepMessage TeepEncoder Tools Agent TeeClient.

Local Open Scope Z_scope.

(** ** Memory of the host *)

Class host_memory := {
  hm : Type;
  hptr : Type;
  hm_null : hptr → bool;
  sgx_is_outside_enclave : hptr → Z → bool;
  (** Numbers of some bytes behind a pointer. *)
  hm_load : hm → hptr → Z → outcome (hm * Z);
  hm_store : hm → hptr → Z → Z → outcome hm;
  (** Bytes behind a pointer. *)
  hm_read : hm → hptr → Z → outcome (hm * list byte);
  hm_write : hm → hptr → list byte → outcome hm
}.

Definition sizeof_uint32_t : Z := 4.
Definition sizeof_size_t : Z := 8.

(** [struct command_param]. *)
Record command_param `{host_memory} := CommandParam {
  cp_a : hptr;
  cp_b : hptr;
  cp_size : hptr;
  cp_p : hptr
}.

(** ** The entry point *)

Section enclave.
Context `{Hhm : host_memory, Hal : allocator}.

(** [CHECK_UNIQUE_POINTER]: a null pointer passes. *)
Definition CHECK_UNIQUE_POINTER (ptr : hptr) (siz : Z) : bool :=
  hm_null ptr || sgx_is_outside_enclave ptr siz.

Definition is_value (ty : Z) : bool := is_value_input ty || is_value_output ty.

(** One round of the loop of checks; [*p[i].size] is only read for a pointer that is
    not null.  It is a [size_t], of which only four bytes are checked. *)
Definition check_param (w : hm) (ty : Z) (x : command_param) : outcome (hm * bool) :=
  if ty =? TEE_PARAM_TYPE_NONE then Done (w, true)
  else if is_value ty then
    Done (w, CHECK_UNIQUE_POINTER (cp_a x) sizeof_uint32_t && CHECK_UNIQUE_POINTER (cp_b x) sizeof_uint32_t)
  else if is_memref_input ty || is_memref_output ty then
    if negb (CHECK_UNIQUE_POINTER (cp_size x) sizeof_uint32_t) then Done (w, false)
    else if hm_null (cp_p x) then Done (w, true)
    else '(w, n) ← hm_load w (cp_size x) sizeof_size_t; Done (w, sgx_is_outside_enclave (cp_p x) n)
  else Done (w, false).

Fixpoint check_params (w : hm) (types i : Z) (xs : list command_param) : outcome (hm * bool) :=
  match xs with
  | [] => Done (w, true)
  | x :: xs =>
      '(w, ok) ← check_param w (TEE_PARAM_TYPE_GET types i) x;
      if ok : bool then check_params w types (i + 1) xs else Done (w, false)
  end.

(** One round of the loop that copies in; the size is read again. *)
Definition in_param (w : hm) (h : heap) (ty : Z) (x : command_param)
    : outcome (hm * heap * TEE_Param * option nat) :=
  if is_value_input ty then
    '(w, a) ← hm_load w (cp_a x) sizeof_uint32_t;
    '(w, b) ← hm_load w (cp_b x) sizeof_uint32_t;
    Done (w, h, ParamValue a b, None)
  else if is_memref_input ty then
    '(w, n) ← hm_load w (cp_size x) sizeof_size_t;
    let size := to_u32 n in
    '(h, block) ← filled_block h size;
    '(w, bytes) ← hm_read w (cp_p x) size;
    Done (w, h, ParamMemref bytes size, block)
  else if ty =? TEE_PARAM_TYPE_MEMREF_OUTPUT then
    '(w, n) ← hm_load w (cp_size x) sizeof_size_t;
    let size := to_u32 n in
    '(h, block) ← filled_block h size;
    Done (w, h, ParamMemref (replicate (Z.to_nat size) x00) size, block)
  else if ty =? TEE_PARAM_TYPE_VALUE_OUTPUT then Done (w, h, ParamValue 0 0, None)
  else Done (w, h, ParamNone, None).

Fixpoint in_params (w : hm) (h : heap) (types i : Z) (xs : list command_param)
    : outcome (hm * heap * list TEE_Param * list (option nat)) :=
  match xs with
  | [] => Done (w, h, [], [])
  | x :: xs =>
      '(w, h, y, block) ← in_param w h (TEE_PARAM_TYPE_GET types i) x;
      '(w, h, ys, l) ← in_params w h types (i + 1) xs;
      Done (w, h, y :: ys, block :: l)
  end.

(** [memcpy_s] of the SGX library: nothing for a null destination, zeros if the
    destination is too small. *)
Definition memcpy_s (w : hm) (dst : hptr) (dst_size : Z) (src : list byte) (count : Z) : outcome hm :=
  if (count =? 0) || hm_null dst then Done w
  else if dst_size <? count then hm_write w dst (replicate (Z.to_nat dst_size) x00)
  else bytes ← load_bytes src 0 count; hm_write w dst bytes.

(** [memcpy_s] of a [uint32_t]. *)
Definition memcpy_s_number (w : hm) (dst : hptr) (v : Z) : outcome hm :=
  if hm_null dst then Done w else hm_store w dst sizeof_uint32_t v.

(** One round of the loop that copies out; the size is read a third time. *)
Definition out_param (w : hm) (h : heap) (ty : Z) (x : command_param) (y : TEE_Param)
    (block : option nat) : outcome (hm * heap) :=
  if is_value_output ty then
    match y with
    | ParamValue a b =>
        w ← memcpy_s_number w (cp_a x) a; w ← memcpy_s_number w (cp_b x) b; Done (w, h)
    | _ => Ub
    end
  else if is_memref_output ty then
    match y with
    | ParamMemref buffer size =>
        '(w, n) ← hm_load w (cp_size x) sizeof_size_t;
        w ← memcpy_s w (cp_p x) n buffer size;
        w ← memcpy_s_number w (cp_size x) size;
        h ← free h block; Done (w, h)
    | _ => Ub
    end
  else if ty =? TEE_PARAM_TYPE_MEMREF_INPUT then
    h ← free h block; Done (w, h)
  else Done (w, h).

Fixpoint out_params (w : hm) (h : heap) (types i : Z) (xs : list command_param) (ys : list TEE_Param)
    (l : list (option nat)) : outcome (hm * heap) :=
  match xs, ys, l with
  | x :: xs, y :: ys, block :: l =>
      '(w, h) ← out_param w h (TEE_PARAM_TYPE_GET types i) x y block;
      out_params w h types (i + 1) xs ys l
  | _, _, _ => Done (w, h)
  end.

(** The session is the static variable [session] of the enclave. *)
Definition ecall_TA_OpenSessionEntryPoint (sizeof_session : Z) (garbage : teep_agent_session) (a : tee_client)
    : tee_client * Z :=
  let '(h, s, r) := TA_OpenSessionEntryPoint sizeof_session (g_heap (c_globals a)) 0 garbage in
  (Client (with_heap (c_globals a) h) (match s with Some _ => s | None => session_ctx a end), r).

Definition ecall_TA_CloseSessionEntryPoint (a : tee_client) : outcome tee_client :=
  h ← TA_CloseSessionEntryPoint (g_heap (c_globals a)) (session_ctx a);
  Done (Client (with_heap (c_globals a) h) (session_ctx a)).

Context `{qcbor, qcbor_encoder, crypto_api}.
Variable plat : platform.
Variable slot_addr : target_slot → Z.
Variable fuel : nat.

Definition ecall_TA_InvokeCommandEntryPoint (w : hm) (a : tee_client) (cmd_id types : Z)
    (p : list command_param) : outcome (hm * tee_client * Z) :=
  '(w, ok) ← check_params w types 0 p;
  if negb ok then Done (w, a, TEE_ERROR_BAD_PARAMETERS)
  else
    '(w, h, params, l) ← in_params w (g_heap (c_globals a)) types 0 p;
    '(block, s) ← live_session h (session_ctx a);
    '(g, s, params, r) ← TA_InvokeCommandEntryPoint plat slot_addr fuel (with_heap (c_globals a) h) s
                            cmd_id types params;
    '(w, h) ← out_params w (g_heap g) types 0 p params l;
    Done (w, Client (with_heap g h) (Some (block, s)), r).
End enclave.

(** ** The client library

    The memory of the host that the library uses is the operation of the caller. *)

Inductive op_pointer :=
  | NullPointer
  | ValueA (i : Z)
  | ValueB (i : Z)
  | TmprefSize (i : Z)
  | TmprefBuffer (i : Z).

Definition op_param (op : TEEC_Operation) (i : Z) : outcome TEEC_Parameter :=
  match op_params op !! Z.to_nat i with Some x => Done x | None => Ub end.

Definition op_load (op : TEEC_Operation) (ptr : op_pointer) (n : Z) : outcome (TEEC_Operation * Z) :=
  match ptr with
  | ValueA i =>
      if negb (n =? sizeof_uint32_t) then Ub
      else x ← op_param op i; '(a, _) ← value_member x; Done (op, a)
  | ValueB i =>
      if negb (n =? sizeof_uint32_t) then Ub
      else x ← op_param op i; '(_, b) ← value_member x; Done (op, b)
  | TmprefSize i =>
      if negb (n =? sizeof_size_t) then Ub
      else x ← op_param op i; '(_, size) ← tmpref_member x; Done (op, size)
  | _ => Ub
  end.

(** A value stored over a reference makes it a value, whose other number is not
    known until it is stored, too; it is 0 here.  Of a size the lower half is
    stored. *)
Definition op_store (op : TEEC_Operation) (ptr : op_pointer) (n v : Z) : outcome TEEC_Operation :=
  if negb (n =? sizeof_uint32_t) then Ub
  else
    match ptr with
    | ValueA i =>
        x ← op_param op i;
        Done (set_param op i (match x with ValueParameter _ b => ValueParameter v b | _ => ValueParameter v 0 end))
    | ValueB i =>
        x ← op_param op i;
        Done (set_param op i (match x with ValueParameter a _ => ValueParameter a v | _ => ValueParameter 0 v end))
    | TmprefSize i =>
        x ← op_param op i;
        '(buffer, size) ← tmpref_member x;
        Done (set_param op i (TempMemoryReference buffer (size - to_u32 size + v)))
    | _ => Ub
    end.

Definition op_read (op : TEEC_Operation) (ptr : op_pointer) (n : Z) : outcome (TEEC_Operation * list byte) :=
  match ptr with
  | TmprefBuffer i =>
      x ← op_param op i; '(buffer, _) ← tmpref_member x; bytes ← copy_from buffer n; Done (op, bytes)
  | NullPointer => bytes ← copy_from None n; Done (op, bytes)
  | _ => Ub
  end.

Definition op_write (op : TEEC_Operation) (ptr : op_pointer) (bytes : list byte) : outcome TEEC_Operation :=
  match ptr with
  | TmprefBuffer i =>
      x ← op_param op i; '(buffer, size) ← tmpref_member x; new ← copy_to buffer bytes;
      Done (set_param op i (TempMemoryReference new size))
  | _ => Ub
  end.

(** The broker is not part of the enclave. *)
#[export] Instance op_memory : host_memory := {|
  hm := TEEC_Operation;
  hptr := op_pointer;
  hm_null ptr := match ptr with NullPointer => true | _ => false end;
  sgx_is_outside_enclave _ _ := true;
  hm_load := op_load;
  hm_store := op_store;
  hm_read := op_read;
  hm_write := op_write
|}.

(** One round of the second loop of [prepare_params]. *)
Definition point_param (ty i : Z) (x : TEEC_Parameter) : outcome command_param :=
  if is_value ty then Done (CommandParam op_memory (ValueA i) (ValueB i) NullPointer NullPointer)
  else if is_memref_input ty || is_memref_output ty then
    '(buffer, _) ← tmpref_member x;
    Done (CommandParam op_memory NullPointer NullPointer (TmprefSize i)
            (match buffer with Some _ => TmprefBuffer i | None => NullPointer end))
  else Done (CommandParam op_memory NullPointer NullPointer NullPointer NullPointer).

Fixpoint point_params (types i : Z) (xs : list TEEC_Parameter) : outcome (list command_param) :=
  match xs with
  | [] => Done []
  | x :: xs =>
      y ← point_param (TEE_PARAM_TYPE_GET types i) i x;
      ys ← point_params types (i + 1) xs;
      Done (y :: ys)
  end.

Section client.
Context `{allocator}.

(** The result of the entry point is not looked at. *)
Definition sgx_OpenSession (sizeof_session : Z) (garbage : teep_agent_session) (a : tee_client)
    : tee_client * Z :=
  ((ecall_TA_OpenSessionEntryPoint sizeof_session garbage a).1, TEEC_SUCCESS).

Definition sgx_CloseSession (a : tee_client) : outcome tee_client := ecall_TA_CloseSessionEntryPoint a.

Context `{qcbor, qcbor_encoder, crypto_api}.
Variable plat : platform.
Variable slot_addr : target_slot → Z.
Variable fuel : nat.

Definition sgx_InvokeCommand (a : tee_client) (commandID : Z) (operation : TEEC_Operation)
    : outcome (tee_client * TEEC_Operation * Z) :=
  let types := param_types (paramTypes operation) in
  params ← point_params types 0 (op_params operation);
  '(operation, a, r) ← ecall_TA_InvokeCommandEntryPoint plat slot_addr fuel operation a commandID types params;
  Done (a, operation, r).

(** The interface of the broker. *)
Definition sgx_client : client_api := {|
  client_state := tee_client;
  agent_of a := a;
  tc_OpenSession size garbage a _ := Done (sgx_OpenSession size garbage a);
  tc_CloseSession := sgx_CloseSession;
  tc_InvokeCommand := sgx_InvokeCommand
|}.
End client.
