(* ===== verification/SgxFacts.v ===== *)
(** * SgxFacts: the entry point on the memory of the client library

    With the operation of the caller as the memory of the host, the three loops of
    the entry point do what the client library of the PC build does. *)

From S2P Require Import Prelude Tcbor TcborFacts SuitTypes SuitParser SuitAuth SuitContext SuitRunner.
From S2P Require Import TeepMessage TeepMessageFacts TeepEncoder Tools Agent AgentCommands.
From S2P Require Import TeeClient TeeClientFacts AgentCall Sgx.

Local Open Scope Z_scope.

(** The pointers the library passes. *)
Definition pointed (ty i : Z) (x : TEEC_Parameter) : command_param :=
  if is_value ty then CommandParam op_memory (ValueA i) (ValueB i) NullPointer NullPointer
  else if is_memref ty then
    CommandParam op_memory NullPointer NullPointer (TmprefSize i)
      (match buffer_of x with Some _ => TmprefBuffer i | None => NullPointer end)
  else CommandParam op_memory NullPointer NullPointer NullPointer NullPointer.

Lemma point_param_ok ty i x :
  client_param_ok ty x = true → ty ∈ known_types → point_param ty i x = Done (pointed ty i x).
Proof.
  intros Hx Hty. known_type Hty; cbn; try done; destruct x as [|[b|] n|]; cbn in *; done.
Qed.

Lemma op_param_at op i x : op_at op i x → op_param op i = Done x.
Proof. unfold op_at, op_param. by intros ->. Qed.

Lemma check_param_ok op ty i x :
  client_param_ok ty x = true → ty ∈ known_types → op_at op i x →
  check_param op ty (pointed ty i x) = Done (op, true).
Proof.
  intros Hx Hty Hat. known_type Hty; cbn; try done; rewrite ?(op_param_at _ _ _ Hat);
    destruct x as [|[b|] n|]; cbn in *; done.
Qed.

Section allocates.
Context `{allocator}.

Lemma in_param_eq op h ty i x h' y block :
  client_param_ok ty x = true → ty ∈ known_types → op_at op i x →
  prepare_param h ty x = Done (h', y, block) →
  in_param op h ty (pointed ty i x) = Done (op, h', y, block).
Proof.
  intros Hx Hty Hat. unfold prepare_param, in_param, pointed, is_value.
  pose proof (op_param_at _ _ _ Hat) as Hop.
  destruct (is_value_input ty) eqn:Hvi.
  { cbn. rewrite Hop. cbn.
    destruct x as [|? ?|a b]; cbn in *; [|by rewrite Hvi in Hx|]; rewrite Hop; cbn; by intros [= <- <- <-]. }
  destruct (is_memref_input ty) eqn:Hmi.
  { assert (is_memref ty = true ∧ is_value_output ty = false) as [Hm Hvo].
    { unfold is_memref. rewrite Hmi. split; [done|]. by known_type Hty. }
    destruct (tmpref_member_ok ty x Hx Hm) as (Href&Hu&Hs). rewrite Hvo, Hm, Href. cbn -[filled_block].
    rewrite Hop. cbn -[filled_block]. rewrite Href. cbn -[filled_block]. rewrite Hu.
    destruct (filled_block h (size_of x)) as [| |[h1 b1]]; [done..|]. cbn.
    destruct x as [|[b|] n|a b]; cbn in *; [..|by rewrite Hm in Hx]; rewrite ?Hop; cbn.
    - by intros [= <- <- <-].
    - destruct (load_bytes b 0 n) as [| |bytes]; cbn; [done..|]. by intros [= <- <- <-].
    - destruct (n =? 0); cbn; [|done]. by intros [= <- <- <-]. }
  destruct (Z.eqb_spec ty TEE_PARAM_TYPE_MEMREF_OUTPUT) as [->|].
  { destruct (tmpref_member_ok _ x Hx eq_refl) as (Href&Hu&Hs). rewrite Href. cbn -[filled_block].
    rewrite Hop. cbn -[filled_block]. rewrite Href. cbn -[filled_block]. rewrite Hu.
    destruct (filled_block h (size_of x)) as [| |[h1 b1]]; [done..|]. cbn. by intros [= <- <- <-]. }
  case_match; by intros [= <- <- <-].
Qed.

Lemma out_param_eq op h ty i x y block h' x' :
  client_param_ok ty x = true → ty ∈ known_types → op_at op i x → not_longer x y →
  writeback_param h ty x y block = Done (h', x') →
  out_param op h ty (pointed ty i x) y block = Done (set_param op i x', h').
Proof.
  intros Hx Hty Hat Hy. unfold writeback_param, out_param, pointed, is_value.
  pose proof (op_param_at _ _ _ Hat) as Hop.
  destruct (is_value_output ty) eqn:Hvo.
  { destruct y as [|a b|]; [done| |done]. intros [= <- <-]. rewrite orb_true_r. cbn. rewrite Hop. cbn.
    set (x1 := match x with ValueParameter _ _ => _ | _ => _ end).
    rewrite (op_param_at _ _ x1) by by eapply op_at_set. cbn. rewrite set_param_set. do 3 f_equal.
    by destruct x. }
  destruct (is_memref_output ty) eqn:Hmo.
  { destruct y as [|a b|buffer size]; [done..|]. destruct Hy as [Hs Hl].
    assert (is_memref ty = true ∧ is_value_input ty = false) as [Hm Hvi].
    { unfold is_memref. rewrite Hmo, orb_true_r. split; [done|]. by known_type Hty. }
    destruct (tmpref_member_ok ty x Hx Hm) as (Href&Hu&Hb). rewrite Href, Hvi, Hm. cbn [mbind outcome_bind orb].
    rewrite load_take by lia. cbn [mbind outcome_bind].
    rewrite copy_to_ok by (rewrite length_take; lia). cbn [mbind outcome_bind].
    destruct (free h block) as [| |h1]; [done..|]. cbn [mbind outcome_bind]. intros [= <- <-].
    cbn [cp_size hm_load op_memory op_load cp_p Z.eqb sizeof_size_t Pos.eqb negb]. rewrite Hop. cbn [mbind outcome_bind]. rewrite Href.
    cbn [mbind outcome_bind]. unfold memcpy_s. rewrite load_take by lia.
    assert (∀ x1 b1, tmpref_member x1 = Done (b1, size_of x) →
      (w ← memcpy_s_number (Hhm := op_memory) (set_param op i x1) (TmprefSize i) size; Done (w, h1)) =
        Done (set_param op i (TempMemoryReference b1 size), h1)) as Hstore.
    { intros x1 b1 Hx1. unfold memcpy_s_number. cbn. rewrite (op_param_at _ _ x1) by by eapply op_at_set.
      cbn. rewrite Hx1. cbn. rewrite set_param_set, Hu. do 4 f_equal. lia. }
    destruct (Z.eqb_spec size 0) as [->|Hsz]; cbn [orb].
    - cbn [mbind outcome_bind]. rewrite <-(set_param_same op i x Hat) at 1.
      rewrite (Hstore x (buffer_of x) Href). by destruct (buffer_of x).
    - destruct (buffer_of x) as [old|] eqn:Hold; [|cbn in Hb; lia]. cbn [hm_null op_memory].
      destruct (Z.ltb_spec (size_of x) size); [lia|]. cbn [mbind outcome_bind hm_write op_memory op_write].
      rewrite Hop. cbn [mbind outcome_bind]. rewrite Href. cbn [mbind outcome_bind].
      rewrite copy_to_ok by (rewrite length_take; cbn in *; lia). cbn [mbind outcome_bind].
      by apply Hstore. }
  destruct (ty =? TEE_PARAM_TYPE_MEMREF_INPUT).
  - destruct (free h block) as [| |h1]; [done..|]. cbn [mbind outcome_bind]. intros [= <- <-].
    by rewrite set_param_same.
  - intros [= <- <-]. by rewrite set_param_same.
Qed.

(** ** The loops *)

Definition params_pointed (types i : Z) (xs : list TEEC_Parameter) : list command_param :=
  imap (fun k x => pointed (ty_at types i k) (i + Z.of_nat k) x) xs.

Lemma params_pointed_cons types i x xs :
  params_pointed types i (x :: xs) = pointed (ty_at types i 0) i x :: params_pointed types (i + 1) xs.
Proof.
  unfold params_pointed. cbn [imap]. f_equal; [f_equal; lia|]. apply imap_ext. intros k y _. unfold compose.
  rewrite ty_at_S. f_equal. lia.
Qed.

Lemma type_here types i : TEE_PARAM_TYPE_GET types i = ty_at types i 0.
Proof. unfold ty_at. f_equal. lia. Qed.

Lemma point_params_ok types i xs :
  params_ok types i xs → point_params types i xs = Done (params_pointed types i xs).
Proof.
  revert i. induction xs as [|x xs IH]; intros i Hok; [done|].
  apply params_ok_cons in Hok as [[Hx Hty] Hok]. cbn [point_params]. rewrite type_here.
  rewrite point_param_ok by done. cbn [mbind outcome_bind]. rewrite IH by done. by rewrite params_pointed_cons.
Qed.

Lemma check_params_ok op types i xs :
  params_ok types i xs → op_has op i xs → check_params op types i (params_pointed types i xs) = Done (op, true).
Proof.
  revert i. induction xs as [|x xs IH]; intros i Hok Hat; [done|].
  apply params_ok_cons in Hok as [[Hx Hty] Hok]. apply op_has_cons in Hat as [Hat1 Hat].
  rewrite params_pointed_cons. cbn [check_params]. rewrite type_here, check_param_ok by done.
  cbn [mbind outcome_bind]. by apply IH.
Qed.

Lemma in_params_eq op h types i xs h' ys bs :
  params_ok types i xs → op_has op i xs → prepare_loop h types i xs = Done (h', ys, bs) →
  in_params op h types i (params_pointed types i xs) = Done (op, h', ys, bs).
Proof.
  revert h i ys bs. induction xs as [|x xs IH]; intros h i ys bs Hok Hat; cbn [prepare_loop].
  { by intros [= <- <- <-]. }
  apply params_ok_cons in Hok as [[Hx Hty] Hok]. apply op_has_cons in Hat as [Hat1 Hat].
  rewrite params_pointed_cons. cbn [in_params]. rewrite type_here.
  destruct (prepare_param h (ty_at types i 0) x) as [| |[[h1 y] b]] eqn:Hprep; [done..|].
  rewrite (in_param_eq _ _ _ _ _ _ _ _ Hx Hty Hat1 Hprep). cbn [mbind outcome_bind].
  destruct (prepare_loop h1 types (i + 1) xs) as [| |[[h2 ys'] l]] eqn:Hloop; [done..|].
  cbn. intros [= <- <- <-]. by rewrite (IH _ _ _ _ Hok Hat Hloop).
Qed.

Lemma out_params_eq types xs ys bs op h i h' xs' :
  params_ok types i xs → op_has op i xs → Forall2 not_longer xs ys → length bs = length xs →
  writeback_loop h types i xs ys bs = Done (h', xs') →
  out_params op h types i (params_pointed types i xs) ys bs = Done (op_from op i xs', h').
Proof.
  revert ys bs op h i xs'. induction xs as [|x xs IH]; intros ys bs op h i xs' Hok Hat Hys Hbs.
  { cbn. intros [= <- <-]. by rewrite op_from_nil. }
  apply params_ok_cons in Hok as [[Hx Hty] Hok]. apply Forall2_cons_inv_l in Hys as (y&ys'&Hy&Hys&->).
  destruct bs as [|b bs]; [done|]. cbn in Hbs. pose proof Hat as [Hat1 Hat2]%op_has_cons.
  cbn [writeback_loop]. rewrite params_pointed_cons. cbn [out_params]. rewrite type_here.
  destruct (writeback_param h (ty_at types i 0) x y b) as [| |[h1 x1]] eqn:Hwb; [done..|].
  rewrite (out_param_eq _ _ _ _ _ _ _ _ _ Hx Hty Hat1 Hy Hwb). cbn [mbind outcome_bind].
  destruct (writeback_loop h1 types (i + 1) xs ys' bs) as [| |[h2 xs1]] eqn:Hloop; [done..|].
  cbn [mbind outcome_bind]. intros [= <- <-]. assert (0 <= i) as Hi by apply Hat.
  rewrite (IH ys' bs (set_param op i x1) h1 (i + 1) xs1); try done; [|by apply op_has_set|lia].
  by rewrite (op_from_cons _ _ x).
Qed.
End allocates.
