(* ===== verification/SgxTheorems.v ===== *)
(** * SgxTheorems: commands into an SGX enclave

    On the operation of the caller the SGX build does what the other builds do.
    For any pointers of the host the entry point stays outside of the enclave, as
    long as the host does not change the sizes between the check and the copy; if
    it does, the check is worth nothing. *)

From S2P Require Import Prelude Tcbor TcborFacts SuitTypes SuitParser SuitParserFacts.
From S2P Require Import SuitAuth SuitAuthFacts SuitContext SuitContextFacts.
From S2P Require Import SuitRunner SuitRunnerFacts SuitRunnerTheorems.
From S2P Require Import TeepMessage TeepMessageFacts TeepMessageTheorems TeepEncoder.
From S2P Require Import Tools Agent AgentFacts AgentTaskTheorems AgentSafety AgentCommands.
From S2P Require Import SuitTheorems TeeClient TeeClientFacts TeeClientTheorems AgentCall Sgx SgxFacts.

Local Open Scope Z_scope.

(** ** Commands of the broker *)

Section commands.
Context `{Hal : allocator, Hcr : crypto_api, !crypto_laws, Hqc : qcbor, !qcbor_laws}.
Context `{Hqe : qcbor_encoder, !qcbor_encoder_laws}.
Variable p : platform.
Variable slot_addr : target_slot → Z.
Variable fuel : nat.
Hypothesis Hmem : ∀ n z, malloc_succeeds n z = true.
Hypothesis Hfuel : runner_fuel < Z.of_nat fuel.

(** The SGX build on a call that is defined. *)
Lemma sgx_call frame a cmd op h bs block s g s' outs h' r :
  operation_ok op = true → call_run p slot_addr fuel frame a cmd op h bs block s g s' outs h' r →
  sgx_InvokeCommand p slot_addr fuel a cmd op =
    Done (Client (with_heap g h') (Some (block, s')), returned_op op outs, r).
Proof.
  intros Hok [Hprep Hlive Hrun Hback [Hbs _] Hlike _].
  pose proof (operation_params_ok op Hok) as Hp. unfold prepare_params, writeback_params in *.
  destruct (prepare_loop _ _ _ _) as [| |[[h0 ys] l0]] eqn:Hloop; [done..|].
  injection Hprep as -> -> ->. destruct (writeback_loop _ _ _ _ _ _) as [| |[h3 xs']] eqn:Hwb; [done..|].
  injection Hback as -> Hxs. unfold sgx_InvokeCommand, ecall_TA_InvokeCommandEntryPoint.
  rewrite point_params_ok by done. cbn [mbind outcome_bind].
  rewrite check_params_ok by (done || apply op_has_all). cbn [mbind outcome_bind negb].
  rewrite (in_params_eq _ _ _ _ _ _ _ _ Hp (op_has_all op) Hloop). cbn [mbind outcome_bind].
  rewrite Hlive. cbn [mbind outcome_bind]. rewrite Hrun. cbn [mbind outcome_bind].
  rewrite (out_params_eq _ _ outs bs _ _ _ h' xs' Hp (op_has_all op) (likes_not_longer op outs Hok Hlike));
    [|by rewrite Hbs; apply operation_inv in Hok as [-> _]|exact Hwb].
  cbn [mbind outcome_bind]. unfold returned_op. by rewrite <-Hxs.
Qed.

(** C10: A command of the broker has the same result, the same outputs and the same
    effect on the agent in the SGX build as in the PC build, where it succeeds; the
    SGX build also returns the outputs and gives its copies back if it fails. *)
Theorem sgx_command_correct frame a cmd op :
  client_safe frame a → operation_ok op = true → client_ready slot_addr fuel a cmd op →
  ∃ a' op' r, sgx_InvokeCommand p slot_addr fuel a cmd op = Done (a', op', r) ∧ client_safe frame a' ∧
    paramTypes op' = paramTypes op ∧
    wp (TEEC_InvokeCommand p slot_addr fuel a cmd op) (pc_returns op a' op' r).
Proof.
  intros Ha Hok Hready.
  destruct (call_runs p slot_addr fuel frame a cmd op Hmem Hfuel Ha Hok Hready)
    as (h&bs&block&s&g&s'&outs&h'&r&Hcall).
  eexists _, _, r. split; [by eapply sgx_call|]. split; [by apply Hcall|]. split; [done|]. by eapply call_run_pc.
Qed.
End commands.

(** ** Any host that keeps still *)

(** Accesses through pointers that are not null and point outside are defined, and
    no others; and until the entry point stores something the numbers behind pointers
    stay. *)
Class stable_host `{host_memory} := {
  hm_ok : hm → Prop;
  (** The [size_t] behind a pointer. *)
  hm_value : hm → hptr → Z;
  hm_value_nonneg : ∀ w ptr, 0 <= hm_value w ptr;
  outside_mono : ∀ ptr n m, sgx_is_outside_enclave ptr n = true → m <= n → sgx_is_outside_enclave ptr m = true;
  hm_load_ok : ∀ w ptr n, hm_ok w → hm_null ptr = false → sgx_is_outside_enclave ptr n = true →
    wp (hm_load w ptr n) (fun '(w', v) =>
      (n = sizeof_size_t → v = hm_value w ptr) ∧ hm_ok w' ∧ hm_value w' = hm_value w);
  hm_load_bad : ∀ w ptr n, hm_null ptr = true ∨ sgx_is_outside_enclave ptr n = false → hm_load w ptr n = Ub;
  hm_read_bad : ∀ w ptr n, 0 < n → hm_null ptr = true → hm_read w ptr n = Ub;
  hm_read_ok : ∀ w ptr n, hm_ok w → 0 <= n →
    n = 0 ∨ hm_null ptr = false ∧ sgx_is_outside_enclave ptr n = true →
    wp (hm_read w ptr n) (fun '(w', bytes) => Z.of_nat (length bytes) = n ∧ hm_ok w' ∧ hm_value w' = hm_value w);
  hm_store_ok : ∀ w ptr n v, hm_ok w → hm_null ptr = false → sgx_is_outside_enclave ptr n = true →
    wp (hm_store w ptr n v) hm_ok;
  hm_write_ok : ∀ w ptr bytes, hm_ok w → hm_null ptr = false →
    sgx_is_outside_enclave ptr (Z.of_nat (length bytes)) = true → wp (hm_write w ptr bytes) hm_ok
}.

(** [defined_unless bad m Q]: [m] completes with [Q], or is undefined and then [bad]
    holds. *)
Definition defined_unless {A} (bad : Prop) (m : outcome A) (Q : A → Prop) : Prop :=
  match m with Done a => Q a | Ub => bad | NoFuel => False end.

Lemma defined_bind {A B} (bad : Prop) (m : outcome A) (f : A → outcome B) (Q : A → Prop) (R : B → Prop) :
  defined_unless bad m Q → (∀ a, Q a → defined_unless bad (f a) R) → defined_unless bad (m ≫= f) R.
Proof. destruct m; cbn; auto. Qed.

Lemma defined_mono {A} (bad bad' : Prop) (m : outcome A) (Q Q' : A → Prop) :
  defined_unless bad m Q → (bad → bad') → (∀ a, Q a → Q' a) → defined_unless bad' m Q'.
Proof. destruct m; cbn; auto. Qed.

Lemma wp_defined {A} (bad : Prop) (m : outcome A) (Q : A → Prop) : wp m Q → defined_unless bad m Q.
Proof. by destruct m. Qed.

Section safety.
Context `{Hst : stable_host, Hal : allocator}.
Hypothesis Hmem : ∀ n z, malloc_succeeds n z = true.
(** The numbers of the host during the copies in. *)
Variable value : hptr → Z.
Hypothesis Hvalue : ∀ ptr, 0 <= value ptr.

(** The check lets null pointers pass, and the code then uses the numbers, the size
    and the bytes of an input without another look.  It also only looks at the first
    half of a size: the other half is outside, too, if the pointer is aligned. *)
Definition pointers_given (ty : Z) (x : command_param) : Prop :=
  (is_value_input ty = true → hm_null (cp_a x) = false ∧ hm_null (cp_b x) = false) ∧
  (is_memref ty = true → hm_null (cp_size x) = false ∧
     (sgx_is_outside_enclave (cp_size x) sizeof_uint32_t = true →
      sgx_is_outside_enclave (cp_size x) sizeof_size_t = true) ∧
     (hm_null (cp_p x) = false ∨ to_u32 (value (cp_size x)) = 0 ∨ ty = TEE_PARAM_TYPE_MEMREF_OUTPUT)).

(** What the checks look at. *)
Definition pointers_checked (ty : Z) (x : command_param) : Prop :=
  ty ∈ known_types ∧
  (is_value ty = true →
     CHECK_UNIQUE_POINTER (cp_a x) sizeof_uint32_t = true ∧
     CHECK_UNIQUE_POINTER (cp_b x) sizeof_uint32_t = true) ∧
  (is_memref ty = true → CHECK_UNIQUE_POINTER (cp_size x) sizeof_uint32_t = true ∧
     (hm_null (cp_p x) = false → sgx_is_outside_enclave (cp_p x) (value (cp_size x)) = true)).

Definition host_state (w : hm) : Prop := hm_ok w ∧ hm_value w = value.

(** A parameter the agent gets. *)
Definition copied (ty : Z) (x : command_param) (y : TEE_Param) : Prop :=
  param_has_type ty y = true ∧ ∀ buffer size, y = ParamMemref buffer size →
    size = to_u32 (value (cp_size x)) ∧ Z.of_nat (length buffer) = size.

(** A parameter the agent leaves. *)
Definition held (ty : Z) (x : command_param) (y : TEE_Param) : Prop :=
  param_has_type ty y = true ∧
  ∀ buffer size, y = ParamMemref buffer size → Z.of_nat (length buffer) <= value (cp_size x).

Definition has_block (ty : Z) (block : option nat) : Prop := is_Some block ↔ is_memref ty = true.

Lemma size_le n : 0 <= n → 0 <= to_u32 n <= n.
Proof.
  intros Hn. split; [|by apply Z.mod_le]. apply (Z.mod_pos_bound n u32_modulus eq_refl).
Qed.

Lemma copied_held ty x y y' : copied ty x y → param_like y y' → held ty x y'.
Proof.
  pose proof (size_le _ (Hvalue (cp_size x))) as Hle.
  intros [Hty Hs] Hlike. destruct y as [|a b|buffer size], y' as [|a' b'|buffer' size']; cbn in *; try done.
  destruct (Hs _ _ eq_refl) as [-> Hlen]. destruct Hlike as [Hl Hs']. bool_facts. split.
  - cbn. rewrite !andb_true_iff, !Z.leb_le. lia.
  - intros ? ? [= <- <-]. lia.
Qed.

Lemma unknown_type ty :
  (ty =? TEE_PARAM_TYPE_NONE) = false → is_value ty = false → is_memref ty = false → ty ∉ known_types.
Proof. intros H0 Hv Hm Hty. by known_type Hty. Qed.

Lemma value_or_memref ty : is_value ty = true → is_memref ty = false ∧ ty ∈ known_types.
Proof.
  unfold is_value, is_memref, is_value_input, is_value_output, is_memref_input, is_memref_output.
  intros Hv. assert (ty = 1 ∨ ty = 2 ∨ ty = 3) as Hty; [|destruct Hty as [->|[->| ->]]; (split; [done|by apply (bool_decide_unpack _)])].
  apply orb_true_iff in Hv as [Hv|Hv]; apply orb_true_iff in Hv as [Hv|Hv]; apply Z.eqb_eq in Hv as ->; auto.
Qed.

Lemma memref_known ty : is_memref ty = true → is_value ty = false ∧ ty ∈ known_types.
Proof.
  unfold is_memref, is_memref_input, is_memref_output. intros Hv.
  assert (ty = 5 ∨ ty = 6 ∨ ty = 7) as Hty; [|destruct Hty as [->|[->| ->]]; (split; [done|by apply (bool_decide_unpack _)])].
  apply orb_true_iff in Hv as [Hv|Hv]; apply orb_true_iff in Hv as [Hv|Hv]; apply Z.eqb_eq in Hv as ->; auto.
Qed.

Lemma load_spec w ptr n :
  host_state w → hm_null ptr = false → sgx_is_outside_enclave ptr n = true →
  wp (hm_load w ptr n) (fun '(w', v) => (n = sizeof_size_t → v = value ptr) ∧ host_state w').
Proof.
  intros [Hok Hval] Hn Ho. eapply wp_mono; [by apply hm_load_ok|]. intros [w' v] (Hv&Hok'&Hval').
  unfold host_state. by rewrite Hval', Hval in *.
Qed.

Lemma load_size w ptr :
  host_state w → hm_null ptr = false → sgx_is_outside_enclave ptr sizeof_size_t = true →
  wp (hm_load w ptr sizeof_size_t) (fun '(w', v) => v = value ptr ∧ host_state w').
Proof.
  intros Hw Hn Ho. eapply wp_mono; [by apply load_spec|]. intros [w' v] [Hv ?]. by rewrite Hv.
Qed.

Lemma checked_outside ptr n :
  CHECK_UNIQUE_POINTER ptr n = true → hm_null ptr = false → sgx_is_outside_enclave ptr n = true.
Proof. unfold CHECK_UNIQUE_POINTER. intros Hc Hn. by rewrite Hn in Hc. Qed.

(** A number that was checked is read, unless the pointer is null. *)
Lemma load_checked w ptr n :
  host_state w → CHECK_UNIQUE_POINTER ptr n = true →
  defined_unless (hm_null ptr = true) (hm_load w ptr n)
    (fun '(w', _) => hm_null ptr = false ∧ host_state w').
Proof.
  intros Hw Hc. destruct (hm_null ptr) eqn:Hn; [by rewrite hm_load_bad by by left|].
  apply wp_defined. eapply wp_mono; [by apply load_spec, (checked_outside _ _ Hc)|]. by intros [w' v] [_ ?].
Qed.

(** The conditions of [pointers_given] on a size. *)
Definition size_given (ptr : hptr) : Prop :=
  hm_null ptr = false ∧ sgx_is_outside_enclave ptr sizeof_size_t = true.

Lemma load_size_checked w ptr :
  host_state w →
  defined_unless (¬ size_given ptr) (hm_load w ptr sizeof_size_t)
    (fun '(w', v) => size_given ptr ∧ v = value ptr ∧ host_state w').
Proof.
  intros Hw. unfold size_given. destruct (hm_null ptr) eqn:Hn; [rewrite hm_load_bad by (by left); by intros []|].
  destruct (sgx_is_outside_enclave ptr sizeof_size_t) eqn:Ho; [|rewrite hm_load_bad by (by right); by intros []].
  apply wp_defined. eapply wp_mono; [by apply load_size|]. intros [w' v] ?. done.
Qed.

(** Without its size a reference is not given. *)
Lemma size_not_given ty x :
  is_memref ty = true → CHECK_UNIQUE_POINTER (cp_size x) sizeof_uint32_t = true →
  ¬ size_given (cp_size x) → ¬ pointers_given ty x.
Proof.
  intros Hm Hc Hs [_ Hg]. destruct (Hg Hm) as (Hn&Ho&_). apply Hs. split; [done|].
  by apply Ho, checked_outside.
Qed.

Lemma check_param_spec w ty x :
  host_state w →
  defined_unless (¬ pointers_given ty x) (check_param w ty x)
    (fun '(w', ok) => host_state w' ∧ (ok = true ↔ pointers_checked ty x)).
Proof.
  intros Hw. unfold check_param, pointers_checked. destruct (Z.eqb_spec ty TEE_PARAM_TYPE_NONE) as [->|Hnone].
  { split; [done|]. split; [|done]. intros _. split; [by apply (bool_decide_unpack _)|]. split; intros [=]. }
  fold (is_memref ty). destruct (is_value ty) eqn:Hv.
  { destruct (value_or_memref ty Hv) as [Hm Hty]. rewrite Hm. split; [done|].
    rewrite andb_true_iff. split; [|by intros (_&Hc&_); apply Hc]. intros []. by split_and!. }
  destruct (is_memref ty) eqn:Hm.
  2: { split; [done|]. split; [done|]. intros [Hty _]. by apply (unknown_type ty) in Hty; try done; apply Z.eqb_neq. }
  destruct (memref_known ty Hm) as [_ Hty].
  destruct (CHECK_UNIQUE_POINTER (cp_size x) sizeof_uint32_t) eqn:Hsize; cbn [negb].
  2: { split; [done|]. split; [done|]. intros (_&_&Hc). by destruct (Hc eq_refl). }
  destruct (hm_null (cp_p x)) eqn:Hp.
  { split; [done|]. by split. }
  eapply defined_bind; [eapply defined_mono; [by apply load_size_checked|by apply size_not_given|exact (fun _ H => H)]|].
  intros [w' v] (_&->&Hw'). split; [done|]. split; [by intros ->|]. intros (_&_&Hc). by apply Hc.
Qed.

Lemma in_param_spec w h ty x l frame :
  host_state w → pointers_checked ty x → accounts h l frame →
  defined_unless (¬ pointers_given ty x) (in_param w h ty x) (fun '(w', h', y, block) =>
    pointers_given ty x ∧ host_state w' ∧ copied ty x y ∧ has_block ty block ∧ accounts h' (block :: l) frame).
Proof.
  intros Hw (Hty&Hcv&Hcm) Hacc. unfold in_param, copied, has_block, pointers_given.
  pose proof (size_le _ (Hvalue (cp_size x))) as Hle.
  assert (is_memref ty = false → is_Some (@None nat) ↔ is_memref ty = true) as Hno.
  { intros ->. split; [by intros []|done]. }
  destruct (is_value_input ty) eqn:Hvi.
  { assert (is_value ty = true) as Hv by (unfold is_value; by rewrite Hvi).
    destruct (Hcv Hv) as [Ha Hb]. destruct (value_or_memref ty Hv) as [Hm _].
    eapply defined_bind; [eapply defined_mono; [by apply load_checked| |exact (fun _ H => H)]|].
    { intros Hn [Hg _]. destruct (Hg eq_refl). congruence. }
    intros [w1 a] (Hna&Hw1).
    eapply defined_bind; [eapply defined_mono; [by apply load_checked| |exact (fun _ H => H)]|].
    { intros Hn [Hg _]. destruct (Hg eq_refl). congruence. }
    intros [w2 b] (Hnb&Hw2). split; [by rewrite Hm|].
    split; [done|]. split; [by known_type Hty|]. split; [by apply Hno|exact Hacc]. }
  destruct (is_memref_input ty) eqn:Hmi.
  { assert (is_memref ty = true) as Hm by (unfold is_memref; by rewrite Hmi). destruct (Hcm Hm) as [Hcs Hop].
    eapply defined_bind; [eapply defined_mono; [by apply load_size_checked| |exact (fun _ H => H)]|].
    { intros Hs Hg. eapply (size_not_given ty x); try done. unfold pointers_given. by rewrite Hvi. }
    intros [w1 n] ([Hns Hos]&->&[Hok1 Hval1]).
    eapply defined_bind; [by apply wp_defined, (filled_block_spec Hmem h _ l frame)|]. intros [h1 block] [Hb Hacc1].
    assert (ty ≠ TEE_PARAM_TYPE_MEMREF_OUTPUT) as Hout by by intros ->.
    destruct (decide (hm_null (cp_p x) = false ∨ to_u32 (value (cp_size x)) = 0)) as [Hp|Hp].
    2: { destruct (hm_null (cp_p x)) eqn:Hnp; [|by destruct Hp; left]. 
      rewrite hm_read_bad; [|destruct (decide (to_u32 (value (cp_size x)) = 0)); [by destruct Hp; right|lia]|done].
      intros [_ Hg]. destruct (Hg Hm) as (_&_&[?|[?|?]]); [done| |done]. by apply Hp; right. }
    eapply defined_bind; [apply wp_defined, hm_read_ok; [done|lia|]|].
    - destruct Hp as [Hp|Hp]; [right|by left]. split; [done|]. eapply outside_mono; [by apply Hop|lia].
    - intros [w2 bytes] (Hl&Hok2&Hval2). split; [split; [done|]; intros _; split_and!; try done; tauto|].
      split; [by split; [|rewrite Hval2]|]. split.
      { split; [|by intros b n [= <- <-]].
        known_type Hty; cbn in *; try done; rewrite !andb_true_iff, !Z.leb_le; lia. }
      split; [by rewrite Hm|done]. }
  destruct (Z.eqb_spec ty TEE_PARAM_TYPE_MEMREF_OUTPUT) as [->|].
  { destruct (Hcm eq_refl) as [Hcs _].
    eapply defined_bind; [eapply defined_mono; [by apply load_size_checked| |exact (fun _ H => H)]|].
    { intros Hs Hg. by eapply (size_not_given TEE_PARAM_TYPE_MEMREF_OUTPUT x). }
    intros [w1 n] ([Hns Hos]&->&Hw1).
    eapply defined_bind; [by apply wp_defined, (filled_block_spec Hmem h _ l frame)|]. intros [h1 block] [Hb Hacc1].
    split; [split; [done|]; intros _; split_and!; try done; tauto|]. split; [done|]. split.
    { split; [cbn|]; [rewrite length_replicate, !andb_true_iff, !Z.leb_le; lia|].
      intros b n [= <- <-]. rewrite length_replicate. lia. }
    by split. }
  assert (is_memref ty = false) as Hm by by known_type Hty. specialize (Hno Hm). rewrite Hm in Hno |- *.
  destruct (Z.eqb_spec ty TEE_PARAM_TYPE_VALUE_OUTPUT) as [->|].
  - split; [done|]. split; [done|]. split; [done|]. split; [exact Hno|exact Hacc].
  - split; [done|]. split; [done|]. split; [by known_type Hty|]. split; [exact Hno|exact Hacc].
Qed.

(** Copying out only relies on the pointers; the numbers may have changed. *)
Lemma reload_spec w ptr :
  hm_ok w → hm_null ptr = false → sgx_is_outside_enclave ptr sizeof_size_t = true →
  wp (hm_load w ptr sizeof_size_t) (fun '(w', v) => 0 <= v ∧ hm_ok w').
Proof.
  intros Hok Hn Ho. eapply wp_mono; [by apply hm_load_ok|]. intros [w' v] (Hv&?&_).
  rewrite Hv by done. split; [apply hm_value_nonneg|done].
Qed.

Lemma number_spec w ptr n v :
  hm_ok w → CHECK_UNIQUE_POINTER ptr n = true → sizeof_uint32_t <= n → wp (memcpy_s_number w ptr v) hm_ok.
Proof.
  intros Hok Ho Hn. unfold memcpy_s_number. destruct (hm_null ptr) eqn:Hp; [done|].
  apply hm_store_ok; [done|done|]. by eapply outside_mono, Hn; apply checked_outside.
Qed.

Lemma memcpy_s_spec w ptr n bytes count m :
  hm_ok w → 0 <= n → 0 <= count <= Z.of_nat (length bytes) → count <= m →
  (hm_null ptr = false → sgx_is_outside_enclave ptr m = true) → wp (memcpy_s w ptr n bytes count) hm_ok.
Proof.
  intros Hok Hn Hc Hm Ho. unfold memcpy_s. destruct (count =? 0); cbn [orb]; [done|].
  destruct (hm_null ptr) eqn:Hp; [done|]. destruct (Z.ltb_spec n count).
  - apply hm_write_ok; [done|done|]. rewrite length_replicate. eapply outside_mono; [by apply Ho|lia].
  - rewrite range_bytes_load by lia. cbn [mbind outcome_bind]. apply hm_write_ok; [done|done|].
    rewrite length_take. eapply outside_mono; [by apply Ho|lia].
Qed.

Lemma out_param_spec w h ty x y block l frame :
  hm_ok w → pointers_given ty x → pointers_checked ty x → held ty x y → has_block ty block →
  accounts h (block :: l) frame →
  wp (out_param w h ty x y block) (fun '(w', h') => hm_ok w' ∧ accounts h' l frame).
Proof.
  intros Hw [Hgv Hgm] (Hty&Hcv&Hcm) [Htyped Hheld] Hb Hacc. unfold out_param.
  assert (is_memref ty = false → accounts h l frame) as Hnone.
  { intros Hm. destruct block; [|exact Hacc]. unfold has_block in Hb. rewrite Hm in Hb.
    by discriminate (proj1 Hb (ex_intro _ _ eq_refl)). }
  destruct (is_value_output ty) eqn:Hvo.
  { assert (is_value ty = true) as Hv by (unfold is_value; by rewrite Hvo, orb_true_r).
    destruct (Hcv Hv) as [Ha Hb']. clear Hgv Hgm. destruct y as [|a b|]; [by known_type Hty| |by known_type Hty].
    apply wp_bind. eapply wp_mono; [by eapply number_spec|]. intros w1 Hw1.
    apply wp_bind. eapply wp_mono; [by eapply number_spec|]. intros w2 Hw2.
    split; [done|]. apply Hnone. by apply value_or_memref. }
  destruct (is_memref_output ty) eqn:Hmo.
  { assert (is_memref ty = true) as Hm by (unfold is_memref; by rewrite Hmo, orb_true_r).
    destruct y as [| |buffer size]; [by known_type Hty..|]. destruct (Hgm Hm) as (Hs&Hal8&_), (Hcm Hm) as [Hcs Hop].
    pose proof (Hal8 (checked_outside _ _ Hcs Hs)) as Ho.
    assert (0 <= size <= Z.of_nat (length buffer)) as Hsize by (cbn in Htyped; bool_facts; lia).
    apply wp_bind. eapply wp_mono; [by apply reload_spec|]. intros [w1 n] [Hn Hw1].
    apply wp_bind. eapply wp_mono.
    { eapply memcpy_s_spec; [done..| |exact Hop]. specialize (Hheld _ _ eq_refl). lia. }
    intros w2 Hw2. apply wp_bind. eapply wp_mono; [by eapply number_spec|]. intros w3 Hw3.
    apply wp_bind. eapply wp_mono; [by apply free_owned|]. done. }
  destruct (Z.eqb_spec ty TEE_PARAM_TYPE_MEMREF_INPUT).
  - apply wp_bind. eapply wp_mono; [by apply free_owned|]. done.
  - split; [done|]. apply Hnone. by known_type Hty.
Qed.

(** ** The loops *)

Fixpoint types_of (types i : Z) (p : list command_param) : list Z :=
  match p with [] => [] | _ :: p => TEE_PARAM_TYPE_GET types i :: types_of types (i + 1) p end.

Definition all_given (types i : Z) (p : list command_param) : Prop :=
  Forall2 pointers_given (types_of types i p) p.
Definition all_checked (types i : Z) (p : list command_param) : Prop :=
  Forall2 pointers_checked (types_of types i p) p.

Lemma check_params_spec w types i p :
  host_state w →
  defined_unless (¬ all_given types i p) (check_params w types i p) (fun '(w', ok) =>
    host_state w' ∧ (ok = true ↔ all_checked types i p)).
Proof.
  unfold all_given, all_checked. revert w i.
  induction p as [|x p IH]; intros w i Hw; cbn [types_of check_params]; [by split; [|split; [constructor|]]|].
  eapply defined_bind; [eapply defined_mono; [by apply check_param_spec| |exact (fun _ Hq => Hq)]|].
  { intros Hx Hall. apply Hx. by inversion Hall. }
  intros [w1 ok] [Hw1 Hok]. destruct ok.
  - eapply defined_mono; [by apply IH|intros Hx Hall; apply Hx; by inversion Hall|].
    intros [w2 ok] [Hw2 Hok2]. split; [done|]. rewrite Hok2. split.
    + intros Hall. by constructor; [apply Hok|].
    + by intros [_ Hall]%Forall2_cons_1.
  - split; [done|]. split; [done|]. intros [Hx _]%Forall2_cons_1. by apply Hok.
Qed.

Lemma in_params_spec w h types i p l frame :
  host_state w → all_checked types i p → accounts h l frame →
  defined_unless (¬ all_given types i p) (in_params w h types i p) (fun '(w', h', ys, bs) =>
    all_given types i p ∧
    host_state w' ∧ Forall3 copied (types_of types i p) p ys ∧ Forall2 has_block (types_of types i p) bs ∧
    accounts h' (bs ++ l) frame).
Proof.
  unfold all_given, all_checked. revert w h i l.
  induction p as [|x p IH]; intros w h i l Hw; cbn [types_of in_params].
  { intros _ Hacc. split; [constructor|]. split; [done|]. split; [constructor|]. by split; [constructor|]. }
  intros [Hcx Hc]%Forall2_cons_1 Hacc.
  eapply defined_bind; [eapply defined_mono; [by apply in_param_spec| |exact (fun _ Hq => Hq)]|].
  { intros Hx Hall. apply Hx. by inversion Hall. }
  intros [[[w1 h1] y] b] (Hgx&Hw1&Hy&Hb&Hacc1).
  eapply defined_bind; [eapply defined_mono; [by apply IH| |exact (fun _ Hq => Hq)]|].
  { intros Hx Hall. apply Hx. by inversion Hall. }
  intros [[[w2 h2] ys] bs] (Hg&Hw2&Hys&Hbs&Hacc2).
  split; [by constructor|]. split; [done|]. split; [by constructor|]. split; [by constructor|].
  eapply accounts_perm; [exact Hacc2|]. cbn [app]. rewrite blocks_cons, !blocks_app, blocks_cons.
  solve_Permutation.
Qed.

Lemma out_params_spec w h types i p ys bs l frame :
  hm_ok w → all_given types i p → all_checked types i p →
  Forall3 held (types_of types i p) p ys → Forall2 has_block (types_of types i p) bs →
  accounts h (bs ++ l) frame →
  wp (out_params w h types i p ys bs) (fun '(w', h') => hm_ok w' ∧ accounts h' l frame).
Proof.
  unfold all_given, all_checked.
  revert w h i ys bs. induction p as [|x p IH]; intros w h i ys bs Hw; cbn [types_of].
  { intros _ _ Hys Hbs Hacc. inversion Hys. inversion Hbs. subst. by split. }
  intros [Hx Hp]%Forall2_cons_1 [Hcx Hc]%Forall2_cons_1 Hys Hbs Hacc.
  inversion Hys as [|? ? ? ? ? ys' Hy Hys']. inversion Hbs as [|? b ? bs' Hb Hbs']. subst. cbn [out_params].
  apply wp_bind. eapply wp_mono; [by apply (out_param_spec _ _ _ _ _ _ (bs' ++ l) frame)|].
  intros [w1 h1] [Hw1 Hacc1]. by apply IH.
Qed.

Lemma copied_typed types p ys :
  length p = 4%nat → Forall3 copied (types_of types 0 p) p ys → params_typed types ys = true.
Proof.
  intros Hl Hys. destruct p as [|? [|? [|? [|? [|? ?]]]]]; try done.
  repeat match goal with H : Forall3 _ _ _ _ |- _ => inversion_clear H end.
  repeat match goal with H : copied _ _ _ |- _ => destruct H as [? _] end.
  cbn [params_typed]. by rewrite !andb_true_iff.
Qed.

Lemma copied_like tys p ys ys' :
  Forall3 copied tys p ys → Forall2 param_like ys ys' → Forall3 held tys p ys'.
Proof.
  intros Hys. revert ys'. induction Hys as [|ty x y tys p ys Hy Hys IH]; intros ys' Hl.
  - apply Forall2_nil_inv_l in Hl as ->. constructor.
  - apply Forall2_cons_inv_l in Hl as (y'&ys''&Hlike&Hl&->). constructor; [by eapply copied_held|by apply IH].
Qed.
End safety.

Section ecall.
Context `{Hst : stable_host}.
Context `{Hal : allocator, Hcr : crypto_api, !crypto_laws, Hqc : qcbor, !qcbor_laws}.
Context `{Hqe : qcbor_encoder, !qcbor_encoder_laws}.
Variable plat : platform.
Variable slot_addr : target_slot → Z.
Variable fuel : nat.
Hypothesis Hmem : ∀ n z, malloc_succeeds n z = true.
Hypothesis Hfuel : runner_fuel < Z.of_nat fuel.

(** What the agent relies on, for all that may be copied in. *)
Definition ecall_ready (value : hptr → Z) (a : tee_client) (cmd types : Z) (p : list command_param) : Prop :=
  match session_ctx a with
  | Some (_, s) => ∀ ys, Forall3 (copied value) (types_of types 0 p) p ys → command_ready slot_addr fuel s cmd ys
  | None => False
  end.

(** C9: The entry point of the enclave, for any pointers of a host that keeps the
    sizes as they are until the parameters are copied, if memory can be allocated and
    the session is ready for the command.  Either it returns: then it has read and
    written only what is outside of the enclave, the agent is well formed, all copies
    are given back, and either all pointers passed the checks and were usable, or some
    did not pass, the result says so and nothing has changed.  Or it is undefined, and
    then a pointer was not usable, which the checks do not notice: the pointer to an
    input is null, or half of a size is inside of the enclave.  So if all pass the
    checks, it returns exactly if all are usable. *)
Theorem sgx_ecall_safe frame w a cmd types p :
  client_safe frame a → hm_ok w → length p = 4%nat → ecall_ready (hm_value w) a cmd types p →
  defined_unless (¬ all_given (hm_value w) types 0 p)
    (ecall_TA_InvokeCommandEntryPoint plat slot_addr fuel w a cmd types p) (fun '(w', a', r) =>
      hm_ok w' ∧ client_safe frame a' ∧
      (all_checked (hm_value w) types 0 p ∧ all_given (hm_value w) types 0 p ∨
       ¬ all_checked (hm_value w) types 0 p ∧ r = TEE_ERROR_BAD_PARAMETERS ∧ a' = a)).
Proof.
  intros Ha Hw Hlen Hready. unfold ecall_TA_InvokeCommandEntryPoint.
  assert (∀ ptr, 0 <= hm_value w ptr) as Hv by (intros ptr; apply hm_value_nonneg).
  eapply defined_bind; [by apply (check_params_spec (hm_value w))|].
  intros [w1 ok] [Hw1 Hok]. destruct ok; cbn [negb].
  2: { split; [apply Hw1|]. split; [done|]. right. split; [|done]. by intros Hc%Hok. }
  pose proof (proj1 Hok eq_refl) as Hchecked.
  pose proof Ha as (block&s&Hctx&Hi). pose proof Hi as [Hs [leak [Hl Ho Hacc]]].
  unfold ecall_ready in Hready. rewrite Hctx in Hready.
  eapply defined_bind; [by apply (in_params_spec Hmem (hm_value w) Hv)|].
  intros [[[w2 h1] ys] bs] (Hgiven&Hw2&Hys&Hbs&Hacc1). specialize (Hready ys Hys). apply wp_defined.
  assert (instance_safe (blocks bs ++ block :: frame) (with_heap (c_globals a) h1) s) as Hi1
    by by eapply instance_allocates.
  assert (live_session h1 (session_ctx a) = Done (block, s)) as Hlive.
  { rewrite Hctx. change h1 with (g_heap (with_heap (c_globals a) h1)) at 1. by eapply live_session_safe. }
  rewrite Hlive. cbn [mbind outcome_bind]. apply wp_bind.
  eapply wp_mono; [apply (command_total plat slot_addr fuel Hmem Hfuel _ _ _ _ _ _ Hi1);
    [by eapply copied_typed|done]|].
  intros [[[g s'] outs] r] [Hi' Hlike]. cbn [fst snd] in *.
  destruct Hi' as [Hs' [leak' [Hl' Ho' Hacc']]]. apply wp_bind. eapply wp_mono.
  { apply (out_params_spec (hm_value w) w2 _ _ _ _ _ bs (stored_blocks g ++ [fst <$> token s'])
      (leak' ++ block :: frame) (proj1 Hw2) Hgiven Hchecked); [by eapply copied_like|done|].
    eapply accounts_perm; [exact Hacc'|]. rewrite !blocks_app. solve_Permutation. }
  intros [w3 h3] [Hw3 Hacc3]. split; [done|]. split; [|by left].
  exists block, s'. split; [done|]. split; [done|]. by exists leak'.
Qed.
End ecall.

(** ** Witnesses *)

(** A command the agent does not know. *)
Lemma sgx_command_correct_witness :
  ∃ a' op' r, @sgx_InvokeCommand always_malloc (script_qcbor []) empty_encoder toy_crypto PLAT_SGX (fun _ => 0)
      enough_fuel blank_client 99 option_operation = Done (a', op', r) ∧ client_safe [] a'.
Proof.
  destruct (@sgx_command_correct always_malloc toy_crypto toy_laws (script_qcbor []) (script_laws [])
    empty_encoder empty_encoder_laws PLAT_SGX (fun _ => 0) enough_fuel (fun _ _ => eq_refl)
    enough_fuel_ok [] blank_client 99 option_operation blank_client_safe ltac:(by vm_compute) I)
    as (a'&op'&r&Hrun&Ha'&_).
  exists a', op', r. split; [exact Hrun|exact Ha'].
Defined.

Inductive demo_pointer := NoPointer | SizePointer | BufferPointer.

(** A host with a size and a buffer of eight bytes. *)
Definition demo_bad (ptr : demo_pointer) (n : Z) : bool :=
  match ptr with NoPointer => true | _ => negb (n <=? 8) end.

Definition demo_host : host_memory := {|
  hm := nat;
  hptr := demo_pointer;
  hm_null ptr := match ptr with NoPointer => true | _ => false end;
  sgx_is_outside_enclave _ n := n <=? 8;
  hm_load w ptr n := if demo_bad ptr n then Ub else Done (w, match ptr with SizePointer => Z.of_nat w | _ => 0 end);
  hm_store w ptr _ v := Done (match ptr with SizePointer => Z.to_nat v | _ => w end);
  hm_read w ptr n := if (0 <? n) && demo_bad ptr n then Ub else Done (w, replicate (Z.to_nat n) x61);
  hm_write w ptr bytes := if Z.of_nat (length bytes) <=? 8 then Done w else Ub
|}.

#[export] Instance demo_host_stable : @stable_host demo_host.
Proof.
  refine (@Build_stable_host demo_host (fun _ => True)
    (fun w ptr => match ptr with SizePointer => Z.of_nat w | _ => 0 end) _ _ _ _ _ _ _ _).
  - intros w []; lia.
  - cbn. intros _ n m Hn Hm. apply Z.leb_le in Hn. apply Z.leb_le. lia.
  - intros w [] n _ Hnull Ho; cbn in *; try done; rewrite Ho; done.
  - intros w [] n [Hb|Hb]; cbn in *; try done; by rewrite Hb.
  - intros w [] n Hn Hb; cbn in *; try done. by destruct (Z.ltb_spec 0 n); [|lia].
  - intros w ptr n _ Hn Ho. cbn -[Z.ltb]. assert ((0 <? n) && demo_bad ptr n = false) as ->.
    { destruct Ho as [->|[Hnull Ho]]; [done|]. destruct ptr; cbn in *; [done|by rewrite Ho, andb_false_r..]. }
    cbn. rewrite length_replicate. split; [lia|done].
  - done.
  - intros w ptr bytes _ _ Ho. cbn in *. by rewrite Ho.
Defined.

Definition demo_types : Z := TEE_PARAM_TYPES TEE_PARAM_TYPE_MEMREF_INPUT TEE_PARAM_TYPE_NONE TEE_PARAM_TYPE_NONE
  TEE_PARAM_TYPE_NONE.

Definition demo_pointers (h : host_memory) (null size buffer : @hptr h) : list (@command_param h) :=
  [CommandParam h null null size buffer; CommandParam h null null null null;
   CommandParam h null null null null; CommandParam h null null null null].

(** A buffer of eight bytes passes the check; without a pointer to it, it passes, too,
    and the copy is undefined. *)
Lemma sgx_ecall_safe_witness :
  let run size buffer := @ecall_TA_InvokeCommandEntryPoint demo_host always_malloc (script_qcbor []) empty_encoder
    toy_crypto PLAT_SGX (fun _ => 0) enough_fuel 8%nat blank_client 99 demo_types
    (demo_pointers demo_host NoPointer size buffer) in
  (∃ w a r, run SizePointer BufferPointer = Done (w, a, r) ∧ client_safe [] a) ∧
  run SizePointer NoPointer = Ub.
Proof.
  cbv zeta. split; [|by lazy].
  pose proof (@sgx_ecall_safe demo_host demo_host_stable always_malloc toy_crypto toy_laws (script_qcbor [])
    (script_laws []) empty_encoder empty_encoder_laws PLAT_SGX (fun _ => 0) enough_fuel (fun _ _ => eq_refl)
    enough_fuel_ok [] 8%nat blank_client 99 demo_types
    (demo_pointers demo_host NoPointer SizePointer BufferPointer) blank_client_safe I eq_refl
    ltac:(intros ? ?; exact I)) as Hsafe.
  destruct (ecall_TA_InvokeCommandEntryPoint _ _ _ _ _ _ _ _) as [| |[[w a] r]]; [|done|].
  - exfalso. apply Hsafe. repeat constructor; try done; by left.
  - exists w, a, r. split; [done|]. apply Hsafe.
Defined.

(** ** A host that does not keep still *)

(** The size is 8 when it is read first, and 100 after that. *)
Definition racing_host : host_memory := {|
  hm := bool;
  hptr := demo_pointer;
  hm_null ptr := match ptr with NoPointer => true | _ => false end;
  sgx_is_outside_enclave _ n := n <=? 8;
  hm_load w ptr _ := Done (true, if w : bool then 100 else 8);
  hm_store w ptr _ v := Done w;
  hm_read w ptr n := if n <=? 8 then Done (w, replicate (Z.to_nat n) x61) else Ub;
  hm_write w ptr bytes := if Z.of_nat (length bytes) <=? 8 then Done w else Ub
|}.

(** The check passes, and the copy reads past the buffer that was checked, for
    every agent and command. *)
Lemma size_changed_after_check `{allocator, qcbor, qcbor_encoder, crypto_api} plat slot_addr fuel a cmd :
  @ecall_TA_InvokeCommandEntryPoint racing_host _ _ _ _ plat slot_addr fuel false a cmd demo_types
    (demo_pointers racing_host NoPointer SizePointer BufferPointer) = Ub.
Proof.
  unfold ecall_TA_InvokeCommandEntryPoint.
  change (check_params (Hhm := racing_host) false demo_types 0
    (demo_pointers racing_host NoPointer SizePointer BufferPointer)) with (@Done (bool * bool) (true, true)).
  cbn [mbind outcome_bind negb]. unfold demo_pointers. cbn [in_params].
  change (TEE_PARAM_TYPE_GET demo_types 0) with TEE_PARAM_TYPE_MEMREF_INPUT.
  unfold in_param. cbn -[filled_block malloc]. unfold filled_block. destruct (malloc _ _) as [h' [q|]]; reflexivity.
Qed.
