(* ===== verification/Clients.v ===== *)
(** * Clients: the broker on Keystone and on SGX

    The client libraries of both builds keep the contract of [client_api], so that
    what BrokerTheorems shows about the broker holds in every build. *)

From S2P Require Import Prelude Tcbor TcborFacts SuitTypes SuitParser SuitParserFacts.
From S2P Require Import SuitAuth SuitAuthFacts SuitContext SuitContextFacts.
From S2P Require Import SuitRunner SuitRunnerFacts SuitRunnerTheorems.
From S2P Require Import TeepMessage TeepMessageFacts TeepMessageTheorems TeepEncoder.
From S2P Require Import Tools Agent AgentFacts AgentTaskTheorems AgentSafety AgentCommands SuitTheorems.
From S2P Require Import TeeClient TeeClientFacts TeeClientTheorems AgentCall ClientLaws.
From S2P Require Import Broker BrokerFacts BrokerTheorems Keystone KeystoneFacts KeystoneTheorems Sgx SgxFacts SgxTheorems.

Local Open Scope Z_scope.

Section builds.
Context `{Hal : allocator, Hcr : crypto_api, !crypto_laws, Hqc : qcbor, !qcbor_laws}.
Context `{Hqe : qcbor_encoder, !qcbor_encoder_laws}.
Variable sizeof_buf : Z.
Variable junk : byte.
Variable p : platform.
Variable slot_addr : target_slot → Z.
Variable fuel : nat.
Hypothesis Hmem : ∀ n z, malloc_succeeds n z = true.
Hypothesis Hfuel : runner_fuel < Z.of_nat fuel.
Hypothesis Hbuf : 0 < sizeof_buf.

Lemma broker_not_exit cmd : cmd ∈ broker_commands → cmd ≠ TEEP_AGENT_TA_EXIT.
Proof. intros Hc ->. by apply (bool_decide_pack _) in Hc. Qed.

Lemma keystone_client_laws :
  client_laws (Hcl := keystone_client sizeof_buf junk p slot_addr fuel) p slot_addr fuel.
Proof.
  split.
  - intros frame size garbage [q a] Hg Hst.
    cbn [agent_of tc_OpenSession keystone_client client_state snd] in *. unfold keystone_OpenSession, eapp_open.
    cbn [wp fst snd]. destruct (new_session Hmem frame size garbage _ Hg Hst) as (h&b&->&Hi).
    split; [done|]. by exists b.
  - intros frame [q a] s Hs. cbn [agent_of tc_CloseSession keystone_client client_state fst snd] in *.
    unfold keystone_CloseSession, eapp_close. cbn [put_invoke_command mbind outcome_bind fst snd].
    unfold put_invoke_command_result. cbn [q_operation q_caller q_command ic_paramTypes Z.eqb mbind outcome_bind].
    destruct (wp_elim _ _ (session_given_back _ _ _ Hs)) as (h&->&Hacc). exact Hacc.
  - intros frame [q a] s cmd op Hs Hcmd Hok Hk Hready.
    cbn [agent_of tc_InvokeCommand keystone_client client_state fst snd] in *.
    destruct (invoke_by_calls p slot_addr fuel Hmem Hfuel frame a s cmd op (fun a' op' r => ∃ q',
      keystone_InvokeCommand sizeof_buf junk p slot_addr fuel (q, a) cmd op = Done ((q', a'), op', r)) Hs Hok Hready)
      as (a'&op'&r&Hp&q'&->); [|exact Hp].
    intros h bs block s1 g s' outs h' r Hcall. exists (answered cmd op (returned_op op outs) r).
    assert (client_safe frame a) as Ha by (destruct Hs as (?&?&?); by do 2 eexists).
    assert (call_ok slot_addr fuel a cmd op) as Hcok.
    { split; [by apply broker_not_exit|]. split; [done|]. split; [done|]. unfold client_ready.
      by destruct Hs as (?&->&_). }
    pose proof (call_spec sizeof_buf junk p slot_addr fuel Hmem Hfuel Hbuf frame a cmd op Ha Hcok) as Hspec.
    rewrite (call_run_done _ _ _ _ _ _ _ _ _ _ _ _ _ _ _ _ Hcall) in Hspec. destruct Hspec as (_&_&Hrun&_).
    unfold keystone_InvokeCommand. cbn [fst snd]. rewrite put_command by done. cbn [mbind outcome_bind].
    by rewrite Hrun.
Qed.

Lemma sgx_client_laws : client_laws (Hcl := sgx_client p slot_addr fuel) p slot_addr fuel.
Proof.
  split.
  - intros frame size garbage a Hg Hst. cbn [agent_of tc_OpenSession sgx_client client_state] in *.
    unfold sgx_OpenSession, ecall_TA_OpenSessionEntryPoint. cbn [wp fst].
    destruct (new_session Hmem frame size garbage _ Hg Hst) as (h&b&->&Hi). split; [done|]. by exists b.
  - intros frame a s Hs. apply wp_bind. eapply wp_mono; [by eapply session_given_back|]. done.
  - intros frame a s cmd op Hs Hcmd Hok Hk Hready.
    cbn [agent_of tc_InvokeCommand sgx_client client_state] in *.
    destruct (invoke_by_calls p slot_addr fuel Hmem Hfuel frame a s cmd op (fun a' op' r =>
      sgx_InvokeCommand p slot_addr fuel a cmd op = Done (a', op', r)) Hs Hok Hready)
      as (a'&op'&r&Hp&->); [|exact Hp].
    intros. by eapply sgx_call.
Qed.
End builds.

(** ** A complete exchange in each build

    The TAM of BrokerTheorems has nothing to say: one message, then the end. *)

#[local] Existing Instances always_malloc empty_encoder toy_crypto quiet_qcbor quiet_http.

Definition blank_agent : tee_client := Client initial_globals None.

Definition exchange (c : client_api) (c0 : client_state) : option (list request * Z) :=
  match broker_main 8192 blank_session blank_task 3 [x74] [] (initial_ctx c0 tt) with
  | Done (ctx, ret) => Some (requests_made ctx, ret)
  | _ => None
  end.

Lemma same_exchange fuel :
  let requests := Some ([Post [x74] []], 0) in
  exchange (pc_client PLAT_PC (fun _ => 0) fuel) blank_agent = requests ∧
  exchange (keystone_client 256 x00 PLAT_KEYSTONE (fun _ => 0) fuel) (empty_queue, blank_agent) = requests ∧
  exchange (sgx_client PLAT_SGX (fun _ => 0) fuel) blank_agent = requests.
Proof. split_and!; vm_compute; reflexivity. Qed.
